(* ===== verification/_CoqProject ===== *)
-Q . S2P
Prelude.v
Ordered.v
OcallError.v
ArgsStack.v
Ocall.v
OcallDef.v
Meter.v
Resource.v
Tls.v
HostTasks.v
GuestTasks.v
Join.v
Blobs.v
VmContext.v
VmFacts.v
OcallMacro.v
Linker.v
GuestLib.v
GuestHyper.v
LinearMemory.v
SniAgent.v
SniListener.v
ModuleLoader.v
Run.v
TcpAcl.v
Connect.v
Service.v
Reports.v
Worker.v
WorkerFacts.v
Launch.v
Runner.v
QuerySignature.v
Types.v
Prices.v
AppRuntime.v
Signing.v
Bench.v
Rpc.v
Crypto.v
KeyStore.v
WebApi.v
RpcServer.v
HttpStream.v
WebServer.v
RpcClient.v
Downloader.v
ChainClient.v
Bridge.v
BridgeFacts.v
BridgeWorker.v
Monitor.v
Deploy.v
Pherry.v
