(* ===== verification/Prelude.v ===== *)
(** * Wapo: a verification development

    Wapo runs WebAssembly apps on workers.  A guest (the crate wapo-env inside the
    app) talks to its host through ocalls: numbered functions whose arguments
    travel in four 32-bit words and whose result comes back in one 64-bit word, or
    is fetched by a second call.  The host (wapo-host) keeps the state of one
    instance in a [WapoCtx]: a table of resources, a meter, the queues of ready
    tasks and wakers, a blob store.  A service starts, restarts and stops
    instances, loading their code through a compiling cache; a worker (wapod) keeps
    the registry of apps and instances, and is driven by remote calls and signed
    queries.  A bridge (wapod-pherry) watches a chain for tickets, downloads the
    apps they name and keeps the best paid of them deployed on a worker.

    The files, in dependency order, with what they model under src/:

    - Prelude: results, the state-and-error monad [M] (the state reached before an
      early return is kept), machine integers with their casts, ordered maps, sums over maps, the
      hint database [wapo] and the tactics [preserve], [m_unfold], [prop_bools].
    - Ordered: sorting, ordered sets and maps with ordered iteration.
    - OcallError, ArgsStack (wapo-env/src/lib.rs, args_stack.rs): error codes, the
      conversions of scalars, the argument stack, the packed return value.
    - Ocall (wapo-macro/src/macro_ocall.rs): the host dispatcher and the guest stubs
      that the [ocall] attribute generates, as functions of the list of methods;
      guest memory and the host environment are classes with laws.
    - OcallDef (wapo-env/src/ocall_def.rs): the 36 ocalls, as a class of operations
      and as the list the macro sees.
    - Meter (runtime/metrics.rs, run.rs): counters, their sums, fuel and gas.
    - Resource (runtime/resource.rs): the resource table and every poll operation;
      tokio is the class [Tokio] over an outside world.
    - Tls (runtime/tls.rs): TLS streams through handshake, streaming and closing, and
      the loading of certificates and keys; rustls is a class.
    - HostTasks, GuestTasks (runtime/async_context.rs, vm_context.rs; wapo-env/src/tasks.rs):
      ready queues and wakers on the host, task and waker slots and [wapo_poll] in
      the guest, and the protocol between them as a step relation.
    - Join (wapo-env/src/tasks.rs): spawned tasks and their join handles.
    - Blobs (runtime/blobs.rs): content-addressed objects and raw files behind a
      cache, over a file system with a schedule of faults.
    - VmContext, VmFacts (runtime/vm_context.rs): the context of an instance, the
      implementation of every ocall, and the entry points for queries and HTTP.
    - OcallMacro (wapo-macro/src/macro_ocall.rs): what the [ocall] attribute reads from a
      trait and its expansion, on the text of the program's trait; what it accepts and
      makes is also specified apart from its passes ([accepted]).
    - Linker (runtime/vm_context.rs): the imports of a guest and the count of contexts.
    - GuestLib (crate wapo: net.rs, channel.rs, time.rs, res_id.rs): the futures apps
      await, as actions on the guest's wakers and the host's context.
    - GuestHyper (crate wapo: hyper_rt.rs, net.rs): adapters between hyper and tokio on
      the memory of their buffers, connectors and timers.
    - LinearMemory (linear_memory.rs): the pool of guest memories.
    - SniAgent (sni-tls-listener/src/listener.rs, agent.rs): the listener by server name,
      agents, their queues and forwarding tasks.
    - SniListener (sni-tls-listener/src/listener.rs): accepting sockets, handshakes with the
      key of the name asked for, certificates; interleaved with SniAgent.
    - ModuleLoader (module_loader.rs): cache, queue and compiler threads; one event
      is one critical section, so interleavings are event sequences.
    - Run (run.rs): engine set-up, the start of an instance and the poll of its run;
      wasmtime and the scheduler are classes, a call of the guest is a list of
      pieces between epoch deadlines.
    - TcpAcl (wapod/src/tcp_acl.rs): the list of blocked hosts and networks.
    - Connect (runtime/vm_context.rs): the task that opens a connection, through a proxy
      or to the addresses of a name.
    - Service (service.rs): the task of one instance as a step function on timed
      events.
    - Reports (service.rs): the tasks that report the ends of instances, the loop that
      passes the reports on, their channel with its queue of senders, and handles with
      their stop signal.
    - Worker, WorkerFacts (wapod/src/state.rs, wapod-types/src/session.rs): apps,
      instances, queries, sessions and locks; the operations are the sections that
      hold the worker's mutex, and [worker_step] interleaves them.
    - Launch (wapod/src/bin, state.rs, config.rs, allocator.rs; service.rs): from the command
      line to a running worker, its report, and the filter of sanitized logs.
    - Runner (wapo-run/src/main.rs): the stand-alone runner of one program.
    - QuerySignature (wapod-crypto/src/query_signature.rs, eip712.rs): signed queries.
    - Types (wapod-types): content types of signed messages, bounded vectors and
      strings, metrics reports.
    - Prices (wapod-types/src/ticket.rs): costs and the merging of prices.
    - AppRuntime (wapod/src/state.rs, sgx.rs): what a worker provides to its
      instances, an instance of the class [RuntimeCalls] of VmContext.
    - Signing (prpc_service.rs; wapod-types/src/worker.rs, bench_app.rs): what the worker
      signs for its operator and how it is verified.
    - Bench (examples/benchmark/src/query.rs, bench.rs, httptime/src/lib.rs): the app whose signed
      scores go to the chain; clocks are compared in IEEE binary64.
    - Rpc (wapod/src/prpc_service.rs): the remote calls, composed from the worker's
      operations.
    - Crypto (wapod-crypto/src/aead.rs, ecdh.rs): encrypted messages and queries.
    - KeyStore (wapod-crypto/src/sr25519.rs, wapod/src/config.rs): key pairs and the file of
      the worker's key.
    - WebApi (prpc_service.rs, bin/web_api, rocket_stream.rs): the handling of a
      remote call, the administrative routes, heads of requests and responses.
    - RpcServer (prpc_service.rs, bin/web_api, wapod-rpc/src/prpc.rs): every remote method
      on the state of the process, the two servers that dispatch to them, and the
      process as a step function on requests and ends of instances; the abstract
      process [Serving] has the worker's steps behind each request.
    - HttpStream (rocket_stream.rs, vm_context.rs): the exchange of an HTTP request with a
      guest over pipes of 1024 bytes, the two sides polled in any order, and upgraded
      connections; tokio's duplex stream is the class [Pipe] with laws.
    - WebServer (bin/web_api/mod.rs, bin/wapod.rs): routes with ranks and guards, the
      redirect, response signatures, server configuration, the end of the process.
    - RpcClient (wapod-pherry/src/rpc_client.rs): the bridge's client of a worker, and
      a call from end to end.
    - Downloader (wapod-pherry/src/ipfs_downloader.rs): the download queue, calls and
      tasks interleaved, with writes that may be done after a file has its name.
    - ChainClient (chain_state.rs, chain_client.rs; crate phaxt): the state read from
      the chain, nonces and the submission of transactions.
    - Monitor (chain_state.rs): the supervised subscription to blocks, with its timeouts
      and the channel to the bridge.
    - Bridge, BridgeFacts, BridgeWorker (bridge.rs, register.rs): the loop of the
      bridge against the interfaces [WorkerApi] and [ChainStore]; the worker of Worker
      and Rpc implements the former.
    - Deploy (wapod-pherry/src/deploy.rs): the builder of apps, and rounds of the bridge
      and the downloader that fetch what it built.
    - Pherry (wapod-pherry/src/main.rs, endpoints.rs, register.rs; crate phaxt): the commands,
      encoded calls and signers, and the endpoint update.

    What the theorems show:

    - calls: a guest's call through stub and dispatcher returns what the host
      function returns ([fast_call_transparent], [slow_call_transparent]); the
      argument stack round-trips; the macro accepts exactly the traits of its
      specification, and turns the text of the program's into the table these
      theorems are about ([ocall_macro_expands]); a
      64-bit argument does not survive its decoder, so tips are lost
      ([guest_tip_not_counted]);
    - the instance: any sequence of ocalls keeps the context well-formed
      ([ocalls_keep_context]); the resource table refines a finite map; retry
      loops end with their last attempt and meter its traffic; network guards hold; oneshot senders are used once; pushed
      requests register what they announce or nothing; boot data round-trips up to
      its real limit;
    - tasks: every waker message reaches the waker it was made for, spawned tasks
      start, ready tasks are polled in order;
    - storage: uploads are stored under their digest, reads return only matching
      data, the cache is transparent for one loader and stale between two;
    - listening: a server name belongs to one agent at a time
      ([sni_name_exclusive]), and every instance has its own; a guest receives only
      connections to its own name, made with a key valid for it, each once
      ([sni_delivery]);
    - code and memory: every load is answered, with the right module, within a
      bounded number of steps; memories are zeroed and within limits;
    - instances: the order of statuses, the rate of restarts, that stopping is
      final, and what the time limit does not bound; every end is reported once and
      releases whoever stops the instance, in the order of the queue
      ([reports_delivered]);
    - the worker: at most [max_instances] instances in every reachable state; a
      resize has the specified result and loses no metrics, while the end of a
      query does; tokens increase; which HTTP requests can be served; which
      reports can be decoded, and that they verify ([reported_metrics_verify]);
    - serving: for whatever requests arrive, the registry makes exactly the worker's
      steps they stand for ([serving_refines_worker]), and the public server changes nothing that the operator
      set up ([user_calls_confined]); a body reaches the guest as it was sent and the
      answer the caller ([http_body_delivered]), unless both are large and the guest
      answers first ([http_exchange_stuck]); an app's URL is redirected once
      ([redirect_once]);
    - the process: instances and memory pool fit into the enclave
      ([enclave_not_exceeded]), and the key is the same for good ([key_is_stable]);
    - the guest's view: HTTP libraries read and write the socket through their adapters
      as directly ([hyper_io_transparent]); queries arrive in order and are answered once
      ([queries_delivered]); an instance does not sleep while a task is ready
      ([ready_task_polled]); a stopped instance ends ([stopped_instance_ends]);
      a TLS stream never leaves the closed state;
    - the edge: administrative calls need the token, the network list decides by
      the text of the host alone what connecting ocalls refuse ([app_network_policy]), which
      leaves names that resolve to listed addresses and IPv4-mapped addresses, signatures of an instance are bound to its app,
      encrypted queries equal plain ones, costs are exact;
    - the bridge: only authorized apps are deployed, the plan is the best one and
      applying it makes the worker run it, apart from what the worker
      refuses to deploy or fails to remove ([plan_applied], for any worker that
      keeps the interface's laws), failures do not end the loop, chain state is
      read faithfully and delivered in order by a monitor that recovers from every
      failure ([monitor_delivers]), nonces increase, downloads are bounded and reported, though not
      always written by then ([downloader_invariant]); what the builder produces the
      bridge downloads and resolves ([built_app_resolves]), and its
      calls of a worker are transparent ([rpc_transparent]); an endpoint update puts a
      verifiable call on the chain ([endpoint_update_verifies]);
    - scores: what the benchmark app publishes comes from checked rounds and verifies
      ([bench_scores_honest]);
    - signatures: root queries are accepted exactly when validly signed; the
      signature of a certificate is never used; content types separate messages;
    - bounded types keep their bound and survive the codec, but declare too small a
      maximal size ([bounded_types]).

    Bounds and fuel: integers are [Z] with the width written out where code
    truncates, wraps or saturates.  Loops over tokio are run with fuel, and
    [tcp_loops_return] shows that the number of pending driver events plus one is
    enough; all other recursion is structural.  Theorems that need a 64-bit counter
    not to wrap around say so.

    Third-party code is a parameter: tokio, the SCALE codec, digests, ciphers,
    signature schemes, the structured-data hash, wasmtime's engine, futures of the
    guest.  Where a theorem relies on it, the law is a named class or hypothesis,
    and its witness instantiates it.

    Not modelled: the insides of third-party code (wasmtime, rustls, tokio, rocket's
    routing and layered configuration, the command line parsers, the substrate client
    library), of which only what the program relies on is a parameter; message types
    generated from the protocol files and type descriptions for the chain, which are
    data; the setup of loggers; accessors and conversions that only pass a handle on;
    examples and tests. *)
From stdpp Require Export base tactics strings numbers gmap list.
Export stdpp.list_basics stdpp.list_relations stdpp.list_monad.
From stdpp Require Import options.

#[global] Open Scope Z_scope.

(** ** Results and panics *)

(** Rust's [Result<A, E>]; the error type comes first so that [result E] is a
    monad. *)
Inductive result (E A : Type) : Type :=
| Ok (a : A)
| Err (e : E).
Arguments Ok {E A} a.
Arguments Err {E A} e.

Definition is_ok {E A} (r : result E A) : bool :=
  match r with Ok _ => true | Err _ => false end.

Definition map_err {E F A} (f : E -> F) (r : result E A) : result F A :=
  match r with Ok a => Ok a | Err e => Err (f e) end.

(** [Option::ok_or]. *)
Definition ok_or {E A} (o : option A) (e : E) : result E A :=
  match o with Some a => Ok a | None => Err e end.

#[export] Instance result_ret {E} : MRet (result E) := fun _ a => Ok a.
#[export] Instance result_bind {E} : MBind (result E) :=
  fun _ _ f r => match r with Ok a => f a | Err e => Err e end.
#[export] Instance result_fmap {E} : FMap (result E) :=
  fun _ _ f r => match r with Ok a => Ok (f a) | Err e => Err e end.

(** ** Stateful code

    A method taking [&mut self] and returning [Result<A, E>]: the state reached
    before an early return is kept. *)
Definition M (S E A : Type) : Type := S -> result E A * S.

#[export] Instance M_ret {S E} : MRet (M S E) := fun _ a s => (Ok a, s).
#[export] Instance M_bind {S E} : MBind (M S E) :=
  fun _ _ f m s =>
    match m s with
    | (Ok a, s') => f a s'
    | (Err e, s') => (Err e, s')
    end.

#[export] Instance M_fmap {S E} : FMap (M S E) :=
  fun _ _ f m s =>
    match m s with
    | (Ok a, s') => (Ok (f a), s')
    | (Err e, s') => (Err e, s')
    end.

Section StateOps.
Context {S E : Type}.

Definition gets {A} (f : S -> A) : M S E A := fun s => (Ok (f s), s).
Definition modify (f : S -> S) : M S E unit := fun s => (Ok tt, f s).
Definition throw {A} (e : E) : M S E A := fun s => (Err e, s).
Definition lift {A} (r : result E A) : M S E A := fun s => (r, s).

(** Running a sub-component's method on a field. *)
Definition zoom {T A} (get : S -> T) (set : S -> T -> S) (m : M T E A) : M S E A :=
  fun s => let '(r, t) := m (get s) in (r, set s t).

(** A statement whose result is dropped, [let _ = m;]. *)
Definition ignore {A} (m : M S E A) : M S E unit := fun s => (Ok tt, (m s).2).
End StateOps.

(** A guard [if b { return Err(e) }]. *)
Definition bail_if {S E} (b : bool) (e : E) : M S E unit :=
  if b then throw e else mret tt.

(** [anyhow::Error]: a message, possibly wrapped in contexts. *)
Inductive anyhow : Type :=
| Msg (s : string)
| Ctx (s : string) (e : anyhow).

Definition context {A} (s : string) (r : result anyhow A) : result anyhow A :=
  map_err (Ctx s) r.

(** ** Machine integers *)

Inductive int_ty : Type := I8 | I16 | I32 | I64 | U8 | U16 | U32 | U64 | U128.

#[export] Instance int_ty_eq_dec : EqDecision int_ty.
Proof. solve_decision. Defined.

Definition width (t : int_ty) : Z :=
  match t with
  | I8 | U8 => 8 | I16 | U16 => 16 | I32 | U32 => 32 | I64 | U64 => 64
  | U128 => 128
  end.

Definition signed (t : int_ty) : bool :=
  match t with I8 | I16 | I32 | I64 => true | _ => false end.

Definition int_min (t : int_ty) : Z :=
  if signed t then - 2 ^ (width t - 1) else 0.
Definition int_max (t : int_ty) : Z :=
  if signed t then 2 ^ (width t - 1) - 1 else 2 ^ width t - 1.

Definition in_range (t : int_ty) (z : Z) : bool :=
  (int_min t <=? z) && (z <=? int_max t).

(** [z as t]: truncation to the width, read back as signed or unsigned. *)
Definition wrap (t : int_ty) (z : Z) : Z :=
  (z - int_min t) `mod` 2 ^ width t + int_min t.

Definition sat_add (t : int_ty) (a b : Z) : Z := Z.min (a + b) (int_max t).
Definition sat_mul (t : int_ty) (a b : Z) : Z := Z.min (a * b) (int_max t).
(** [usize::saturating_sub] *)
Definition sat_sub (a b : Z) : Z := Z.max 0 (a - b).

Definition byte_ok (b : Z) : bool := in_range U8 b.
Abbreviation bytes := (list Z).
#[global] Arguments wrap : simpl never.
#[global] Arguments in_range : simpl never.
#[global] Arguments int_min : simpl never.
#[global] Arguments int_max : simpl never.
#[global] Arguments sat_add : simpl never.
#[global] Arguments sat_mul : simpl never.
#[global] Arguments sat_sub : simpl never.
(** Width of a list as the code's [usize]. *)
Definition zlen {A} (l : list A) : Z := Z.of_nat (length l).

(** ** Ordered maps: [BTreeMap] and [BTreeSet] on stdpp's maps

    [BTreeMap<u64, V>] is [gmap Z V]; its first and last keys are computed by a
    fold. *)
Section OrderedMap.
Context {V : Type}.

Definition last_key (m : gmap Z V) : option Z :=
  map_fold (fun k _ acc => Some (match acc with Some k' => Z.max k k' | None => k end))
    None m.
Definition first_key (m : gmap Z V) : option Z :=
  map_fold (fun k _ acc => Some (match acc with Some k' => Z.min k k' | None => k end))
    None m.

(** [BTreeMap::pop_last]. *)
Definition pop_last (m : gmap Z V) : option (Z * V * gmap Z V) :=
  k ← last_key m; v ← m !! k; Some (k, v, delete k m).

(** [values().next()]. *)
Definition first_value (m : gmap Z V) : option (Z * V) :=
  k ← first_key m; v ← m !! k; Some (k, v).
End OrderedMap.

(** ** Tactics and hint databases *)

Create HintDb wapo discriminated.
#[global] Hint Constants Opaque : wapo.

(** Case analysis on the conditionals and matches of the code, keeping the
    equations, then clean-up. *)
Ltac step_match :=
  match goal with
  | H : context [match ?x with _ => _ end] |- _ => destruct x eqn:?; simplify_eq/=
  | |- context [match ?x with _ => _ end] => destruct x eqn:?; simplify_eq/=
  end.
Ltac crush := repeat (simplify_eq/= || step_match); try done.

(** Boolean comparisons to propositions. *)
Ltac prop_bools :=
  repeat match goal with
  | H : (_ && _) = true |- _ => apply andb_true_iff in H as [? ?]
  | H : (_ || _) = false |- _ => apply orb_false_iff in H as [? ?]
  | H : (_ <=? _)%Z = true |- _ => apply Z.leb_le in H
  | H : (_ <=? _)%Z = false |- _ => apply Z.leb_gt in H
  | H : (_ <? _)%Z = true |- _ => apply Z.ltb_lt in H
  | H : (_ <? _)%Z = false |- _ => apply Z.ltb_ge in H
  | H : (_ =? _)%Z = true |- _ => apply Z.eqb_eq in H
  | H : (_ =? _)%Z = false |- _ => apply Z.eqb_neq in H
  | H : (_ <=? _)%nat = true |- _ => apply Nat.leb_le in H
  | H : (_ <=? _)%nat = false |- _ => apply Nat.leb_gt in H
  | H : (_ <? _)%nat = true |- _ => apply Nat.ltb_lt in H
  | H : (_ <? _)%nat = false |- _ => apply Nat.ltb_ge in H
  | H : (_ =? _)%nat = true |- _ => apply Nat.eqb_eq in H
  | H : (_ =? _)%nat = false |- _ => apply Nat.eqb_neq in H
  | H : negb _ = true |- _ => apply negb_true_iff in H
  | H : negb _ = false |- _ => apply negb_false_iff in H
  | H : bool_decide _ = true |- _ => apply bool_decide_eq_true in H
  | H : bool_decide _ = false |- _ => apply bool_decide_eq_false in H
  end.

(** Bounds of concrete integer types as numerals, then [lia]. *)
Ltac const_of c := let v := eval vm_compute in c in change c with v in *.
Ltac const_bounds :=
  repeat match goal with
  | |- context [int_min ?t] => const_of (int_min t)
  | |- context [int_max ?t] => const_of (int_max t)
  | H : context [int_min ?t] |- _ => const_of (int_min t)
  | H : context [int_max ?t] |- _ => const_of (int_max t)
  end.

(** ** Lemmas on machine integers *)

Lemma in_range_spec t z : in_range t z = true <-> int_min t <= z <= int_max t.
Proof. unfold in_range. rewrite andb_true_iff, !Z.leb_le. done. Qed.

Lemma int_max_min t : int_max t - int_min t + 1 = 2 ^ width t.
Proof. by destruct t. Qed.

Lemma wrap_in_range t z : in_range t (wrap t z) = true.
Proof.
  apply in_range_spec. unfold wrap. pose proof (int_max_min t).
  assert (0 < 2 ^ width t) by (by destruct t).
  pose proof (Z.mod_pos_bound (z - int_min t) (2 ^ width t)). lia.
Qed.

Lemma wrap_id t z : in_range t z = true -> wrap t z = z.
Proof.
  rewrite in_range_spec. intros ?. unfold wrap. pose proof (int_max_min t).
  rewrite Z.mod_small; lia.
Qed.

(** Two casts compose when the inner type is at least as wide. *)
Lemma wrap_wrap t u z : width t <= width u -> wrap t (wrap u z) = wrap t z.
Proof.
  intros Hw. unfold wrap. f_equal.
  assert (Hd : (2 ^ width u = 2 ^ width t * 2 ^ (width u - width t))).
  { rewrite <- Z.pow_add_r; [f_equal; lia | by destruct t | lia]. }
  set (m := 2 ^ width t) in *. set (k := 2 ^ (width u - width t)) in *.
  assert (0 < m) by (by destruct t).
  assert (0 < k) by (apply Z.pow_pos_nonneg; lia).
  rewrite (Z.mod_eq (z - int_min u) (2 ^ width u)) by (rewrite Hd; lia).
  rewrite Hd.
  replace (z - int_min u - m * k * ((z - int_min u) `div` (m * k)) + int_min u - int_min t)
    with (z - int_min t + (- (k * ((z - int_min u) `div` (m * k)))) * m) by lia.
  by rewrite Z.mod_add by lia.
Qed.

(** Packing two halves of a word. *)
Lemma lor_shiftl_add a b k : 0 <= k -> 0 <= b < 2 ^ k ->
  Z.lor (Z.shiftl a k) b = a * 2 ^ k + b.
Proof.
  intros Hk Hb. rewrite <- Z.shiftl_mul_pow2 by done.
  assert (Hl : Z.land (Z.shiftl a k) b = 0).
  { apply Z.bits_inj'. intros n Hn. rewrite Z.land_spec, Z.bits_0.
    destruct (Z_lt_le_dec n k); [by rewrite Z.shiftl_spec_low by lia|].
    rewrite andb_false_iff. right. rewrite <- (Z.mod_small b (2 ^ k)) by lia.
    by apply Z.mod_pow2_bits_high. }
  by rewrite Z.add_nocarry_lxor, Z.lxor_lor by done.
Qed.

Lemma sat_add_comm t a b : sat_add t a b = sat_add t b a.
Proof. unfold sat_add. f_equal. lia. Qed.
Lemma sat_add_assoc t a b c : 0 <= a -> 0 <= c ->
  sat_add t (sat_add t a b) c = sat_add t a (sat_add t b c).
Proof. unfold sat_add. lia. Qed.
#[export] Hint Resolve wrap_in_range : wapo.


(** ** Lengths *)
Lemma zlen_nil {A} : zlen (@nil A) = 0.
Proof. done. Qed.
Lemma zlen_cons {A} (x : A) l : zlen (x :: l) = 1 + zlen l.
Proof. unfold zlen. cbn [length]. lia. Qed.
Lemma zlen_app {A} (l k : list A) : zlen (l ++ k) = zlen l + zlen k.
Proof. unfold zlen. rewrite length_app. lia. Qed.
Lemma zlen_nonneg {A} (l : list A) : 0 <= zlen l.
Proof. unfold zlen. lia. Qed.
#[global] Arguments zlen : simpl never.
Create Rewrite HintDb wapo.
#[export] Hint Rewrite @zlen_nil @zlen_cons @zlen_app : wapo.
#[export] Hint Resolve zlen_nonneg : wapo.

Ltac range_solve :=
  repeat match goal with
  | H : in_range _ _ = true |- _ => apply in_range_spec in H
  | |- in_range _ _ = true => apply in_range_spec
  end; const_bounds; lia.

(** ** Lemmas on ordered maps *)
Section OrderedMapLemmas.
Context {V : Type}.
Implicit Types m : gmap Z V.

Lemma last_key_spec m :
  match last_key m with
  | Some k => is_Some (m !! k) /\ forall j, is_Some (m !! j) -> j <= k
  | None => m = ∅
  end.
Proof.
  unfold last_key.
  apply (map_fold_weak_ind (fun acc m => match acc with
    | Some k => is_Some (m !! k) /\ forall j, is_Some (m !! j) -> j <= k
    | None => m = ∅ end)); [done|].
  intros i x m' acc Hi IH. destruct acc as [k|].
  - destruct IH as [Hk Hmax]. split.
    + destruct (Z.max_spec i k) as [[_ ->]|[_ ->]]; rewrite lookup_insert; case_decide; naive_solver.
    + intros j. rewrite lookup_insert. case_decide; [lia|]. intros Hj%Hmax. lia.
  - subst. split; [rewrite lookup_insert_eq; eauto|].
    intros j. rewrite lookup_insert. case_decide; [lia|].
    rewrite lookup_empty. by intros [??].
Qed.

Lemma first_key_spec m :
  match first_key m with
  | Some k => is_Some (m !! k) /\ forall j, is_Some (m !! j) -> k <= j
  | None => m = ∅
  end.
Proof.
  unfold first_key.
  apply (map_fold_weak_ind (fun acc m => match acc with
    | Some k => is_Some (m !! k) /\ forall j, is_Some (m !! j) -> k <= j
    | None => m = ∅ end)); [done|].
  intros i x m' acc Hi IH. destruct acc as [k|].
  - destruct IH as [Hk Hmin]. split.
    + destruct (Z.min_spec i k) as [[_ ->]|[_ ->]]; rewrite lookup_insert; case_decide; naive_solver.
    + intros j. rewrite lookup_insert. case_decide; [lia|]. intros Hj%Hmin. lia.
  - subst. split; [rewrite lookup_insert_eq; eauto|].
    intros j. rewrite lookup_insert. case_decide; [lia|].
    rewrite lookup_empty. by intros [??].
Qed.

Lemma pop_last_Some m k v m' : pop_last m = Some (k, v, m') ->
  m !! k = Some v /\ m' = delete k m /\ forall j, is_Some (m !! j) -> j <= k.
Proof.
  unfold pop_last. pose proof (last_key_spec m).
  destruct (last_key m); simpl; [|done].
  destruct (m !! z) eqn:?; simpl; [|done]. naive_solver.
Qed.

Lemma pop_last_None m : pop_last m = None <-> m = ∅.
Proof.
  unfold pop_last. pose proof (last_key_spec m) as H.
  destruct (last_key m) as [k|]; simpl; [|done].
  destruct H as [[v Hv] _]. rewrite Hv. simpl. split; [done|].
  intros ->. by rewrite lookup_empty in Hv.
Qed.

Lemma pop_last_size m k v m' : pop_last m = Some (k, v, m') -> size m = S (size m').
Proof.
  intros (Hk & -> & _)%pop_last_Some.
  rewrite <- (insert_delete_id m k v Hk) at 1.
  by rewrite map_size_insert_None by apply lookup_delete_eq.
Qed.

Lemma first_value_Some m k v : first_value m = Some (k, v) ->
  m !! k = Some v /\ forall j, is_Some (m !! j) -> k <= j.
Proof.
  unfold first_value. pose proof (first_key_spec m).
  destruct (first_key m); simpl; [|done].
  destruct (m !! z) eqn:?; simpl; [|done]. naive_solver.
Qed.

Lemma first_value_None m : first_value m = None <-> m = ∅.
Proof.
  unfold first_value. pose proof (first_key_spec m) as H.
  destruct (first_key m) as [k|]; simpl; [|done].
  destruct H as [[v Hv] _]. rewrite Hv. simpl. split; [done|].
  intros ->. by rewrite lookup_empty in Hv.
Qed.
End OrderedMapLemmas.

(** ** Sums over maps *)
Section MapSum.
Context `{Countable K} {V : Type} (f : K -> V -> nat).
Definition map_sum (m : gmap K V) : nat := map_fold (fun k v n => (f k v + n)%nat) 0%nat m.

Lemma map_sum_empty : map_sum ∅ = 0%nat.
Proof. apply map_fold_empty. Qed.
(** What a key contributes, and the rest. *)
Lemma map_sum_delete m k v : m !! k = Some v -> map_sum m = (f k v + map_sum (delete k m))%nat.
Proof. intros Hk. unfold map_sum. rewrite (map_fold_delete_L _ _ k v m); [done|intros; lia|done]. Qed.
Lemma map_sum_insert m k v : map_sum (<[k := v]> m) = (f k v + map_sum (delete k m))%nat.
Proof.
  rewrite (map_sum_delete _ k v) by apply lookup_insert_eq. by rewrite delete_insert_eq.
Qed.
Lemma map_sum_delete_le m k : (map_sum (delete k m) <= map_sum m)%nat.
Proof.
  destruct (m !! k) as [v|] eqn:Hk; [rewrite (map_sum_delete m k v) by done; lia|].
  by rewrite delete_id.
Qed.
Lemma map_sum_le m k v : m !! k = Some v -> (f k v <= map_sum m)%nat.
Proof. intros Hk. rewrite (map_sum_delete m k v) by done. lia. Qed.
End MapSum.

(** ** Invariants of stateful code

    [preserves P m]: running [m] from a state satisfying [P] ends in one, whether
    [m] succeeds or fails. *)
Definition preserves {S E A} (P : S -> Prop) (m : M S E A) : Prop :=
  forall s, P s -> P (m s).2.

Section Preserves.
Context {S E : Type} (P : S -> Prop).

Lemma preserves_bind {A B} (m : M S E A) (f : A -> M S E B) :
  preserves P m -> (forall a, preserves P (f a)) -> preserves P (m ≫= f).
Proof.
  intros Hm Hf s Hs. specialize (Hm s Hs). unfold mbind, M_bind.
  destruct (m s) as [[a|e] s']; [|done]. by apply Hf.
Qed.
Lemma preserves_fmap {A B} (f : A -> B) (m : M S E A) :
  preserves P m -> preserves P (f <$> m).
Proof.
  intros Hm s Hs. specialize (Hm s Hs). unfold fmap, M_fmap. by destruct (m s) as [[]].
Qed.
Lemma preserves_ret {A} (a : A) : preserves P (mret (M:=M S E) a).
Proof. by intros s. Qed.
Lemma preserves_throw {A} (e : E) : preserves P (throw (A:=A) e).
Proof. by intros s. Qed.
Lemma preserves_lift {A} (r : result E A) : preserves P (lift r).
Proof. by intros s. Qed.
Lemma preserves_gets {A} (f : S -> A) : preserves P (gets (E:=E) f).
Proof. by intros s. Qed.
Lemma preserves_bail_if b (e : E) : preserves P (bail_if b e).
Proof. intros s. by destruct b. Qed.
Lemma preserves_ignore {A} (m : M S E A) : preserves P m -> preserves P (ignore m).
Proof. by intros Hm s Hs; apply Hm. Qed.
Lemma preserves_zoom {T A} (get : S -> T) (set : S -> T -> S) (m : M T E A) :
  (forall s, P s -> P (set s (m (get s)).2)) -> preserves P (zoom get set m).
Proof. intros Hm s Hs. unfold zoom. specialize (Hm s Hs). by destruct (m (get s)). Qed.
Lemma preserves_modify (f : S -> S) : (forall s, P s -> P (f s)) -> preserves P (modify (E:=E) f).
Proof. intros Hf s Hs. by apply Hf. Qed.
End Preserves.

(** The value of a [bind], of use on a concrete run. *)
Lemma bind_Ok {S E A B} (m : M S E A) (f : A -> M S E B) s a s' :
  m s = (Ok a, s') -> (m ≫= f) s = f a s'.
Proof. unfold mbind, M_bind. by intros ->. Qed.
Lemma bind_Err {S E A B} (m : M S E A) (f : A -> M S E B) s e s' :
  m s = (Err e, s') -> (m ≫= f) s = (Err e, s').
Proof. unfold mbind, M_bind. by intros ->. Qed.
Lemma bind_inv {S E A B} (m : M S E A) (f : A -> M S E B) s r s' :
  (m ≫= f) s = (r, s') ->
  (exists a s1, m s = (Ok a, s1) /\ f a s1 = (r, s')) \/
  (exists e, m s = (Err e, s') /\ r = Err e).
Proof. unfold mbind, M_bind. destruct (m s) as [[a|e] s1]; naive_solver. Qed.

(** Symbolic execution of one monadic step. *)
Ltac m_unfold := unfold bail_if, mbind, M_bind, mret, M_ret, fmap, M_fmap, gets, modify, throw, lift.

#[export] Hint Resolve preserves_fmap preserves_ret preserves_throw preserves_lift
  preserves_gets preserves_bail_if preserves_ignore : wapo.
Ltac preserve_step :=
  match goal with
  | |- preserves _ (mbind _ _) => apply preserves_bind; [|intros ?]
  | |- preserves _ (fmap _ _) => apply preserves_fmap
  | |- preserves _ (match ?x with _ => _ end) => destruct x
  | |- preserves _ _ => solve [eauto with wapo]
  end.
Ltac preserve := repeat preserve_step.
