(* ===== verification/Ordered.v ===== *)
(** * Ordered collections of the standard library

    Byte strings in the order of [String] and [[u8; 32]], [BTreeSet] as a sorted
    list, iteration over a [BTreeMap] in key order, and the stable [sort_by]. *)
From S2P Require Import Prelude.
From stdpp Require Export sorting.
#[global] Open Scope Z_scope.

(** ** The order of byte strings *)
Fixpoint str_cmp (a b : bytes) : comparison :=
  match a, b with
  | [], [] => Eq
  | [], _ => Lt
  | _, [] => Gt
  | x :: a, y :: b => match x ?= y with Eq => str_cmp a b | c => c end
  end.
Definition str_leb (a b : bytes) : bool := match str_cmp a b with Gt => false | _ => true end.
Definition str_lt (a b : bytes) : Prop := str_cmp a b = Lt.

Lemma str_cmp_eq a : forall b, str_cmp a b = Eq -> a = b.
Proof.
  induction a as [|x a IH]; intros [|y b]; simpl; try done.
  destruct (x ?= y) eqn:Hx; try done. apply Z.compare_eq in Hx as ->. by intros ->%IH.
Qed.
Lemma str_cmp_refl a : str_cmp a a = Eq.
Proof. induction a; simpl; [done|]. by rewrite Z.compare_refl. Qed.
Lemma str_cmp_antisym a : forall b, str_cmp a b = CompOpp (str_cmp b a).
Proof.
  induction a as [|x a IH]; intros [|y b]; simpl; try done.
  rewrite (Z.compare_antisym y x). destruct (y ?= x); simpl; auto.
Qed.
Lemma str_lt_trans a : forall b c, str_lt a b -> str_lt b c -> str_lt a c.
Proof.
  unfold str_lt. induction a as [|x a IH]; intros [|y b] [|z c]; simpl; try done.
  destruct (Z.compare_spec x y) as [-> |Hxy|Hxy]; [|intros _|done].
  - destruct (y ?= z); eauto.
  - destruct (Z.compare_spec y z) as [-> |Hyz|Hyz]; [intros _| |done].
    + by apply Z.compare_lt_iff in Hxy as ->.
    + intros _. assert (x < z) as ->%Z.compare_lt_iff by lia. done.
Qed.
#[export] Instance str_lt_transitive : Transitive str_lt.
Proof. intros a b c. apply str_lt_trans. Qed.
#[export] Instance str_lt_irreflexive : Irreflexive str_lt.
Proof. intros a. unfold complement, str_lt. by rewrite str_cmp_refl. Qed.

Lemma str_leb_spec a b : str_leb a b = true <-> str_lt a b \/ a = b.
Proof.
  unfold str_leb, str_lt. destruct (str_cmp a b) eqn:Hc; split; try done; auto.
  - intros _. right. by apply str_cmp_eq.
  - intros [?| ->]; [done|]. by rewrite str_cmp_refl in Hc.
Qed.
Lemma str_leb_total a b : str_leb a b = true \/ str_leb b a = true.
Proof.
  unfold str_leb. rewrite (str_cmp_antisym b a). destruct (str_cmp a b); auto.
Qed.
Lemma str_leb_trans a b c : str_leb a b = true -> str_leb b c = true -> str_leb a c = true.
Proof.
  rewrite !str_leb_spec. intros [?| ->] [?| ->]; eauto using str_lt_trans.
Qed.
Lemma str_leb_antisym a b : str_leb a b = true -> str_leb b a = true -> a = b.
Proof.
  rewrite !str_leb_spec. intros [H1|?] [H2|?]; try done.
  by destruct (irreflexivity str_lt a (str_lt_trans _ _ _ H1 H2)).
Qed.

(** ** [BTreeSet<String>]: a sorted list *)
Fixpoint bset_insert (x : bytes) (s : list bytes) : list bytes :=
  match s with
  | [] => [x]
  | y :: s' =>
    match str_cmp x y with
    | Lt => x :: s
    | Eq => s
    | Gt => y :: bset_insert x s'
    end
  end.

Lemma bset_insert_perm x s : x ∉ s -> bset_insert x s ≡ₚ x :: s.
Proof.
  induction s as [|y s IH]; intros Hx; simpl; [done|].
  destruct (str_cmp x y) eqn:Hc; [|done|].
  - apply str_cmp_eq in Hc. set_solver.
  - rewrite IH by set_solver. by constructor.
Qed.
Lemma elem_of_bset_insert x y s : y ∈ bset_insert x s <-> y = x \/ y ∈ s.
Proof.
  induction s as [|z s IH]; simpl; [set_solver|].
  destruct (str_cmp x z) eqn:Hc; [apply str_cmp_eq in Hc as ->| |]; set_solver.
Qed.

(** A set is a strictly increasing list. *)
Abbreviation bset_wf := (StronglySorted str_lt).
Lemma bset_wf_NoDup s : bset_wf s -> NoDup s.
Proof.
  induction 1 as [|x s _ IH Hx]; constructor; [|done]. intros Hin.
  rewrite Forall_forall in Hx. by apply (irreflexivity str_lt x), Hx.
Qed.
Lemma bset_insert_wf x s : bset_wf s -> bset_wf (bset_insert x s).
Proof.
  induction 1 as [|y s Hs IH Hy]; simpl; [repeat constructor|].
  destruct (str_cmp x y) eqn:Hc; [by constructor| |].
  - constructor; [by constructor|]. constructor; [done|].
    eapply Forall_impl; [exact Hy|]. intros z. by apply str_lt_trans.
  - constructor; [done|]. rewrite Forall_forall in Hy |- *.
    intros z [-> |Hz]%elem_of_bset_insert; [|by apply Hy].
    unfold str_lt. by rewrite str_cmp_antisym, Hc.
Qed.

(** ** [slice::sort_by], which is stable *)
Section SortBy.
Context {A : Type} (leb : A -> A -> bool).

Fixpoint insert_by (x : A) (l : list A) : list A :=
  match l with
  | [] => [x]
  | y :: l' => if leb x y then x :: l else y :: insert_by x l'
  end.
Definition sort_by (l : list A) : list A := foldr insert_by [] l.

Lemma insert_by_perm x l : insert_by x l ≡ₚ x :: l.
Proof.
  induction l as [|y l IH]; simpl; [done|]. destruct (leb x y); [done|].
  rewrite IH. by constructor.
Qed.
Lemma sort_by_perm l : sort_by l ≡ₚ l.
Proof. induction l as [|x l IH]; simpl; [done|]. by rewrite insert_by_perm, IH. Qed.

(** Sorted, and in the original order where the comparison does not decide. *)
Context (R : A -> A -> Prop).
Definition sorted_by (x y : A) : Prop := leb x y = true /\ (leb y x = true -> R x y).
Hypothesis leb_total : forall x y, leb x y = true \/ leb y x = true.
Hypothesis leb_trans : forall x y z, leb x y = true -> leb y z = true -> leb x z = true.

Lemma insert_by_sorted x l : StronglySorted sorted_by l -> Forall (R x) l ->
  StronglySorted sorted_by (insert_by x l).
Proof.
  induction 1 as [|y l Hl IH Hy]; intros HR; simpl; [repeat constructor|].
  apply Forall_cons in HR as [HRy HRl]. destruct (leb x y) eqn:Hxy.
  - constructor; [by constructor|]. constructor; [done|].
    apply Forall_forall. intros z Hz. rewrite Forall_forall in Hy, HRl.
    destruct (Hy z Hz) as [Hyz _]. split; [by eapply leb_trans|]. intros _. by apply HRl.
  - constructor; [auto|]. rewrite insert_by_perm. constructor; [|done].
    destruct (leb_total x y) as [?|Hyx]; [congruence|]. split; [done|congruence].
Qed.
Lemma sort_by_sorted l : StronglySorted R l -> StronglySorted sorted_by (sort_by l).
Proof.
  induction 1 as [|x l Hl IH Hx]; simpl; [constructor|].
  apply insert_by_sorted; [done|]. by rewrite sort_by_perm.
Qed.
End SortBy.

(** What is in front of a sorted list is nowhere beaten by the rest. *)
Lemma sorted_take {A} (R : A -> A -> Prop) n l x y :
  StronglySorted R l -> x ∈ firstn n l -> y ∈ skipn n l -> R x y.
Proof.
  intros Hs. rewrite <- (firstn_skipn n l) in Hs. apply StronglySorted_app in Hs as [H _]. auto.
Qed.

(** ** Iteration over a [BTreeMap] *)
Section BTreeIter.
Context {K V : Type} `{Countable K} (leb : K -> K -> bool).
Implicit Types m : gmap K V.

Definition btree_iter m : list (K * V) := sort_by (fun x y => leb x.1 y.1) (map_to_list m).

Lemma elem_of_btree_iter m k v : (k, v) ∈ btree_iter m <-> m !! k = Some v.
Proof. unfold btree_iter. by rewrite sort_by_perm, elem_of_map_to_list. Qed.
Lemma elem_of_btree_keys m k : k ∈ (btree_iter m).*1 <-> k ∈ dom m.
Proof.
  rewrite elem_of_dom, list_elem_of_fmap. split.
  - intros ([k' v] & -> & Hv%elem_of_btree_iter). eauto.
  - intros [v Hv]. exists (k, v). by rewrite elem_of_btree_iter.
Qed.
Lemma btree_iter_keys_NoDup m : NoDup (btree_iter m).*1.
Proof. unfold btree_iter. rewrite sort_by_perm. apply NoDup_fst_map_to_list. Qed.
Lemma btree_iter_length m : length (btree_iter m) = size m.
Proof. unfold btree_iter. rewrite sort_by_perm. apply length_map_to_list. Qed.

Hypothesis leb_total : forall x y, leb x y = true \/ leb y x = true.
Hypothesis leb_trans : forall x y z, leb x y = true -> leb y z = true -> leb x z = true.
Lemma btree_iter_sorted m : StronglySorted (fun x y => leb x.1 y.1 = true) (btree_iter m).
Proof.
  assert (Hs : StronglySorted (sorted_by (fun x y : K * V => leb x.1 y.1) (fun _ _ => True))
    (btree_iter m)).
  { apply sort_by_sorted; [done|eauto|]. induction (map_to_list m); constructor; [done|].
    by apply Forall_true. }
  induction Hs as [|x l _ IH Hx]; constructor; [done|].
  eapply Forall_impl; [exact Hx|]. by intros ? [].
Qed.
End BTreeIter.

Abbreviation address_iter := (btree_iter str_leb).
Abbreviation id_iter := (btree_iter Z.leb).
