(* ===== verification/OcallError.v ===== *)
(** * The error codes of an ocall (wapo-env/src/lib.rs)

    [OcallError] with the discriminants of its [#[repr(u8)]] enum, the cast to
    [u8] and the derived [TryFromPrimitive].  Code 6 is the only byte with no
    variant. *)
From S2P Require Import Prelude.

(** The variant [Ok] is written [EOk] here, [Ok] being a constructor of
    [result]. *)
Inductive OcallError : Type :=
| EOk | UnknownCallNumber | InvalidAddress | InvalidParameter | InvalidEncoding
| NoMemory | NotFound | UnsupportedOperation | IoError | ResourceLimited | Pending
| EndOfFile | GasExhausted | Stifled | AlreadyExists | DataCorruption | Forbiden
| ConditionError | Reserved19 | Reserved20 | Reserved21 | Reserved22 | Reserved23
| Reserved24 | Reserved25 | Reserved26 | Reserved27 | Reserved28 | Reserved29
| Reserved30 | Reserved31 | Reserved32 | Reserved33 | Reserved34 | Reserved35
| Reserved36 | Reserved37 | Reserved38 | Reserved39 | Reserved40 | Reserved41
| Reserved42 | Reserved43 | Reserved44 | Reserved45 | Reserved46 | Reserved47
| Reserved48 | Reserved49 | Reserved50 | Reserved51 | Reserved52 | Reserved53
| Reserved54 | Reserved55 | Reserved56 | Reserved57 | Reserved58 | Reserved59
| Reserved60 | Reserved61 | Reserved62 | Reserved63 | Reserved64 | Reserved65
| Reserved66 | Reserved67 | Reserved68 | Reserved69 | Reserved70 | Reserved71
| Reserved72 | Reserved73 | Reserved74 | Reserved75 | Reserved76 | Reserved77
| Reserved78 | Reserved79 | Reserved80 | Reserved81 | Reserved82 | Reserved83
| Reserved84 | Reserved85 | Reserved86 | Reserved87 | Reserved88 | Reserved89
| Reserved90 | Reserved91 | Reserved92 | Reserved93 | Reserved94 | Reserved95
| Reserved96 | Reserved97 | Reserved98 | Reserved99 | Reserved100 | Reserved101
| Reserved102 | Reserved103 | Reserved104 | Reserved105 | Reserved106 | Reserved107
| Reserved108 | Reserved109 | Reserved110 | Reserved111 | Reserved112 | Reserved113
| Reserved114 | Reserved115 | Reserved116 | Reserved117 | Reserved118 | Reserved119
| Reserved120 | Reserved121 | Reserved122 | Reserved123 | Reserved124 | Reserved125
| Reserved126 | Reserved127 | Reserved128 | Reserved129 | Reserved130 | Reserved131
| Reserved132 | Reserved133 | Reserved134 | Reserved135 | Reserved136 | Reserved137
| Reserved138 | Reserved139 | Reserved140 | Reserved141 | Reserved142 | Reserved143
| Reserved144 | Reserved145 | Reserved146 | Reserved147 | Reserved148 | Reserved149
| Reserved150 | Reserved151 | Reserved152 | Reserved153 | Reserved154 | Reserved155
| Reserved156 | Reserved157 | Reserved158 | Reserved159 | Reserved160 | Reserved161
| Reserved162 | Reserved163 | Reserved164 | Reserved165 | Reserved166 | Reserved167
| Reserved168 | Reserved169 | Reserved170 | Reserved171 | Reserved172 | Reserved173
| Reserved174 | Reserved175 | Reserved176 | Reserved177 | Reserved178 | Reserved179
| Reserved180 | Reserved181 | Reserved182 | Reserved183 | Reserved184 | Reserved185
| Reserved186 | Reserved187 | Reserved188 | Reserved189 | Reserved190 | Reserved191
| Reserved192 | Reserved193 | Reserved194 | Reserved195 | Reserved196 | Reserved197
| Reserved198 | Reserved199 | Reserved200 | Reserved201 | Reserved202 | Reserved203
| Reserved204 | Reserved205 | Reserved206 | Reserved207 | Reserved208 | Reserved209
| Reserved210 | Reserved211 | Reserved212 | Reserved213 | Reserved214 | Reserved215
| Reserved216 | Reserved217 | Reserved218 | Reserved219 | Reserved220 | Reserved221
| Reserved222 | Reserved223 | Reserved224 | Reserved225 | Reserved226 | Reserved227
| Reserved228 | Reserved229 | Reserved230 | Reserved231 | Reserved232 | Reserved233
| Reserved234 | Reserved235 | Reserved236 | Reserved237 | Reserved238 | Reserved239
| Reserved240 | Reserved241 | Reserved242 | Reserved243 | Reserved244 | Reserved245
| Reserved246 | Reserved247 | Reserved248 | Reserved249 | Reserved250 | Reserved251
| Reserved252 | Reserved253 | Reserved254 | Reserved255.

(** The discriminant, [self as u8]. *)
Definition OcallError_code (e : OcallError) : Z :=
  match e with
  | EOk => 0 | UnknownCallNumber => 1 | InvalidAddress => 2 | InvalidParameter => 3
  | InvalidEncoding => 4 | NoMemory => 5 | NotFound => 7 | UnsupportedOperation => 8
  | IoError => 9 | ResourceLimited => 10 | Pending => 11 | EndOfFile => 12
  | GasExhausted => 13 | Stifled => 14 | AlreadyExists => 15 | DataCorruption => 16
  | Forbiden => 17 | ConditionError => 18 | Reserved19 => 19 | Reserved20 => 20
  | Reserved21 => 21 | Reserved22 => 22 | Reserved23 => 23 | Reserved24 => 24
  | Reserved25 => 25 | Reserved26 => 26 | Reserved27 => 27 | Reserved28 => 28
  | Reserved29 => 29 | Reserved30 => 30 | Reserved31 => 31 | Reserved32 => 32
  | Reserved33 => 33 | Reserved34 => 34 | Reserved35 => 35 | Reserved36 => 36
  | Reserved37 => 37 | Reserved38 => 38 | Reserved39 => 39 | Reserved40 => 40
  | Reserved41 => 41 | Reserved42 => 42 | Reserved43 => 43 | Reserved44 => 44
  | Reserved45 => 45 | Reserved46 => 46 | Reserved47 => 47 | Reserved48 => 48
  | Reserved49 => 49 | Reserved50 => 50 | Reserved51 => 51 | Reserved52 => 52
  | Reserved53 => 53 | Reserved54 => 54 | Reserved55 => 55 | Reserved56 => 56
  | Reserved57 => 57 | Reserved58 => 58 | Reserved59 => 59 | Reserved60 => 60
  | Reserved61 => 61 | Reserved62 => 62 | Reserved63 => 63 | Reserved64 => 64
  | Reserved65 => 65 | Reserved66 => 66 | Reserved67 => 67 | Reserved68 => 68
  | Reserved69 => 69 | Reserved70 => 70 | Reserved71 => 71 | Reserved72 => 72
  | Reserved73 => 73 | Reserved74 => 74 | Reserved75 => 75 | Reserved76 => 76
  | Reserved77 => 77 | Reserved78 => 78 | Reserved79 => 79 | Reserved80 => 80
  | Reserved81 => 81 | Reserved82 => 82 | Reserved83 => 83 | Reserved84 => 84
  | Reserved85 => 85 | Reserved86 => 86 | Reserved87 => 87 | Reserved88 => 88
  | Reserved89 => 89 | Reserved90 => 90 | Reserved91 => 91 | Reserved92 => 92
  | Reserved93 => 93 | Reserved94 => 94 | Reserved95 => 95 | Reserved96 => 96
  | Reserved97 => 97 | Reserved98 => 98 | Reserved99 => 99 | Reserved100 => 100
  | Reserved101 => 101 | Reserved102 => 102 | Reserved103 => 103 | Reserved104 => 104
  | Reserved105 => 105 | Reserved106 => 106 | Reserved107 => 107 | Reserved108 => 108
  | Reserved109 => 109 | Reserved110 => 110 | Reserved111 => 111 | Reserved112 => 112
  | Reserved113 => 113 | Reserved114 => 114 | Reserved115 => 115 | Reserved116 => 116
  | Reserved117 => 117 | Reserved118 => 118 | Reserved119 => 119 | Reserved120 => 120
  | Reserved121 => 121 | Reserved122 => 122 | Reserved123 => 123 | Reserved124 => 124
  | Reserved125 => 125 | Reserved126 => 126 | Reserved127 => 127 | Reserved128 => 128
  | Reserved129 => 129 | Reserved130 => 130 | Reserved131 => 131 | Reserved132 => 132
  | Reserved133 => 133 | Reserved134 => 134 | Reserved135 => 135 | Reserved136 => 136
  | Reserved137 => 137 | Reserved138 => 138 | Reserved139 => 139 | Reserved140 => 140
  | Reserved141 => 141 | Reserved142 => 142 | Reserved143 => 143 | Reserved144 => 144
  | Reserved145 => 145 | Reserved146 => 146 | Reserved147 => 147 | Reserved148 => 148
  | Reserved149 => 149 | Reserved150 => 150 | Reserved151 => 151 | Reserved152 => 152
  | Reserved153 => 153 | Reserved154 => 154 | Reserved155 => 155 | Reserved156 => 156
  | Reserved157 => 157 | Reserved158 => 158 | Reserved159 => 159 | Reserved160 => 160
  | Reserved161 => 161 | Reserved162 => 162 | Reserved163 => 163 | Reserved164 => 164
  | Reserved165 => 165 | Reserved166 => 166 | Reserved167 => 167 | Reserved168 => 168
  | Reserved169 => 169 | Reserved170 => 170 | Reserved171 => 171 | Reserved172 => 172
  | Reserved173 => 173 | Reserved174 => 174 | Reserved175 => 175 | Reserved176 => 176
  | Reserved177 => 177 | Reserved178 => 178 | Reserved179 => 179 | Reserved180 => 180
  | Reserved181 => 181 | Reserved182 => 182 | Reserved183 => 183 | Reserved184 => 184
  | Reserved185 => 185 | Reserved186 => 186 | Reserved187 => 187 | Reserved188 => 188
  | Reserved189 => 189 | Reserved190 => 190 | Reserved191 => 191 | Reserved192 => 192
  | Reserved193 => 193 | Reserved194 => 194 | Reserved195 => 195 | Reserved196 => 196
  | Reserved197 => 197 | Reserved198 => 198 | Reserved199 => 199 | Reserved200 => 200
  | Reserved201 => 201 | Reserved202 => 202 | Reserved203 => 203 | Reserved204 => 204
  | Reserved205 => 205 | Reserved206 => 206 | Reserved207 => 207 | Reserved208 => 208
  | Reserved209 => 209 | Reserved210 => 210 | Reserved211 => 211 | Reserved212 => 212
  | Reserved213 => 213 | Reserved214 => 214 | Reserved215 => 215 | Reserved216 => 216
  | Reserved217 => 217 | Reserved218 => 218 | Reserved219 => 219 | Reserved220 => 220
  | Reserved221 => 221 | Reserved222 => 222 | Reserved223 => 223 | Reserved224 => 224
  | Reserved225 => 225 | Reserved226 => 226 | Reserved227 => 227 | Reserved228 => 228
  | Reserved229 => 229 | Reserved230 => 230 | Reserved231 => 231 | Reserved232 => 232
  | Reserved233 => 233 | Reserved234 => 234 | Reserved235 => 235 | Reserved236 => 236
  | Reserved237 => 237 | Reserved238 => 238 | Reserved239 => 239 | Reserved240 => 240
  | Reserved241 => 241 | Reserved242 => 242 | Reserved243 => 243 | Reserved244 => 244
  | Reserved245 => 245 | Reserved246 => 246 | Reserved247 => 247 | Reserved248 => 248
  | Reserved249 => 249 | Reserved250 => 250 | Reserved251 => 251 | Reserved252 => 252
  | Reserved253 => 253 | Reserved254 => 254 | Reserved255 => 255
  end.

Definition OcallError_all : list OcallError :=
  [ EOk; UnknownCallNumber; InvalidAddress; InvalidParameter; InvalidEncoding;
    NoMemory; NotFound; UnsupportedOperation; IoError; ResourceLimited; Pending;
    EndOfFile; GasExhausted; Stifled; AlreadyExists; DataCorruption; Forbiden;
    ConditionError; Reserved19; Reserved20; Reserved21; Reserved22; Reserved23;
    Reserved24; Reserved25; Reserved26; Reserved27; Reserved28; Reserved29; Reserved30;
    Reserved31; Reserved32; Reserved33; Reserved34; Reserved35; Reserved36; Reserved37;
    Reserved38; Reserved39; Reserved40; Reserved41; Reserved42; Reserved43; Reserved44;
    Reserved45; Reserved46; Reserved47; Reserved48; Reserved49; Reserved50; Reserved51;
    Reserved52; Reserved53; Reserved54; Reserved55; Reserved56; Reserved57; Reserved58;
    Reserved59; Reserved60; Reserved61; Reserved62; Reserved63; Reserved64; Reserved65;
    Reserved66; Reserved67; Reserved68; Reserved69; Reserved70; Reserved71; Reserved72;
    Reserved73; Reserved74; Reserved75; Reserved76; Reserved77; Reserved78; Reserved79;
    Reserved80; Reserved81; Reserved82; Reserved83; Reserved84; Reserved85; Reserved86;
    Reserved87; Reserved88; Reserved89; Reserved90; Reserved91; Reserved92; Reserved93;
    Reserved94; Reserved95; Reserved96; Reserved97; Reserved98; Reserved99;
    Reserved100; Reserved101; Reserved102; Reserved103; Reserved104; Reserved105;
    Reserved106; Reserved107; Reserved108; Reserved109; Reserved110; Reserved111;
    Reserved112; Reserved113; Reserved114; Reserved115; Reserved116; Reserved117;
    Reserved118; Reserved119; Reserved120; Reserved121; Reserved122; Reserved123;
    Reserved124; Reserved125; Reserved126; Reserved127; Reserved128; Reserved129;
    Reserved130; Reserved131; Reserved132; Reserved133; Reserved134; Reserved135;
    Reserved136; Reserved137; Reserved138; Reserved139; Reserved140; Reserved141;
    Reserved142; Reserved143; Reserved144; Reserved145; Reserved146; Reserved147;
    Reserved148; Reserved149; Reserved150; Reserved151; Reserved152; Reserved153;
    Reserved154; Reserved155; Reserved156; Reserved157; Reserved158; Reserved159;
    Reserved160; Reserved161; Reserved162; Reserved163; Reserved164; Reserved165;
    Reserved166; Reserved167; Reserved168; Reserved169; Reserved170; Reserved171;
    Reserved172; Reserved173; Reserved174; Reserved175; Reserved176; Reserved177;
    Reserved178; Reserved179; Reserved180; Reserved181; Reserved182; Reserved183;
    Reserved184; Reserved185; Reserved186; Reserved187; Reserved188; Reserved189;
    Reserved190; Reserved191; Reserved192; Reserved193; Reserved194; Reserved195;
    Reserved196; Reserved197; Reserved198; Reserved199; Reserved200; Reserved201;
    Reserved202; Reserved203; Reserved204; Reserved205; Reserved206; Reserved207;
    Reserved208; Reserved209; Reserved210; Reserved211; Reserved212; Reserved213;
    Reserved214; Reserved215; Reserved216; Reserved217; Reserved218; Reserved219;
    Reserved220; Reserved221; Reserved222; Reserved223; Reserved224; Reserved225;
    Reserved226; Reserved227; Reserved228; Reserved229; Reserved230; Reserved231;
    Reserved232; Reserved233; Reserved234; Reserved235; Reserved236; Reserved237;
    Reserved238; Reserved239; Reserved240; Reserved241; Reserved242; Reserved243;
    Reserved244; Reserved245; Reserved246; Reserved247; Reserved248; Reserved249;
    Reserved250; Reserved251; Reserved252; Reserved253; Reserved254; Reserved255 ].

(** [TryFromPrimitive::try_from]. *)
Definition OcallError_try_from (code : Z) : option OcallError :=
  snd <$> list_find (fun e => OcallError_code e = code) OcallError_all.

Lemma OcallError_code_range e : in_range U8 (OcallError_code e) = true.
Proof. by destruct e. Qed.

Lemma OcallError_try_from_code e : OcallError_try_from (OcallError_code e) = Some e.
Proof. destruct e; vm_compute; reflexivity. Qed.

(** Distinct variants have distinct codes, which decides equality. *)
#[export] Instance OcallError_eq_dec : EqDecision OcallError.
Proof.
  refine (fun a b => cast_if (decide (OcallError_code a = OcallError_code b))).
  - abstract (apply (inj Some); by rewrite <- !OcallError_try_from_code, e).
  - abstract congruence.
Defined.

Lemma OcallError_try_from_Some c e :
  OcallError_try_from c = Some e -> OcallError_code e = c.
Proof.
  unfold OcallError_try_from. intros (i & Hi)%fmap_Some.
  destruct i as [i e']. destruct Hi as [(_ & ? & _)%list_find_Some ->]. done.
Qed.

#[export] Hint Resolve OcallError_code_range : wapo.
