(* ===== verification/ArgsStack.v ===== *)
(** * The ocall calling convention (wapo-env/src/args_stack.rs)

    Conversions of scalar types to [i32], the argument stack that guest and host
    fill and empty, argument encoders and decoders, and the packed 64-bit return
    value. *)
From S2P Require Import Prelude OcallError.

Definition OCALL_N_ARGS : nat := 4.

(** A value of one of the machine integer types. *)
Record int (t : int_ty) : Type := Int { int_val : Z }.
Arguments Int {t} int_val.
Arguments int_val {t} _.

(** [log::Level]. *)
Inductive Level : Type := LError | LWarn | LInfo | LDebug | LTrace.

(** ** [I32Convertible] *)

Class I32Convertible (T : Type) := {
  to_i32 : T -> Z;
  from_i32 : Z -> result OcallError T
}.

(** What an implementation owes its callers: [to_i32] lands in [i32], and
    [from_i32] reads back every well-formed value. *)
Class I32Lawful (T : Type) `{I32Convertible T} := {
  i32_wf : T -> Prop;
  to_i32_range : forall v, i32_wf v -> in_range I32 (to_i32 v) = true;
  from_to_i32 : forall v, i32_wf v -> from_i32 (to_i32 v) = Ok v
}.

(** [impl_codec_i!(i8)], [impl_codec_i!(i16)]. *)
Definition from_i32_signed (t : int_ty) (i : Z) : result OcallError (int t) :=
  if (wrap I32 (int_max t) <? i) || (i <? wrap I32 (- int_max t - 1))
  then Err InvalidEncoding else Ok (Int (wrap t i)).
(** [impl_codec_u!(u8)], [impl_codec_u!(u16)]. *)
Definition from_i32_unsigned (t : int_ty) (i : Z) : result OcallError (int t) :=
  if wrap U32 (int_max t) <? wrap U32 i
  then Err InvalidEncoding else Ok (Int (wrap t i)).
(** [impl_codec!(i32)], [impl_codec!(u32)]. *)
Definition from_i32_cast (t : int_ty) (i : Z) : result OcallError (int t) :=
  Ok (Int (wrap t i)).

Definition int_to_i32 {t} (v : int t) : Z := wrap I32 (int_val v).

#[export] Instance i8_convertible : I32Convertible (int I8) :=
  {| to_i32 := int_to_i32; from_i32 := from_i32_signed I8 |}.
#[export] Instance i16_convertible : I32Convertible (int I16) :=
  {| to_i32 := int_to_i32; from_i32 := from_i32_signed I16 |}.
#[export] Instance u8_convertible : I32Convertible (int U8) :=
  {| to_i32 := int_to_i32; from_i32 := from_i32_unsigned U8 |}.
#[export] Instance u16_convertible : I32Convertible (int U16) :=
  {| to_i32 := int_to_i32; from_i32 := from_i32_unsigned U16 |}.
#[export] Instance i32_convertible : I32Convertible (int I32) :=
  {| to_i32 := int_to_i32; from_i32 := from_i32_cast I32 |}.
#[export] Instance u32_convertible : I32Convertible (int U32) :=
  {| to_i32 := int_to_i32; from_i32 := from_i32_cast U32 |}.

Definition bool_from_i32 (i : Z) : result OcallError bool :=
  match i with 0 => Ok false | 1 => Ok true | _ => Err InvalidEncoding end.
#[export] Instance bool_convertible : I32Convertible bool :=
  {| to_i32 := fun b : bool => if b then 1 else 0; from_i32 := bool_from_i32 |}.

Definition OcallError_from_i32 (i : Z) : result OcallError OcallError :=
  code ← from_i32_unsigned U8 i;
  ok_or (OcallError_try_from (int_val code)) InvalidEncoding.
#[export] Instance OcallError_convertible : I32Convertible OcallError :=
  {| to_i32 := OcallError_code; from_i32 := OcallError_from_i32 |}.

Definition unit_from_i32 (i : Z) : result OcallError unit :=
  if i =? 0 then Ok tt else Err InvalidEncoding.
#[export] Instance unit_convertible : I32Convertible unit :=
  {| to_i32 := fun _ => 0; from_i32 := unit_from_i32 |}.

Definition Level_to_i32 (l : Level) : Z :=
  match l with LError => 1 | LWarn => 2 | LInfo => 3 | LDebug => 4 | LTrace => 5 end.
Definition Level_from_i32 (i : Z) : result OcallError Level :=
  match i with
  | 1 => Ok LError | 2 => Ok LWarn | 3 => Ok LInfo | 4 => Ok LDebug | 5 => Ok LTrace
  | _ => Err InvalidEncoding
  end.
#[export] Instance Level_convertible : I32Convertible Level :=
  {| to_i32 := Level_to_i32; from_i32 := Level_from_i32 |}.

(** ** [Nargs]: flattening a stack of encoded arguments into four words *)

(** [&l[lo..hi]]; [None] is the out-of-range panic. *)
Definition slice {A} (lo hi : nat) (l : list A) : option (list A) :=
  if (lo <=? hi)%nat && (hi <=? length l)%nat then Some (take (hi - lo) (drop lo l)) else None.
(** [buf[lo..hi].copy_from_slice(src)]; panics on a bad range or length. *)
Definition copy_range {A} (buf : list A) (lo hi : nat) (src : list A) : option (list A) :=
  if (lo <=? hi)%nat && (hi <=? length buf)%nat && (length src =? hi - lo)%nat
  then Some (take lo buf ++ src ++ drop hi buf) else None.

Class Nargs (A : Type) := {
  N_ARGS : nat;
  nargs_load : list Z -> option (A * list Z);
  nargs_dump : A -> option (list Z)
}.
Arguments N_ARGS A {_}.

#[export] Instance nargs_unit : Nargs unit := {|
  N_ARGS := 0;
  nargs_load := fun buf => Some (tt, buf);
  nargs_dump := fun _ => Some (replicate OCALL_N_ARGS 0)
|}.

#[export] Instance nargs_intptr : Nargs Z := {|
  N_ARGS := 1;
  nargs_load := fun buf => match buf with [] => None | me :: rest => Some (me, rest) end;
  nargs_dump := fun me => Some (<[0%nat := me]> (replicate OCALL_N_ARGS 0))
|}.

#[export] Instance nargs_pair {A B} `{Nargs A, Nargs B} : Nargs (A * B) := {|
  N_ARGS := N_ARGS A + N_ARGS B;
  nargs_load := fun buf =>
    '(b, buf) ← nargs_load buf;
    '(a, buf) ← nargs_load buf;
    Some ((a, b), buf);
  nargs_dump := fun '(a, b) =>
    db ← nargs_dump b;
    sb ← slice 0 (N_ARGS B) db;
    buf ← copy_range (replicate OCALL_N_ARGS 0) 0 (N_ARGS B) sb;
    da ← nargs_dump a;
    sa ← slice 0 (N_ARGS A) da;
    copy_range buf (N_ARGS B) (N_ARGS A + N_ARGS B) sa
|}.

(** [StackedArgs<Args>]. *)
Record StackedArgs (A : Type) : Type := Stacked { stack_args : A }.
Arguments Stacked {A} _.
Arguments stack_args {A} _.

Definition stack_empty : StackedArgs unit := Stacked tt.
Definition stack_push {A B} (s : StackedArgs B) (arg : A) : StackedArgs (A * B) :=
  Stacked (arg, stack_args s).
Definition stack_pop {A B} (s : StackedArgs (A * B)) : A * StackedArgs B :=
  let '(a, args) := stack_args s in (a, Stacked args).

(** [NotTooManyArgs]: the compile-time check that guards [load] and [dump]. *)
Definition check_args_length (A : Type) `{Nargs A} : bool := (N_ARGS A <=? OCALL_N_ARGS)%nat.

Definition stack_load {A} `{Nargs A} (raw : list Z) : option (StackedArgs A) :=
  '(args, _) ← nargs_load raw; Some (Stacked args).
Definition stack_dump {A} `{Nargs A} (s : StackedArgs A) : option (list Z) :=
  data ← nargs_dump (stack_args s);
  copy_range (replicate OCALL_N_ARGS 0) 0 (length data) data.

Class NargsLawful (A : Type) `{Nargs A} := {
  nargs_dump_ok : forall a : A, (N_ARGS A <= OCALL_N_ARGS)%nat ->
    exists d, nargs_dump a = Some d /\ length d = OCALL_N_ARGS /\
      forall rest, nargs_load (take (N_ARGS A) d ++ rest) = Some (a, rest)
}.

(** ** Guest memory

    wiggle's [GuestMemory]: [as_slice ptr len] is [None] for a bad range, and
    [Some None] when the memory is shared and cannot be borrowed. *)
Class GuestMemory (Mem : Type) := {
  as_slice : Mem -> Z -> Z -> option (option bytes);
  copy_from_slice : Mem -> Z -> bytes -> option Mem
}.

(** UTF-8 validation, [core::str::from_utf8]: the well-formed byte sequences of
    the Unicode standard's table 3-7. *)
Definition in_b (lo hi b : Z) : bool := (lo <=? b) && (b <=? hi).
Definition cont_b (b : Z) : bool := in_b 128 191 b.
Fixpoint utf8_valid (bs : bytes) : bool :=
  match bs with
  | [] => true
  | b0 :: r =>
    if in_b 0 127 b0 then utf8_valid r else
    match r with
    | [] => false
    | b1 :: r =>
      if in_b 194 223 b0 then cont_b b1 && utf8_valid r else
      match r with
      | [] => false
      | b2 :: r =>
        if b0 =? 224 then in_b 160 191 b1 && cont_b b2 && utf8_valid r else
        if in_b 225 236 b0 || in_b 238 239 b0 then cont_b b1 && cont_b b2 && utf8_valid r else
        if b0 =? 237 then in_b 128 159 b1 && cont_b b2 && utf8_valid r else
        match r with
        | [] => false
        | b3 :: r =>
          if b0 =? 240 then in_b 144 191 b1 && cont_b b2 && cont_b b3 && utf8_valid r else
          if in_b 241 243 b0 then cont_b b1 && cont_b b2 && cont_b b3 && utf8_valid r else
          if b0 =? 244 then in_b 128 143 b1 && cont_b b2 && cont_b b3 && utf8_valid r else
          false
        end
      end
    end
  end.

(** ** Argument encoding (guest) and decoding (host) *)

(** [ArgEncode]: the guest side.  [encode_arg] pushes the encoded form. *)
Class ArgEncode (G : Type) := {
  Encoded : Type;
  encode : G -> Encoded
}.
Definition encode_arg {G A} `{ArgEncode G} (v : G) (s : StackedArgs A)
  : StackedArgs (Encoded * A) := stack_push s (encode v).

(** [ArgDecode]: the host side, in two stages: [decode_arg] borrows from guest
    memory, [decode_repr] ([Arg::extract]) checks the contents. *)
Class ArgDecode (Mem E H : Type) := {
  Repr : Type;
  decode_arg : Mem -> E -> result OcallError Repr;
  decode_repr : Repr -> result OcallError H
}.
Arguments Repr Mem E H {_}.

(** A guest borrow of memory: pointer and length. *)
Record guest_ref : Type := GRef { g_ptr : Z; g_len : Z }.
(** The host's view of [&mut [u8]]: where it is, and its current contents. *)
Record host_buf : Type := HBuf { hb_ptr : Z; hb_data : bytes }.
(** [&str] as its bytes, valid UTF-8. *)
Record str : Type := Str { str_bytes : bytes }.

#[export] Instance encode_guest_ref : ArgEncode guest_ref := {|
  Encoded := Z * Z;
  encode := fun r => (wrap I32 (g_len r), wrap I32 (g_ptr r))
|}.

Section MemDecode.
Context {Mem : Type} `{GuestMemory Mem}.

Definition borrow (mem : Mem) (e : Z * Z) : result OcallError bytes :=
  let '(len, ptr) := e in
  r ← ok_or (as_slice mem (wrap U32 ptr) (wrap U32 len)) InvalidParameter;
  ok_or r InvalidParameter.

#[export] Instance decode_bytes : ArgDecode Mem (Z * Z) bytes := {|
  Repr := bytes;
  decode_arg := borrow;
  decode_repr := fun r => Ok r
|}.

#[export] Instance decode_str : ArgDecode Mem (Z * Z) str := {|
  Repr := bytes;
  decode_arg := borrow;
  decode_repr := fun r => if utf8_valid r then Ok (Str r) else Err InvalidEncoding
|}.

#[export] Instance decode_bytes_mut : ArgDecode Mem (Z * Z) host_buf := {|
  Repr := host_buf;
  decode_arg := fun mem e => data ← borrow mem e; Ok (HBuf (wrap U32 e.2) data);
  decode_repr := fun r => Ok r
|}.
End MemDecode.

(** [impl_codec64!]: a 64-bit value as two words. *)
Definition encode64 (v : Z) : Z * Z :=
  let low := wrap I32 (Z.land v 0xffffffff) in
  let high := wrap I32 (Z.land (Z.shiftr v 32) 0xffffffff) in
  (low, high).
Definition decode64 (t : int_ty) (e : Z * Z) : Z :=
  let '(low, high) := e in
  let high := wrap t (Z.shiftl (wrap t high) 32) in
  Z.land high (wrap t low).

#[export] Instance encode_u64 : ArgEncode (int U64) :=
  {| Encoded := Z * Z; encode := fun v => encode64 (int_val v) |}.
#[export] Instance encode_i64 : ArgEncode (int I64) :=
  {| Encoded := Z * Z; encode := fun v => encode64 (int_val v) |}.
#[export] Instance decode_u64 {Mem} : ArgDecode Mem (Z * Z) (int U64) :=
  {| Repr := int U64; decode_arg := fun _ e => Ok (Int (decode64 U64 e)); decode_repr := Ok |}.
#[export] Instance decode_i64 {Mem} : ArgDecode Mem (Z * Z) (int I64) :=
  {| Repr := int I64; decode_arg := fun _ e => Ok (Int (decode64 I64 e)); decode_repr := Ok |}.

(** The blanket implementations for [I: I32Convertible]. *)
Definition encode_i32able {I} `{I32Convertible I} : ArgEncode I :=
  {| Encoded := Z; encode := to_i32 |}.
Definition decode_i32able {Mem I} `{I32Convertible I} : ArgDecode Mem Z I :=
  {| Repr := Z; decode_arg := fun _ v => Ok v; decode_repr := from_i32 |}.

(** ** Return values *)

(** [RetEncode for Result<A, B>]. *)
Definition encode_ret {A B} `{I32Convertible A, I32Convertible B} (r : result B A) : Z :=
  let '(tp, val) := match r with Ok v => (0, to_i32 v) | Err e => (1, to_i32 e) end in
  Z.lor (Z.shiftl (wrap U32 tp) 32) (wrap U32 val).

(** [RetDecode for Result<A, B>]; [None] is the [expect] panic. *)
Definition decode_ret {A B} `{I32Convertible A, I32Convertible B} (encoded : Z)
  : option (result B A) :=
  let tp := wrap I32 (Z.land (Z.shiftr encoded 32) 0xffffffff) in
  let val := wrap I32 (Z.land encoded 0xffffffff) in
  if tp =? 0
  then match from_i32 val with Ok a => Some (Ok a) | Err _ => None end
  else match from_i32 val with Ok e => Some (Err e) | Err _ => None end.

#[global] Arguments encode_ret : simpl never.
#[global] Arguments decode_ret : simpl never.
#[global] Arguments encode64 : simpl never.
#[global] Arguments decode64 : simpl never.

(** ** Laws of the scalar conversions *)

Lemma int_wf_i32 t z : in_range t z = true -> width t <= 32 ->
  wrap t (wrap I32 z) = z.
Proof. intros Hr Hw. rewrite wrap_wrap by done. by apply wrap_id. Qed.

(** The wellformedness of an integer value is its type's range. *)
Definition int_wf {t} (v : int t) : Prop := in_range t (int_val v) = true.

Ltac int_lawful :=
  refine {| i32_wf := int_wf |}; intros [z] Hz; unfold int_wf in *;
  [by apply wrap_in_range|];
  simpl; unfold int_to_i32, from_i32_signed, from_i32_unsigned, from_i32_cast;
  simpl in *; rewrite ?(int_wf_i32 _ _ Hz) by (simpl; lia); try done.

(** A conditional whose guard is refuted by the bounds. *)
Lemma if_false {A} (b : bool) (x y : A) : b = false -> (if b then x else y) = y.
Proof. by intros ->. Qed.

#[export] Instance i8_lawful : I32Lawful (int I8).
Proof.
  int_lawful. rewrite (wrap_id I32 z) by range_solve. apply if_false.
  rewrite !wrap_id by range_solve. range_solve.
Defined.
#[export] Instance i16_lawful : I32Lawful (int I16).
Proof.
  int_lawful. rewrite (wrap_id I32 z) by range_solve. apply if_false.
  rewrite !wrap_id by range_solve. range_solve.
Defined.
#[export] Instance u8_lawful : I32Lawful (int U8).
Proof.
  int_lawful. rewrite wrap_wrap by done. apply if_false.
  rewrite !wrap_id by range_solve. range_solve.
Defined.
#[export] Instance u16_lawful : I32Lawful (int U16).
Proof.
  int_lawful. rewrite wrap_wrap by done. apply if_false.
  rewrite !wrap_id by range_solve. range_solve.
Defined.
#[export] Instance i32_lawful : I32Lawful (int I32).
Proof. int_lawful. Defined.
#[export] Instance u32_lawful : I32Lawful (int U32).
Proof. int_lawful. Defined.

#[export] Instance bool_lawful : I32Lawful bool.
Proof. refine {| i32_wf := fun _ => True |}; by intros []. Defined.
#[export] Instance unit_lawful : I32Lawful unit.
Proof. refine {| i32_wf := fun _ => True |}; by intros []. Defined.
#[export] Instance Level_lawful : I32Lawful Level.
Proof. refine {| i32_wf := fun _ => True |}; by intros []. Defined.
#[export] Instance OcallError_lawful : I32Lawful OcallError.
Proof.
  refine {| i32_wf := fun _ => True |}; intros e _; simpl.
  - pose proof (OcallError_code_range e). range_solve.
  - pose proof (OcallError_code_range e) as Hr.
    unfold OcallError_from_i32, from_i32_unsigned, mbind, result_bind.
    rewrite if_false by (rewrite !wrap_id by range_solve; range_solve).
    simpl. rewrite wrap_id by done. by rewrite OcallError_try_from_code.
Defined.

(** ** Laws of the argument stack *)

Lemma copy_range_eq {A} (buf : list A) lo hi src :
  (lo <= hi)%nat -> (hi <= length buf)%nat -> length src = (hi - lo)%nat ->
  copy_range buf lo hi src = Some (take lo buf ++ src ++ drop hi buf).
Proof.
  intros ? ? ?. unfold copy_range.
  rewrite !(proj2 (Nat.leb_le _ _)), (proj2 (Nat.eqb_eq _ _)) by lia. done.
Qed.

Lemma slice0_eq {A} hi (l : list A) : (hi <= length l)%nat -> slice 0 hi l = Some (take hi l).
Proof.
  intros ?. unfold slice. rewrite (proj2 (Nat.leb_le hi _)) by lia. simpl.
  by rewrite drop_0, Nat.sub_0_r.
Qed.

#[export] Instance nargs_unit_lawful : NargsLawful unit.
Proof. split. intros [] _. eexists; repeat split; done. Qed.
#[export] Instance nargs_intptr_lawful : NargsLawful Z.
Proof. split. intros a _. eexists; repeat split; done. Qed.

#[export] Instance nargs_pair_lawful {A B} `{NargsLawful A, NargsLawful B} :
  NargsLawful (A * B).
Proof.
  split. intros [a b] Hn. unfold OCALL_N_ARGS in *. simpl in Hn |- *.
  destruct (nargs_dump_ok b) as (db & Hdb & Hlb & Hb); [unfold OCALL_N_ARGS; lia|].
  destruct (nargs_dump_ok a) as (da & Hda & Hla & Ha); [unfold OCALL_N_ARGS; lia|].
  unfold OCALL_N_ARGS in *.
  rewrite Hdb, Hda. simpl. rewrite !slice0_eq by lia. simpl.
  rewrite copy_range_eq by (rewrite ?length_take; simpl; lia). simpl.
  set (buf := take (N_ARGS B) db ++ _).
  assert (Hbuf : length buf = 4%nat).
  { subst buf. rewrite length_app, length_take, length_drop. simpl. lia. }
  rewrite copy_range_eq by (rewrite ?length_take, ?Hbuf; lia).
  eexists; split; [done|]. split.
  { rewrite !length_app, !length_take, length_drop, Hbuf. lia. }
  intros rest.
  assert (Htb : take (N_ARGS B) buf = take (N_ARGS B) db).
  { subst buf. by rewrite take_app_length' by (rewrite length_take; lia). }
  rewrite Htb, app_assoc, take_app_length'
    by (rewrite length_app, !length_take; lia).
  rewrite <- app_assoc, Hb. simpl. rewrite Ha. done.
Qed.

Lemma stack_load_dump_ok {A} `{NargsLawful A} (s : StackedArgs A) :
  check_args_length A = true ->
  exists words, stack_dump s = Some words /\ length words = OCALL_N_ARGS /\
    stack_load words = Some s.
Proof.
  unfold check_args_length. intros Hn%Nat.leb_le. destruct s as [a].
  destruct (nargs_dump_ok a Hn) as (d & Hd & Hl & Hload).
  unfold stack_dump, stack_load. simpl. rewrite Hd. simpl.
  rewrite Hl, copy_range_eq by (unfold OCALL_N_ARGS in *; simpl; lia).
  rewrite take_0, drop_ge, app_nil_r by done. simpl.
  eexists; split; [done|]. split; [done|].
  rewrite <- (take_drop (N_ARGS A) d), Hload. done.
Qed.

(** ** Laws of return values *)

Lemma ret_pack tp val : 0 <= tp < 2 ^ 32 ->
  let e := Z.lor (Z.shiftl tp 32) (wrap U32 val) in
  Z.land (Z.shiftr e 32) 0xffffffff = tp /\ Z.land e 0xffffffff = wrap U32 val.
Proof.
  intros Htp e. assert (Hv : 0 <= wrap U32 val < 2 ^ 32).
  { pose proof (wrap_in_range U32 val). range_solve. }
  subst e. rewrite lor_shiftl_add by lia.
  change 0xffffffff with (Z.ones 32). rewrite !Z.land_ones by lia.
  rewrite Z.shiftr_div_pow2 by lia.
  rewrite Z.div_add_l, (Z.div_small (wrap U32 val)), Z.add_0_r by lia.
  split; [by apply Z.mod_small|].
  rewrite Z.add_comm, Z.mod_add by lia. by apply Z.mod_small.
Qed.

Lemma decode_encode_ret {A B} `{I32Lawful A, I32Lawful B} (r : result B A) :
  match r with Ok a => i32_wf a | Err e => i32_wf e end ->
  decode_ret (encode_ret r) = Some r.
Proof.
  intros Hwf. unfold decode_ret, encode_ret.
  destruct r as [a|e].
  - change (wrap U32 0) with 0. destruct (ret_pack 0 (to_i32 a)) as [-> ->]; [lia|].
    rewrite wrap_wrap, (wrap_id I32 (to_i32 _)) by (done || by apply to_i32_range).
    by rewrite from_to_i32.
  - change (wrap U32 1) with 1. destruct (ret_pack 1 (to_i32 e)) as [-> ->]; [lia|].
    rewrite wrap_wrap, (wrap_id I32 (to_i32 _)) by (done || by apply to_i32_range).
    by rewrite from_to_i32.
Qed.

(** ** 64-bit arguments *)

Lemma decode64_low_zero t v : t = I64 \/ t = U64 -> decode64 t (encode64 v) `mod` 2 ^ 32 = 0.
Proof.
  intros Ht. unfold decode64, encode64.
  assert (Hx : forall x, wrap t (Z.shiftl x 32) `mod` 2 ^ 32 = 0).
  2: { generalize (Hx (wrap t (wrap I32 (Z.land (Z.shiftr v 32) 0xffffffff)))).
       generalize (wrap t (wrap I32 (Z.land v 0xffffffff))).
       intros lo. generalize (wrap t (Z.shiftl (wrap t
         (wrap I32 (Z.land (Z.shiftr v 32) 0xffffffff))) 32)). intros hi Hhi.
       rewrite <- Z.land_ones in Hhi |- * by lia.
       by rewrite <- Z.land_assoc, (Z.land_comm lo), Z.land_assoc, Hhi. }
  intros x. unfold wrap. rewrite Z.shiftl_mul_pow2 by lia.
  replace (2 ^ width t) with (2 ^ 32 * 2 ^ 32) by (by destruct Ht as [-> | ->]).
  set (y := x * 2 ^ 32 - int_min t).
  rewrite (Z.mod_eq y (2 ^ 32 * 2 ^ 32)) by done. set (q := y `div` _). subst y.
  replace (x * 2 ^ 32 - int_min t - 2 ^ 32 * 2 ^ 32 * q + int_min t)
    with ((x - 2 ^ 32 * q) * 2 ^ 32) by lia.
  by apply Z.mod_mul.
Qed.

Lemma decode_encode64_iff t v : (t = I64 \/ t = U64) ->
  decode64 t (encode64 v) = v <-> v = 0.
Proof.
  intros Ht. split; [|by destruct Ht as [-> | ->]; intros ->].
  intros Hv. pose proof (decode64_low_zero t v Ht) as Hm. rewrite Hv in Hm.
  enough (decode64 t (encode64 v) = 0) by congruence. unfold decode64, encode64.
  change 0xffffffff with (Z.ones 32). rewrite (Z.land_ones v), Hm by lia.
  change (wrap I32 0) with 0. replace (wrap t 0) with 0 by (by destruct Ht as [-> | ->]).
  apply Z.land_0_r.
Qed.

(** The argument stack survives the four words of an ocall: when the types
    fit ([check_args_length]), what the guest pushed and dumped is what the host
    loads and pops, in reverse order. *)
Theorem args_stack_roundtrip {A B} `{NargsLawful A, NargsLawful B} (a : A) (b : B) :
  check_args_length (B * (A * unit)) = true ->
  exists words, stack_dump (stack_push (stack_push stack_empty a) b) = Some words /\
    length words = OCALL_N_ARGS /\
    stack_pop <$> stack_load (A:=B * (A * unit)) words =
      Some (b, stack_push stack_empty a).
Proof.
  intros Hn.
  destruct (stack_load_dump_ok (stack_push (stack_push stack_empty a) b) Hn)
    as (w & Hd & Hl & Hload).
  exists w. by rewrite Hload.
Qed.
Lemma args_stack_roundtrip_witness :
  exists words, stack_dump (stack_push (stack_push stack_empty 7) (8, 9)) = Some words /\
    length words = OCALL_N_ARGS /\
    stack_pop <$> stack_load (A:=(Z * Z) * (Z * unit)) words =
      Some ((8, 9), stack_push stack_empty 7).
Proof. apply (args_stack_roundtrip 7 (8, 9)). reflexivity. Defined.

(** Packing a result into the 64-bit return word loses nothing: for every
    scalar or error within its type's range, decoding gives the result back and
    never panics. *)
Theorem ret_word_roundtrip {A B} `{I32Lawful A, I32Lawful B} (r : result B A) :
  match r with Ok a => i32_wf a | Err e => i32_wf e end ->
  decode_ret (encode_ret r) = Some r.
Proof. apply decode_encode_ret. Qed.
Lemma ret_word_roundtrip_witness :
  decode_ret (B:=OcallError) (encode_ret (B:=OcallError) (Ok (@Int U32 4294967295))) =
    Some (Ok (@Int U32 4294967295)).
Proof.
  apply (ret_word_roundtrip (A:=int U32) (B:=OcallError) (Ok (Int 4294967295))). reflexivity.
Defined.

(** A 64-bit argument never survives the argument stack: decoding what the
    guest encoded gives the value back only for zero, because the decoder joins
    the two halves with [&] instead of [|]. *)
Theorem int64_argument_lost t v : t = I64 \/ t = U64 ->
  decode64 t (encode64 v) = v <-> v = 0.
Proof. apply decode_encode64_iff. Qed.
Lemma int64_argument_lost_witness : decode64 U64 (encode64 5) = 5 <-> 5 = 0.
Proof. apply (int64_argument_lost U64 5). by right. Defined.
