(* ===== verification/Ocall.v ===== *)
(** * Ocall dispatch (wapo-macro/src/macro_ocall.rs, wapo-env/src/lib.rs)

    The [#[ocall]] attribute turns the trait of ocall functions into a host
    dispatcher and a guest stub per method.  The generators are functions on the
    list of methods here: [dispatch_ocall] is what [gen_dispatcher] emits,
    [guest_call] what [gen_ocall_impl_method] emits. *)
From S2P Require Import Prelude OcallError ArgsStack.

(** parity-scale-codec, as the ocall layer uses it: [decode] reads a prefix of
    its input. *)
Class ScaleCodec (T : Type) := {
  scale_encode : T -> bytes;
  scale_decode : bytes -> option T
}.
Class ScaleLawful (T : Type) `{ScaleCodec T} :=
  scale_decode_encode : forall v, scale_decode (scale_encode v) = Some v.

(** [OcallEnv]: the slot that keeps a variable-sized return value between the
    call and [get_return]. *)
Class OcallEnv (Env : Type) := {
  put_return : bytes -> Env -> Z * Env;
  take_return : Env -> option bytes * Env
}.
Class OcallEnvLawful (Env : Type) `{OcallEnv Env} := {
  put_return_len : forall rv env, (put_return rv env).1 = zlen rv;
  take_put_return : forall rv env, (take_return (put_return rv env).2).1 = Some rv;
  take_taken : forall env, (take_return (take_return env).2).1 = None
}.

Section Types.
Context {Mem : Type}.


(** How the declared type borrows: not at all, [&T], [&mut T]. *)
Inductive ref_kind : Type := NoRef | SharedRef | MutRef.

(** The type of one stacked argument: guest value, host value, and their
    codecs. *)
Record arg_type : Type := ArgType {
  at_ref : ref_kind;
  at_guest : Type;
  at_host : Type;
  at_encode : ArgEncode at_guest;
  at_nargs : Nargs (@Encoded _ at_encode);
  at_lawful : NargsLawful (@Encoded _ at_encode);
  at_decode : ArgDecode Mem (@Encoded _ at_encode) at_host
}.

#[export] Instance ref_kind_eq_dec : EqDecision ref_kind.
Proof. solve_decision. Defined.

Fixpoint guest_args (tys : list arg_type) : Type :=
  match tys with [] => unit | t :: r => (at_guest t * guest_args r)%type end.
Fixpoint host_args (tys : list arg_type) : Type :=
  match tys with [] => unit | t :: r => (at_host t * host_args r)%type end.
Fixpoint reprs (tys : list arg_type) : Type :=
  match tys with
  | [] => unit
  | t :: r => (@Repr Mem _ _ (at_decode t) * reprs r)%type
  end.

(** The stack type after pushing arguments of types [tys] on a stack of [A]. *)
Fixpoint stack_of (tys : list arg_type) (A : Type) : Type :=
  match tys with [] => A | t :: r => stack_of r (@Encoded _ (at_encode t) * A) end.

Fixpoint nargs_stack (tys : list arg_type) (A : Type) (NA : Nargs A) : Nargs (stack_of tys A) :=
  match tys with
  | [] => NA
  | t :: r => nargs_stack r _ (@nargs_pair _ _ (at_nargs t) NA)
  end.

Fixpoint nargs_stack_lawful (tys : list arg_type) (A : Type) (NA : Nargs A)
  (LA : NargsLawful A) : @NargsLawful _ (nargs_stack tys A NA) :=
  match tys with
  | [] => LA
  | t :: r => nargs_stack_lawful r _ _ (@nargs_pair_lawful _ _ _ (at_lawful t) _ LA)
  end.

(** [#(let stack = stack.push_arg(#args);)*]. *)
Fixpoint push_args (tys : list arg_type) {A} (s : StackedArgs A)
  : guest_args tys -> StackedArgs (stack_of tys A) :=
  match tys with
  | [] => fun _ => s
  | t :: r => fun '(g, gs) => push_args r (@encode_arg _ _ (at_encode t) g s) gs
  end.

(** [#(let (mut #args_reversed, stack) = stack.pop_arg(mem)?;)*]: the last
    argument is on top. *)
Fixpoint pop_args (tys : list arg_type) (mem : Mem) {A}
  : StackedArgs (stack_of tys A) -> result OcallError (reprs tys * StackedArgs A) :=
  match tys with
  | [] => fun s => Ok (tt, s)
  | t :: r => fun s =>
    '(rest, s) ← pop_args r mem s;
    let '(e, s) := stack_pop s in
    repr ← @decode_arg Mem _ _ (at_decode t) mem e;
    Ok ((repr, rest), s)
  end.

(** [#(#args.extract()?),*]. *)
Fixpoint extract_args (tys : list arg_type) : reprs tys -> result OcallError (host_args tys) :=
  match tys with
  | [] => fun _ => Ok tt
  | t :: r => fun '(repr, rest) =>
    h ← @decode_repr Mem _ _ (at_decode t) repr;
    hs ← extract_args r rest;
    Ok (h, hs)
  end.

(** Attributes [encode_input] and [encode_output]. *)
Inductive input_spec : Type :=
| InStack (tys : list arg_type)
| InEncoded (T : Type) (c : ScaleCodec T).
Inductive output_spec : Type :=
| OutI32 (T : Type) (c : I32Convertible T)
| OutEncoded (T : Type) (c : ScaleCodec T).

Definition guest_input (i : input_spec) : Type :=
  match i with InStack tys => guest_args tys | InEncoded T _ => T end.
Definition host_input (i : input_spec) : Type :=
  match i with InStack tys => host_args tys | InEncoded T _ => T end.
Definition ret_type (o : output_spec) : Type :=
  match o with OutI32 T _ => T | OutEncoded T _ => T end.
Definition encode_output (o : output_spec) : bool :=
  match o with OutI32 _ _ => false | OutEncoded _ _ => true end.

Context {Env : Type}.

(** [OcallMethod], with the environment's implementation of the method. *)
Record OcallMethod : Type := Method {
  om_id : Z;
  om_name : string;
  om_input : input_spec;
  om_output : output_spec;
  om_call : host_input om_input -> M (Env * Mem) OcallError (ret_type om_output)
}.

(** The checks of [OcallMethod::parse] on the id and of
    [check_redundant_ocall_id]. *)
Definition parse_id_ok (m : OcallMethod) : bool := negb (om_id m <? 100).
Fixpoint check_redundant_ocall_id (ids : list Z) (ms : list OcallMethod) : bool :=
  match ms with
  | [] => true
  | m :: ms =>
    if bool_decide (om_id m ∈ ids) then false
    else check_redundant_ocall_id (ids ++ [om_id m]) ms
  end.

(** [check_args_multi_ref]: one [&mut] argument excludes every other borrow. *)
Definition n_ref (tys : list arg_type) : nat :=
  length (filter (fun t => at_ref t <> NoRef) tys).
Definition has_mut_ref (tys : list arg_type) : bool :=
  existsb (fun t => match at_ref t with MutRef => true | _ => false end) tys.
Definition check_args_multi_ref (m : OcallMethod) : bool :=
  match om_input m with
  | InStack tys => negb (has_mut_ref tys && (1 <? n_ref tys)%nat)
  | InEncoded _ _ => true
  end.

(** [NotTooManyArgs] on the stack of a method. *)
Definition check_n_args (m : OcallMethod) : bool :=
  match om_input m with
  | InStack tys => @check_args_length _ (nargs_stack tys unit _)
  | InEncoded _ _ => true
  end.

(** [gen_id2name]. *)
Definition ocall_id2name (ms : list OcallMethod) (id : Z) : string :=
  if id =? 0 then "get_return" else
  match list_find (fun m => om_id m = id) ms with
  | Some (_, m) => om_name m
  | None => "unknown"
  end.

Context `{GuestMemory Mem, OcallEnv Env}.

(** The prologue of a dispatcher arm. *)
Definition parse_inputs (i : input_spec) (p0 p1 p2 p3 : Z)
  : M (Env * Mem) OcallError (host_input i) :=
  match i return M (Env * Mem) OcallError (host_input i) with
  | InStack tys =>
    mem ← gets snd;
    stack ← lift (ok_or (@stack_load _ (nargs_stack tys unit _) [p0; p1; p2; p3])
                    InvalidParameter);
    '(rs, _) ← lift (pop_args tys mem (A:=unit) stack);
    lift (extract_args tys rs)
  | InEncoded T _ =>
    mem ← gets snd;
    s ← lift (ok_or (as_slice mem (wrap U32 p0) (wrap U32 p1)) InvalidParameter);
    s ← lift (ok_or s InvalidParameter);
    lift (ok_or (scale_decode s) InvalidParameter)
  end.

(** [env.put_return(ret?.encode())]. *)
Definition put_ret (rv : bytes) : M (Env * Mem) OcallError Z := fun '(env, mem) =>
  let '(len, env) := put_return rv env in (Ok len, (env, mem)).

(** An arm of the fast and of the slow [match id]. *)
Definition fast_arm (m : OcallMethod) (p0 p1 p2 p3 : Z) : option (M (Env * Mem) OcallError Z) :=
  match om_output m as o return
    (host_input (om_input m) -> M (Env * Mem) OcallError (ret_type o)) -> _ with
  | OutI32 _ _ => fun call => Some (h ← parse_inputs (om_input m) p0 p1 p2 p3;
                              r ← call h; mret (to_i32 r))
  | OutEncoded _ _ => fun _ => None
  end (om_call m).
Definition slow_arm (m : OcallMethod) (p0 p1 p2 p3 : Z) : option (M (Env * Mem) OcallError Z) :=
  match om_output m as o return
    (host_input (om_input m) -> M (Env * Mem) OcallError (ret_type o)) -> _ with
  | OutI32 _ _ => fun _ => None
  | OutEncoded _ _ => fun call => Some (h ← parse_inputs (om_input m) p0 p1 p2 p3;
                             r ← call h; len ← put_ret (scale_encode r); mret (wrap I32 len))
  end (om_call m).

(** Arm [0 =>] of the fast dispatcher. *)
Definition call_get_return (p0 p1 : Z) : M (Env * Mem) OcallError Z := fun '(env, mem) =>
  let '(buffer, env) := take_return env in
  match buffer with
  | None => (Err NotFound, (env, mem))
  | Some buffer =>
    if negb (zlen buffer =? wrap U64 p1) then (Err InvalidParameter, (env, mem)) else
    let len := wrap U32 (wrap U64 p1) in
    match copy_from_slice mem (wrap U32 p0) buffer with
    | None => (Err InvalidParameter, (env, mem))
    | Some mem => (Ok (wrap I32 len), (env, mem))
    end
  end.

(** A [match id] over the arms, first match wins. *)
Fixpoint match_arms (arm : OcallMethod -> option (M (Env * Mem) OcallError Z))
  (ms : list OcallMethod) (id : Z) : M (Env * Mem) OcallError Z :=
  match ms with
  | [] => throw UnknownCallNumber
  | m :: ms =>
    match arm m with
    | Some body => if id =? om_id m then body else match_arms arm ms id
    | None => match_arms arm ms id
    end
  end.

Definition dispatch_ocall (ms : list OcallMethod) (fast_return : bool) (id p0 p1 p2 p3 : Z)
  : M (Env * Mem) OcallError Z :=
  if fast_return then
    if id =? 0 then call_get_return p0 p1
    else match_arms (fun m => fast_arm m p0 p1 p2 p3) ms id
  else match_arms (fun m => slow_arm m p0 p1 p2 p3) ms id.

(** The wasm import: the host's [do_ocall] packs the dispatcher's result. *)
Definition host_ocall (ms : list OcallMethod) (fast : bool) (id p0 p1 p2 p3 : Z)
  (s : Env * Mem) : Z * (Env * Mem) :=
  let '(r, s) := dispatch_ocall ms fast id p0 p1 p2 p3 s in
  (encode_ret ((fun z => @Int I32 z) <$> r), s).

(** ** The guest stub

    [alloc_buffer] is the guest's allocation of a scratch buffer; a stub's
    result is [None] when it panics. *)
Context (alloc_buffer : Z -> Mem -> Z * Mem).

(** The words passed to the import, and the memory after building them. *)
Definition stub_args (i : input_spec) : guest_input i -> Mem -> option (list Z * Mem) :=
  match i return guest_input i -> Mem -> option (list Z * Mem) with
  | InStack tys => fun g mem =>
    words ← @stack_dump _ (nargs_stack tys unit _) (push_args tys stack_empty g);
    Some (words, mem)
  | InEncoded T _ => fun g mem =>
    let input := scale_encode g in
    let '(ptr, mem) := alloc_buffer (zlen input) mem in
    mem ← copy_from_slice mem ptr input;
    Some ([wrap I32 ptr; wrap I32 (zlen input); 0; 0], mem)
  end.

Definition decode_i32_ret (e : Z) : option (result OcallError Z) :=
  match decode_ret (A:=int I32) (B:=OcallError) e with
  | Some r => Some (int_val <$> r)
  | None => None
  end.

(** The tail of a stub that fetches an encoded result of [len] bytes. *)
Definition stub_get_return (ms : list OcallMethod) (T : Type) `{ScaleCodec T} (len : Z)
  (s : Env * Mem) : option (result OcallError T) * (Env * Mem) :=
  if len <? 0 then (None, s) else
  let '(ptr, mem) := alloc_buffer len s.2 in
  let '(ret, s) := host_ocall ms true 0 (wrap I32 ptr) len 0 0 (s.1, mem) in
  match decode_i32_ret ret with
  | None => (None, s)
  | Some (Err e) => (Some (Err e), s)
  | Some (Ok ret) =>
    if negb (ret =? len) then (None, s) else
    match as_slice s.2 ptr len with
    | Some (Some buf) => (Ok <$> scale_decode buf, s)
    | _ => (None, s)
    end
  end.

Definition guest_call (ms : list OcallMethod) (m : OcallMethod) (g : guest_input (om_input m))
  (s : Env * Mem) : option (result OcallError (ret_type (om_output m))) * (Env * Mem) :=
  match stub_args (om_input m) g s.2 with
  | Some ([p0; p1; p2; p3], mem) =>
    let '(ret, s) := host_ocall ms (negb (encode_output (om_output m))) (om_id m)
                       p0 p1 p2 p3 (s.1, mem) in
    match om_output m as o
      return option (result OcallError (ret_type o)) * (Env * Mem) with
    | OutI32 T _ => ((fun r => x ← r; from_i32 x) <$> decode_i32_ret ret, s)
    | OutEncoded T _ =>
      match decode_i32_ret ret with
      | None => (None, s)
      | Some (Err e) => (Some (Err e), s)
      | Some (Ok len) => stub_get_return ms T len s
      end
    end
  | _ => (None, s)
  end.
End Types.

Arguments arg_type Mem : clear implicits.
Arguments OcallMethod Mem Env : clear implicits.

#[global] Arguments host_ocall : simpl never.
#[global] Arguments decode_i32_ret : simpl never.

(** ** A transport that behaves: memory, allocation, arguments *)

Class MemLawful (Mem : Type) `{GuestMemory Mem} :=
  read_written : forall mem ptr bs mem', copy_from_slice mem ptr bs = Some mem' ->
    as_slice mem' ptr (zlen bs) = Some (Some bs).

(** An allocated buffer lies in the 32-bit address space and can be written. *)
Definition alloc_lawful {Mem} `{GuestMemory Mem} (alloc : Z -> Mem -> Z * Mem) : Prop :=
  forall len mem, let '(ptr, mem') := alloc len mem in
    in_range U32 ptr = true /\ forall bs, zlen bs = len -> is_Some (copy_from_slice mem' ptr bs).

Section Transparency.
Context {Mem Env : Type} `{MemLawful Mem, OcallEnvLawful Env}.
Context (alloc : Z -> Mem -> Z * Mem) (Halloc : alloc_lawful alloc).

(** The host reads [h] where the guest passed [g]. *)
Definition arg_rel (mem : Mem) (t : arg_type Mem) (g : at_guest t) (h : at_host t) : Prop :=
  exists r, @decode_arg Mem _ _ (at_decode t) mem (@encode _ (at_encode t) g) = Ok r /\
    @decode_repr Mem _ _ (at_decode t) r = Ok h.

Fixpoint args_rel (mem : Mem) (tys : list (arg_type Mem)) : guest_args tys -> host_args tys -> Prop :=
  match tys with
  | [] => fun _ _ => True
  | t :: r => fun '(g, gs) '(h, hs) => arg_rel mem t g h /\ args_rel mem r gs hs
  end.

Definition input_rel (i : input_spec (Mem:=Mem)) (mem : Mem) : guest_input i -> host_input i -> Prop :=
  match i with
  | InStack tys => fun g h => args_rel mem tys g h /\
      @check_args_length _ (nargs_stack tys unit _) = true
  | InEncoded T c => fun g h => g = h /\ scale_decode (scale_encode g) = Some g /\
      in_range U32 (zlen (scale_encode g)) = true
  end.

(** The macro accepts the method list. *)
Definition methods_ok (ms : list (OcallMethod Mem Env)) : bool :=
  forallb parse_id_ok ms && check_redundant_ocall_id [] ms.

Lemma pop_push_args tys mem gs hs : args_rel mem tys gs hs ->
  forall A (s : StackedArgs A), exists rs,
    pop_args tys mem (push_args tys s gs) = Ok (rs, s) /\ extract_args tys rs = Ok hs.
Proof.
  revert gs hs. induction tys as [|t r IH]; simpl.
  - intros [] [] _ A s. by exists tt.
  - intros [g gs] [h hs] [(rp & Hd & Hr) Hrest] A s.
    destruct (IH gs hs Hrest _ (@encode_arg _ _ (at_encode t) g s)) as (rs & Hp & He).
    exists (rp, rs). rewrite Hp. simpl. rewrite Hd. simpl. rewrite Hr, He.
    by destruct s.
Qed.

Lemma length_4_inv {A} (l : list A) : length l = 4%nat ->
  exists a b c d, l = [a; b; c; d].
Proof. destruct l as [|a [|b [|c [|d [|]]]]]; naive_solver. Qed.

Lemma stub_parse i (env : Env) mem g h : input_rel i mem g h ->
  exists p0 p1 p2 p3 mem', stub_args alloc i g mem = Some ([p0; p1; p2; p3], mem') /\
    parse_inputs i p0 p1 p2 p3 (env, mem') = (Ok h, (env, mem')).
Proof.
  destruct i as [tys|T c]; simpl in *.
  - intros [Hrel Hn].
    destruct (@stack_load_dump_ok _ _ (nargs_stack_lawful tys unit _ _)
      (push_args tys stack_empty g) Hn) as (w & Hdump & Hlen & Hload).
    destruct (length_4_inv w Hlen) as (p0 & p1 & p2 & p3 & ->).
    exists p0, p1, p2, p3, mem. rewrite Hdump. split; [done|].
    unfold mbind, M_bind, lift, gets. simpl. rewrite Hload. simpl.
    destruct (pop_push_args tys mem g h Hrel unit stack_empty) as (rs & -> & ->). done.
  - intros (<- & Hd & Hlen). pose proof (Halloc (zlen (scale_encode g)) mem) as Ha.
    destruct (alloc _ mem) as [ptr mem1]. destruct Ha as [Hp Hw].
    destruct (Hw (scale_encode g) eq_refl) as [mem2 Hc]. rewrite Hc. simpl.
    do 5 eexists; split; [done|]. unfold mbind, M_bind, lift, gets. simpl.
    rewrite !(wrap_wrap U32 I32), !(wrap_id U32) by done.
    rewrite (read_written _ _ _ _ Hc). simpl. by rewrite Hd.
Qed.

Lemma check_redundant_NoDup ids (ms : list (OcallMethod Mem Env)) :
  check_redundant_ocall_id ids ms = true ->
  NoDup (om_id <$> ms) /\ forall m, m ∈ ms -> om_id m ∉ ids.
Proof.
  revert ids. induction ms as [|m ms IH]; intros ids; simpl.
  - intros _. split; [constructor|]. by intros ? ?%elem_of_nil.
  - case_bool_decide as Hin; [done|]. intros [Hnd Hout]%IH. split.
    + constructor; [|done]. intros (m' & Hm' & Hin')%list_elem_of_fmap.
      apply (Hout m' Hin'). rewrite <- Hm'. set_solver.
    + intros m' [->|Hm']%elem_of_cons; [done|]. specialize (Hout m' Hm'). set_solver.
Qed.

Lemma match_arms_found arm (ms : list (OcallMethod Mem Env)) m body :
  NoDup (om_id <$> ms) -> m ∈ ms -> arm m = Some body -> match_arms arm ms (om_id m) = body.
Proof.
  intros Hnd Hin Harm. induction Hin as [m ms|m m' ms Hin IH]; simpl.
  - by rewrite Harm, Z.eqb_refl.
  - inversion Hnd as [|? ? Hnot Hnd']; subst.
    destruct (arm m'); [|by apply IH].
    destruct (Z.eqb_spec (om_id m) (om_id m')) as [He|]; [|by apply IH].
    exfalso. apply Hnot. rewrite <- He. apply list_elem_of_fmap. eauto.
Qed.

Lemma methods_ok_spec (ms : list (OcallMethod Mem Env)) m : methods_ok ms = true -> m ∈ ms ->
  NoDup (om_id <$> ms) /\ (om_id m =? 0) = false.
Proof.
  unfold methods_ok. intros [Hid Hr]%andb_true_iff Hin.
  split; [by apply check_redundant_NoDup in Hr as [? _]|].
  apply forallb_forall with (x:=m) in Hid; [|by apply list_elem_of_In].
  unfold parse_id_ok in Hid. lia.
Qed.

Lemma host_ocall_fast ms id name i T c call p0 p1 p2 p3 s :
  let m := Method id name i (OutI32 T c) call in
  methods_ok ms = true -> m ∈ ms ->
  host_ocall ms true id p0 p1 p2 p3 s =
    let '(r, s) := (h ← parse_inputs i p0 p1 p2 p3; r ← call h;
                    (mret (to_i32 r) : M (Env * Mem) OcallError Z)) s in
    (encode_ret ((fun z => @Int I32 z) <$> r), s).
Proof.
  intros m Hok Hin. destruct (methods_ok_spec ms m Hok Hin) as [Hnd Hz].
  unfold host_ocall, dispatch_ocall. simpl in Hz. rewrite Hz.
  change id with (om_id m) at 1.
  by erewrite (match_arms_found _ ms m) by done.
Qed.

Lemma host_ocall_slow ms id name i T c call p0 p1 p2 p3 s :
  let m := Method id name i (OutEncoded T c) call in
  methods_ok ms = true -> m ∈ ms ->
  host_ocall ms false id p0 p1 p2 p3 s =
    let '(r, s) := (h ← parse_inputs i p0 p1 p2 p3; r ← call h; len ← put_ret (scale_encode r);
                    (mret (wrap I32 len) : M (Env * Mem) OcallError Z)) s in
    (encode_ret ((fun z => @Int I32 z) <$> r), s).
Proof.
  intros m Hok Hin. destruct (methods_ok_spec ms m Hok Hin) as [Hnd _].
  unfold host_ocall, dispatch_ocall. change id with (om_id m) at 1.
  by erewrite (match_arms_found _ ms m) by done.
Qed.

(** The guest reads back the [i32] or the error the dispatcher returned. *)
Lemma decode_i32_ret_ok (r : result OcallError Z) :
  match r with Ok z => in_range I32 z = true | Err _ => True end ->
  decode_i32_ret (encode_ret ((fun z => @Int I32 z) <$> r)) = Some r.
Proof.
  intros Hr. unfold decode_i32_ret. rewrite decode_encode_ret; [by destruct r|].
  by destruct r.
Qed.

Definition ret_wf {T} `{I32Lawful T} (r : result OcallError T) : Prop :=
  match r with Ok v => i32_wf v | Err _ => True end.

Lemma guest_call_fast ms id name i T c `{!@I32Lawful T c} call g h env mem :
  let m := Method id name i (OutI32 T c) call in
  methods_ok ms = true -> m ∈ ms -> input_rel i mem g h ->
  exists mem', snd <$> stub_args alloc i g mem = Some mem' /\
    let '(r, s) := call h (env, mem') in
    ret_wf r -> guest_call alloc ms m g (env, mem) = (Some r, s).
Proof.
  intros m Hok Hin Hrel.
  destruct (stub_parse i env mem g h Hrel) as (p0 & p1 & p2 & p3 & mem' & Hstub & Hparse).
  exists mem'. rewrite Hstub. split; [done|].
  destruct (call h (env, mem')) as [r s] eqn:Hcall. intros Hwf.
  unfold guest_call. cbn [m om_input om_output om_id encode_output negb fst snd].
  rewrite Hstub.
  rewrite (host_ocall_fast ms id name i T c call) by done.
  unfold mbind, M_bind. rewrite Hparse. cbn beta iota. rewrite Hcall.
  destruct r as [v|e]; unfold mret, M_ret.
  - rewrite decode_i32_ret_ok by (by apply to_i32_range).
    unfold fmap, option_fmap, option_map, mbind, result_bind. by rewrite from_to_i32.
  - by rewrite decode_i32_ret_ok.
Qed.

Lemma stub_get_return_ok ms T `{ScaleCodec T} v env mem :
  scale_decode (scale_encode v) = Some v -> in_range I32 (zlen (scale_encode v)) = true ->
  (take_return env).1 = Some (scale_encode v) ->
  exists mem', stub_get_return alloc ms T (zlen (scale_encode v)) (env, mem) =
    (Some (Ok v), ((take_return env).2, mem')).
Proof.
  intros Hd Hlen Htake. set (enc := scale_encode v) in *.
  unfold stub_get_return. rewrite (proj2 (Z.ltb_ge _ _)) by (unfold zlen; lia).
  cbn [fst snd]. pose proof (Halloc (zlen enc) mem) as Ha.
  destruct (alloc (zlen enc) mem) as [ptr mem1]. destruct Ha as [Hp Hw].
  destruct (Hw enc eq_refl) as [mem2 Hc].
  assert (Hret : host_ocall ms true 0 (wrap I32 ptr) (zlen enc) 0 0 (env, mem1) =
    (encode_ret (B:=OcallError) ((fun z => @Int I32 z) <$> @Ok OcallError Z (zlen enc)),
     ((take_return env).2, mem2))).
  { unfold host_ocall, dispatch_ocall. cbn [Z.eqb]. unfold call_get_return.
    destruct (take_return env) as [b env']. cbn [fst snd] in *. subst b.
    assert (0 <= zlen enc) by (unfold zlen; lia).
    rewrite (wrap_id U64 (zlen enc)), Z.eqb_refl by range_solve. cbn [negb].
    rewrite (wrap_wrap U32 I32), (wrap_id U32 ptr), Hc by done.
    by rewrite (wrap_wrap I32 U32), (wrap_id I32) by done. }
  rewrite Hret, decode_i32_ret_ok by done. rewrite Z.eqb_refl. cbn [negb fst snd].
  rewrite (read_written _ _ _ _ Hc). eexists. unfold fmap, option_fmap, option_map.
  by rewrite Hd.
Qed.

Lemma guest_call_slow ms id name i T c call g h env mem :
  let m := Method id name i (OutEncoded T c) call in
  methods_ok ms = true -> m ∈ ms -> input_rel i mem g h ->
  exists mem', snd <$> stub_args alloc i g mem = Some mem' /\
    let '(r, (env1, mem1)) := call h (env, mem') in
    match r with
    | Err e => guest_call alloc ms m g (env, mem) = (Some (Err e), (env1, mem1))
    | Ok v => scale_decode (scale_encode v) = Some v ->
        in_range I32 (zlen (scale_encode v)) = true ->
        exists mem2, guest_call alloc ms m g (env, mem) =
          (Some (Ok v), ((take_return (put_return (scale_encode v) env1).2).2, mem2))
    end.
Proof.
  intros m Hok Hin Hrel.
  destruct (stub_parse i env mem g h Hrel) as (p0 & p1 & p2 & p3 & mem' & Hstub & Hparse).
  exists mem'. rewrite Hstub. split; [done|].
  destruct (call h (env, mem')) as [r [env1 mem1]] eqn:Hcall.
  assert (Hgc : guest_call alloc ms m g (env, mem) =
    match r with
    | Err e => (Some (Err e), (env1, mem1))
    | Ok v => match decode_i32_ret (encode_ret (B:=OcallError)
                (Ok (@Int I32 (wrap I32 (put_return (scale_encode v) env1).1)))) with
              | None => (None, ((put_return (scale_encode v) env1).2, mem1))
              | Some (Err e) => (Some (Err e), ((put_return (scale_encode v) env1).2, mem1))
              | Some (Ok len) => stub_get_return alloc ms T len
                                   ((put_return (scale_encode v) env1).2, mem1)
              end
    end).
  { unfold guest_call. cbn [m om_input om_output om_id encode_output negb fst snd].
  rewrite Hstub.
    rewrite (host_ocall_slow ms id name i T c call) by done.
    unfold mbind, M_bind. rewrite Hparse. cbn beta iota. rewrite Hcall.
    destruct r as [v|e]; [|by rewrite decode_i32_ret_ok].
    unfold put_ret. by destruct (put_return (scale_encode v) env1). }
  rewrite Hgc. destruct r as [v|e]; [|done]. intros Hd Hlen.
  rewrite put_return_len, wrap_id by done.
  change (@Ok OcallError (int I32) (Int (zlen (scale_encode v))))
    with ((fun z => @Int I32 z) <$> (@Ok OcallError Z (zlen (scale_encode v)))).
  rewrite decode_i32_ret_ok by done.
  apply stub_get_return_ok; [done..|]. apply take_put_return.
Qed.
End Transparency.

(** ** Invariants across the dispatcher

    Whatever words a guest passes, the dispatcher only runs methods of the table
    and the two operations on the return slot. *)
Section DispatchInvariant.
Context {Mem Env : Type} `{GuestMemory Mem, OcallEnv Env}.
Context (P : Env -> Prop).
Hypothesis P_put : forall rv env, P env -> P (put_return rv env).2.
Hypothesis P_take : forall env, P env -> P (take_return env).2.

Abbreviation P' := (fun s : Env * Mem => P s.1).

Lemma parse_inputs_state i p0 p1 p2 p3 (s : Env * Mem) :
  (parse_inputs i p0 p1 p2 p3 s).2 = s.
Proof.
  unfold parse_inputs. destruct i as [tys|T c]; m_unfold.
  - destruct (ok_or (stack_load _) _); [|done].
    destruct (pop_args _ _ _) as [[]|]; done.
  - destruct (ok_or (as_slice _ _ _) _) as [o|]; [|done]. by destruct (ok_or o _).
Qed.

Lemma arm_preserves m p0 p1 p2 p3 :
  (forall h, preserves P' (om_call m h)) ->
  (forall b, fast_arm m p0 p1 p2 p3 = Some b -> preserves P' b) /\
  (forall b, slow_arm m p0 p1 p2 p3 = Some b -> preserves P' b).
Proof.
  intros Hcall. unfold fast_arm, slow_arm.
  assert (Hparse : preserves P' (parse_inputs (om_input m) p0 p1 p2 p3)).
  { intros s Hs. by rewrite parse_inputs_state. }
  destruct m as [mid name i [T c|T c] call]; simpl in *; split; intros b [= <-].
  - apply preserves_bind; [done|]. intros h. preserve.
  - apply preserves_bind; [done|]. intros h.
    apply preserves_bind; [apply Hcall|]. intros r.
    apply preserves_bind; [|intros; apply preserves_ret].
    intros [env mem] Hs. unfold put_ret. specialize (P_put (scale_encode r) env Hs).
    by destruct (put_return _ env).
Qed.

Lemma match_arms_preserves arm ms :
  Forall (fun m => forall b, arm m = Some b -> preserves P' b) ms ->
  forall fid, preserves P' (match_arms arm ms fid).
Proof.
  induction 1 as [|m ms Hm _ IH]; intros fid; simpl; [apply preserves_throw|].
  destruct (arm m) as [b|]; [|apply IH]. destruct (fid =? om_id m); [by apply Hm|apply IH].
Qed.

Lemma dispatch_preserves ms : Forall (fun m => forall h, preserves P' (om_call m h)) ms ->
  forall fast fid p0 p1 p2 p3, preserves P' (dispatch_ocall ms fast fid p0 p1 p2 p3).
Proof.
  intros Hms fast fid p0 p1 p2 p3. unfold dispatch_ocall. destruct fast; [destruct (fid =? 0)|].
  - intros [env mem] Hs. unfold call_get_return. specialize (P_take env Hs).
    destruct (take_return env) as [[b|] env']; [|done].
    destruct (negb _); [done|]. by destruct (copy_from_slice _ _ _).
  - apply match_arms_preserves. eapply Forall_impl; [done|]. intros m Hm b.
    by apply arm_preserves.
  - apply match_arms_preserves. eapply Forall_impl; [done|]. intros m Hm b.
    by apply arm_preserves.
Qed.
End DispatchInvariant.

(** ** Transparency *)

(** C1: a call of a method with a scalar result is transparent: if the host can
    read the arguments the guest passed, the guest's stub returns exactly what
    the method returned, errors included, and leaves the state the method left. *)
Theorem fast_call_transparent {Mem Env} `{MemLawful Mem, OcallEnvLawful Env} alloc ms
  fid name i T c `{!@I32Lawful T c} call g h (env : Env) mem :
  let m := Method fid name i (OutI32 T c) call in
  alloc_lawful alloc -> methods_ok ms = true -> m ∈ ms -> input_rel i mem g h ->
  exists mem', snd <$> stub_args alloc i g mem = Some mem' /\
    let '(r, s) := call h (env, mem') in
    ret_wf r -> guest_call alloc ms m g (env, mem) = (Some r, s).
Proof. intros m Halloc. by apply guest_call_fast. Qed.

(** C2: a call of a method with an encoded result is transparent: the result is
    parked in the return slot, fetched by a second call and decoded to the value
    the method returned; an error comes back at once; the slot ends up empty. *)
Theorem slow_call_transparent {Mem Env} `{MemLawful Mem, OcallEnvLawful Env} alloc ms
  fid name i T c call g h (env : Env) mem :
  let m := Method fid name i (OutEncoded T c) call in
  alloc_lawful alloc -> methods_ok ms = true -> m ∈ ms -> input_rel i mem g h ->
  exists mem', snd <$> stub_args alloc i g mem = Some mem' /\
    let '(r, (env1, mem1)) := call h (env, mem') in
    match r with
    | Err e => guest_call alloc ms m g (env, mem) = (Some (Err e), (env1, mem1))
    | Ok v => scale_decode (scale_encode v) = Some v ->
        in_range I32 (zlen (scale_encode v)) = true ->
        exists env2 mem2, guest_call alloc ms m g (env, mem) = (Some (Ok v), (env2, mem2)) /\
          (take_return env2).1 = None
    end.
Proof.
  intros m Halloc Hok Hin Hrel.
  destruct (guest_call_slow alloc Halloc ms fid name i T c call g h env mem Hok Hin Hrel)
    as (mem' & Hm & Hc).
  exists mem'. split; [done|]. destruct (call h (env, mem')) as [[v|e] [env1 mem1]]; [|done].
  intros Hd Hl. destruct (Hc Hd Hl) as [mem2 Hg]. do 2 eexists. split; [done|]. apply take_taken.
Qed.

(** Guest memory as a list of bytes, an allocator that grows it, and a bare
    return slot, for examples. *)
Definition in_bounds (mem : bytes) (ptr len : Z) : bool :=
  (0 <=? ptr) && (0 <=? len) && (ptr + len <=? zlen mem).
#[export] Instance list_memory : GuestMemory bytes := {|
  as_slice := fun mem ptr len =>
    if in_bounds mem ptr len then Some (Some (firstn (Z.to_nat len) (skipn (Z.to_nat ptr) mem)))
    else None;
  copy_from_slice := fun mem ptr bs =>
    if in_bounds mem ptr (zlen bs)
    then Some (firstn (Z.to_nat ptr) mem ++ bs ++ skipn (Z.to_nat (ptr + zlen bs)) mem) else None
|}.
#[export] Instance list_memory_lawful : MemLawful bytes.
Proof.
  intros mem ptr bs mem'. simpl. destruct (in_bounds mem ptr (zlen bs)) eqn:Hb; [|done].
  intros [= <-]. unfold in_bounds in *. prop_bools.
  assert (Hlen : zlen mem = zlen (firstn (Z.to_nat ptr) mem ++ bs ++
    skipn (Z.to_nat (ptr + zlen bs)) mem)).
  { unfold zlen in *. rewrite !length_app, length_take, length_drop. lia. }
  rewrite <- Hlen, (proj2 (Z.leb_le 0 ptr)), (proj2 (Z.leb_le 0 (zlen bs))),
    (proj2 (Z.leb_le _ (zlen mem))) by lia. simpl. do 2 f_equal.
  rewrite drop_app_length' by (unfold zlen in *; rewrite length_take; lia).
  by rewrite take_app_length' by (unfold zlen in *; lia).
Qed.
Definition list_alloc (len : Z) (mem : bytes) : Z * bytes :=
  (0, mem ++ replicate (Z.to_nat len) 0).
Lemma list_alloc_lawful : alloc_lawful list_alloc.
Proof.
  intros len mem. unfold list_alloc. split; [done|]. intros bs Hbs. simpl.
  assert (Hb : in_bounds (mem ++ replicate (Z.to_nat len) 0) 0 (zlen bs) = true).
  { unfold in_bounds. rewrite (proj2 (Z.leb_le 0 (zlen bs))) by auto with wapo.
    apply Z.leb_le. unfold zlen in *. rewrite length_app, length_replicate. lia. }
  rewrite Hb. eauto.
Qed.
#[export] Instance slot_env : OcallEnv (option bytes) := {|
  put_return := fun rv _ => (zlen rv, Some rv);
  take_return := fun s => (s, None)
|}.
#[export] Instance slot_env_lawful : OcallEnvLawful (option bytes).
Proof. by split. Qed.
#[local] Instance id_codec : ScaleCodec bytes := {| scale_encode := fun b => b; scale_decode := Some |}.

(** Two methods: one returns the length of its encoded argument, one the
    argument reversed, or an error when it is empty. *)
Definition toy_len : OcallMethod bytes (option bytes) :=
  Method 100 "len" (InEncoded bytes id_codec) (OutI32 (int I32) _)
    (fun b s => (Ok (Int (zlen b)), s)).
Definition toy_rev : OcallMethod bytes (option bytes) :=
  Method 101 "rev" (InEncoded bytes id_codec) (OutEncoded bytes id_codec)
    (fun b s => (match b with [] => Err InvalidParameter | _ => Ok (rev b) end, s)).

Lemma fast_call_transparent_witness :
  exists mem', snd <$> stub_args list_alloc (om_input toy_len) [5; 6] [] = Some mem' /\
    (@ret_wf (int I32) _ _ (Ok (Int (zlen [5; 6]))) ->
     guest_call list_alloc [toy_len; toy_rev] toy_len [5; 6] (None, []) =
      (Some (Ok (@Int I32 (zlen [5; 6]))), (None, mem'))).
Proof.
  apply (fast_call_transparent (Env:=option bytes) list_alloc [toy_len; toy_rev] 100 "len" (InEncoded bytes id_codec)
    (int I32) i32_convertible (fun b s => (Ok (Int (zlen b)), s)) [5; 6] [5; 6] None []).
  - apply list_alloc_lawful.
  - reflexivity.
  - apply list_elem_of_In. by left.
  - by split.
Defined.
Lemma slow_call_transparent_witness :
  exists mem', snd <$> stub_args list_alloc (om_input toy_rev) [5; 6] [] = Some mem' /\
    (Some [6; 5] = Some [6; 5] -> in_range I32 (zlen [6; 5]) = true ->
      exists env2 mem2, guest_call list_alloc [toy_len; toy_rev] toy_rev [5; 6] (None, []) =
        (Some (Ok [6; 5]), (env2, mem2)) /\ (take_return env2).1 = None).
Proof.
  apply (slow_call_transparent (Env:=option bytes) list_alloc [toy_len; toy_rev] 101 "rev" (InEncoded bytes id_codec)
    bytes id_codec
    (fun b s => (match b with [] => Err InvalidParameter | _ => Ok (rev b) end, s))
    [5; 6] [5; 6] None []).
  - apply list_alloc_lawful.
  - reflexivity.
  - apply list_elem_of_In. right. by left.
  - by split.
Defined.
