(* ===== verification/OcallDef.v ===== *)
(** * The ocall table (wapo-env/src/ocall_def.rs, tls.rs, messages.rs)

    The trait [OcallFuncs] as a class of methods over the host environment, and
    the method list the [#[ocall]] macro sees. *)
From S2P Require Import Prelude OcallError ArgsStack Ocall.

Inductive TlsServerConfig : Type := TlsServerV0 (cert key : str).
Inductive TlsClientConfig : Type := TlsClientV0.
Inductive InputChannel : Type := ChQuery | ChHttpRequest.

#[export] Instance InputChannel_eq_dec : EqDecision InputChannel.
Proof. solve_decision. Defined.

Definition InputChannel_to_i32 (c : InputChannel) : Z :=
  match c with ChQuery => 3 | ChHttpRequest => 4 end.
Definition InputChannel_from_i32 (i : Z) : result OcallError InputChannel :=
  match i with 3 => Ok ChQuery | 4 => Ok ChHttpRequest | _ => Err InvalidParameter end.
#[export] Instance InputChannel_convertible : I32Convertible InputChannel :=
  {| to_i32 := InputChannel_to_i32; from_i32 := InputChannel_from_i32 |}.
#[export] Instance InputChannel_lawful : I32Lawful InputChannel.
Proof. refine {| i32_wf := fun _ => True |}; by intros []. Defined.

(** wapod-types/src/metrics.rs: [MetricsToken]. *)
Record MetricsToken : Type := {
  mt_sn : Z;
  mt_session : bytes;
  mt_nonce : bytes
}.

(** [[u8; N]]. *)
Record array (n : nat) : Type := Arr { arr_bytes : bytes }.
Arguments Arr {n} _.
Arguments arr_bytes {n} _.

(** The SCALE codecs of the types that cross the boundary encoded. *)
Class OcallCodecs := {
  codec_vec_u8 :: ScaleCodec bytes;
  codec_vec_i32 :: ScaleCodec (list (int I32));
  codec_i32 :: ScaleCodec (int I32);
  codec_accept :: ScaleCodec (int I32 * str);
  codec_option_vec :: ScaleCodec (option bytes);
  codec_array32 :: ScaleCodec (array 32);
  codec_array64 :: ScaleCodec (array 64);
  codec_gas :: ScaleCodec (int U64 * MetricsToken);
  codec_unit :: ScaleCodec unit;
  codec_listen :: ScaleCodec (str * option TlsServerConfig);
  codec_connect_tls :: ScaleCodec (str * int U16 * TlsClientConfig);
  codec_listen_sni :: ScaleCodec (str * TlsServerConfig)
}.

(** [trait OcallFuncs] after [patch_ocall_trait]: [&mut self] is the pair of the
    environment and guest memory, into which [&mut [u8]] arguments point. *)
Class OcallFuncs (S : Type) := {
  f_close : int I32 -> M S OcallError unit;
  f_poll : int I32 -> int I32 -> M S OcallError bytes;
  f_poll_read : int I32 -> int I32 -> host_buf -> M S OcallError (int U32);
  f_poll_write : int I32 -> int I32 -> bytes -> M S OcallError (int U32);
  f_poll_shutdown : int I32 -> int I32 -> M S OcallError unit;
  f_poll_res : int I32 -> int I32 -> M S OcallError (int I32);
  f_mark_task_ready : int I32 -> M S OcallError unit;
  f_next_ready_task : M S OcallError (int I32);
  f_enable_ocall_trace : bool -> M S OcallError unit;
  f_awake_wakers : M S OcallError (list (int I32));
  f_getrandom : host_buf -> M S OcallError unit;
  f_create_timer : int I32 -> M S OcallError (int I32);
  f_reset_timer : int I32 -> int I32 -> M S OcallError unit;
  f_oneshot_send : int I32 -> bytes -> M S OcallError unit;
  f_oneshot_send_error : int I32 -> str -> M S OcallError unit;
  f_tcp_listen : str * option TlsServerConfig -> M S OcallError (int I32);
  f_tcp_accept : int I32 -> int I32 -> M S OcallError (int I32 * str);
  f_tcp_accept_no_addr : int I32 -> int I32 -> M S OcallError (int I32);
  f_tcp_connect : str -> int U16 -> M S OcallError (int I32);
  f_tcp_connect_tls : str * int U16 * TlsClientConfig -> M S OcallError (int I32);
  f_tls_listen_sni : str * TlsServerConfig -> M S OcallError (int I32);
  f_log : Level -> str -> M S OcallError unit;
  f_create_input_channel : InputChannel -> M S OcallError (int I32);
  f_app_address : M S OcallError (array 32);
  f_emit_program_output : bytes -> M S OcallError unit;
  f_blob_get : str -> M S OcallError bytes;
  f_sign : bytes -> M S OcallError bytes;
  f_worker_pubkey : M S OcallError (array 32);
  f_sgx_quote : bytes -> M S OcallError (option bytes);
  f_tip : int U64 -> M S OcallError unit;
  f_app_gas_consumed : M S OcallError (int U64 * MetricsToken);
  f_derive_secret : bytes -> M S OcallError (array 64);
  f_read_boot_data : M S OcallError (option bytes);
  f_write_boot_data : bytes -> M S OcallError unit;
  f_app_try_lock : str -> M S OcallError unit;
  f_app_unlock : str -> M S OcallError unit
}.

Section Table.
Context {Mem Env : Type} `{GuestMemory Mem, OcallEnv Env, F : OcallFuncs (Env * Mem)}.
Context `{OcallCodecs}.

(** The argument types of the trait. *)
Definition a_conv (I : Type) `{I32Convertible I} : arg_type Mem :=
  ArgType NoRef I I encode_i32able nargs_intptr nargs_intptr_lawful decode_i32able.
Definition a_i32 : arg_type Mem := a_conv (int I32).
Definition a_u16 : arg_type Mem := a_conv (int U16).
Definition a_u64 : arg_type Mem :=
  ArgType NoRef (int U64) (int U64) _ nargs_pair nargs_pair_lawful decode_u64.
Definition a_bytes : arg_type Mem :=
  ArgType SharedRef guest_ref bytes _ nargs_pair nargs_pair_lawful decode_bytes.
Definition a_str : arg_type Mem :=
  ArgType SharedRef guest_ref str _ nargs_pair nargs_pair_lawful decode_str.
Definition a_bytes_mut : arg_type Mem :=
  ArgType MutRef guest_ref host_buf _ nargs_pair nargs_pair_lawful decode_bytes_mut.

Definition o_conv (T : Type) `{I32Convertible T} : output_spec := OutI32 T _.
Definition o_enc (T : Type) `{ScaleCodec T} : output_spec := OutEncoded T _.

(** Adapters from the nested tuple of arguments to curried methods. *)
Definition call0 {R} (m : R) : host_args (Mem:=Mem) [] -> R := fun _ => m.
Definition call1 {a : arg_type Mem} {R} (f : at_host a -> R) : host_args [a] -> R :=
  fun '(x, _) => f x.
Definition call2 {a b : arg_type Mem} {R} (f : at_host a -> at_host b -> R)
  : host_args [a; b] -> R := fun '(x, (y, _)) => f x y.
Definition call3 {a b c : arg_type Mem} {R} (f : at_host a -> at_host b -> at_host c -> R)
  : host_args [a; b; c] -> R := fun '(x, (y, (z, _))) => f x y z.

Definition m_close : OcallMethod Mem Env :=
  Method 101 "close" (InStack [a_i32]) (o_conv unit) (call1 (a:=a_i32) f_close).
Definition m_poll : OcallMethod Mem Env :=
  Method 102 "poll" (InStack [a_i32; a_i32]) (o_enc bytes) (call2 (a:=a_i32) (b:=a_i32) f_poll).
Definition m_poll_read : OcallMethod Mem Env :=
  Method 103 "poll_read" (InStack [a_i32; a_i32; a_bytes_mut]) (o_conv (int U32))
    (call3 (a:=a_i32) (b:=a_i32) (c:=a_bytes_mut) f_poll_read).
Definition m_poll_write : OcallMethod Mem Env :=
  Method 104 "poll_write" (InStack [a_i32; a_i32; a_bytes]) (o_conv (int U32))
    (call3 (a:=a_i32) (b:=a_i32) (c:=a_bytes) f_poll_write).
Definition m_poll_shutdown : OcallMethod Mem Env :=
  Method 105 "poll_shutdown" (InStack [a_i32; a_i32]) (o_conv unit)
    (call2 (a:=a_i32) (b:=a_i32) f_poll_shutdown).
Definition m_poll_res : OcallMethod Mem Env :=
  Method 106 "poll_res" (InStack [a_i32; a_i32]) (o_conv (int I32))
    (call2 (a:=a_i32) (b:=a_i32) f_poll_res).
Definition m_mark_task_ready : OcallMethod Mem Env :=
  Method 109 "mark_task_ready" (InStack [a_i32]) (o_conv unit) (call1 (a:=a_i32) f_mark_task_ready).
Definition m_next_ready_task : OcallMethod Mem Env :=
  Method 110 "next_ready_task" (InStack []) (o_conv (int I32)) (call0 f_next_ready_task).
Definition m_enable_ocall_trace : OcallMethod Mem Env :=
  Method 111 "enable_ocall_trace" (InStack [a_conv bool]) (o_conv unit)
    (call1 (a:=a_conv bool) f_enable_ocall_trace).
Definition m_awake_wakers : OcallMethod Mem Env :=
  Method 112 "awake_wakers" (InStack []) (o_enc (list (int I32))) (call0 f_awake_wakers).
Definition m_getrandom : OcallMethod Mem Env :=
  Method 113 "getrandom" (InStack [a_bytes_mut]) (o_conv unit) (call1 (a:=a_bytes_mut) f_getrandom).
Definition m_create_timer : OcallMethod Mem Env :=
  Method 201 "create_timer" (InStack [a_i32]) (o_conv (int I32)) (call1 (a:=a_i32) f_create_timer).
Definition m_reset_timer : OcallMethod Mem Env :=
  Method 203 "reset_timer" (InStack [a_i32; a_i32]) (o_conv unit)
    (call2 (a:=a_i32) (b:=a_i32) f_reset_timer).
Definition m_oneshot_send : OcallMethod Mem Env :=
  Method 202 "oneshot_send" (InStack [a_i32; a_bytes]) (o_conv unit)
    (call2 (a:=a_i32) (b:=a_bytes) f_oneshot_send).
Definition m_oneshot_send_error : OcallMethod Mem Env :=
  Method 204 "oneshot_send_error" (InStack [a_i32; a_str]) (o_conv unit)
    (call2 (a:=a_i32) (b:=a_str) f_oneshot_send_error).
Definition m_tcp_listen : OcallMethod Mem Env :=
  Method 210 "tcp_listen" (InEncoded (str * option TlsServerConfig) _) (o_conv (int I32))
    f_tcp_listen.
Definition m_tcp_accept : OcallMethod Mem Env :=
  Method 211 "tcp_accept" (InStack [a_i32; a_i32]) (o_enc (int I32 * str))
    (call2 (a:=a_i32) (b:=a_i32) f_tcp_accept).
Definition m_tcp_accept_no_addr : OcallMethod Mem Env :=
  Method 212 "tcp_accept_no_addr" (InStack [a_i32; a_i32]) (o_conv (int I32))
    (call2 (a:=a_i32) (b:=a_i32) f_tcp_accept_no_addr).
Definition m_tcp_connect : OcallMethod Mem Env :=
  Method 213 "tcp_connect" (InStack [a_str; a_u16]) (o_conv (int I32))
    (call2 (a:=a_str) (b:=a_u16) f_tcp_connect).
Definition m_tcp_connect_tls : OcallMethod Mem Env :=
  Method 214 "tcp_connect_tls" (InEncoded (str * int U16 * TlsClientConfig) _) (o_conv (int I32))
    f_tcp_connect_tls.
Definition m_tls_listen_sni : OcallMethod Mem Env :=
  Method 215 "tls_listen_sni" (InEncoded (str * TlsServerConfig) _) (o_conv (int I32))
    f_tls_listen_sni.
Definition m_log : OcallMethod Mem Env :=
  Method 220 "log" (InStack [a_conv Level; a_str]) (o_conv unit)
    (call2 (a:=a_conv Level) (b:=a_str) f_log).
Definition m_create_input_channel : OcallMethod Mem Env :=
  Method 240 "create_input_channel" (InStack [a_conv InputChannel]) (o_enc (int I32))
    (call1 (a:=a_conv InputChannel) f_create_input_channel).
Definition m_app_address : OcallMethod Mem Env :=
  Method 242 "app_address" (InStack []) (o_enc (array 32)) (call0 f_app_address).
Definition m_emit_program_output : OcallMethod Mem Env :=
  Method 243 "emit_program_output" (InStack [a_bytes]) (o_conv unit)
    (call1 (a:=a_bytes) f_emit_program_output).
Definition m_blob_get : OcallMethod Mem Env :=
  Method 244 "blob_get" (InStack [a_str]) (o_enc bytes) (call1 (a:=a_str) f_blob_get).
Definition m_sign : OcallMethod Mem Env :=
  Method 250 "sign" (InStack [a_bytes]) (o_enc bytes) (call1 (a:=a_bytes) f_sign).
Definition m_worker_pubkey : OcallMethod Mem Env :=
  Method 251 "worker_pubkey" (InStack []) (o_enc (array 32)) (call0 f_worker_pubkey).
Definition m_sgx_quote : OcallMethod Mem Env :=
  Method 252 "sgx_quote" (InStack [a_bytes]) (o_enc (option bytes)) (call1 (a:=a_bytes) f_sgx_quote).
Definition m_tip : OcallMethod Mem Env :=
  Method 253 "tip" (InStack [a_u64]) (o_conv unit) (call1 (a:=a_u64) f_tip).
Definition m_app_gas_consumed : OcallMethod Mem Env :=
  Method 254 "app_gas_consumed" (InStack []) (o_enc (int U64 * MetricsToken)) (call0 f_app_gas_consumed).
Definition m_derive_secret : OcallMethod Mem Env :=
  Method 255 "derive_secret" (InStack [a_bytes]) (o_enc (array 64)) (call1 (a:=a_bytes) f_derive_secret).
Definition m_read_boot_data : OcallMethod Mem Env :=
  Method 260 "read_boot_data" (InStack []) (o_enc (option bytes)) (call0 f_read_boot_data).
Definition m_write_boot_data : OcallMethod Mem Env :=
  Method 261 "write_boot_data" (InStack [a_bytes]) (o_enc unit) (call1 (a:=a_bytes) f_write_boot_data).
Definition m_app_try_lock : OcallMethod Mem Env :=
  Method 262 "app_try_lock" (InStack [a_str]) (o_conv unit) (call1 (a:=a_str) f_app_try_lock).
Definition m_app_unlock : OcallMethod Mem Env :=
  Method 263 "app_unlock" (InStack [a_str]) (o_conv unit) (call1 (a:=a_str) f_app_unlock).

(** In the order of the trait. *)
Definition ocall_table : list (OcallMethod Mem Env) :=
  [ m_close; m_poll; m_poll_read; m_poll_write; m_poll_shutdown; m_poll_res;
    m_mark_task_ready; m_next_ready_task; m_enable_ocall_trace; m_awake_wakers;
    m_getrandom; m_create_timer; m_reset_timer; m_oneshot_send; m_oneshot_send_error;
    m_tcp_listen; m_tcp_accept; m_tcp_accept_no_addr; m_tcp_connect; m_tcp_connect_tls;
    m_tls_listen_sni; m_log; m_create_input_channel; m_app_address; m_emit_program_output;
    m_blob_get; m_sign; m_worker_pubkey; m_sgx_quote; m_tip; m_app_gas_consumed;
    m_derive_secret; m_read_boot_data; m_write_boot_data; m_app_try_lock; m_app_unlock ].

(** The [#[ocall]] macro accepts the trait: every id is at least 100 and
    occurs once, no method mixes a [&mut] argument with another borrow, and every
    method's arguments fit the four words of an ocall. *)
Theorem ocall_table_accepted :
  methods_ok ocall_table = true /\ forallb check_args_multi_ref ocall_table = true /\
  forallb check_n_args ocall_table = true.
Proof. split_and!; vm_compute; reflexivity. Qed.

Lemma ocall_table_ok : methods_ok ocall_table = true.
Proof. vm_compute. reflexivity. Qed.

Lemma m_tip_in_table : m_tip ∈ ocall_table.
Proof. apply list_elem_of_In. unfold ocall_table. do 29 right. by left. Qed.

Lemma decode64_small v : 0 <= v < 2 ^ 32 -> decode64 U64 (encode64 v) = 0.
Proof.
  intros Hv. unfold decode64, encode64.
  rewrite Z.shiftr_div_pow2, (Z.div_small v) by lia. apply Z.land_0_l.
Qed.

(** Whatever tip below 2^32 a guest passes, the host's [tip] runs with 0, because
    the decoder combines the two halves with [&]. *)
Lemma guest_tip_zero `{!MemLawful Mem, !OcallEnvLawful Env} alloc v env mem :
  alloc_lawful alloc -> 0 <= v < 2 ^ 32 ->
  guest_call alloc ocall_table m_tip (@Int U64 v, tt) (env, mem) =
    let '(r, s) := f_tip (@Int U64 0) (env, mem) in (Some r, s).
Proof.
  intros Halloc Hv.
  destruct (guest_call_fast alloc Halloc ocall_table 253 "tip" (InStack [a_u64]) unit _
    (call1 (a:=a_u64) f_tip) (@Int U64 v, tt) (@Int U64 0, tt) env mem)
    as (mem' & Hmem & Hcall).
  - apply ocall_table_ok.
  - apply m_tip_in_table.
  - split; [|done]. split; [|done]. exists (@Int U64 0). simpl.
    by rewrite decode64_small.
  - vm_compute in Hmem. simplify_eq. simpl in Hcall.
    destruct (f_tip (Int 0) (env, mem')) as [r s]. by apply Hcall; destruct r.
Qed.
End Table.
