(* ===== verification/Meter.v ===== *)
(** * Metering (wapo-host/src/runtime/metrics.rs, the gas accounting of run.rs)

    [Metrics] is the value reported for an app, [Meter] the counters of one VM.
    Counters are [AtomicU64]: [fetch_add] wraps.  A [Duration] is its number of
    nanoseconds. *)
From S2P Require Import Prelude.

Record Metrics : Type := MkMetrics {
  gas_consumed : Z;
  net_egress : Z;
  net_ingress : Z;
  storage_read : Z;
  storage_written : Z;
  storage_used : Z;
  memory_used : Z;
  starts : Z;
  tip : Z;
  duration : Z
}.

(** [Duration::MAX] in nanoseconds. *)
Definition duration_max : Z := 2 ^ 64 * 1000000000 - 1.
Definition duration_sat_add (a b : Z) : Z := Z.min (a + b) duration_max.

Definition Metrics_default : Metrics := MkMetrics 0 0 0 0 0 0 0 0 0 0.

(** [merge]; [merged], [Add] and [AddAssign] are this function. *)
Definition merge (self other : Metrics) : Metrics := {|
  gas_consumed := sat_add U64 (gas_consumed self) (gas_consumed other);
  net_egress := sat_add U64 (net_egress self) (net_egress other);
  net_ingress := sat_add U64 (net_ingress self) (net_ingress other);
  storage_read := sat_add U64 (storage_read self) (storage_read other);
  storage_written := sat_add U64 (storage_written self) (storage_written other);
  memory_used := sat_add U64 (memory_used self) (memory_used other);
  storage_used := 0;
  starts := sat_add U64 (starts self) (starts other);
  tip := sat_add U64 (tip self) (tip other);
  duration := duration_sat_add (duration self) (duration other)
|}.

Record Meter : Type := MkMeter {
  created_at : Z;
  m_gas_consumed : Z;
  m_memory_used : Z;
  m_net_egress : Z;
  m_net_ingress : Z;
  m_storage_read : Z;
  m_storage_written : Z;
  m_tip : Z;
  m_stopped : bool
}.

Definition Meter_default (now : Z) : Meter := MkMeter now 0 0 0 0 0 0 0 false.

Definition fetch_add (counter v : Z) : Z := wrap U64 (counter + v).

Definition set_gas_comsumed (gas : Z) (m : Meter) : Meter :=
  MkMeter (created_at m) gas (m_memory_used m) (m_net_egress m) (m_net_ingress m)
    (m_storage_read m) (m_storage_written m) (m_tip m) (m_stopped m).
Definition record_gas (gas : Z) (m : Meter) : Meter :=
  MkMeter (created_at m) (fetch_add (m_gas_consumed m) gas) (m_memory_used m) (m_net_egress m)
    (m_net_ingress m) (m_storage_read m) (m_storage_written m) (m_tip m) (m_stopped m).
Definition record_net_egress (n : Z) (m : Meter) : Meter :=
  MkMeter (created_at m) (m_gas_consumed m) (m_memory_used m) (fetch_add (m_net_egress m) n)
    (m_net_ingress m) (m_storage_read m) (m_storage_written m) (m_tip m) (m_stopped m).
Definition record_net_ingress (n : Z) (m : Meter) : Meter :=
  MkMeter (created_at m) (m_gas_consumed m) (m_memory_used m) (m_net_egress m)
    (fetch_add (m_net_ingress m) n) (m_storage_read m) (m_storage_written m) (m_tip m) (m_stopped m).
Definition record_storage_read (n : Z) (m : Meter) : Meter :=
  MkMeter (created_at m) (m_gas_consumed m) (m_memory_used m) (m_net_egress m)
    (m_net_ingress m) (fetch_add (m_storage_read m) n) (m_storage_written m) (m_tip m) (m_stopped m).
Definition record_storage_written (n : Z) (m : Meter) : Meter :=
  MkMeter (created_at m) (m_gas_consumed m) (m_memory_used m) (m_net_egress m)
    (m_net_ingress m) (m_storage_read m) (fetch_add (m_storage_written m) n) (m_tip m) (m_stopped m).
Definition set_tip (t : Z) (m : Meter) : Meter :=
  MkMeter (created_at m) (m_gas_consumed m) (m_memory_used m) (m_net_egress m)
    (m_net_ingress m) (m_storage_read m) (m_storage_written m) t (m_stopped m).

Definition record_tcp_connect_start : Meter -> Meter := record_net_egress 512.
Definition record_tls_connect_start : Meter -> Meter := record_net_egress 4096.
Definition record_tcp_connect_done : Meter -> Meter := record_net_ingress 512.
Definition record_tls_connect_done : Meter -> Meter := record_net_ingress 4096.
Definition record_tcp_shutdown : Meter -> Meter := record_net_egress 128.

(** [add_tip]: a wrapping [fetch_add], repaired by a store when it overflowed. *)
Definition add_tip (value : Z) (m : Meter) : Meter :=
  let previous := m_tip m in
  let m := set_tip (fetch_add previous value) m in
  if in_range U64 (previous + value) then m else set_tip (int_max U64) m.

Definition meter_stop (m : Meter) : Meter :=
  MkMeter (created_at m) (m_gas_consumed m) (m_memory_used m) (m_net_egress m)
    (m_net_ingress m) (m_storage_read m) (m_storage_written m) (m_tip m) true.

Definition to_metrics (now : Z) (m : Meter) : Metrics := {|
  gas_consumed := m_gas_consumed m;
  memory_used := m_memory_used m;
  net_egress := m_net_egress m;
  net_ingress := m_net_ingress m;
  storage_read := m_storage_read m;
  storage_written := m_storage_written m;
  storage_used := 0;
  tip := m_tip m;
  starts := 1;
  duration := now - created_at m
|}.

(** ** run.rs: fuel to gas *)

(** The wasm store's fuel, with the meter of its VM. *)
Record FuelStore : Type := { fuel : Z; fs_meter : Meter }.

Definition consumed_fuel (s : FuelStore) : Z := int_max U64 - fuel s.

(** [sync_gas]. *)
Definition sync_gas (s : FuelStore) : FuelStore :=
  let consumed := consumed_fuel s in
  if 1024 * 16 <? consumed
  then {| fuel := int_max U64; fs_meter := record_gas (consumed `div` 1024) (fs_meter s) |}
  else s.

(** The guest burning [c] units of fuel between two syncs. *)
Definition burn (c : Z) (s : FuelStore) : FuelStore :=
  {| fuel := fuel s - c; fs_meter := fs_meter s |}.

Definition burn_sync (s : FuelStore) (c : Z) : FuelStore := sync_gas (burn c s).

(** Every counter is a [u64] and the duration a [Duration]. *)
Definition metrics_wf (m : Metrics) : Prop :=
  Forall (fun z => in_range U64 z = true)
    [gas_consumed m; net_egress m; net_ingress m; storage_read m; storage_written m;
     storage_used m; memory_used m; starts m; tip m] /\
  0 <= duration m <= duration_max.

(** Field by field, nothing reported shrinks ([storage_used] apart, which no
    code meters). *)
Definition metrics_le (a b : Metrics) : Prop :=
  gas_consumed a <= gas_consumed b /\ net_egress a <= net_egress b /\
  net_ingress a <= net_ingress b /\ storage_read a <= storage_read b /\
  storage_written a <= storage_written b /\ memory_used a <= memory_used b /\
  starts a <= starts b /\ tip a <= tip b /\ duration a <= duration b.

Definition sumZ (l : list Z) : Z := foldr Z.add 0 l.

#[global] Arguments duration_sat_add : simpl never.

Ltac metrics_cases :=
  repeat match goal with
  | H : metrics_wf ?m |- _ => destruct m; destruct H as [H ?]
  | H : Forall _ (_ :: _) |- _ => apply Forall_cons_1 in H; destruct H as [? H]
  | H : Forall _ [] |- _ => clear H
  end; simpl in *.

Lemma merge_comm a b : merge a b = merge b a.
Proof.
  unfold merge. f_equal; try apply sat_add_comm. unfold duration_sat_add. f_equal. lia.
Qed.

Lemma merge_assoc a b c : metrics_wf a -> metrics_wf b -> metrics_wf c ->
  merge (merge a b) c = merge a (merge b c).
Proof.
  intros Ha Hb Hc. metrics_cases. unfold merge; simpl.
  repeat match goal with H : in_range U64 _ = true |- _ => apply in_range_spec in H end.
  const_bounds. f_equal; try (apply sat_add_assoc; lia). unfold duration_sat_add in *. lia.
Qed.

Lemma sat_add_range a b : in_range U64 a = true -> in_range U64 b = true ->
  in_range U64 (sat_add U64 a b) = true.
Proof. unfold sat_add. intros. range_solve. Qed.

Lemma merge_wf a b : metrics_wf a -> metrics_wf b -> metrics_wf (merge a b).
Proof.
  intros Ha Hb. metrics_cases. split; simpl.
  - repeat constructor; auto using sat_add_range.
  - unfold duration_sat_add. lia.
Qed.

Lemma merge_le_l a b : metrics_wf a -> metrics_wf b -> metrics_le a (merge a b).
Proof.
  intros Ha Hb. metrics_cases. unfold metrics_le, merge, sat_add, duration_sat_add; simpl.
  repeat match goal with H : in_range U64 _ = true |- _ => apply in_range_spec in H end.
  const_bounds. lia.
Qed.

Lemma metrics_wf_default : metrics_wf Metrics_default.
Proof. split; [repeat constructor | unfold duration_max; simpl; lia]. Qed.

#[export] Hint Resolve merge_wf metrics_wf_default : wapo.

Lemma fold_merge_swap init x l : metrics_wf init -> metrics_wf x -> Forall metrics_wf l ->
  foldl merge (merge init x) l = merge (foldl merge init l) x.
Proof.
  intros Hi Hx Hl. revert init Hi. induction Hl as [|y l Hy Hl IH]; intros init Hi; simpl; [done|].
  rewrite merge_assoc, (merge_comm x), <- merge_assoc by done. auto with wapo.
Qed.

Lemma fold_merge_perm init l k : metrics_wf init -> Forall metrics_wf l -> l ≡ₚ k ->
  foldl merge init l = foldl merge init k.
Proof.
  intros Hi Hl Hp. revert init Hi Hl.
  induction Hp as [|x l k Hp IH|x y l|l k j Hp IH Hp' IH']; intros init Hi Hl; simpl; [done|..].
  - inversion Hl; subst. apply IH; auto with wapo.
  - inversion Hl as [|? ? Hy Hl']; subst. inversion Hl' as [|? ? Hx Hl'']; subst.
    by rewrite !(merge_assoc init), (merge_comm y).
  - rewrite IH by done. apply IH'; [done|]. by rewrite <- Hp.
Qed.

Lemma add_tip_sat v m : in_range U64 (m_tip m) = true -> in_range U64 v = true ->
  m_tip (add_tip v m) = sat_add U64 (m_tip m) v.
Proof.
  intros Hm Hv. unfold add_tip, fetch_add, sat_add.
  destruct (in_range U64 (m_tip m + v)) eqn:Hr; simpl.
  - rewrite wrap_id by done. range_solve.
  - assert (~ (int_min U64 <= m_tip m + v <= int_max U64)).
    { intros ?%in_range_spec. congruence. }
    range_solve.
Qed.

Lemma sumZ_nonneg l : Forall (fun z => 0 <= z) l -> 0 <= sumZ l.
Proof. unfold sumZ. induction 1; simpl; lia. Qed.

(** Tips saturate: after any sequence of tips the meter holds their sum, or
    [u64::MAX] once the sum exceeds it; the wrapped value is never left behind. *)
Theorem tips_saturate vs m : in_range U64 (m_tip m) = true ->
  Forall (fun v => in_range U64 v = true) vs ->
  m_tip (foldl (fun m v => add_tip v m) m vs) = Z.min (m_tip m + sumZ vs) (int_max U64).
Proof.
  intros Hm Hvs. revert m Hm. induction Hvs as [|v vs Hv Hvs IH]; intros m Hm; simpl.
  - range_solve.
  - rewrite IH; rewrite add_tip_sat by done; [|by apply sat_add_range].
    assert (0 <= sumZ vs).
    { apply sumZ_nonneg. eapply Forall_impl; [exact Hvs|]. cbn beta. intros. range_solve. }
    unfold sat_add. change (sumZ (v :: vs)) with (v + sumZ vs). range_solve.
Qed.

Lemma tips_saturate_witness :
  m_tip (foldl (fun m v => add_tip v m) (Meter_default 0) [5; 2 ^ 64 - 1; 7]) = 2 ^ 64 - 1.
Proof.
  rewrite (tips_saturate [5; 2 ^ 64 - 1; 7] (Meter_default 0));
    [reflexivity | reflexivity | repeat constructor].
Defined.

(** One burn-and-sync step keeps the fuel in range and accounts for all but a
    remainder below 1024 of what was burnt. *)
Lemma burn_sync_step s c : 0 <= c -> consumed_fuel s <= 16384 ->
  0 <= consumed_fuel s -> consumed_fuel s + c <= int_max U64 ->
  m_gas_consumed (fs_meter s) + (consumed_fuel s + c) `div` 1024 <= int_max U64 ->
  0 <= m_gas_consumed (fs_meter s) ->
  let s' := burn_sync s c in
  0 <= consumed_fuel s' <= 16384 /\
  m_gas_consumed (fs_meter s) <= m_gas_consumed (fs_meter s') /\
  let before := 1024 * m_gas_consumed (fs_meter s) + consumed_fuel s + c in
  let after := 1024 * m_gas_consumed (fs_meter s') + consumed_fuel s' in
  before - 1023 <= after <= before.
Proof.
  intros Hc Hs Hs0 Hm Hg Hg0. unfold burn_sync, sync_gas.
  assert (Hb : consumed_fuel (burn c s) = consumed_fuel s + c).
  { unfold consumed_fuel, burn. simpl. lia. }
  rewrite Hb. destruct (Z.ltb_spec (1024 * 16) (consumed_fuel s + c)) as [Hlt|Hge].
  - assert (Hg' : m_gas_consumed (record_gas ((consumed_fuel s + c) `div` 1024) (fs_meter (burn c s)))
      = m_gas_consumed (fs_meter s) + (consumed_fuel s + c) `div` 1024).
    { simpl. unfold fetch_add. apply wrap_id. apply in_range_spec. const_bounds.
      pose proof (Z.div_pos (consumed_fuel s + c) 1024). lia. }
    set (mt := record_gas _ _) in *.
    assert (Hc0 : consumed_fuel {| fuel := int_max U64; fs_meter := mt |} = 0)
      by (unfold consumed_fuel; cbn [fuel]; lia).
    cbv zeta. rewrite Hc0. cbn [fs_meter]. rewrite Hg'.
    pose proof (Z.div_mod (consumed_fuel s + c) 1024).
    pose proof (Z.mod_pos_bound (consumed_fuel s + c) 1024). lia.
  - rewrite Hb. simpl. lia.
Qed.

(** Gas accounting never overcharges and loses less than 1024 units of fuel
    per sync: after any run of burns, each followed by [sync_gas], 1024 times the
    recorded gas plus the still unsynced fuel lies between the fuel burnt minus
    1023 per sync and the fuel burnt, and the unsynced part is at most 16384. *)
Theorem sync_gas_accounting cs s :
  Forall (fun c => 0 <= c) cs -> 0 <= consumed_fuel s <= 16384 ->
  0 <= m_gas_consumed (fs_meter s) ->
  consumed_fuel s + sumZ cs + m_gas_consumed (fs_meter s) * 1024 <= int_max U64 ->
  let s' := foldl burn_sync s cs in
  let total := 1024 * m_gas_consumed (fs_meter s) + consumed_fuel s + sumZ cs in
  let booked := 1024 * m_gas_consumed (fs_meter s') + consumed_fuel s' in
  total - 1023 * zlen cs <= booked <= total /\ 0 <= consumed_fuel s' <= 16384.
Proof.
  intros Hcs. revert s. induction Hcs as [|c cs Hc Hcs IH]; intros s Hs Hg Hmax.
  { unfold zlen. simpl. lia. }
  pose proof (sumZ_nonneg cs Hcs) as Hsum.
  change (sumZ (c :: cs)) with (c + sumZ cs) in *.
  assert (Hq : (consumed_fuel s + c) `div` 1024 <= consumed_fuel s + c)
    by (apply Z.div_le_upper_bound; lia).
  destruct (burn_sync_step s c) as (Hs' & Hg' & Hacc); try lia. cbv zeta in Hacc.
  destruct (IH (burn_sync s c)) as [Hb Hc']; try lia.
  cbn [foldl]. cbv zeta in *. split; [|done]. unfold zlen in *. cbn [length] in *. lia.
Qed.

Lemma sync_gas_accounting_witness :
  let s := {| fuel := 2 ^ 64 - 1; fs_meter := Meter_default 0 |} in
  let s' := foldl burn_sync s [20000; 100; 17000] in
  20000 + 100 + 17000 - 3069 <= 1024 * m_gas_consumed (fs_meter s') + consumed_fuel s'
    <= 20000 + 100 + 17000.
Proof.
  refine (proj1 (sync_gas_accounting [20000; 100; 17000]
    {| fuel := 2 ^ 64 - 1; fs_meter := Meter_default 0 |} _ _ _ _));
    [repeat constructor; lia | vm_compute; intuition discriminate
    | vm_compute; discriminate | vm_compute; discriminate].
Defined.
