(* ===== verification/Resource.v ===== *)
(** * Host resources (wapo-host/src/runtime/resource.rs)

    The table that gives guests small integer ids for host objects, and the poll
    operations of a resource.  tokio's objects are handles into an outside world
    [W]; their operations are the class [Tokio]. *)
From S2P Require Import Prelude OcallError Meter.

(** [std::task::Poll]. *)
Inductive poll (A : Type) : Type := PReady (a : A) | PPending.
Arguments PReady {A} a.
Arguments PPending {A}.

(** [io::Error], as far as the code looks: [WouldBlock] or not. *)
Inductive io_error : Type := WouldBlock | OtherIo.

(** The asynchronous objects a resource can hold, and what the host asks of
    them.  Reads return the bytes read into a buffer of the given size. *)
Class Tokio (W : Type) := {
  Sleep : Type;
  Receiver : Type;
  OneshotSender : Type;
  TcpListener : Type;
  TcpStream : Type;
  TlsStream : Type;
  TcpConnectFut : Type;
  TlsConnectFut : Type;
  DuplexStream : Type;
  SniSubscription : Type;
  ServerConfig : Type;
  poll_sleep : Sleep -> W -> poll unit * W;
  poll_recv : Receiver -> W -> poll (option bytes) * W;
  tcp_try_read : TcpStream -> Z -> W -> result io_error bytes * W;
  tcp_poll_read_ready : TcpStream -> W -> poll (result io_error unit) * W;
  tcp_try_write : TcpStream -> bytes -> W -> result io_error Z * W;
  tcp_poll_write_ready : TcpStream -> W -> poll (result io_error unit) * W;
  tcp_poll_shutdown : TcpStream -> W -> poll (result io_error unit) * W;
  tls_poll_read : TlsStream -> Z -> W -> poll (result io_error bytes) * W;
  tls_poll_write : TlsStream -> bytes -> W -> poll (result io_error Z) * W;
  tls_poll_shutdown : TlsStream -> W -> poll (result io_error unit) * W;
  duplex_poll_read : DuplexStream -> Z -> W -> poll (result io_error bytes) * W;
  duplex_poll_write : DuplexStream -> bytes -> W -> poll (result io_error Z) * W;
  duplex_poll_shutdown : DuplexStream -> W -> poll (result io_error unit) * W;
  poll_tcp_connect : TcpConnectFut -> W -> poll (result io_error TcpStream) * W;
  poll_tls_connect : TlsConnectFut -> W -> poll (result io_error TlsStream) * W
}.

Section Resources.
Context {W : Type} `{Tokio W}.

(** [TcpListenerResource]. *)
Record TcpListenerResource : Type := {
  tlr_listener : TcpListener;
  tlr_tls_config : option ServerConfig
}.

Inductive Resource : Type :=
| RSleep (s : Sleep)
| RChannelRx (rx : Receiver)
| ROneshotTx (tx : option OneshotSender)
| RTcpListener (l : TcpListenerResource)
| RTcpStream (s : TcpStream)
| RTlsStream (s : TlsStream)
| RTcpConnect (f : TcpConnectFut)
| RTlsConnect (f : TlsConnectFut)
| RDuplexStream (s : DuplexStream)
| RSniSubscription (s : SniSubscription).

(** The state a poll works on: the meter and the outside world. *)
Abbreviation PollM := (M (Meter * W) OcallError).

Definition in_world {A} (op : W -> A * W) : PollM A := fun '(m, w) =>
  let '(a, w) := op w in (Ok a, (m, w)).
Definition metered (f : Meter -> Meter) : PollM unit := fun '(m, w) => (Ok tt, (f m, w)).

Definition resource_poll (self : Resource) : PollM bytes :=
  match self with
  | RChannelRx rx =>
    r ← in_world (poll_recv rx);
    match r with
    | PReady (Some data) => mret data
    | PReady None => throw EndOfFile
    | PPending => throw Pending
    end
  | _ => throw UnsupportedOperation
  end.

Definition resource_poll_res (self : Resource) : PollM Resource :=
  match self with
  | RTcpConnect fut =>
    rv ← in_world (poll_tcp_connect fut);
    match rv with
    | PPending => throw Pending
    | PReady (Ok stream) => metered record_tcp_connect_done;; mret (RTcpStream stream)
    | PReady (Err _) => throw IoError
    end
  | RTlsConnect fut =>
    rv ← in_world (poll_tls_connect fut);
    match rv with
    | PPending => throw Pending
    | PReady (Ok stream) => metered record_tls_connect_done;; mret (RTlsStream stream)
    | PReady (Err _) => throw IoError
    end
  | _ => throw UnsupportedOperation
  end.

(** [stream_poll_read], [stream_poll_write], [stream_poll_shutdown]: the
    [AsyncRead] and [AsyncWrite] paths. *)
Definition stream_poll_read (op : W -> poll (result io_error bytes) * W) : PollM bytes :=
  r ← in_world op;
  match r with
  | PPending => throw Pending
  | PReady (Err _) => throw IoError
  | PReady (Ok data) => metered (record_net_ingress (zlen data));; mret data
  end.
Definition stream_poll_write (op : W -> poll (result io_error Z) * W) : PollM Z :=
  r ← in_world op;
  match r with
  | PPending => throw Pending
  | PReady (Err _) => throw IoError
  | PReady (Ok sz) => metered (record_net_egress sz);; mret (wrap U32 sz)
  end.
Definition stream_poll_shutdown (op : W -> poll (result io_error unit) * W) : PollM unit :=
  r ← in_world op;
  match r with
  | PPending => throw Pending
  | PReady (Err _) => throw IoError
  | PReady (Ok _) => metered record_tcp_shutdown
  end.

(** The [loop] on a plain TCP stream: try, and on [WouldBlock] wait for
    readiness and try again.  [None] when [fuel] rounds did not decide it. *)
Fixpoint tcp_read_loop (fuel : nat) (s : TcpStream) (len : Z) (m : Meter) (w : W)
  : option (result OcallError bytes * (Meter * W)) :=
  match fuel with
  | O => None
  | S fuel =>
    let '(r, w) := tcp_try_read s len w in
    match r with
    | Ok data => Some (Ok data, (record_net_ingress (zlen data) m, w))
    | Err WouldBlock =>
      let '(ready, w) := tcp_poll_read_ready s w in
      match ready with
      | PPending => Some (Err Pending, (m, w))
      | PReady (Err _) => Some (Err IoError, (m, w))
      | PReady (Ok _) => tcp_read_loop fuel s len m w
      end
    | Err OtherIo => Some (Err IoError, (m, w))
    end
  end.
Fixpoint tcp_write_loop (fuel : nat) (s : TcpStream) (buf : bytes) (m : Meter) (w : W)
  : option (result OcallError Z * (Meter * W)) :=
  match fuel with
  | O => None
  | S fuel =>
    let '(r, w) := tcp_try_write s buf w in
    match r with
    | Ok sz => Some (Ok (wrap U32 sz), (record_net_egress sz m, w))
    | Err WouldBlock =>
      let '(ready, w) := tcp_poll_write_ready s w in
      match ready with
      | PPending => Some (Err Pending, (m, w))
      | PReady (Err _) => Some (Err IoError, (m, w))
      | PReady (Ok _) => tcp_write_loop fuel s buf m w
      end
    | Err OtherIo => Some (Err IoError, (m, w))
    end
  end.

(** [poll_read]: the bytes placed at the front of the guest buffer; their number
    is the [u32] the code returns.  A finished sleep reads zero bytes. *)
Definition resource_poll_read (fuel : nat) (self : Resource) (len : Z) (s : Meter * W)
  : option (result OcallError bytes * (Meter * W)) :=
  match self with
  | RSleep handle => Some ((
      r ← in_world (poll_sleep handle);
      match r with PReady _ => mret [] | PPending => throw Pending end) s)
  | RTcpStream stream => tcp_read_loop fuel stream len s.1 s.2
  | RTlsStream stream => Some (stream_poll_read (tls_poll_read stream len) s)
  | RDuplexStream stream => Some (stream_poll_read (duplex_poll_read stream len) s)
  | _ => Some (Err UnsupportedOperation, s)
  end.

Definition resource_poll_write (fuel : nat) (self : Resource) (buf : bytes) (s : Meter * W)
  : option (result OcallError Z * (Meter * W)) :=
  match self with
  | RTcpStream stream => tcp_write_loop fuel stream buf s.1 s.2
  | RTlsStream stream => Some (stream_poll_write (tls_poll_write stream buf) s)
  | RDuplexStream stream => Some (stream_poll_write (duplex_poll_write stream buf) s)
  | _ => Some (Err UnsupportedOperation, s)
  end.

Definition resource_poll_shutdown (self : Resource) : PollM unit :=
  match self with
  | RTcpStream stream => stream_poll_shutdown (tcp_poll_shutdown stream)
  | RTlsStream stream => stream_poll_shutdown (tls_poll_shutdown stream)
  | RDuplexStream stream => stream_poll_shutdown (duplex_poll_shutdown stream)
  | _ => throw UnsupportedOperation
  end.
End Resources.
Arguments Resource W {_}.
Arguments TcpListenerResource W {_}.

(** tokio clears a stream's readiness when an operation reports [WouldBlock], so
    each further [Ready] answer uses up one pending event of the driver. *)
Class TokioProgress (W : Type) `{Tokio W} := {
  tcp_events : TcpStream -> W -> nat;
  read_retry : forall s len w w1 w2, tcp_try_read s len w = (Err WouldBlock, w1) ->
    tcp_poll_read_ready s w1 = (PReady (Ok tt), w2) -> (tcp_events s w2 < tcp_events s w)%nat;
  write_retry : forall s buf w w1 w2, tcp_try_write s buf w = (Err WouldBlock, w1) ->
    tcp_poll_write_ready s w1 = (PReady (Ok tt), w2) -> (tcp_events s w2 < tcp_events s w)%nat
}.

(** ** What a retry loop does

    [attempt] and [ready] are one operation of a stream and the wait for its
    readiness.  A round that is repeated found the stream blocked and then ready. *)
Section Attempts.
Context {W A : Type} (attempt : W -> result io_error A * W) (ready : W -> poll (result io_error unit) * W).
Definition retry_round (w w2 : W) : Prop :=
  exists w1, attempt w = (Err WouldBlock, w1) /\ ready w1 = (PReady (Ok tt), w2).
(** The last round, started in [w] and left in [w']: the operation happened with result
    [a]; or the stream stayed blocked; or one of the two calls failed. *)
Inductive last_round (w w' : W) : result OcallError A -> Prop :=
| LastDone a : attempt w = (Ok a, w') -> last_round w w' (Ok a)
| LastPending w1 : attempt w = (Err WouldBlock, w1) -> ready w1 = (PPending, w') -> last_round w w' (Err Pending)
| LastNotReady w1 e : attempt w = (Err WouldBlock, w1) -> ready w1 = (PReady (Err e), w') -> last_round w w' (Err IoError)
| LastFailed : attempt w = (Err OtherIo, w') -> last_round w w' (Err IoError).
(** At most [n] repeated rounds, then the last one. *)
Definition retried (n : nat) (w w' : W) (r : result OcallError A) : Prop :=
  exists k w0, (k <= n)%nat /\ nsteps retry_round k w w0 /\ last_round w0 w' r.
Lemma retried_last n w w' r : last_round w w' r -> retried n w w' r.
Proof. intros Hl. exists 0%nat, w. split; [lia|]. split; [constructor|done]. Qed.
Lemma retried_round n w w2 w' r : retry_round w w2 -> retried n w2 w' r -> retried (S n) w w' r.
Proof. intros Hr (k & w0 & Hk & Hs & Hl). exists (S k), w0. split; [lia|]. split; [by econstructor|done]. Qed.
Lemma retried_le n n' w w' r : (n <= n')%nat -> retried n w w' r -> retried n' w w' r.
Proof. intros Hn (k & w0 & Hk & H). exists k, w0. split; [lia|done]. Qed.
End Attempts.

Section Loops.
Context {W : Type} `{TokioProgress W}.

Lemma tcp_read_loop_total fuel : forall s len m w, (tcp_events s w < fuel)%nat ->
  exists r w', tcp_read_loop fuel s len m w =
      Some (r, (match r with Ok data => record_net_ingress (zlen data) m | Err _ => m end, w')) /\
    retried (tcp_try_read s len) (tcp_poll_read_ready s) (tcp_events s w) w w' r.
Proof.
  induction fuel as [|fuel IH]; intros s len m w Hf; [lia|]. simpl.
  destruct (tcp_try_read s len w) as [[data|[]] w1] eqn:Ht.
  - exists (Ok data), w1. split; [done|]. by apply retried_last, LastDone.
  - destruct (tcp_poll_read_ready s w1) as [[[[]|e]|] w2] eqn:Hp.
    + pose proof (read_retry s len w w1 w2 Ht Hp) as Hlt. destruct (IH s len m w2 ltac:(lia)) as (r & w' & -> & Hr).
      exists r, w'. split; [done|]. eapply retried_le; [|eapply retried_round, Hr]; [exact Hlt|by exists w1].
    + exists (Err IoError), w2. split; [done|]. by eapply retried_last, LastNotReady.
    + exists (Err Pending), w2. split; [done|]. by eapply retried_last, LastPending.
  - exists (Err IoError), w1. split; [done|]. by apply retried_last, LastFailed.
Qed.

Lemma tcp_write_loop_total fuel : forall s buf m w, (tcp_events s w < fuel)%nat ->
  exists r w', tcp_write_loop fuel s buf m w =
      Some (wrap U32 <$> r, (match r with Ok sz => record_net_egress sz m | Err _ => m end, w')) /\
    retried (tcp_try_write s buf) (tcp_poll_write_ready s) (tcp_events s w) w w' r.
Proof.
  induction fuel as [|fuel IH]; intros s buf m w Hf; [lia|]. simpl.
  destruct (tcp_try_write s buf w) as [[sz|[]] w1] eqn:Ht.
  - exists (Ok sz), w1. split; [done|]. by apply retried_last, LastDone.
  - destruct (tcp_poll_write_ready s w1) as [[[[]|e]|] w2] eqn:Hp.
    + pose proof (write_retry s buf w w1 w2 Ht Hp) as Hlt. destruct (IH s buf m w2 ltac:(lia)) as (r & w' & -> & Hr).
      exists r, w'. split; [done|]. eapply retried_le; [|eapply retried_round, Hr]; [exact Hlt|by exists w1].
    + exists (Err IoError), w2. split; [done|]. by eapply retried_last, LastNotReady.
    + exists (Err Pending), w2. split; [done|]. by eapply retried_last, LastPending.
  - exists (Err IoError), w1. split; [done|]. by apply retried_last, LastFailed.
Qed.

(** C8: the retry loops of a plain TCP read and write: with fuel for the driver's pending
    events and one more round they return.  They repeat only rounds in which the
    stream blocked and became ready, at most as many as events were pending, and
    return what the last attempt gave: its data or size (cut to 32 bits), pending, or
    an input/output error.  Exactly what that attempt moved is metered: the bytes
    read as ingress, the bytes written as egress, nothing for an operation that did
    not happen. *)
Theorem tcp_loops_return fuel s len buf m w : (tcp_events s w < fuel)%nat ->
  (exists r w', tcp_read_loop fuel s len m w =
       Some (r, (match r with Ok data => record_net_ingress (zlen data) m | Err _ => m end, w')) /\
     retried (tcp_try_read s len) (tcp_poll_read_ready s) (tcp_events s w) w w' r) /\
  (exists r w', tcp_write_loop fuel s buf m w =
       Some (wrap U32 <$> r, (match r with Ok sz => record_net_egress sz m | Err _ => m end, w')) /\
     retried (tcp_try_write s buf) (tcp_poll_write_ready s) (tcp_events s w) w w' r).
Proof. eauto using tcp_read_loop_total, tcp_write_loop_total. Qed.
End Loops.

(** A small deterministic network, for examples: a stream blocks as often as the
    world's counter says, then reads two bytes. *)
Definition toy_block (n : nat) : result io_error unit := if (n =? 0)%nat then Ok tt else Err WouldBlock.
#[local] Instance toy_tokio : Tokio nat := {|
  Sleep := unit; Receiver := unit; OneshotSender := unit; TcpListener := unit;
  TcpStream := unit; TlsStream := unit; TcpConnectFut := unit; TlsConnectFut := unit;
  DuplexStream := unit; SniSubscription := unit; ServerConfig := unit;
  poll_sleep := fun _ w => (PReady tt, w);
  poll_recv := fun _ w => (PPending, w);
  tcp_try_read := fun _ _ w => ((fun _ => [1; 2]) <$> toy_block w, w);
  tcp_poll_read_ready := fun _ w => (PReady (Ok tt), pred w);
  tcp_try_write := fun _ buf w => ((fun _ => zlen buf) <$> toy_block w, w);
  tcp_poll_write_ready := fun _ w => (PReady (Ok tt), pred w);
  tcp_poll_shutdown := fun _ w => (PReady (Ok tt), w);
  tls_poll_read := fun _ _ w => (PPending, w);
  tls_poll_write := fun _ _ w => (PPending, w);
  tls_poll_shutdown := fun _ w => (PReady (Ok tt), w);
  duplex_poll_read := fun _ _ w => (PPending, w);
  duplex_poll_write := fun _ _ w => (PPending, w);
  duplex_poll_shutdown := fun _ w => (PReady (Ok tt), w);
  poll_tcp_connect := fun _ w => (PReady (Ok tt), w);
  poll_tls_connect := fun _ w => (PReady (Ok tt), w)
|}.
#[local] Instance toy_tokio_progress : TokioProgress nat.
Proof.
  refine {| tcp_events := fun _ w => w |}; intros * ; simpl; destruct w; simpl; intros;
    simplify_eq/=; lia.
Defined.

Lemma tcp_loops_return_witness :
  let m := Meter_default 0 in
  exists r w', @tcp_write_loop nat toy_tokio 4 tt [5; 6; 7] m 3%nat =
      Some (wrap U32 <$> r, (match r with Ok sz => record_net_egress sz m | Err _ => m end, w')) /\
    retried (@tcp_try_write nat toy_tokio tt [5; 6; 7]) (@tcp_poll_write_ready nat toy_tokio tt) 3 3%nat w' r.
Proof. refine (proj2 (@tcp_loops_return nat toy_tokio _ 4 tt 10 [5; 6; 7] (Meter_default 0) 3%nat _)). simpl. lia. Defined.

(** ** [ResourceTable] *)
Section Table.
Context {R : Type}.

Definition RESOURCE_ID_MAX : Z := 8192.

(** [Vec::get] at a [usize]. *)
Definition vec_get (l : list (option R)) (i : Z) : option (option R) :=
  if (0 <=? i) && (i <? zlen l) then l !! Z.to_nat i else None.

(** [get_mut]: the resource at [id]; [set_res] writes back through the borrow. *)
Definition get_mut (tbl : list (option R)) (id : Z) : result OcallError R :=
  ok_or (mjoin (vec_get tbl (wrap U64 id))) NotFound.
Definition set_res (tbl : list (option R)) (id : Z) (r : R) : list (option R) :=
  <[Z.to_nat id := Some r]> tbl.

(** The first empty slot, from index [i]. *)
Fixpoint find_free (i : Z) (tbl : list (option R)) : option Z :=
  match tbl with
  | [] => None
  | None :: _ => Some i
  | Some _ :: tbl => find_free (i + 1) tbl
  end.

(** [usize::try_into::<i32>]. *)
Definition try_into_i32 (i : Z) : option Z := if in_range I32 i then Some i else None.

Definition push (resource : R) : M (list (option R)) OcallError Z := fun tbl =>
  match find_free 0 tbl with
  | Some i =>
    match try_into_i32 i with
    | None => (Err ResourceLimited, tbl)
    | Some id => (Ok id, <[Z.to_nat i := Some resource]> tbl)
    end
  | None =>
    if Z.min RESOURCE_ID_MAX (int_max I32) <=? zlen tbl then (Err ResourceLimited, tbl) else
    match try_into_i32 (zlen tbl) with
    | None => (Err ResourceLimited, tbl)
    | Some id => (Ok id, tbl ++ [Some resource])
    end
  end.

Definition take (id : Z) (tbl : list (option R)) : option R * list (option R) :=
  let id := wrap U32 id in
  if zlen tbl <=? id then (None, tbl)
  else (mjoin (tbl !! Z.to_nat id), <[Z.to_nat id := None]> tbl).

(** ** The table as a finite map *)

(** The live resources by id: what a guest can observe. *)
Definition live (tbl : list (option R)) (id : Z) : option R :=
  if in_range I32 id then mjoin (vec_get tbl id) else None.

(** Tables with the same live resources; they may differ in trailing or reused
    empty slots. *)
Definition tbl_equiv (t u : list (option R)) : Prop := forall id, live t id = live u id.
#[export] Instance tbl_equiv_equivalence : Equivalence tbl_equiv.
Proof.
  split; [by intros t id | by intros t u H id | by intros t u v H1 H2 id; rewrite H1].
Qed.

Definition tbl_wf (tbl : list (option R)) : Prop := zlen tbl <= RESOURCE_ID_MAX.

Lemma vec_get_lookup (l : list (option R)) i : 0 <= i -> vec_get l i = l !! Z.to_nat i.
Proof.
  intros Hi. unfold vec_get, zlen. destruct (Z.ltb_spec i (Z.of_nat (length l))).
  - by rewrite (proj2 (Z.leb_le 0 i)) by done.
  - rewrite andb_false_r. symmetry. apply lookup_ge_None. lia.
Qed.

Lemma vec_get_out (l : list (option R)) i : i < 0 \/ zlen l <= i -> vec_get l i = None.
Proof.
  intros Hi. unfold vec_get. destruct Hi; [|].
  - by rewrite (proj2 (Z.leb_gt 0 i)) by done.
  - by rewrite (proj2 (Z.ltb_ge i _)), andb_false_r by done.
Qed.

Lemma live_out (tbl : list (option R)) id : id < 0 \/ zlen tbl <= id -> live tbl id = None.
Proof. intros Hi. unfold live. rewrite vec_get_out by done. by destruct (in_range I32 id). Qed.

Lemma live_in (tbl : list (option R)) id : tbl_wf tbl -> 0 <= id -> live tbl id = mjoin (tbl !! Z.to_nat id).
Proof.
  intros Hwf Hid. unfold live. rewrite vec_get_lookup by done.
  destruct (in_range I32 id) eqn:Hr; [done|].
  rewrite lookup_ge_None_2; [done|].
  assert (~ (int_min I32 <= id <= int_max I32)) by (intros ?%in_range_spec; congruence).
  unfold tbl_wf, RESOURCE_ID_MAX, zlen in *. const_bounds. lia.
Qed.

(** Reading through [get_mut] is reading the live map. *)
Lemma get_mut_live tbl id : tbl_wf tbl -> in_range I32 id = true ->
  get_mut tbl id = ok_or (live tbl id) NotFound.
Proof.
  intros Hwf Hr. unfold get_mut. f_equal. destruct (Z_lt_le_dec id 0) as [Hneg|Hpos].
  - rewrite live_out by lia. rewrite vec_get_out; [done|]. right.
    unfold wrap, tbl_wf, RESOURCE_ID_MAX in *. apply in_range_spec in Hr. const_bounds.
    rewrite Z.sub_0_r, Z.add_0_r. change (2 ^ width U64) with (2 ^ 64).
    rewrite <- (Z.mod_add id 1 (2 ^ 64)), Z.mod_small by lia. lia.
  - rewrite wrap_id by range_solve. by rewrite live_in, vec_get_lookup by done.
Qed.

Lemma find_free_Some i tbl j : find_free i tbl = Some j ->
  exists k, j = i + Z.of_nat k /\ tbl !! k = Some None /\
    forall k', (k' < k)%nat -> exists r, tbl !! k' = Some (Some r).
Proof.
  revert i. induction tbl as [|[r|] tbl IH]; intros i; simpl; [done|..].
  - intros (k & -> & Hk & Hlt)%IH. exists (S k). split; [lia|]. split; [done|].
    intros [|k'] ?; simpl; [eauto|]. apply Hlt. lia.
  - intros [= <-]. exists 0%nat. split; [lia|]. split; [done|]. lia.
Qed.

Lemma find_free_None i tbl : find_free i tbl = None ->
  forall k o, tbl !! k = Some o -> is_Some o.
Proof.
  revert i. induction tbl as [|[r|] tbl IH]; intros i; simpl; [done|..|done].
  intros Hf [|k] o; simpl; [naive_solver|]. by eapply IH.
Qed.

Lemma live_insert tbl k o id : tbl_wf tbl -> (k < length tbl)%nat ->
  live (<[k := o]> tbl) id = if decide (id = Z.of_nat k) then o else live tbl id.
Proof.
  intros Hwf Hk. destruct (Z_lt_le_dec id 0) as [Hneg|Hpos].
  { rewrite !live_out by (unfold zlen; lia). case_decide; [lia|done]. }
  assert (tbl_wf (<[k := o]> tbl)) by (unfold tbl_wf, zlen in *; by rewrite length_insert).
  rewrite !live_in by done. case_decide as Hd.
  - subst. rewrite Nat2Z.id, list_lookup_insert_eq by done. done.
  - by rewrite list_lookup_insert_ne by lia.
Qed.

Lemma live_snoc tbl r id : zlen tbl < RESOURCE_ID_MAX ->
  live (tbl ++ [Some r]) id = if decide (id = zlen tbl) then Some r else live tbl id.
Proof.
  intros Hwf. destruct (Z_lt_le_dec id 0) as [Hneg|Hpos].
  { rewrite !live_out by lia. case_decide; [unfold zlen in *; lia|done]. }
  assert (tbl_wf (tbl ++ [Some r])).
  { unfold tbl_wf, zlen in *. rewrite length_app. simpl. lia. }
  rewrite !live_in by (done || unfold tbl_wf; lia). unfold zlen. case_decide as Hd.
  - subst. by rewrite Nat2Z.id, lookup_app_r, Nat.sub_diag by lia.
  - destruct (decide (Z.to_nat id < length tbl)%nat).
    + by rewrite lookup_app_l by done.
    + rewrite !lookup_ge_None_2; [done|lia|]. rewrite length_app. simpl. lia.
Qed.

(** What [push] does to the live map. *)
Lemma push_spec r tbl : tbl_wf tbl ->
  match push r tbl with
  | (Ok id, tbl') =>
      tbl_wf tbl' /\ 0 <= id < RESOURCE_ID_MAX /\ live tbl id = None /\
      (forall j, 0 <= j < id -> is_Some (live tbl j)) /\
      forall j, live tbl' j = if decide (j = id) then Some r else live tbl j
  | (Err e, tbl') =>
      e = ResourceLimited /\ tbl' = tbl /\
      forall j, 0 <= j < RESOURCE_ID_MAX -> is_Some (live tbl j)
  end.
Proof.
  intros Hwf. unfold push. destruct (find_free 0 tbl) as [i|] eqn:Hf.
  - apply find_free_Some in Hf as (k & -> & Hk & Hlt). rewrite Z.add_0_l.
    pose proof (lookup_lt_Some _ _ _ Hk) as Hkl.
    unfold try_into_i32, tbl_wf, RESOURCE_ID_MAX, zlen in *.
    assert (in_range I32 (Z.of_nat k) = true) as -> by range_solve.
    rewrite Nat2Z.id. split_and!; [by rewrite length_insert | lia | lia | ..].
    + rewrite live_in, Nat2Z.id, Hk by (done || lia). done.
    + intros j Hj. rewrite live_in by (done || lia).
      destruct (Hlt (Z.to_nat j)) as [x ->]; [lia|]. eauto.
    + intros j. by apply live_insert.
  - pose proof (find_free_None _ _ Hf) as Hall.
    assert (Hlive : forall j, 0 <= j < zlen tbl -> is_Some (live tbl j)).
    { intros j Hj. rewrite live_in by (done || lia). unfold zlen in Hj.
      destruct (lookup_lt_is_Some_2 tbl (Z.to_nat j)) as [o Ho]; [lia|].
      rewrite Ho. destruct (Hall _ _ Ho) as [x ->]. eauto. }
    unfold tbl_wf, RESOURCE_ID_MAX in *. const_bounds.
    destruct (Z.leb_spec (Z.min 8192 2147483647) (zlen tbl)) as [Hge|Hlt].
    + split_and!; [done..|]. intros j Hj. apply Hlive. lia.
    + unfold try_into_i32. assert (0 <= zlen tbl) by (unfold zlen; lia).
      assert (in_range I32 (zlen tbl) = true) as -> by range_solve.
      split_and!; [rewrite zlen_app, zlen_cons, zlen_nil; lia | lia | lia | ..].
      * rewrite live_out by lia. done.
      * intros j Hj. apply Hlive. lia.
      * intros j. apply live_snoc. unfold RESOURCE_ID_MAX. lia.
Qed.

Lemma take_spec id tbl : tbl_wf tbl -> in_range I32 id = true ->
  let '(o, tbl') := take id tbl in
  tbl_wf tbl' /\ o = live tbl id /\
  forall j, live tbl' j = if decide (j = id) then None else live tbl j.
Proof.
  intros Hwf Hr. unfold take. pose proof Hwf as Hwf'. unfold tbl_wf, RESOURCE_ID_MAX in Hwf'.
  destruct (Z_lt_le_dec id 0) as [Hneg|Hpos].
  - assert (zlen tbl <= wrap U32 id).
    { unfold wrap. apply in_range_spec in Hr. const_bounds. rewrite Z.sub_0_r, Z.add_0_r.
      change (2 ^ width U32) with (2 ^ 32).
      rewrite <- (Z.mod_add id 1 (2 ^ 32)), Z.mod_small by lia. lia. }
    rewrite (proj2 (Z.leb_le _ _)) by done. split_and!; [done | by rewrite live_out by lia|].
    intros j. case_decide; [subst; by rewrite live_out by lia|done].
  - rewrite wrap_id by range_solve. destruct (Z.leb_spec (zlen tbl) id) as [Hge|Hlt].
    + split_and!; [done | by rewrite live_out by lia|].
      intros j. case_decide; [subst; by rewrite live_out by lia|done].
    + unfold zlen in *. split_and!.
      * unfold tbl_wf, zlen. by rewrite length_insert.
      * by rewrite live_in by done.
      * intros j. rewrite live_insert by (done || lia). by rewrite Z2Nat.id by done.
Qed.

(** ** Refinement: the table is a map that allocates the least free id *)

Definition spec_ids : list Z := seqZ 0 RESOURCE_ID_MAX.
Definition spec_push (r : R) (m : gmap Z R) : result OcallError Z * gmap Z R :=
  match list_find (fun i => m !! i = None) spec_ids with
  | Some (_, i) => (Ok i, <[i := r]> m)
  | None => (Err ResourceLimited, m)
  end.
Definition spec_take (id : Z) (m : gmap Z R) : option R * gmap Z R := (m !! id, delete id m).
Definition spec_get (m : gmap Z R) (id : Z) : result OcallError R := ok_or (m !! id) NotFound.

Inductive table_op : Type := OpPush (r : R) | OpTake (id : Z) | OpGet (id : Z).
Inductive table_out : Type :=
| OutPush (r : result OcallError Z)
| OutTake (o : option R)
| OutGet (r : result OcallError R).

Definition table_step (tbl : list (option R)) (op : table_op) : table_out * list (option R) :=
  match op with
  | OpPush r => let '(x, tbl) := push r tbl in (OutPush x, tbl)
  | OpTake id => let '(o, tbl) := take id tbl in (OutTake o, tbl)
  | OpGet id => (OutGet (get_mut tbl id), tbl)
  end.
Definition spec_step (m : gmap Z R) (op : table_op) : table_out * gmap Z R :=
  match op with
  | OpPush r => let '(x, m) := spec_push r m in (OutPush x, m)
  | OpTake id => let '(o, m) := spec_take id m in (OutTake o, m)
  | OpGet id => (OutGet (spec_get m id), m)
  end.
Fixpoint run_ops {T} (step : T -> table_op -> table_out * T) (t : T) (ops : list table_op)
  : list table_out :=
  match ops with
  | [] => []
  | op :: ops => let '(o, t) := step t op in o :: run_ops step t ops
  end.

(** Ids come from the guest as [i32]. *)
Definition op_wf (op : table_op) : Prop :=
  match op with OpPush _ => True | OpTake id | OpGet id => in_range I32 id = true end.

Lemma spec_ids_elem i : i ∈ spec_ids <-> 0 <= i < RESOURCE_ID_MAX.
Proof. unfold spec_ids. rewrite elem_of_seqZ. lia. Qed.

Lemma spec_push_least (r : R) m id : 0 <= id < RESOURCE_ID_MAX -> m !! id = None ->
  (forall j, 0 <= j < id -> is_Some (m !! j)) -> spec_push r m = (Ok id, <[id := r]> m).
Proof.
  intros Hid Hn Hlt. unfold spec_push.
  assert (Hf : list_find (fun i => m !! i = None) spec_ids = Some (Z.to_nat id, id)).
  { apply list_find_Some. split_and!; [|done|].
    - unfold spec_ids. rewrite lookup_seqZ. unfold RESOURCE_ID_MAX in *. lia.
    - intros j y Hj Hlt'. unfold spec_ids in Hj. apply lookup_seqZ in Hj as [-> ?].
      destruct (Hlt (0 + Z.of_nat j)) as [v Hv]; [lia|]. by rewrite Hv. }
  by rewrite Hf.
Qed.

Lemma spec_push_full (r : R) m : (forall j, 0 <= j < RESOURCE_ID_MAX -> is_Some (m !! j)) ->
  spec_push r m = (Err ResourceLimited, m).
Proof.
  intros Hall. unfold spec_push.
  assert (list_find (fun i => m !! i = None) spec_ids = None) as ->; [|done].
  apply list_find_None, Forall_forall. intros j Hj%spec_ids_elem Hn.
  destruct (Hall j Hj) as [v Hv]. congruence.
Qed.

Definition table_repr (tbl : list (option R)) (m : gmap Z R) : Prop :=
  tbl_wf tbl /\ forall id, live tbl id = m !! id.

Lemma table_step_refines tbl m op : op_wf op -> table_repr tbl m ->
  (table_step tbl op).1 = (spec_step m op).1 /\
  table_repr (table_step tbl op).2 (spec_step m op).2.
Proof.
  intros Hop [Hwf Hrep]. destruct op as [r|id|id]; simpl in *.
  - pose proof (push_spec r tbl Hwf) as Hp. destruct (push r tbl) as [[id|e] tbl'].
    + destruct Hp as (Hwf' & Hid & Hn & Hlt & Hl).
      rewrite (spec_push_least r m id); simpl;
        [|done | by rewrite <- Hrep | intros j Hj; rewrite <- Hrep; auto].
      split; [done|]. split; [done|]. intros j. rewrite Hl, lookup_insert, Hrep.
      repeat case_decide; congruence.
    + destruct Hp as (-> & -> & Hall). rewrite spec_push_full; [done|].
      intros j Hj. rewrite <- Hrep. auto.
  - pose proof (take_spec id tbl Hwf Hop) as Ht. destruct (take id tbl) as [o tbl'].
    destruct Ht as (Hwf' & -> & Hl). rewrite Hrep. split; [done|]. split; [done|].
    intros j. simpl. rewrite Hl, lookup_delete, Hrep. repeat case_decide; congruence.
  - rewrite get_mut_live, Hrep by done. done.
Qed.

Lemma run_ops_refines ops : forall tbl m, Forall op_wf ops -> table_repr tbl m ->
  run_ops table_step tbl ops = run_ops spec_step m ops.
Proof.
  induction ops as [|op ops IH]; intros tbl m Hops Hrep; simpl; [done|].
  apply Forall_cons_1 in Hops as [Hop Hops].
  destruct (table_step_refines tbl m op Hop Hrep) as [Ho Hrep'].
  destruct (table_step tbl op), (spec_step m op). simpl in *. subst. f_equal. auto.
Qed.

(** C7: the resource table implements its specification: on every sequence of
    pushes, takes and lookups by any [i32] id, a fresh table answers exactly as a
    finite map that allocates the least free id below 8192 and refuses when all
    of them are in use. *)
Theorem resource_table_refines ops : Forall op_wf ops ->
  run_ops table_step [] ops = run_ops spec_step ∅ ops.
Proof.
  intros Hops. apply run_ops_refines; [done|]. split.
  - unfold tbl_wf, zlen, RESOURCE_ID_MAX. simpl. lia.
  - intros id. rewrite lookup_empty. apply live_out. unfold zlen. simpl. lia.
Qed.
End Table.
Arguments table_op R : clear implicits.

Lemma resource_table_refines_witness :
  run_ops table_step [] [OpPush 7%nat; OpPush 8%nat; OpTake 0; OpGet (-1); OpPush 9%nat; OpGet 0] =
  [OutPush (Ok 0); OutPush (Ok 1); OutTake (Some 7%nat); OutGet (Err NotFound);
   OutPush (Ok 0); OutGet (Ok 9%nat)].
Proof.
  rewrite (resource_table_refines
    [OpPush 7%nat; OpPush 8%nat; OpTake 0; OpGet (-1); OpPush 9%nat; OpGet 0]).
  - vm_compute. reflexivity.
  - repeat constructor.
Defined.
