(* ===== verification/Tls.v ===== *)
(** * TLS streams (wapo-host/src/runtime/tls.rs)

    The stream behind a TLS resource: it finishes its handshake with the first read
    or write, then passes operations to rustls, and is closed by an error or a
    shutdown.  rustls and the PEM parser are the class [Rustls]. *)
From S2P Require Import Prelude OcallError ArgsStack OcallDef Resource.

Class Rustls (W : Type) := {
  Accept : Type;
  Connect : Type;
  ServerTls : Type;
  ClientTls : Type;
  poll_accept_handshake : Accept -> W -> poll (result io_error ServerTls) * W;
  poll_connect_handshake : Connect -> W -> poll (result io_error ClientTls) * W;
  server_read : ServerTls -> Z -> W -> poll (result io_error bytes) * W;
  client_read : ClientTls -> Z -> W -> poll (result io_error bytes) * W;
  server_write : ServerTls -> bytes -> W -> poll (result io_error Z) * W;
  client_write : ClientTls -> bytes -> W -> poll (result io_error Z) * W;
  server_flush : ServerTls -> W -> poll (result io_error unit) * W;
  client_flush : ClientTls -> W -> poll (result io_error unit) * W;
  server_shutdown : ServerTls -> W -> poll (result io_error unit) * W;
  client_shutdown : ClientTls -> W -> poll (result io_error unit) * W
}.

Section Tls.
Context {W : Type} `{Rustls W}.

Inductive TlsStream : Type :=
| ServerHandshaking (a : Accept)
| ServerStreaming (s : ServerTls)
| ClientHandshaking (c : Connect)
| ClientStreaming (s : ClientTls)
| Closed.

(** An operation: its result, the stream and the world after it. *)
Abbreviation answer A := (poll (result io_error A) * TlsStream * W)%type.
Definition closed_error {A} (w : W) : answer A := (PReady (Err OtherIo), Closed, w).

(** The macro [poll_handshake!] of [poll_read] and [poll_write]. *)
Definition poll_handshake {S A} (me : TlsStream) (handshake : W -> poll (result io_error S) * W) (into : S -> TlsStream)
  (op : S -> W -> poll (result io_error A) * W) (w : W) : answer A :=
  match handshake w with
  | (PPending, w) => (PPending, me, w)
  | (PReady (Ok stream), w) => let '(r, w) := op stream w in (r, into stream, w)
  | (PReady (Err err), w) => (PReady (Err err), Closed, w)
  end.
(** The macros [poll_read!], [poll_write!] and [poll_flush!]: an error closes the
    stream. *)
Definition poll_stream {A} (me : TlsStream) (op : W -> poll (result io_error A) * W) (w : W) : answer A :=
  let '(rv, w) := op w in (rv, match rv with PReady (Err _) => Closed | _ => me end, w).
(** The macro [poll_shutdown!]: any answer closes it. *)
Definition poll_end {A} (me : TlsStream) (op : W -> poll (result io_error A) * W) (w : W) : answer A :=
  let '(rv, w) := op w in (rv, match rv with PReady _ => Closed | PPending => me end, w).

Definition tls_read (len : Z) (me : TlsStream) (w : W) : answer bytes :=
  match me with
  | ClientHandshaking c => poll_handshake me (poll_connect_handshake c) ClientStreaming (fun s => client_read s len) w
  | ServerHandshaking a => poll_handshake me (poll_accept_handshake a) ServerStreaming (fun s => server_read s len) w
  | ClientStreaming s => poll_stream me (client_read s len) w
  | ServerStreaming s => poll_stream me (server_read s len) w
  | Closed => closed_error w
  end.
Definition tls_write (buf : bytes) (me : TlsStream) (w : W) : answer Z :=
  match me with
  | ClientHandshaking c => poll_handshake me (poll_connect_handshake c) ClientStreaming (fun s => client_write s buf) w
  | ServerHandshaking a => poll_handshake me (poll_accept_handshake a) ServerStreaming (fun s => server_write s buf) w
  | ClientStreaming s => poll_stream me (client_write s buf) w
  | ServerStreaming s => poll_stream me (server_write s buf) w
  | Closed => closed_error w
  end.
Definition tls_flush (me : TlsStream) (w : W) : answer unit :=
  match me with
  | ClientHandshaking _ | ServerHandshaking _ => (PReady (Ok tt), me, w)
  | ClientStreaming s => poll_stream me (client_flush s) w
  | ServerStreaming s => poll_stream me (server_flush s) w
  | Closed => closed_error w
  end.
Definition tls_shutdown (me : TlsStream) (w : W) : answer unit :=
  match me with
  | ClientHandshaking _ | ServerHandshaking _ => (PReady (Ok tt), Closed, w)
  | ClientStreaming s => poll_end me (client_shutdown s) w
  | ServerStreaming s => poll_end me (server_shutdown s) w
  | Closed => closed_error w
  end.

(** ** The life of a stream *)
Inductive tls_op : Type := TRead (len : Z) | TWrite (buf : bytes) | TFlush | TShutdown.
(** What an operation answers, without its data: pending, or whether it is an
    error. *)
Definition outcome_of {A} (p : poll (result io_error A)) : poll bool :=
  match p with PReady r => PReady (is_ok r) | PPending => PPending end.
Definition tls_step (op : tls_op) (s : TlsStream * W) : poll bool * (TlsStream * W) :=
  match op with
  | TRead len => let '(r, me, w) := tls_read len s.1 s.2 in (outcome_of r, (me, w))
  | TWrite buf => let '(r, me, w) := tls_write buf s.1 s.2 in (outcome_of r, (me, w))
  | TFlush => let '(r, me, w) := tls_flush s.1 s.2 in (outcome_of r, (me, w))
  | TShutdown => let '(r, me, w) := tls_shutdown s.1 s.2 in (outcome_of r, (me, w))
  end.

Inductive phase : Type := PhHandshake | PhStreaming | PhClosed.
Definition phase_of (me : TlsStream) : phase :=
  match me with
  | ServerHandshaking _ | ClientHandshaking _ => PhHandshake
  | ServerStreaming _ | ClientStreaming _ => PhStreaming
  | Closed => PhClosed
  end.
Definition phase_le (a b : phase) : Prop :=
  match a, b with
  | PhHandshake, _ | PhStreaming, PhStreaming | PhStreaming, PhClosed | PhClosed, PhClosed => True
  | _, _ => False
  end.
#[export] Instance phase_le_trans : Transitive phase_le.
Proof. by intros [] [] []. Qed.
Definition side_of (me : TlsStream) : option bool :=
  match me with
  | ServerHandshaking _ | ServerStreaming _ => Some true
  | ClientHandshaking _ | ClientStreaming _ => Some false
  | Closed => None
  end.

(** One operation: the phase does not go back, the side is kept until the stream is
    closed, a closed stream answers with an error and reaches nobody, and an error
    or a finished shutdown closes a stream that was streaming. *)
Record step_ok (op : tls_op) (s : TlsStream * W) (r : poll bool) (s' : TlsStream * W) : Prop := {
  so_phase : phase_le (phase_of s.1) (phase_of s'.1);
  so_side : s'.1 = Closed \/ side_of s'.1 = side_of s.1;
  so_closed : s.1 = Closed -> r = PReady false /\ s' = s;
  so_error : phase_of s.1 = PhStreaming -> r = PReady false -> s'.1 = Closed;
  so_shutdown : op = TShutdown -> r <> PPending -> s'.1 = Closed
}.

Lemma handshake_ok {S A} me (hs : W -> poll (result io_error S) * W) into (op : S -> W -> poll (result io_error A) * W) w :
  phase_of me = PhHandshake -> (forall s, side_of (into s) = side_of me) ->
  let '(r, me', _) := poll_handshake me hs into op w in
  phase_le (phase_of me) (phase_of me') /\ (me' = Closed \/ side_of me' = side_of me).
Proof.
  intros Hp Hi. unfold poll_handshake. destruct (hs w) as [[[s|e]|] w1]; [destruct (op s w1)|..];
    rewrite Hp; (split; [done|]); [right; apply Hi|by left|by right].
Qed.
Lemma stream_ok {A} me (op : W -> poll (result io_error A) * W) w : phase_of me = PhStreaming ->
  let '(r, me', _) := poll_stream me op w in
  phase_le PhStreaming (phase_of me') /\ (me' = Closed \/ side_of me' = side_of me) /\
  (outcome_of r = PReady false -> me' = Closed).
Proof.
  intros Hp. unfold poll_stream. destruct (op w) as [[[a|e]|] w1]; simpl; rewrite ?Hp; split_and!; try done; first [by left|by right].
Qed.
Lemma end_ok {A} me (op : W -> poll (result io_error A) * W) w : phase_of me = PhStreaming ->
  let '(r, me', _) := poll_end me op w in
  phase_le PhStreaming (phase_of me') /\ (me' = Closed \/ side_of me' = side_of me) /\
  (outcome_of r <> PPending -> me' = Closed) /\ (outcome_of r = PReady false -> me' = Closed).
Proof.
  intros Hp. unfold poll_end. destruct (op w) as [[a|] w1]; simpl; rewrite ?Hp; split_and!; try done; first [by left|by right].
Qed.

Ltac tls_case :=
  match goal with
  | |- context [poll_handshake ?me ?hs ?into ?op ?w] =>
    pose proof (handshake_ok me hs into op w eq_refl ltac:(done)) as Ho; destruct (poll_handshake me hs into op w) as [[r me'] w']
  | |- context [poll_stream ?me ?op ?w] =>
    pose proof (stream_ok me op w eq_refl) as Ho; destruct (poll_stream me op w) as [[r me'] w']
  | |- context [poll_end ?me ?op ?w] =>
    pose proof (end_ok me op w eq_refl) as Ho; destruct (poll_end me op w) as [[r me'] w']
  | _ => idtac
  end; split; simpl; naive_solver.
Lemma tls_step_ok op s : let '(r, s') := tls_step op s in step_ok op s r s'.
Proof.
  destruct s as [me w]. destruct op as [len|buf| |]; simpl;
    unfold tls_read, tls_write, tls_flush, tls_shutdown, closed_error; destruct me as [a|s|c|s|]; simpl; tls_case.
Qed.

(** A run of operations: the answers, and where it ends. *)
Fixpoint tls_run (ops : list tls_op) (s : TlsStream * W) : list (poll bool) * (TlsStream * W) :=
  match ops with
  | [] => ([], s)
  | op :: ops => let '(r, s) := tls_step op s in let '(rs, s) := tls_run ops s in (r :: rs, s)
  end.
Lemma closed_run ops w : tls_run ops (Closed, w) = (replicate (length ops) (PReady false), (Closed, w)).
Proof. induction ops as [|[] ops IH]; simpl; [done|..]; by rewrite IH. Qed.

(** The life of a TLS stream, whatever rustls answers: in any sequence of
    operations the stream goes from handshake to streaming to closed and never
    back, and stays on its side of the connection; and once an operation on an
    established stream fails, or a shutdown is answered, it is closed: every later
    operation fails and reaches neither rustls nor the network. *)
Theorem tls_lifecycle ops op later me w :
  let '(_, (me1, w1)) := tls_run ops (me, w) in
  phase_le (phase_of me) (phase_of me1) /\ (me1 = Closed \/ side_of me1 = side_of me) /\
  let '(r, (me2, w2)) := tls_step op (me1, w1) in
  (phase_of me1 = PhStreaming /\ r = PReady false \/ op = TShutdown /\ r <> PPending ->
   tls_run later (me2, w2) = (replicate (length later) (PReady false), (Closed, w2))).
Proof.
  assert (Hrun : let '(_, (me1, w1)) := tls_run ops (me, w) in
    phase_le (phase_of me) (phase_of me1) /\ (me1 = Closed \/ side_of me1 = side_of me)).
  { revert me w. induction ops as [|o ops IH]; intros me w; simpl; [split; [by destruct (phase_of me)|by right]|].
    pose proof (tls_step_ok o (me, w)) as Ho. destruct (tls_step o (me, w)) as [r [me1 w1]].
    specialize (IH me1 w1). destruct (tls_run ops (me1, w1)) as [rs [me2 w2]]. destruct Ho as [Hp Hs _ _ _], IH as [Hp2 Hs2].
    simpl in *. split; [by etransitivity|]. destruct Hs as [-> |Hs]; [|naive_solver congruence]. left. by destruct me2. }
  destruct (tls_run ops (me, w)) as [rs [me1 w1]]. destruct Hrun as [Hp Hs]. do 2 (split; [done|]).
  pose proof (tls_step_ok op (me1, w1)) as Ho. destruct (tls_step op (me1, w1)) as [r [me2 w2]].
  destruct Ho as [_ _ _ He Hsh]. simpl in *.
  intros [[? ?]|[? ?]]; [rewrite (He ltac:(done) ltac:(done))|rewrite (Hsh ltac:(done) ltac:(done))]; apply closed_run.
Qed.
End Tls.

(** ** Server configurations *)
Inductive Item : Type := Pkcs1Key (k : bytes) | Pkcs8Key (k : bytes) | Sec1Key (k : bytes) | OtherItem.
Inductive PrivateKeyDer : Type := Pkcs1 (k : bytes) | Pkcs8 (k : bytes) | Sec1 (k : bytes).

Section Config.
(** [rustls_pemfile::certs] and [read_all], and the checks of [with_single_cert]. *)
Context {Cfg : Type} (pem_certs : bytes -> list (result unit bytes)) (pem_items : bytes -> list (result unit Item))
  (single_cert : list bytes -> PrivateKeyDer -> option Cfg).

Definition load_certs (pem : bytes) : result OcallError (list bytes) :=
  foldr (fun c acc => match c, acc with Ok c, Ok l => Ok (c :: l) | _, _ => Err InvalidParameter end) (Ok []) (pem_certs pem).
Definition load_private_key (pem : bytes) : result OcallError PrivateKeyDer :=
  key ← ok_or (head (pem_items pem)) InvalidParameter;
  key ← map_err (fun _ => InvalidParameter) key;
  match key with
  | Pkcs1Key k => Ok (Pkcs1 k)
  | Pkcs8Key k => Ok (Pkcs8 k)
  | Sec1Key k => Ok (Sec1 k)
  | OtherItem => Err InvalidParameter
  end.
Definition load_tls_config (config : TlsServerConfig) : result OcallError Cfg :=
  let '(TlsServerV0 cert key) := config in
  certs ← load_certs (str_bytes cert);
  key ← load_private_key (str_bytes key);
  ok_or (single_cert certs key) InvalidParameter.

(** Whatever the text, the only error is [InvalidParameter]. *)
Lemma load_tls_config_error config e : load_tls_config config = Err e -> e = InvalidParameter.
Proof.
  destruct config as [cert key]. unfold load_tls_config, load_certs, load_private_key.
  destruct (foldr _ _ _) as [l|e'] eqn:Hc; simpl.
  - destruct (head _) as [[[]|]|]; simpl; try (by intros [= <-]); destruct (single_cert _ _); simpl; by try intros [= <-].
  - intros [= <-]. revert Hc. destruct (pem_certs (str_bytes cert)) as [|[c|] l]; simpl; [done| |by intros [= <-]].
    destruct (foldr _ _ l); by intros [= <-].
Qed.
End Config.
