(* ===== verification/HostTasks.v ===== *)
(** * Ready tasks and wakers on the host (wapo-host/src/runtime/vm_context.rs [TaskSet],
      async_context.rs)

    The queues through which the host tells the guest what became ready, the
    reference-counted guest wakers, and the thread-local task context. *)
From S2P Require Import Prelude.

(** ** [TaskSet] *)
Record TaskSet : Type := MkTaskSet {
  awake_tasks : list Z;
  (** ids to wake, or [-1 - id] for an id to drop *)
  awake_wakers : list Z
}.

Definition with_task0 : TaskSet := MkTaskSet [0] [].

Definition push_task (task_id : Z) (t : TaskSet) : TaskSet :=
  let exists_ := existsb (Z.eqb task_id) (take 8 (rev (awake_tasks t))) in
  if exists_ then t else MkTaskSet (awake_tasks t ++ [task_id]) (awake_wakers t).

Definition pop_task (t : TaskSet) : option Z * TaskSet :=
  match awake_tasks t with
  | [] => (None, t)
  | id :: rest => (Some id, MkTaskSet rest (awake_wakers t))
  end.

Definition is_empty (t : TaskSet) : bool :=
  match awake_tasks t, awake_wakers t with [], [] => true | _, _ => false end.

Definition push_waker (msg : Z) (t : TaskSet) : TaskSet :=
  MkTaskSet (awake_tasks t) (awake_wakers t ++ [msg]).
(** The ocall [awake_wakers]: drain the queue. *)
Definition drain_wakers (t : TaskSet) : list Z * TaskSet :=
  (awake_wakers t, MkTaskSet (awake_tasks t) []).

(** ** [GuestWaker]: an [Arc<GuestWakerInner>]

    [gw_refs] is the reference count; the task set is reached through a [Weak]
    pointer, gone when the VM is. *)
Record GuestWakerInner : Type := { gw_id : Z; gw_refs : nat }.

(** The messages on the waker queue. *)
Definition wake_msg (id : Z) : Z := id.
Definition drop_msg (id : Z) : Z := wrap I32 (-1 - id).

Definition gw_from_id (id : Z) : GuestWakerInner := {| gw_id := id; gw_refs := 1 |}.
Definition gw_clone (g : GuestWakerInner) : GuestWakerInner :=
  {| gw_id := gw_id g; gw_refs := S (gw_refs g) |}.
(** Dropping one reference; the last one runs [Drop for GuestWakerInner]. *)
Definition gw_drop (g : GuestWakerInner) (tasks : option TaskSet)
  : option GuestWakerInner * option TaskSet :=
  match gw_refs g with
  | S (S n) => (Some {| gw_id := gw_id g; gw_refs := S n |}, tasks)
  | _ => (None, push_waker (drop_msg (gw_id g)) <$> tasks)
  end.
Definition gw_wake_by_ref (g : GuestWakerInner) (tasks : option TaskSet) : option TaskSet :=
  push_waker (wake_msg (gw_id g)) <$> tasks.

(** [WakerData::wake_by_ref]: the task is made ready, the guest waker is woken,
    and the executor's waker is woken in any case ([parent_wakes] counts it). *)
Definition waker_data_wake (this_task : Z) (g : GuestWakerInner)
  (s : option TaskSet * nat) : option TaskSet * nat :=
  let '(tasks, parent_wakes) := s in
  (match tasks with
   | Some t => gw_wake_by_ref g (Some (push_task this_task t))
   | None => None
   end, S parent_wakes).

(** ** Thread-local context *)

(** [TLS_TASK_ENV] (the current task) and [TLS_CX] (the executor's context, by
    its identity). *)
Record Tls : Type := { tls_task_env : option Z; tls_cx : option nat }.

(** A computation that may panic. *)
Definition tls_call (A : Type) : Type := Tls -> option (A * Tls).

Definition set_task_env {A} (task_id : Z) (f : tls_call A) : tls_call A := fun t =>
  match f {| tls_task_env := Some task_id; tls_cx := tls_cx t |} with
  | Some (a, t) => Some (a, {| tls_task_env := None; tls_cx := tls_cx t |})
  | None => None
  end.

Definition set_task_cx {A} (cx : nat) (f : tls_call A) : tls_call A := fun t =>
  let old_cx := tls_cx t in
  match f {| tls_task_env := tls_task_env t; tls_cx := Some cx |} with
  | Some (a, t) => Some (a, {| tls_task_env := tls_task_env t; tls_cx := old_cx |})
  | None => None
  end.

(** [get_task_cx]: the entry is cleared while [f] runs, so a nested call panics. *)
Definition get_task_cx {A} (f : nat -> Z -> tls_call A) : tls_call A := fun t =>
  match tls_cx t, tls_task_env t with
  | Some cx, Some task =>
    match f cx task {| tls_task_env := tls_task_env t; tls_cx := None |} with
    | Some (a, t') => Some (a, {| tls_task_env := tls_task_env t'; tls_cx := Some cx |})
    | None => None
    end
  | _, _ => None
  end.

(** ** Properties *)

Lemma push_task_mem id t : id ∈ awake_tasks (push_task id t).
Proof.
  unfold push_task. destruct (existsb _ _) eqn:He; simpl.
  - apply existsb_exists in He as (x & Hin & Heq). apply Z.eqb_eq in Heq as <-.
    apply list_elem_of_In, in_rev. rewrite <- (firstn_skipn 8 (rev (awake_tasks t))).
    apply in_or_app. by left.
  - set_solver.
Qed.

Lemma push_task_prefix id t : exists k, awake_tasks (push_task id t) = awake_tasks t ++ k.
Proof.
  unfold push_task. destruct (existsb _ _); [exists []|exists [id]]; simpl; [|done].
  by rewrite app_nil_r.
Qed.

Lemma push_task_keeps id j t : j ∈ awake_tasks t -> j ∈ awake_tasks (push_task id t).
Proof. destruct (push_task_prefix id t) as [k ->]. set_solver. Qed.

Lemma push_task_wakers id t : awake_wakers (push_task id t) = awake_wakers t.
Proof. unfold push_task. by destruct (existsb _ _). Qed.

#[export] Hint Resolve push_task_mem push_task_keeps : wapo.
