(* ===== verification/GuestTasks.v ===== *)
(** * The guest's task runtime (wapo-env/src/tasks.rs)

    Tasks and wakers of a guest live in slots whose indices the host knows.  The
    file models the slot allocation, one [wapo_poll], and the protocol by which
    the host wakes and releases guest wakers. *)
From S2P Require Import Prelude HostTasks.

Definition MAX_CACHE_WAKER_IDS : Z := 1024.
Definition MAX_N_WAKERS : Z := int_max I32 `div` 2.
Definition MAX_N_TASKS : Z := int_max I32 `div` 2.

Section Wakers.
Context {Wk : Type}.

(** [WAKERS] and [CACHED_WAKER_IDS]. *)
Record WakerTable : Type := MkWakers {
  wakers : list (option Wk);
  cached_waker_ids : list Z
}.

(** [wakers.get(id as usize)]: a negative [i32] becomes a huge index. *)
Definition slot {A} (l : list A) (id : Z) : option A :=
  if 0 <=? id then l !! Z.to_nat id else None.

Definition maybe_cache_waker_id (id : Z) (ids : list Z) : list Z :=
  if zlen ids <? MAX_CACHE_WAKER_IDS then ids ++ [id] else ids.

(** The scan that refills an empty cache. *)
Fixpoint scan_free (i : Z) (ws : list (option Wk)) (ids : list Z) : list Z :=
  match ws with
  | [] => ids
  | Some _ :: ws => scan_free (i + 1) ws ids
  | None :: ws =>
    let ids := ids ++ [i] in
    if MAX_CACHE_WAKER_IDS <=? zlen ids then ids else scan_free (i + 1) ws ids
  end.

Definition get_free_waker_id (t : WakerTable) : option Z * WakerTable :=
  let ids := if (length (cached_waker_ids t) =? 0)%nat
             then scan_free 0 (wakers t) (cached_waker_ids t) else cached_waker_ids t in
  match ids with
  | [] => (None, MkWakers (wakers t) [])
  | id :: ids => (Some id, MkWakers (wakers t) ids)
  end.

(** [intern_waker_impl]; [None] is a panic. *)
Definition intern_waker (w : Wk) (t : WakerTable) : option (Z * WakerTable) :=
  let '(free_slot, t) := get_free_waker_id t in
  match free_slot with
  | Some id =>
    if (0 <=? id) && (id <? zlen (wakers t))
    then Some (id, MkWakers (<[Z.to_nat id := Some w]> (wakers t)) (cached_waker_ids t))
    else None
  | None =>
    if zlen (wakers t) <? MAX_N_WAKERS
    then let ws := wakers t ++ [Some w] in
         Some (wrap I32 (zlen ws) - 1, MkWakers ws (cached_waker_ids t))
    else None
  end.

(** [wake_waker]: the waker that is woken, if any. *)
Definition wake_waker (id : Z) (t : WakerTable) : option Wk := mjoin (slot (wakers t) id).

Definition drop_waker (id : Z) (t : WakerTable) : WakerTable :=
  match slot (wakers t) id with
  | Some _ => MkWakers (<[Z.to_nat id := None]> (wakers t))
                (maybe_cache_waker_id id (cached_waker_ids t))
  | None => t
  end.

(** The loop body of [wapo_poll] over the awake wakers. *)
Definition handle_msg (t : WakerTable) (msg : Z) : option Wk * WakerTable :=
  if 0 <=? msg then (wake_waker msg t, t) else (None, drop_waker (wrap I32 (-1 - msg)) t).

(** ** The waker protocol

    A guest waker is interned, its id handed to the host in an ocall, where it
    becomes a [GuestWaker] token until its last reference is dropped.  The queue
    carries the host's messages in order; the second component is a ghost: the
    waker the token was made for. *)
Inductive msg : Type := Wake (id : Z) (w : Wk) | Release (id : Z) (w : Wk).
Definition encode_msg (m : msg) : Z :=
  match m with Wake id _ => wake_msg id | Release id _ => drop_msg id end.

Record System : Type := MkSys {
  sys_wakers : WakerTable;
  tokens : list (Z * Wk);
  queue : list msg
}.

Definition sys_init : System := MkSys (MkWakers [] []) [] [].

Inductive sys_step : System -> System -> Prop :=
| step_intern s w id t : intern_waker w (sys_wakers s) = Some (id, t) ->
    sys_step s (MkSys t (tokens s ++ [(id, w)]) (queue s))
| step_intern_failed_ocall s w id t : intern_waker w (sys_wakers s) = Some (id, t) ->
    sys_step s (MkSys t (tokens s) (queue s))
| step_wake s id w : (id, w) ∈ tokens s ->
    sys_step s (MkSys (sys_wakers s) (tokens s) (queue s ++ [Wake id w]))
| step_release s id w l k : tokens s = l ++ (id, w) :: k ->
    sys_step s (MkSys (sys_wakers s) (l ++ k) (queue s ++ [Release id w]))
| step_deliver s m q : queue s = m :: q ->
    sys_step s (MkSys (handle_msg (sys_wakers s) (encode_msg m)).2 (tokens s) q).

Definition released (q : list msg) : list (Z * Wk) :=
  omap (fun m => match m with Release id w => Some (id, w) | Wake _ _ => None end) q.

(** The ids the host may still use: live tokens and undelivered releases. *)
Definition held (s : System) : list (Z * Wk) := tokens s ++ released (queue s).

Record table_inv (t : WakerTable) : Prop := {
  ti_cached_nodup : NoDup (cached_waker_ids t);
  ti_cached_free : forall id, id ∈ cached_waker_ids t -> slot (wakers t) id = Some None;
  ti_size : zlen (wakers t) <= MAX_N_WAKERS
}.

Record sys_inv (s : System) : Prop := {
  si_table : table_inv (sys_wakers s);
  si_held_nodup : NoDup (held s).*1;
  si_held_live : forall id w, (id, w) ∈ held s -> slot (wakers (sys_wakers s)) id = Some (Some w);
  si_wake_before_release : forall q1 id w q2, queue s = q1 ++ Wake id w :: q2 ->
    (id, w) ∈ tokens s ++ released q2
}.

Lemma slot_Some {A} (l : list A) id x : slot l id = Some x ->
  0 <= id < zlen l /\ l !! Z.to_nat id = Some x.
Proof.
  unfold slot, zlen. destruct (Z.leb_spec 0 id); [|done].
  intros Hl. split; [|done]. apply lookup_lt_Some in Hl. lia.
Qed.

Lemma slot_insert {A} (l : list A) id j x : 0 <= id < zlen l ->
  slot (<[Z.to_nat id := x]> l) j = if decide (j = id) then Some x else slot l j.
Proof.
  unfold slot, zlen. intros Hid. destruct (Z.leb_spec 0 j).
  - case_decide; [subst; by rewrite list_lookup_insert_eq by lia|].
    by rewrite list_lookup_insert_ne by lia.
  - case_decide; [lia|done].
Qed.

Lemma slot_snoc {A} (l : list A) j x :
  slot (l ++ [x]) j = if decide (j = zlen l) then Some x else slot l j.
Proof.
  unfold slot, zlen. destruct (Z.leb_spec 0 j).
  - case_decide as Hd.
    + subst. by rewrite Nat2Z.id, lookup_app_r, Nat.sub_diag by lia.
    + destruct (decide (Z.to_nat j < length l)%nat).
      * by rewrite lookup_app_l by done.
      * rewrite !lookup_ge_None_2; [done|lia|]. rewrite length_app. simpl. lia.
  - case_decide; [lia|done].
Qed.

Lemma slot_cons_S {A} (x : A) l id : 0 <= id -> slot (x :: l) (id + 1) = slot l id.
Proof.
  intros Hid. unfold slot. rewrite !(proj2 (Z.leb_le _ _)) by lia.
  by replace (Z.to_nat (id + 1)) with (S (Z.to_nat id)) by lia.
Qed.

(** The refill finds free slots, each once. *)
Lemma scan_free_spec (all : list (option Wk)) ws : forall i ids,
  0 <= i -> (forall j, 0 <= j -> slot ws j = slot all (i + j)) ->
  NoDup ids -> (forall id, id ∈ ids -> id < i /\ slot all id = Some None) ->
  NoDup (scan_free i ws ids) /\ forall id, id ∈ scan_free i ws ids -> slot all id = Some None.
Proof.
  induction ws as [|[w|] ws IH]; intros i ids Hi Hws Hnd Hids; simpl.
  - split; [done|]. intros id Hin. by apply Hids.
  - apply IH; [lia| |done|].
    + intros j Hj. rewrite <- (slot_cons_S (Some w)), Hws by lia. f_equal. lia.
    + intros id Hid. destruct (Hids id Hid). split; [lia|done].
  - assert (Hfree : slot all i = Some None).
    { specialize (Hws 0). simpl in Hws. rewrite Z.add_0_r in Hws. rewrite <- Hws by lia. done. }
    assert (Hnd' : NoDup (ids ++ [i])).
    { apply NoDup_app. split_and!; [done| |apply NoDup_singleton].
      intros x Hx ->%list_elem_of_singleton. apply Hids in Hx. lia. }
    assert (Hids' : forall id, id ∈ ids ++ [i] -> id < i + 1 /\ slot all id = Some None).
    { intros id [Hin| ->%list_elem_of_singleton]%elem_of_app; [|split; [lia|done]].
      destruct (Hids id Hin). split; [lia|done]. }
    destruct (MAX_CACHE_WAKER_IDS <=? zlen (ids ++ [i])).
    { split; [done|]. intros id Hin. by apply Hids'. }
    apply IH; [lia| |done|done].
    intros j Hj. rewrite <- (slot_cons_S None), Hws by lia. f_equal. lia.
Qed.

Lemma get_free_spec t : table_inv t ->
  let '(o, t') := get_free_waker_id t in
  wakers t' = wakers t /\ table_inv t' /\
  match o with
  | Some id => slot (wakers t) id = Some None /\ id ∉ cached_waker_ids t'
  | None => True
  end.
Proof.
  intros [Hnd Hfree Hsz]. unfold get_free_waker_id.
  set (ids := if (length (cached_waker_ids t) =? 0)%nat
              then scan_free 0 (wakers t) (cached_waker_ids t) else cached_waker_ids t).
  assert (Hids : NoDup ids /\ forall id, id ∈ ids -> slot (wakers t) id = Some None).
  { subst ids. destruct (Nat.eqb_spec (length (cached_waker_ids t)) 0); [|done].
    apply (scan_free_spec (wakers t)); [lia|done|done|].
    destruct (cached_waker_ids t); [set_solver|done]. }
  destruct Hids as [Hnd' Hfree']. destruct ids as [|id ids]; simpl.
  - split; [done|]. split; [|done]. split; simpl; [constructor|set_solver|done].
  - inversion Hnd'; subst. split; [done|]. split; [split; simpl; [done|set_solver|done]|].
    split; [apply Hfree'; set_solver|done].
Qed.

(** Interning uses a slot that held no waker, and only that slot. *)
Lemma intern_waker_spec w t id t' : table_inv t -> intern_waker w t = Some (id, t') ->
  table_inv t' /\ (forall w', slot (wakers t) id <> Some (Some w')) /\
  forall j, slot (wakers t') j = if decide (j = id) then Some (Some w) else slot (wakers t) j.
Proof.
  intros Hinv. unfold intern_waker. pose proof (get_free_spec t Hinv) as Hg.
  destruct (get_free_waker_id t) as [o t1]. destruct Hg as (Hw & [Hnd Hfree Hsz] & Ho).
  destruct o as [i|].
  - destruct Ho as [Hi Hni]. destruct (slot_Some _ _ _ Hi) as [Hr _].
    rewrite Hw in *. rewrite (proj2 (Z.leb_le 0 i)), (proj2 (Z.ltb_lt i _)) by lia.
    intros [= <- <-]. split; [|split; [by rewrite Hi|intros j; by apply slot_insert]].
    split; simpl; [done| |unfold zlen in *; by rewrite length_insert].
    intros j Hj. rewrite slot_insert by done. case_decide; [by subst|by apply Hfree].
  - destruct (Z.ltb_spec (zlen (wakers t1)) MAX_N_WAKERS) as [Hlt|]; [|done].
    intros [= <- <-].
    assert (Hid : wrap I32 (zlen (wakers t1 ++ [Some w])) - 1 = zlen (wakers t1)).
    { rewrite zlen_app, zlen_cons, zlen_nil. rewrite wrap_id; [lia|].
      apply in_range_spec. const_of MAX_N_WAKERS. pose proof (zlen_nonneg (wakers t1)).
      const_bounds. lia. }
    rewrite Hid, Hw in *. split; [|split; [|intros j; apply slot_snoc]].
    + split; simpl; [done| |rewrite zlen_app, zlen_cons, zlen_nil; lia].
      intros j Hj. rewrite slot_snoc. pose proof (Hfree j Hj) as Hs.
      apply slot_Some in Hs as Hs'. case_decide; [lia|done].
    + intros w' Hs. apply slot_Some in Hs. lia.
Qed.

Lemma drop_waker_spec id w t : table_inv t -> slot (wakers t) id = Some (Some w) ->
  table_inv (drop_waker id t) /\
  forall j, slot (wakers (drop_waker id t)) j = if decide (j = id) then Some None else slot (wakers t) j.
Proof.
  intros [Hnd Hfree Hsz] Hs. destruct (slot_Some _ _ _ Hs) as [Hr _].
  unfold drop_waker. rewrite Hs. simpl. split; [|intros j; by apply slot_insert].
  assert (Hni : id ∉ cached_waker_ids t) by (intros Hin; specialize (Hfree _ Hin); congruence).
  split; simpl; [..|unfold zlen in *; by rewrite length_insert].
  - unfold maybe_cache_waker_id. destruct (zlen (cached_waker_ids t) <? MAX_CACHE_WAKER_IDS); [|done].
    apply NoDup_app. split_and!; [done|set_solver|apply NoDup_singleton].
  - intros j Hj. rewrite slot_insert by done. case_decide; [done|].
    apply Hfree. unfold maybe_cache_waker_id in Hj.
    destruct (zlen (cached_waker_ids t) <? MAX_CACHE_WAKER_IDS); set_solver.
Qed.

(** The wire format of a message: ids are slot indices. *)
Lemma handle_wake id w t : slot (wakers t) id = Some (Some w) ->
  handle_msg t (wake_msg id) = (Some w, t).
Proof.
  intros Hs. destruct (slot_Some _ _ _ Hs) as [Hr _]. unfold handle_msg, wake_msg, wake_waker.
  by rewrite (proj2 (Z.leb_le 0 id)), Hs by lia.
Qed.
Lemma handle_release id w t : table_inv t -> slot (wakers t) id = Some (Some w) ->
  handle_msg t (drop_msg id) = (None, drop_waker id t).
Proof.
  intros [_ _ Hsz] Hs. destruct (slot_Some _ _ _ Hs) as [Hr _].
  const_of MAX_N_WAKERS.
  unfold handle_msg, drop_msg. rewrite (wrap_id I32 (-1 - id)) by range_solve.
  rewrite (proj2 (Z.leb_gt 0 _)) by lia. do 2 f_equal.
  replace (-1 - (-1 - id)) with id by lia. apply wrap_id. range_solve.
Qed.

Lemma released_app q1 q2 : released (q1 ++ q2) = released q1 ++ released q2.
Proof. apply omap_app. Qed.

(** A new waker in a slot no held id points to. *)
Lemma inv_intern s w id t : sys_inv s -> intern_waker w (sys_wakers s) = Some (id, t) ->
  sys_inv (MkSys t (tokens s ++ [(id, w)]) (queue s)) /\ sys_inv (MkSys t (tokens s) (queue s)).
Proof.
  intros [Ht Hnd Hlive Hord] Hi. destruct (intern_waker_spec _ _ _ _ Ht Hi) as (Ht' & Hfree & Hsl).
  assert (Hnew : id ∉ (held s).*1).
  { intros ([i w'] & -> & Hin)%list_elem_of_fmap. apply (Hfree w'). by apply Hlive. }
  assert (Hold : forall i w', (i, w') ∈ held s -> slot (wakers t) i = Some (Some w')).
  { intros i w' Hin. rewrite Hsl. case_decide; [|by apply Hlive].
    subst. exfalso. apply Hnew, list_elem_of_fmap. by exists (id, w'). }
  unfold held in *. split.
  - split; simpl; [done|..].
    + unfold held. simpl. rewrite <- app_assoc, fmap_app. simpl.
      rewrite fmap_app in Hnd, Hnew.
      apply NoDup_app in Hnd as (H1 & H2 & H3). apply NoDup_app. split_and!; [done|set_solver|].
      constructor; [set_solver|done].
    + unfold held. simpl. intros i w'. rewrite <- app_assoc. intros Hin.
      assert (Hc : (i, w') = (id, w) \/ (i, w') ∈ tokens s ++ released (queue s)) by set_solver.
      destruct Hc as [[= -> ->]|Hin']; [|by apply Hold].
      rewrite Hsl. by case_decide.
    + intros q1 i w' q2 Hq. specialize (Hord _ _ _ _ Hq). set_solver.
  - split; simpl; auto.
Qed.

Lemma inv_wake s id w : sys_inv s -> (id, w) ∈ tokens s ->
  sys_inv (MkSys (sys_wakers s) (tokens s) (queue s ++ [Wake id w])).
Proof.
  intros [Ht Hnd Hlive Hord] Hin.
  assert (Hrel : released (queue s ++ [Wake id w]) = released (queue s))
    by (rewrite released_app; apply app_nil_r).
  split; unfold held in *; simpl; rewrite ?Hrel; [done..|].
  intros q1 i w' q2 Hq. destruct q2 as [|x q2 _] using rev_ind.
  - apply (f_equal last) in Hq. rewrite !last_snoc in Hq. simplify_eq. set_solver.
  - rewrite app_comm_cons, app_assoc in Hq. apply app_inj_tail in Hq as [Hq <-].
    specialize (Hord _ _ _ _ Hq). rewrite released_app. set_solver.
Qed.

Lemma inv_release s id w l k : sys_inv s -> tokens s = l ++ (id, w) :: k ->
  sys_inv (MkSys (sys_wakers s) (l ++ k) (queue s ++ [Release id w])).
Proof.
  intros [Ht Hnd Hlive Hord] Htok.
  assert (Hrel : released (queue s ++ [Release id w]) = released (queue s) ++ [(id, w)])
    by apply released_app.
  assert (Hp : (l ++ k) ++ released (queue s) ++ [(id, w)] ≡ₚ held s).
  { unfold held. rewrite Htok. solve_Permutation. }
  split; unfold held; simpl; rewrite ?Hrel.
  - done.
  - by rewrite Hp.
  - intros i w'. rewrite Hp. apply Hlive.
  - intros q1 i w' q2 Hq. destruct q2 as [|x q2 _] using rev_ind.
    + apply (f_equal last) in Hq. rewrite !last_snoc in Hq. done.
    + rewrite app_comm_cons, app_assoc in Hq. apply app_inj_tail in Hq as [Hq <-].
      specialize (Hord _ _ _ _ Hq). rewrite Htok in Hord. rewrite released_app. simpl.
      set_solver.
Qed.

Lemma inv_deliver s m q : sys_inv s -> queue s = m :: q ->
  sys_inv (MkSys (handle_msg (sys_wakers s) (encode_msg m)).2 (tokens s) q).
Proof.
  intros [Ht Hnd Hlive Hord] Hq. unfold held in *. rewrite Hq in *.
  assert (Hord' : forall q1 i w q2, q = q1 ++ Wake i w :: q2 -> (i, w) ∈ tokens s ++ released q2).
  { intros q1 i w q2 ->. by apply (Hord (m :: q1)). }
  destruct m as [id w|id w]; simpl in *.
  - assert (Hs : slot (wakers (sys_wakers s)) id = Some (Some w)) by (apply Hlive, (Hord [] id w q eq_refl)).
    rewrite (handle_wake _ _ _ Hs). by split.
  - assert (Hs : slot (wakers (sys_wakers s)) id = Some (Some w)) by (apply Hlive; set_solver).
    rewrite (handle_release _ _ _ Ht Hs). simpl.
    destruct (drop_waker_spec _ _ _ Ht Hs) as [Ht' Hsl].
    assert (Hp : tokens s ++ (id, w) :: released q ≡ₚ (id, w) :: tokens s ++ released q)
      by solve_Permutation.
    rewrite Hp in Hnd. inversion Hnd as [|? ? Hni Hnd']; subst.
    split; unfold held; simpl; [done..| |done].
    intros i w' Hin. rewrite Hsl. case_decide; [|apply Hlive; set_solver].
    subst. exfalso. apply Hni, list_elem_of_fmap. by exists (id, w').
Qed.

Lemma sys_inv_step s s' : sys_step s s' -> sys_inv s -> sys_inv s'.
Proof.
  intros Hstep Hinv. inversion Hstep; subst;
    [by eapply inv_intern | by eapply inv_intern | by apply inv_wake
    | by apply inv_release | by apply inv_deliver].
Qed.

Lemma sys_inv_init : sys_inv sys_init.
Proof.
  split; simpl; [split; simpl|..].
  - constructor.
  - set_solver.
  - unfold zlen, MAX_N_WAKERS. vm_compute. discriminate.
  - constructor.
  - set_solver.
  - intros [|] * [=].
Qed.

Lemma sys_inv_reachable s : rtc sys_step sys_init s -> sys_inv s.
Proof.
  intros Hr. remember sys_init as s0 eqn:He.
  assert (Hi : sys_inv s0) by (subst; apply sys_inv_init). clear He.
  induction Hr; [done|]. eauto using sys_inv_step.
Qed.

(** C4: waker ids are never confused: in every reachable state of guest and
    host, the message at the head of the queue is delivered to the waker it was
    sent for.  A wake-up wakes exactly that waker; a release finds that waker in
    the slot it frees, although slots and cached ids are reused. *)
Theorem wake_reaches_its_waker s m q : rtc sys_step sys_init s -> queue s = m :: q ->
  match m with
  | Wake id w => (handle_msg (sys_wakers s) (encode_msg m)).1 = Some w
  | Release id w => wake_waker id (sys_wakers s) = Some w /\
      wake_waker id (handle_msg (sys_wakers s) (encode_msg m)).2 = None
  end.
Proof.
  intros [Ht Hnd Hlive Hord]%sys_inv_reachable Hq. unfold held in Hlive. rewrite Hq in *.
  destruct m as [id w|id w]; simpl in *.
  - assert (Hs : slot (wakers (sys_wakers s)) id = Some (Some w)) by (apply Hlive, (Hord [] id w q eq_refl)).
    by rewrite (handle_wake _ _ _ Hs).
  - assert (Hs : slot (wakers (sys_wakers s)) id = Some (Some w)) by (apply Hlive; set_solver).
    rewrite (handle_release _ _ _ Ht Hs). simpl.
    destruct (drop_waker_spec _ _ _ Ht Hs) as [_ Hsl]. unfold wake_waker. rewrite Hs, Hsl.
    by case_decide.
Qed.
End Wakers.
Arguments WakerTable Wk : clear implicits.
Arguments System Wk : clear implicits.

(** The id of the first waker is reused by the third. *)
Lemma wake_reaches_its_waker_witness :
  (handle_msg (sys_wakers (MkSys (MkWakers [Some 3%nat; Some 2%nat] []) [(1, 2%nat); (0, 3%nat)]
     [Wake 0 3%nat])) (encode_msg (Wake 0 3%nat))).1 = Some 3%nat.
Proof.
  apply (wake_reaches_its_waker (MkSys (MkWakers [Some 3%nat; Some 2%nat] [])
    [(1, 2%nat); (0, 3%nat)] [Wake 0 3%nat]) (Wake 0 3%nat) []); [|reflexivity].
  eapply rtc_l; [by apply (step_intern sys_init 1%nat)|].
  eapply rtc_l; [by eapply (step_intern _ 2%nat)|].
  eapply rtc_l; [by apply (step_release _ 0 1%nat [] [(1, 2%nat)])|].
  eapply rtc_l; [by eapply step_deliver|].
  eapply rtc_l; [by eapply (step_intern _ 3%nat)|].
  eapply rtc_l; [apply (step_wake _ 0 3%nat); set_solver|].
  apply rtc_refl.
Defined.

(** ** Tasks

    [TASKS], [SPAWNING_TASKS] and [CURRENT_TASK].  What a future does when it is
    polled is a parameter: it may finish, spawn futures, intern wakers and make
    ocalls that touch the host's [TaskSet]; so is the effect of waking a waker,
    which for a task's own waker is [mark_task_ready]. *)
Section Executor.
Context {Fut Wk : Type}.
Context (wake : Wk -> TaskSet -> TaskSet).
Context (poll_future : Z -> Fut -> WakerTable Wk * TaskSet ->
  option Fut * list Fut * (WakerTable Wk * TaskSet)).

Record Guest : Type := MkGuest {
  g_tasks : list (option Fut);
  g_spawning : list Fut;
  g_current : Z;
  g_wakers : WakerTable Wk;
  g_host : TaskSet
}.

Definition guest_init (main : Fut) : Guest := MkGuest [Some main] [] 0 (MkWakers [] []) with_task0.

(** The scan of [start_task]: the first empty slot after the main task's. *)
Fixpoint free_task_slot (i : nat) (ts : list (option Fut)) : option nat :=
  match ts with
  | [] => None
  | None :: _ => Some i
  | Some _ :: ts => free_task_slot (S i) ts
  end.

(** [None] is a panic. *)
Definition start_task (ts : list (option Fut)) (task : Fut) (host : TaskSet)
  : option (nat * list (option Fut) * TaskSet) :=
  match free_task_slot 1 (skipn 1 ts) with
  | Some task_id =>
    Some (task_id, <[task_id := Some task]> ts, push_task (wrap I32 (Z.of_nat task_id)) host)
  | None =>
    if zlen ts <? MAX_N_TASKS
    then let task_id := length ts in
         Some (task_id, ts ++ [Some task], push_task (wrap I32 (Z.of_nat task_id)) host)
    else None
  end.

Fixpoint start_spawned_tasks (ts : list (option Fut)) (spawned : list Fut) (host : TaskSet)
  : option (list nat * list (option Fut) * TaskSet) :=
  match spawned with
  | [] => Some ([], ts, host)
  | task :: spawned =>
    '(id, ts, host) ← start_task ts task host;
    '(ids, ts, host) ← start_spawned_tasks ts spawned host;
    Some (id :: ids, ts, host)
  end.

(** The waker messages at the start of a poll. *)
Fixpoint handle_msgs (msgs : list Z) (w : WakerTable Wk) (host : TaskSet)
  : WakerTable Wk * TaskSet :=
  match msgs with
  | [] => (w, host)
  | m :: msgs =>
    let '(woken, w) := handle_msg w m in
    handle_msgs msgs w (match woken with Some k => wake k host | None => host end)
  end.

(** Polling task [task_id]: the future runs in its slot, the slot is emptied when
    it is done, and unless the main task is gone the spawned tasks start.  The
    result is whether the main task exited, [None] inside when there is no such
    task. *)
Definition poll_task (task_id : Z) (g : Guest) : option (option bool * Guest) :=
  match mjoin (slot (g_tasks g) task_id) with
  | None => Some (None, g)
  | Some fut =>
    let '(fut', spawned, (w, host)) := poll_future task_id fut (g_wakers g, g_host g) in
    let ts := <[Z.to_nat task_id := fut']> (g_tasks g) in
    let spawning := g_spawning g ++ spawned in
    let exited := match ts with None :: _ => true | _ => false end in
    if exited then Some (Some true, MkGuest ts spawning task_id w host)
    else
      '(_, ts, host) ← start_spawned_tasks ts spawning host;
      Some (Some false, MkGuest ts [] task_id w host)
  end.

(** [wapo_poll]: its return value, and the task that was polled. *)
Definition wapo_poll (g : Guest) : option (Z * option Z * Guest) :=
  let '(msgs, host) := drain_wakers (g_host g) in
  let '(w, host) := handle_msgs msgs (g_wakers g) host in
  let '(next, host) := pop_task host in
  let g := MkGuest (g_tasks g) (g_spawning g) (g_current g) w host in
  match next with
  | None => Some (0, None, g)
  | Some task_id =>
    '(exited, g) ← poll_task task_id g;
    Some (match exited with Some true => 1 | _ => 0 end, Some task_id, g)
  end.

(** ** Spawning *)
Lemma free_task_slot_Some i ts j : free_task_slot i ts = Some j ->
  exists k, j = (i + k)%nat /\ ts !! k = Some None.
Proof.
  revert i. induction ts as [|[f|] ts IH]; intros i; simpl; [done| |].
  - intros (k & -> & Hk)%IH. exists (S k). split; [lia|done].
  - intros [= <-]. exists 0%nat. split; [lia|done].
Qed.

Lemma start_task_spec ts task host id ts' host' : ts <> [] -> zlen ts <= MAX_N_TASKS ->
  start_task ts task host = Some (id, ts', host') ->
  (1 <= id)%nat /\ mjoin (ts !! id) = None /\ zlen ts' <= MAX_N_TASKS /\ ts' <> [] /\
  host' = push_task (Z.of_nat id) host /\
  (forall j, mjoin (ts' !! j) = if decide (j = id) then Some task else mjoin (ts !! j)).
Proof.
  intros Hne Hlen. unfold start_task.
  assert (Hw : forall n, (Z.of_nat n <= MAX_N_TASKS) -> wrap I32 (Z.of_nat n) = Z.of_nat n).
  { intros n Hn. apply wrap_id. const_of MAX_N_TASKS. range_solve. }
  destruct (free_task_slot 1 (skipn 1 ts)) as [i|] eqn:Hf.
  - apply free_task_slot_Some in Hf as (k & -> & Hk). rewrite lookup_drop in Hk.
    change (1 + k)%nat with (S k) in *. intros [= <- <- <-]. pose proof (lookup_lt_Some _ _ _ Hk).
    rewrite Hw by (unfold zlen in Hlen; lia).
    split_and!; [lia|by rewrite Hk|unfold zlen in *; by rewrite length_insert|
      by destruct ts|done|].
    intros j. case_decide; [subst; by rewrite list_lookup_insert_eq by done|].
    by rewrite list_lookup_insert_ne by done.
  - destruct (Z.ltb_spec (zlen ts) MAX_N_TASKS); [|done]. intros [= <- <- <-].
    rewrite Hw by done. split_and!.
    + destruct ts; [done|]. simpl. lia.
    + by rewrite lookup_ge_None_2 by done.
    + rewrite zlen_app, zlen_cons, zlen_nil. lia.
    + by destruct ts.
    + done.
    + intros j. case_decide; [subst; by rewrite lookup_app_r, Nat.sub_diag by done|].
      destruct (decide (j < length ts)%nat); [by rewrite lookup_app_l by done|].
      rewrite !lookup_ge_None_2; [done|lia|rewrite length_app; simpl; lia].
Qed.

Definition live_task (ts : list (option Fut)) (j : nat) : option Fut := mjoin (ts !! j).

(** Spawned futures become tasks of their own: each one, in the order they
    were spawned, gets a distinct slot after the main task's that was free, and is
    queued for polling; no running task is displaced. *)
Theorem spawned_tasks_start spawned : forall ts host ids ts' host',
  ts <> [] -> zlen ts <= MAX_N_TASKS ->
  start_spawned_tasks ts spawned host = Some (ids, ts', host') ->
  NoDup ids /\
  Forall2 (fun id task => (1 <= id)%nat /\ live_task ts id = None /\
    live_task ts' id = Some task /\ Z.of_nat id ∈ awake_tasks host') ids spawned /\
  (forall j, j ∉ ids -> live_task ts' j = live_task ts j) /\
  (forall t, t ∈ awake_tasks host -> t ∈ awake_tasks host').
Proof.
  induction spawned as [|task spawned IH]; intros ts host ids ts' host' Hne Hlen; simpl.
  - intros [= <- <- <-]. split_and!; [constructor|constructor|done|done].
  - destruct (start_task ts task host) as [[[id ts1] host1]|] eqn:Hs; simpl; [|done].
    destruct (start_spawned_tasks ts1 spawned host1) as [[[ids' ts2] host2]|] eqn:Hr; simpl; [|done].
    intros [= <- <- <-]. apply start_task_spec in Hs as (Hid & Hfree & Hlen1 & Hne1 & -> & Hl); [|done..].
    destruct (IH _ _ _ _ _ Hne1 Hlen1 Hr) as (Hnd & Hall & Hrest & Hkeep).
    assert (Hout : id ∉ ids').
    { intros Hin. destruct (list_elem_of_lookup_1 _ _ Hin) as [i Hi].
      destruct (Forall2_lookup_l _ _ _ _ _ Hall Hi) as (t & _ & _ & Hf & _).
      unfold live_task in Hf. by rewrite Hl, decide_True in Hf by done. }
    split_and!.
    + by constructor.
    + constructor.
      * unfold live_task in *. rewrite Hrest, Hl, decide_True by done.
        split_and!; try done. apply Hkeep. auto with wapo.
      * eapply Forall2_impl; [exact Hall|]. intros i t (Hi & Hf & Ht & Hq). split_and!; try done.
        unfold live_task in *. rewrite Hl in Hf. by case_decide.
    + intros j Hj. apply not_elem_of_cons in Hj as [Hj1 Hj2].
      rewrite Hrest by done. unfold live_task. by rewrite Hl, decide_False by done.
    + intros t Ht. apply Hkeep. auto with wapo.
Qed.

(** ** Scheduling *)

(** Waking a waker and polling a future only add ready tasks. *)
Hypothesis wake_appends : forall k t, exists l,
  awake_tasks (wake k t) = awake_tasks t ++ l.
Hypothesis poll_appends : forall id f w t, exists l,
  awake_tasks (poll_future id f (w, t)).2.2 = awake_tasks t ++ l.

Lemma start_spawned_appends spawned : forall ts host ids ts' host',
  start_spawned_tasks ts spawned host = Some (ids, ts', host') ->
  exists l, awake_tasks host' = awake_tasks host ++ l.
Proof.
  induction spawned as [|task spawned IH]; intros ts host ids ts' host'; simpl.
  - intros [= _ _ <-]. exists []. by rewrite app_nil_r.
  - unfold start_task. intros Hs.
    repeat (case_match; simplify_eq/=); simplify_option_eq;
      repeat match goal with H : _ * _ |- _ => destruct H end; simplify_option_eq;
      match goal with H : start_spawned_tasks _ _ (push_task ?i host) = _ |- _ =>
        apply IH in H as [l2 ->]; destruct (push_task_prefix i host) as [l1 ->] end;
      exists (l1 ++ l2); by rewrite app_assoc.
Qed.

Lemma handle_msgs_appends msgs : forall w host, exists l,
  awake_tasks (handle_msgs msgs w host).2 = awake_tasks host ++ l.
Proof.
  induction msgs as [|m msgs IH]; intros w host; simpl; [exists []; by rewrite app_nil_r|].
  destruct (handle_msg w m) as [[k|] w']; [|apply IH].
  destruct (IH w' (wake k host)) as [l2 ->]. destruct (wake_appends k host) as [l1 ->].
  exists (l1 ++ l2). by rewrite app_assoc.
Qed.

Lemma wapo_poll_queue g r polled g' : wapo_poll g = Some (r, polled, g') ->
  exists l, (option_list polled ++ awake_tasks (g_host g')) = awake_tasks (g_host g) ++ l.
Proof.
  unfold wapo_poll, drain_wakers.
  destruct (handle_msgs_appends (awake_wakers (g_host g)) (g_wakers g)
    (MkTaskSet (awake_tasks (g_host g)) [])) as [l1 Hl1].
  destruct (handle_msgs _ _ _) as [w host]. simpl in Hl1. unfold pop_task.
  destruct (awake_tasks host) as [|t rest] eqn:Ht.
  - intros [= <- <- <-]. exists l1. simpl. congruence.
  - unfold poll_task. simpl. intros Hp.
    destruct (mjoin (slot (g_tasks g) t)) as [f|]; simpl in Hp;
      [|simplify_eq/=; exists l1; congruence].
    destruct (poll_appends t f w (MkTaskSet rest (awake_wakers host))) as [l2 Hl2].
    destruct (poll_future t f _) as [[f' sp] [w' h']]. simpl in Hl2.
    assert (Hq : forall l3, t :: (rest ++ l2) ++ l3 = awake_tasks (g_host g) ++ (l1 ++ l2 ++ l3)).
    { intros l3. rewrite app_assoc, <- Hl1. simpl. by rewrite app_assoc. }
    destruct (match <[Z.to_nat t:=f']> (g_tasks g) with None :: _ => true | _ => false end).
    + simplify_eq/=. exists (l1 ++ l2 ++ []). rewrite <- Hq. by rewrite Hl2, app_nil_r.
    + destruct (start_spawned_tasks _ _ _) as [[[ids ts'] h'']|] eqn:Hs; simplify_eq/=.
      apply start_spawned_appends in Hs as [l3 Hl3].
      exists (l1 ++ l2 ++ l3). rewrite <- Hq. by rewrite Hl3, Hl2.
Qed.

(** One call polls the first ready task, and moves every other one forward. *)
Lemma wapo_poll_position g r polled g' k id : wapo_poll g = Some (r, polled, g') ->
  awake_tasks (g_host g) !! k = Some id ->
  match k with O => polled = Some id | S k => awake_tasks (g_host g') !! k = Some id end.
Proof.
  intros Hw Hk. destruct (wapo_poll_queue _ _ _ _ Hw) as [l Hl].
  apply (lookup_app_l_Some _ l) in Hk. rewrite <- Hl in Hk.
  destruct polled as [t|]; simpl in Hk; [destruct k; by simplify_eq/=|].
  exfalso. unfold wapo_poll, drain_wakers in Hw. destruct (handle_msgs _ _ _) as [w h].
  unfold pop_task in Hw. destruct (awake_tasks h) eqn:Hh; simpl in Hw.
  - simplify_eq/=. by rewrite Hh in Hk.
  - destruct (poll_task _ _) as [[]|]; simplify_eq/=.
Qed.

(** [n] calls of [wapo_poll], with the tasks they polled; [None] when one of them
    panics. *)
Fixpoint polls (n : nat) (g : Guest) : option (list (option Z) * Guest) :=
  match n with
  | O => Some ([], g)
  | S n =>
    '(_, polled, g) ← wapo_poll g;
    '(ps, g) ← polls n g;
    Some (polled :: ps, g)
  end.

(** No ready task starves: a task waiting at position [k] of the ready queue
    is the one polled by the [k]-th next call, whatever the futures before it do,
    spawn or wake. *)
Theorem ready_tasks_fifo n : forall g ps g' k id,
  polls n g = Some (ps, g') -> awake_tasks (g_host g) !! k = Some id -> (k < n)%nat ->
  ps !! k = Some (Some id).
Proof.
  induction n as [|n IH]; intros g ps g' k id; [lia|]. simpl. intros Hp Hk Hlt.
  destruct (wapo_poll g) as [[[r polled] g1]|] eqn:Hw; simplify_eq/=.
  destruct (polls n g1) as [[ps' g2]|] eqn:Hr; simplify_eq/=.
  pose proof (wapo_poll_position _ _ _ _ _ _ Hw Hk) as Hp. destruct k as [|k]; simpl; [by rewrite Hp|].
  eapply IH; [done|done|lia].
Qed.
End Executor.

(** Futures that count down, spawn their list of children first and then yield;
    wakers are task ids. *)
Inductive toy_fut : Type := Toy (n : nat) (children : list toy_fut).
Definition toy_poll (id : Z) (f : toy_fut) (s : WakerTable Z * TaskSet)
  : option toy_fut * list toy_fut * (WakerTable Z * TaskSet) :=
  match f with
  | Toy 0 cs => (None, cs, s)
  | Toy (S n) cs => (Some (Toy n []), cs, (s.1, push_task id s.2))
  end.

Lemma spawned_tasks_start_witness :
  NoDup [2%nat; 4%nat] /\
  Forall2 (fun id task => (1 <= id)%nat /\
      live_task [Some (Toy 1 []); Some (Toy 2 []); None; Some (Toy 3 [])] id = None /\
      live_task [Some (Toy 1 []); Some (Toy 2 []); Some (Toy 5 []); Some (Toy 3 []);
        Some (Toy 6 [])] id = Some task /\ Z.of_nat id ∈ [0; 2; 4])
    [2%nat; 4%nat] [Toy 5 []; Toy 6 []].
Proof.
  refine (let H := spawned_tasks_start [Toy 5 []; Toy 6 []]
    [Some (Toy 1 []); Some (Toy 2 []); None; Some (Toy 3 [])] with_task0 [2%nat; 4%nat]
    [Some (Toy 1 []); Some (Toy 2 []); Some (Toy 5 []); Some (Toy 3 []); Some (Toy 6 [])]
    (MkTaskSet [0; 2; 4] []) _ _ _ in conj (proj1 H) (proj1 (proj2 H)));
    [discriminate|done|vm_compute; reflexivity].
Defined.

(** The main task spawns two children on its first poll; the second child, third
    in the queue, is polled by the third call. *)
Lemma ready_tasks_fifo_witness :
  [Some 0; Some 1; Some 2] !! 2%nat = Some (Some 2).
Proof.
  refine (ready_tasks_fifo (fun k t => push_task k t) toy_poll _ _ 3
    (MkGuest [Some (Toy 3 []); Some (Toy 0 []); Some (Toy 0 [])] [] 0 (MkWakers [] [])
       (MkTaskSet [0; 1; 2] [])) [Some 0; Some 1; Some 2] _ 2 2 _ _ _).
  - intros k t. apply push_task_prefix.
  - intros id [[|n] cs] w t; simpl; [exists []; by rewrite app_nil_r|]. apply push_task_prefix.
  - vm_compute. reflexivity.
  - reflexivity.
  - lia.
Defined.
