(* ===== verification/Join.v ===== *)
(** * Joining spawned tasks (wapo-env/src/tasks.rs: spawn_named, JoinHandle)

    A spawned future runs as a task of its own and sends its result to the handle that
    [spawn] returned; the task may be dropped before it ends, and so may the
    handle. *)
From S2P Require Import Prelude Resource.

Section Join.
(** A future with its state, polled in some environment. *)
Context {T Fut S : Type} (poll_future : Fut -> S -> (T + Fut) * S).

(** The channel between task and handle: empty, with the result, or without sender;
    [Received] after the handle took the result. *)
Inductive oneshot : Type := Waiting | Sent (v : T) | SenderGone | Received.
Inductive Canceled : Type := TaskDropped.
(** A task with its handle: the future while the task lives, and whether the handle does. *)
Record Spawned : Type := MkSpawned { sp_fut : option Fut; sp_cell : oneshot; sp_handle : bool }.

(** [spawn_named], with the number of the task. *)
Definition spawn_named (gsn : Z) (fut : Fut) : Z * Spawned := (wrap U64 (gsn + 1), MkSpawned (Some fut) Waiting true).
(** A poll of the task: whether it has ended.  A result for a dropped handle is
    thrown away. *)
Definition task_poll (t : Spawned) (s : S) : bool * Spawned * S :=
  match sp_fut t with
  | None => (true, t, s)
  | Some fut =>
    match poll_future fut s with
    | (inl v, s) => (true, MkSpawned None (if sp_handle t then Sent v else SenderGone) (sp_handle t), s)
    | (inr fut, s) => (false, MkSpawned (Some fut) (sp_cell t) (sp_handle t), s)
    end
  end.
(** The task is dropped with its slot, or with the instance. *)
Definition task_drop (t : Spawned) : Spawned :=
  match sp_fut t with
  | None => t
  | Some _ => MkSpawned None SenderGone (sp_handle t)
  end.
(** [JoinHandle::poll], and the end of the handle. *)
Definition join_poll (t : Spawned) : Resource.poll (result Canceled T) * Spawned :=
  match sp_cell t with
  | Waiting => (PPending, t)
  | Sent v => (PReady (Ok v), MkSpawned (sp_fut t) Received (sp_handle t))
  | SenderGone | Received => (PReady (Err TaskDropped), t)
  end.
Definition handle_drop (t : Spawned) : Spawned := MkSpawned (sp_fut t) (sp_cell t) false.
(** [HyperExecutor::execute]: the handle is dropped at once. *)
Definition execute (gsn : Z) (fut : Fut) : Z * Spawned := let '(gsn, t) := spawn_named gsn fut in (gsn, handle_drop t).

Inductive join_op : Type := TaskPoll (s : S) | TaskDrop | JoinPoll | HandleDrop.
(** What the handle answered, and the values the future ended with. *)
Record History : Type := MkHistory { h_task : Spawned; h_answers : list (Resource.poll (result Canceled T)); h_value : option T }.
Definition join_step (h : History) (op : join_op) : History :=
  match op with
  | TaskPoll s =>
    let '(_, t, _) := task_poll (h_task h) s in
    MkHistory t (h_answers h)
      (match sp_fut (h_task h) with
       | Some fut => match (poll_future fut s).1 with inl v => Some v | inr _ => h_value h end
       | None => h_value h
       end)
  | TaskDrop => MkHistory (task_drop (h_task h)) (h_answers h) (h_value h)
  | JoinPoll =>
    if sp_handle (h_task h)
    then let '(r, t) := join_poll (h_task h) in MkHistory t (h_answers h ++ [r]) (h_value h)
    else h
  | HandleDrop => MkHistory (handle_drop (h_task h)) (h_answers h) (h_value h)
  end.

(** What is in the channel is what the future gave. *)
Definition join_inv (h : History) : Prop :=
  match sp_fut (h_task h) with
  | Some _ => h_value h = None /\ sp_cell (h_task h) = Waiting
  | None => match sp_cell (h_task h) with
            | Waiting => False
            | Sent v => h_value h = Some v
            | SenderGone => h_value h = None \/ sp_handle (h_task h) = false
            | Received => is_Some (h_value h)
            end
  end /\
  (forall v, PReady (Ok v) ∈ h_answers h -> h_value h = Some v /\ sp_cell (h_task h) = Received) /\
  (PReady (Err TaskDropped) ∈ h_answers h -> sp_fut (h_task h) = None).
Lemma join_step_inv h op : join_inv h -> join_inv (join_step h op).
Proof.
  destruct h as [[fut cell hd] answers value]. unfold join_inv. simpl. intros (Hc & Hok & Herr). destruct op as [s| | |]; simpl.
  - unfold task_poll. simpl. destruct fut as [fut|]; simpl; [|done]. destruct Hc as [-> ->].
    destruct (poll_future fut s) as [[v|fut'] s']; simpl.
    + split; [destruct hd; simpl; auto|]. split; [|done]. intros w Hw. by destruct (Hok w Hw).
    + split; [done|]. split; [|by intros Hw%Herr]. intros w Hw. by destruct (Hok w Hw).
  - unfold task_drop. destruct fut as [fut|]; simpl; [|done]. destruct Hc as [-> ->]. split; [by left|].
    split; [|done]. intros w Hw. by destruct (Hok w Hw).
  - destruct hd; simpl; [|done]. unfold join_poll. simpl.
    destruct fut as [fut|]; [destruct Hc as [Hval ->]|destruct cell as [|v| |]]; simpl; try done.
    + split; [done|]. split; [intros w [Hw|Hw%list_elem_of_singleton]%elem_of_app; [by apply Hok|done]|].
      intros [Hw|Hw%list_elem_of_singleton]%elem_of_app; [by apply Herr in Hw|done].
    + split; [by rewrite Hc|]. split; [|done]. intros w [Hw|[= ->]%list_elem_of_singleton]%elem_of_app; [by destruct (Hok w Hw)|done].
    + split; [done|]. split; [|done]. intros w [Hw|Hw%list_elem_of_singleton]%elem_of_app; [by apply Hok|done].
    + split; [done|]. split; [|done]. intros w [Hw|Hw%list_elem_of_singleton]%elem_of_app; [by apply Hok|done].
  - split; [|done]. destruct fut; [done|]. destruct cell; auto.
Qed.

(** A handle answers with a value only if the future ended with it, with an error only
    once the task is gone, and before that it is pending. *)
Lemma join_answers gsn fut ops :
  let h := foldl join_step (MkHistory (spawn_named gsn fut).2 [] None) ops in
  (forall v, PReady (Ok v) ∈ h_answers h -> h_value h = Some v) /\
  (PReady (Err TaskDropped) ∈ h_answers h -> sp_fut (h_task h) = None) /\
  (sp_fut (h_task h) <> None -> Forall (fun r => r = PPending) (h_answers h)).
Proof.
  intros h. assert (Hi : join_inv h).
  { assert (Hr : forall h0, join_inv h0 -> join_inv (foldl join_step h0 ops)).
    { induction ops as [|op ops IH]; intros h0 H0; [done|]. simpl. by apply IH, join_step_inv. }
    apply Hr. unfold join_inv. simpl. split; [done|]. split; [by intros v ?%not_elem_of_nil|by intros ?%not_elem_of_nil]. }
  clearbody h. destruct Hi as (Hc & Hok & Herr). split; [intros v Hv; by apply Hok|]. split; [done|].
  intros Hf. apply Forall_forall. intros [[v|[]]|] Hr; [|by apply Herr in Hr|done].
  destruct (sp_fut (h_task h)); [|done]. destruct (Hok v Hr) as [Hv _], Hc as [Hn _]. congruence.
Qed.
End Join.
