(* ===== verification/Blobs.v ===== *)
(** * The blob store (wapo-host/src/runtime/blobs.rs)

    Content-addressed objects, and raw files behind an LRU cache.  The digest
    crate is the class [Digest]; the file system is a map from names inside the
    store directory to contents, with a schedule of I/O faults. *)
From S2P Require Import Prelude.

(** A Rust string literal as its bytes. *)
Definition lit (s : string) : bytes :=
  (fun a => Z.of_nat (Ascii.nat_of_ascii a)) <$> String.list_ascii_of_string s.

(** ** Hexadecimal (the [hex] crate) *)
Definition hex_digit (n : Z) : Z := if n <? 10 then 48 + n else 87 + n.
Definition hex_encode (bs : bytes) : bytes :=
  bs ≫= (fun b => [hex_digit (b `div` 16); hex_digit (b `mod` 16)]).
Definition hex_val (c : Z) : option Z :=
  if (48 <=? c) && (c <=? 57) then Some (c - 48)
  else if (97 <=? c) && (c <=? 102) then Some (c - 87)
  else if (65 <=? c) && (c <=? 70) then Some (c - 55)
  else None.
Fixpoint hex_decode (s : bytes) : option bytes :=
  match s with
  | [] => Some []
  | [_] => None
  | a :: b :: s =>
    h ← hex_val a; l ← hex_val b; r ← hex_decode s; Some (16 * h + l :: r)
  end.

(** ** [HashAlgo] and [HashValue] *)
Inductive HashAlgo : Type := Sha256 | Sha512.
#[export] Instance HashAlgo_eq_dec : EqDecision HashAlgo.
Proof. solve_decision. Defined.

Record HashValue : Type := MkHash { algo : HashAlgo; hash : bytes }.

Definition HashAlgo_from_str (s : bytes) : result anyhow HashAlgo :=
  if bool_decide (s = lit "sha256") then Ok Sha256
  else if bool_decide (s = lit "sha512") then Ok Sha512
  else Err (Msg "Invalid hash algorithm").

Definition HashAlgo_name (a : HashAlgo) : bytes :=
  match a with Sha256 => lit "sha256" | Sha512 => lit "sha512" end.

(** [s.splitn(2, ':')]: the text before the first colon, and the rest if there
    is one. *)
Fixpoint split_colon (s : bytes) : bytes * option bytes :=
  match s with
  | [] => ([], None)
  | c :: s =>
    if c =? 58 then ([], Some s)
    else let '(a, r) := split_colon s in (c :: a, r)
  end.

Definition HashValue_from_str (s : bytes) : result anyhow HashValue :=
  let '(a, h) := split_colon s in
  let h := default [] h in
  a ← HashAlgo_from_str a;
  h ← ok_or (hex_decode h) (Msg "invalid hash value");
  Ok (MkHash a h).

Definition HashValue_to_string (v : HashValue) : bytes :=
  HashAlgo_name (algo v) ++ 58 :: hex_encode (hash v).

(** ** The file system below the store directory *)

(** [io::ErrorKind], as far as the code looks. *)
Inductive io_kind : Type := KNotFound | KOther.

(** [faults] schedules the outcome of each system call: [Some n] makes it fail, a
    write after [n] bytes; an exhausted schedule means no fault. *)
Record Fs : Type := MkFs {
  files : gmap bytes bytes;
  faults : list (option nat)
}.

Definition sys {A} (ok : gmap bytes bytes -> result io_kind A * gmap bytes bytes)
  (failed : nat -> gmap bytes bytes -> gmap bytes bytes) : M Fs io_kind A := fun fs =>
  match faults fs with
  | Some n :: fl => (Err KOther, MkFs (failed n (files fs)) fl)
  | fl => let '(r, f) := ok (files fs) in (r, MkFs f (drop 1 fl))
  end.

(** The empty name is the store directory itself, which is not a file. *)
Definition fs_read (name : bytes) : M Fs io_kind bytes :=
  sys (fun f => (match name with [] => Err KOther | _ => ok_or (f !! name) KNotFound end, f))
      (fun _ f => f).
Definition fs_write (name data : bytes) : M Fs io_kind unit :=
  sys (fun f => (Ok tt, <[name := data]> f)) (fun n f => <[name := take n data]> f).
Definition fs_create (name : bytes) : M Fs io_kind unit :=
  sys (fun f => (Ok tt, <[name := []]> f)) (fun _ f => f).
Definition fs_sync (name : bytes) : M Fs io_kind unit := sys (fun f => (Ok tt, f)) (fun _ f => f).
Definition fs_create_dir_all : M Fs io_kind unit := sys (fun f => (Ok tt, f)) (fun _ f => f).
Definition fs_remove (name : bytes) : M Fs io_kind unit :=
  sys (fun f => match f !! name with
                | Some _ => (Ok tt, delete name f) | None => (Err KNotFound, f) end)
      (fun _ f => f).
Definition fs_rename (from to : bytes) : M Fs io_kind unit :=
  sys (fun f => match f !! from with
                | Some d => (Ok tt, <[to := d]> (delete from f)) | None => (Err KNotFound, f) end)
      (fun _ f => f).

(** [.context(msg)?] on a system call. *)
Definition io {A} (msg : string) (m : M Fs io_kind A) : M Fs anyhow A := fun fs =>
  let '(r, fs) := m fs in (map_err (fun _ => Msg msg) r, fs).

(** ** Digests (the [sha2] crate) *)
Class Digest := {
  hasher : Type;
  hasher_new : HashAlgo -> hasher;
  hasher_update : hasher -> bytes -> hasher;
  hasher_finalize : hasher -> bytes
}.
(** Updates accumulate, and a digest is a non-empty string of bytes. *)
Class DigestLawful `{Digest} := {
  update_app : forall h a b, hasher_update (hasher_update h a) b = hasher_update h (a ++ b);
  update_nil : forall h, hasher_update h [] = h;
  finalize_bytes : forall h, Forall (fun b => byte_ok b = true) (hasher_finalize h);
  finalize_nonempty : forall h, hasher_finalize h <> []
}.

Section Objects.
Context `{Digest}.

(** [Hasher::hash]. *)
Definition Hasher_hash (data : bytes) (a : HashAlgo) : bytes :=
  hasher_finalize (hasher_update (hasher_new a) data).

(** The read loop of [hash_file]: the [i]-th read returns [chunk i] bytes, at
    least one and at most the 4096 of the buffer, until the end of the file. *)
Fixpoint hash_loop (chunk : nat -> nat) (fuel i : nat) (h : hasher) (data : bytes)
  : option hasher :=
  match fuel with
  | O => None
  | S fuel =>
    let n := Nat.min (Nat.max 1 (Nat.min (chunk i) 4096)) (length data) in
    if (n =? 0)%nat then Some h
    else hash_loop chunk fuel (S i) (hasher_update h (take n data)) (drop n data)
  end.

Definition hash_file (chunk : nat -> nat) (name : bytes) (a : HashAlgo)
  : M Fs anyhow (option bytes) :=
  data ← io "failed to open object file" (fs_read name);
  mret (hasher_finalize <$> hash_loop chunk (S (length data)) 0 (hasher_new a) data).

(** What [put_object] does between creating the temporary file and the drop of
    its guard; [None] stands for a read loop that did not end. *)
Definition put_object_body (chunk : nat -> nat) (h : HashValue) (tmp data : bytes)
  : M Fs anyhow (option bytes) :=
  io "failed to write object file" (fs_write tmp data);;
  io "failed to sync object file" (fs_sync tmp);;
  actual ← hash_file chunk tmp (algo h);
  match actual with
  | None => mret None
  | Some actual_hash =>
    bail_if (negb (bool_decide (hash h = [])) && negb (bool_decide (actual_hash = hash h)))
      (Msg "blob hash mismatch");;
    let key := hex_encode actual_hash in
    io "failed to move object file to blobs directory" (fs_rename tmp key);;
    mret (Some (HashValue_to_string (MkHash (algo h) actual_hash)))
  end.

(** [scopeguard::guard]: runs whatever the body returns. *)
Definition guarded {A} (cleanup : M Fs io_kind unit) (m : M Fs anyhow A) : M Fs anyhow A :=
  fun fs => let '(r, fs) := m fs in (r, (cleanup fs).2).

Definition tmp_name (uuid : bytes) : bytes := lit ".tmp/" ++ uuid.

Definition put_object (chunk : nat -> nat) (uuid hash data : bytes) : M Fs anyhow (option bytes) :=
  h ← lift (HashValue_from_str hash);
  io "failed to create blobs directory" fs_create_dir_all;;
  let tmp := tmp_name uuid in
  io "failed to create temporary object file" (fs_create tmp);;
  guarded (fs_remove tmp) (put_object_body chunk h tmp data).

Definition get_object (hash_s : bytes) : M Fs anyhow (option bytes) := fun fs =>
  match HashValue_from_str hash_s with
  | Err e => (Err e, fs)
  | Ok h =>
    let '(r, fs) := fs_read (hex_encode (hash h)) fs in
    match r with
    | Err KNotFound => (Ok None, fs)
    | Err KOther => (Err (Msg "failed to read object file"), fs)
    | Ok data =>
      if negb (bool_decide (Hasher_hash data (algo h) = hash h))
      then (Err (Msg "blob hash mismatch"), fs) else (Ok (Some data), fs)
    end
  end.

(** [BlobLoader::remove] and [BlobLoader::exists]. *)
Definition remove (hash_s : bytes) : M Fs anyhow unit :=
  h ← lift (HashValue_from_str hash_s);
  io "io error" (fs_remove (hex_encode (hash h))).
Definition blob_exists (hash_s : bytes) (fs : Fs) : bool :=
  match HashValue_from_str hash_s with
  | Err _ => false
  | Ok h => match hash h with
            | [] => true
            | _ => bool_decide (is_Some (files fs !! hex_encode (hash h)))
            end
  end.
End Objects.
#[global] Arguments hash_loop : simpl never.

(** ** Raw files behind a cache *)

(** [lru::LruCache] of capacity 16, most recently used first. *)
Abbreviation Lru := (list (bytes * bytes)).
Definition lru_cap : nat := 16.
Definition lru_get (k : bytes) (c : Lru) : option bytes * Lru :=
  match list_find (fun e => e.1 = k) c with
  | Some (i, (_, v)) => (Some v, (k, v) :: delete i c)
  | None => (None, c)
  end.
Definition lru_pop (k : bytes) (c : Lru) : Lru := filter (fun e => e.1 <> k) c.
Definition lru_put (k v : bytes) (c : Lru) : Lru := take lru_cap ((k, v) :: lru_pop k c).

(** [BlobLoader]: its cache, and the store directory it shares. *)
Record Raw : Type := MkRaw { cache : Lru; raw_fs : Fs }.

Definition get_raw (filename : bytes) (size_limit : Z) : M Raw anyhow (option bytes) := fun s =>
  let '(hit, c) := lru_get filename (cache s) in
  match hit with
  | Some data => (Ok (Some data), MkRaw c (raw_fs s))
  | None =>
    let '(r, fs) := fs_read filename (raw_fs s) in
    match r with
    | Err KNotFound => (Ok None, MkRaw c fs)
    | Err KOther => (Err (Msg "failed to open object file"), MkRaw c fs)
    | Ok data =>
      if size_limit <? zlen data then (Err (Msg "file size exceeds limit"), MkRaw c fs)
      else (Ok (Some data), MkRaw (lru_put filename data c) fs)
    end
  end.

Definition put_raw (filename data : bytes) : M Raw anyhow unit := fun s =>
  let '(r, fs) := fs_write filename data (raw_fs s) in
  match r with
  | Err _ => (Err (Msg "io error"), MkRaw (cache s) fs)
  | Ok _ => (Ok tt, MkRaw (lru_pop filename (cache s)) fs)
  end.

(** ** Hash strings *)

Lemma hex_val_digit n : 0 <= n < 16 -> hex_val (hex_digit n) = Some n.
Proof.
  intros Hn. unfold hex_digit, hex_val.
  destruct (Z.ltb_spec n 10).
  - rewrite (proj2 (Z.leb_le 48 _)), (proj2 (Z.leb_le _ 57)) by lia. simpl. f_equal. lia.
  - rewrite (proj2 (Z.leb_gt _ 57)), andb_false_r by lia.
    rewrite (proj2 (Z.leb_le 97 _)), (proj2 (Z.leb_le _ 102)) by lia. simpl. f_equal. lia.
Qed.

Lemma byte_ok_spec b : byte_ok b = true <-> 0 <= b < 256.
Proof. unfold byte_ok. rewrite in_range_spec. const_bounds. lia. Qed.

Lemma nibbles b : 0 <= b < 256 -> 0 <= b `div` 16 < 16 /\ 0 <= b `mod` 16 < 16.
Proof.
  intros Hb. split; [|by apply Z.mod_pos_bound].
  split; [apply Z.div_pos; lia|]. apply Z.div_lt_upper_bound; lia.
Qed.

Lemma hex_decode_encode bs : Forall (fun b => byte_ok b = true) bs ->
  hex_decode (hex_encode bs) = Some bs.
Proof.
  induction 1 as [|b bs Hb _ IH]; [done|]. apply byte_ok_spec in Hb.
  destruct (nibbles b Hb).
  change (hex_encode (b :: bs)) with
    (hex_digit (b `div` 16) :: hex_digit (b `mod` 16) :: hex_encode bs).
  cbn [hex_decode]. rewrite !hex_val_digit by done. simpl. rewrite IH. simpl.
  by rewrite <- Z.div_mod.
Qed.

Lemma hex_encode_inj a b : Forall (fun b => byte_ok b = true) a ->
  Forall (fun b => byte_ok b = true) b -> hex_encode a = hex_encode b -> a = b.
Proof.
  intros Ha Hb Heq. apply (f_equal hex_decode) in Heq.
  rewrite !hex_decode_encode in Heq by done. by injection Heq.
Qed.

Lemma hex_val_range c v : hex_val c = Some v -> 0 <= v < 16.
Proof. unfold hex_val. intros Hc. repeat case_match; prop_bools; simplify_eq; lia. Qed.

Lemma hex_decode_bytes s : forall bs, hex_decode s = Some bs ->
  Forall (fun b => byte_ok b = true) bs.
Proof.
  induction s as [s IH] using (induction_ltof1 _ (@length Z)). intros bs Hd.
  destruct s as [|a [|b s]]; simpl in Hd; simplify_option_eq; [constructor|].
  constructor.
  - apply byte_ok_spec. match goal with H1 : hex_val a = Some ?x, H2 : hex_val b = Some ?y |- _ =>
      apply hex_val_range in H1; apply hex_val_range in H2 end. lia.
  - eapply IH; [|done]. unfold ltof. simpl. lia.
Qed.

Lemma split_colon_app a s : 58 ∉ a -> split_colon (a ++ 58 :: s) = (a, Some s).
Proof.
  induction a as [|c a IH]; simpl; [done|]. intros Hn.
  destruct (Z.eqb_spec c 58); [set_solver|]. rewrite IH by set_solver. done.
Qed.

Lemma from_str_to_string v : Forall (fun b => byte_ok b = true) (hash v) ->
  HashValue_from_str (HashValue_to_string v) = Ok v.
Proof.
  destruct v as [a h]. intros Hb. unfold HashValue_from_str, HashValue_to_string. simpl in *.
  rewrite split_colon_app by (destruct a; apply (bool_decide_unpack _); reflexivity).
  destruct a; simpl; rewrite hex_decode_encode by done; done.
Qed.

(** Printing and parsing of object names agree: every hash value is printed
    to a name that parses back to it, and a name that parses is printed to a name
    with the same meaning. *)
Theorem hash_name_roundtrip s :
  (forall v, Forall (fun b => byte_ok b = true) (hash v) ->
    HashValue_from_str (HashValue_to_string v) = Ok v) /\
  (forall v, HashValue_from_str s = Ok v ->
    HashValue_from_str (HashValue_to_string v) = HashValue_from_str s).
Proof.
  split; [apply from_str_to_string|]. intros v Hv.
  rewrite from_str_to_string; [done|]. unfold HashValue_from_str in Hv.
  destruct (split_colon s) as [a h]. destruct (HashAlgo_from_str a); [|done]. simpl in Hv.
  destruct (hex_decode (default [] h)) as [bs|] eqn:Hd; [|done]. simpl in Hv. simplify_eq.
  simpl. by eapply hex_decode_bytes.
Qed.

(** ** Objects *)
Section ObjectLemmas.
Context `{DigestLawful}.

(** The chunked read loop ends and computes the digest of the whole file. *)
Lemma hash_loop_total chunk fuel : forall i h data, (length data < fuel)%nat ->
  hash_loop chunk fuel i h data = Some (hasher_update h data).
Proof.
  induction fuel as [|fuel IH]; intros i h data Hf; [lia|].
  unfold hash_loop; fold hash_loop. set (n := Nat.min _ (length data)). destruct (Nat.eqb_spec n 0) as [Hn|Hn].
  - assert (length data = 0%nat) by lia. destruct data; [|done]. by rewrite update_nil.
  - rewrite IH by (rewrite length_drop; lia). by rewrite update_app, take_drop.
Qed.

Lemma hash_file_ok chunk name a fs r fs' : hash_file chunk name a fs = (Ok r, fs') ->
  exists data, files fs !! name = Some data /\ files fs' = files fs /\
    r = Some (Hasher_hash data a).
Proof.
  unfold hash_file, mbind, M_bind, mret, M_ret, io, fs_read, sys.
  destruct (faults fs) as [|[n|] fl]; destruct name as [|c name]; simpl; try done;
    destruct (files fs !! _) as [data|] eqn:Hd; simpl; try done;
    rewrite hash_loop_total by lia; intros; simplify_eq/=; eauto.
Qed.

Lemma hex_encode_head h : Forall (fun b => byte_ok b = true) h -> h <> [] ->
  exists c s, hex_encode h = c :: s /\ 48 <= c.
Proof.
  intros Hb Hne. destruct h as [|b h]; [done|]. apply Forall_cons in Hb as [Hb _].
  apply byte_ok_spec, nibbles in Hb as [Hb _]. do 2 eexists. split; [reflexivity|].
  unfold hex_digit. case_match; lia.
Qed.

Lemma key_ne_tmp h uuid : hex_encode (hasher_finalize h) <> tmp_name uuid.
Proof.
  destruct (hex_encode_head (hasher_finalize h)) as (c & s & -> & Hc);
    [apply finalize_bytes|apply finalize_nonempty|].
  unfold tmp_name. change (lit ".tmp/") with [46; 116; 109; 112; 47]. intros [=]. lia.
Qed.

(** What the system calls do, faults included. *)
Lemma io_sys_spec {A} msg ok failed (fs : Fs) (r : result anyhow A) fs' :
  io msg (sys ok failed) fs = (r, fs') ->
  (exists n, r = Err (Msg msg) /\ files fs' = failed n (files fs)) \/
  (r = map_err (fun _ => Msg msg) (ok (files fs)).1 /\ files fs' = (ok (files fs)).2).
Proof.
  unfold io, sys. destruct (faults fs) as [|[n|] fl]; simpl.
  - destruct (ok (files fs)); intros; simplify_eq; eauto.
  - intros; simplify_eq; eauto.
  - destruct (ok (files fs)); intros; simplify_eq; eauto.
Qed.

Lemma io_write_spec msg name data fs r fs' : io msg (fs_write name data) fs = (r, fs') ->
  match r with
  | Ok _ => files fs' = <[name := data]> (files fs)
  | Err _ => delete name (files fs') = delete name (files fs)
  end.
Proof.
  intros [(n & -> & ->)|[-> ->]]%io_sys_spec; simpl; [|done]. by rewrite delete_insert_eq.
Qed.

Lemma io_same_spec {A} (msg : string) (ok : gmap bytes bytes -> result io_kind A) fs r fs' :
  io msg (sys (fun f => (ok f, f)) (fun _ f => f)) fs = (r, fs') -> files fs' = files fs.
Proof. by intros [(n & -> & ->)|[-> ->]]%io_sys_spec. Qed.

Lemma io_rename_spec msg from to fs r fs' : io msg (fs_rename from to) fs = (r, fs') ->
  match r with
  | Ok _ => exists d, files fs !! from = Some d /\
      files fs' = <[to := d]> (delete from (files fs))
  | Err _ => files fs' = files fs
  end.
Proof.
  intros [(n & -> & ->)|[-> ->]]%io_sys_spec; [done|].
  destruct (files fs !! from) eqn:?; simpl; eauto.
Qed.

Lemma put_object_body_spec chunk h tmp data fs r fs' : tmp <> [] ->
  put_object_body chunk h tmp data fs = (r, fs') ->
  match r with
  | Ok v => let d := Hasher_hash data (algo h) in
      v = Some (HashValue_to_string (MkHash (algo h) d)) /\
      (hash h = [] \/ hash h = d) /\
      files fs' = <[hex_encode d := data]> (delete tmp (files fs))
  | Err _ => delete tmp (files fs') = delete tmp (files fs)
  end.
Proof.
  intros Hne. unfold put_object_body, mbind, M_bind.
  destruct (io _ (fs_write _ _) fs) as [[[]|] fs1] eqn:Hw; apply io_write_spec in Hw;
    [|intros; by simplify_eq].
  destruct (io _ (fs_sync _) fs1) as [[[]|] fs2] eqn:Hs;
    apply (io_same_spec _ (fun _ => Ok tt)) in Hs;
    [|intros; simplify_eq; by rewrite Hs, Hw, delete_insert_eq].
  destruct (hash_file chunk tmp (algo h) fs2) as [[a|e] fs3] eqn:Hh.
  2: { intros; simplify_eq. unfold hash_file, mbind, M_bind in Hh.
       destruct (io _ (fs_read _) fs2) as [[]] eqn:Hr; simplify_eq/=.
       apply (io_same_spec _ (fun f => match tmp with [] => Err KOther
         | _ => ok_or (f !! tmp) KNotFound end)) in Hr.
       by rewrite Hr, Hs, Hw, delete_insert_eq. }
  apply hash_file_ok in Hh as (d & Hd & Hf3 & ->).
  rewrite Hs, Hw, lookup_insert_eq in Hd. injection Hd as <-.
  unfold bail_if. destruct (negb _ && negb _) eqn:Hg.
  { intros; simplify_eq/=. by rewrite Hf3, Hs, Hw, delete_insert_eq. }
  cbn beta iota. intros Hrest. unfold mret, M_ret in Hrest. cbn beta iota in Hrest.
  destruct (io _ (fs_rename _ _) fs3) as [[[]|] fs4] eqn:Hr; apply io_rename_spec in Hr;
    simplify_eq.
  - destruct Hr as (d & Hd & ->). rewrite Hf3, Hs, Hw, lookup_insert_eq in Hd. injection Hd as <-.
    split; [done|]. split; [|by rewrite Hf3, Hs, Hw, delete_insert_eq].
    destruct (decide (hash h = [])); [by left|]. rewrite bool_decide_eq_false_2 in Hg by done.
    destruct (decide (Hasher_hash data (algo h) = hash h)); [by right|].
    by rewrite bool_decide_eq_false_2 in Hg by done.
  - by rewrite Hr, Hf3, Hs, Hw, delete_insert_eq.
Qed.

Lemma put_object_inv chunk uuid hash_s data fs r fs' :
  put_object chunk uuid hash_s data fs = (r, fs') ->
  match r with
  | Ok v => exists h, HashValue_from_str hash_s = Ok h /\
      let d := Hasher_hash data (algo h) in
      v = Some (HashValue_to_string (MkHash (algo h) d)) /\
      (hash h = [] \/ hash h = d) /\
      files fs' = <[hex_encode d := data]> (delete (tmp_name uuid) (files fs))
  | Err _ => delete (tmp_name uuid) (files fs') = delete (tmp_name uuid) (files fs)
  end.
Proof.
  unfold put_object, mbind, M_bind, lift.
  destruct (HashValue_from_str hash_s) as [h|e]; [|intros; by simplify_eq].
  destruct (io _ fs_create_dir_all fs) as [[[]|] fs1] eqn:H1;
    apply (io_same_spec _ (fun _ => Ok tt)) in H1; [|intros; simplify_eq; by rewrite H1].
  destruct (io _ (fs_create _) fs1) as [[[]|] fs2] eqn:H2.
  2: { apply io_sys_spec in H2 as [(n & _ & H2)|[? _]]; [|done]. intros; simplify_eq.
       by rewrite H2, H1. }
  apply io_sys_spec in H2 as [(n & ? & _)|[_ H2]]; [done|]. simpl in H2.
  unfold guarded. destruct (put_object_body _ _ _ _ fs2) as [rb fs3] eqn:H3.
  apply put_object_body_spec in H3; [|done].
  assert (Hclean : delete (tmp_name uuid) (files (fs_remove (tmp_name uuid) fs3).2) =
    delete (tmp_name uuid) (files fs3)).
  { unfold fs_remove, sys. destruct (faults fs3) as [|[n|] fl]; simpl; [|done|];
      destruct (files fs3 !! _); simpl; by rewrite ?delete_delete_eq. }
  intros; simplify_eq. destruct r as [v|e].
  - destruct H3 as (-> & Hh & H3). exists h. split; [done|]. split; [done|]. split; [done|].
    rewrite H3, H2, H1, delete_insert_eq in Hclean.
    assert (Hn : files fs3 !! tmp_name uuid = None).
    { rewrite H3, lookup_insert_ne by apply key_ne_tmp. apply lookup_delete_eq. }
    unfold fs_remove, sys. destruct (faults fs3) as [|[n|] fl]; rewrite ?Hn; simpl;
      by rewrite H3, H2, H1, delete_insert_eq.
  - by rewrite Hclean, H3, H2, H1, delete_insert_eq.
Qed.

(** An upload that succeeds is stored under the digest of the data received,
    which is the requested digest unless the request left it open; the returned
    name reads the same data back, and no other object changed.  An upload that
    fails changes no object at all; the hash loop over the chunks always ends. *)
Theorem put_object_correct chunk uuid hash_s data fs r fs' :
  put_object chunk uuid hash_s data fs = (r, fs') ->
  match r with
  | Ok v => exists h name, HashValue_from_str hash_s = Ok h /\ v = Some name /\
      (hash h = [] \/ hash h = Hasher_hash data (algo h)) /\
      (get_object name (MkFs (files fs') [])).1 = Ok (Some data) /\
      (forall k, k <> hex_encode (Hasher_hash data (algo h)) -> k <> tmp_name uuid ->
        files fs' !! k = files fs !! k)
  | Err _ => forall k, k <> tmp_name uuid -> files fs' !! k = files fs !! k
  end.
Proof.
  intros Hp%put_object_inv. destruct r as [v|e].
  - destruct Hp as (h & Hh & -> & Hex & Hf). do 2 eexists. do 3 (split; [done|]).
    split; [|intros k Hk Ht; by rewrite Hf, lookup_insert_ne, lookup_delete_ne by done].
    unfold get_object. rewrite from_str_to_string by apply finalize_bytes. simpl.
    destruct (hex_encode_head (Hasher_hash data (algo h))) as (c & s & He & _);
      [apply finalize_bytes|apply finalize_nonempty|].
    unfold fs_read, sys. simpl. rewrite He, Hf, <- He, lookup_insert_eq. simpl.
    by rewrite bool_decide_eq_true_2.
  - intros k Hk. apply (f_equal (.!! k)) in Hp. by rewrite !lookup_delete_ne in Hp by done.
Qed.

(** Whatever the files of the store contain, a read of an object either
    fails, finds no file, or returns data whose digest is the requested one; it
    changes no file. *)
Theorem get_object_integrity s fs r fs' : get_object s fs = (r, fs') ->
  files fs' = files fs /\
  match r with
  | Ok (Some data) => exists h, HashValue_from_str s = Ok h /\
      Hasher_hash data (algo h) = hash h /\ files fs !! hex_encode (hash h) = Some data
  | Ok None => exists h, HashValue_from_str s = Ok h /\ files fs !! hex_encode (hash h) = None
  | Err _ => True
  end.
Proof.
  unfold get_object, fs_read, sys. destruct (HashValue_from_str s) as [h|]; [|intros; by simplify_eq].
  destruct (faults fs) as [|[n|] fl]; destruct (hex_encode (hash h)) as [|c k] eqn:He; simpl;
    try (intros; by simplify_eq); destruct (files fs !! _) as [d|] eqn:Hd; simpl;
    try case_bool_decide; simpl; intros; simplify_eq/=; split; try done;
    exists h; by rewrite He, ?Hd.
Qed.
End ObjectLemmas.

(** A toy digest: one byte, the sum of the data. *)
#[local] Instance toy_digest : Digest := {|
  hasher := Z;
  hasher_new := fun _ => 0;
  hasher_update := fun h data => foldl (fun h b => (h + b) `mod` 256) h data;
  hasher_finalize := fun h => [h `mod` 256]
|}.
#[local] Instance toy_digest_lawful : DigestLawful.
Proof.
  split; simpl; [intros; by rewrite foldl_app|done| |done].
  intros h. constructor; [|constructor]. apply byte_ok_spec. by apply Z.mod_pos_bound.
Qed.

Lemma put_object_correct_witness :
  exists h name, HashValue_from_str (lit "sha256:") = Ok h /\
    Some (lit "sha256:06") = Some name /\
    (hash h = [] \/ hash h = Hasher_hash [1; 2; 3] (algo h)) /\
    (get_object name (MkFs {[ lit "06" := [1; 2; 3] ]} [])).1 = Ok (Some [1; 2; 3]) /\
    (forall k, k <> hex_encode (Hasher_hash [1; 2; 3] (algo h)) -> k <> tmp_name (lit "u") ->
      ({[ lit "06" := [1; 2; 3] ]} : gmap bytes bytes) !! k = (∅ : gmap bytes bytes) !! k).
Proof.
  refine (put_object_correct (fun _ => 2%nat) (lit "u") (lit "sha256:") [1; 2; 3] (MkFs ∅ [])
    (Ok (Some (lit "sha256:06"))) (MkFs {[ lit "06" := [1; 2; 3] ]} []) _).
  vm_compute. reflexivity.
Defined.

Lemma get_object_integrity_witness :
  exists h, HashValue_from_str (lit "sha256:06") = Ok h /\
    Hasher_hash [1; 2; 3] (algo h) = hash h /\
    ({[ lit "06" := [1; 2; 3] ]} : gmap bytes bytes) !! hex_encode (hash h) = Some [1; 2; 3].
Proof.
  refine (proj2 (get_object_integrity (lit "sha256:06") (MkFs {[ lit "06" := [1; 2; 3] ]} [])
    (Ok (Some [1; 2; 3])) (MkFs {[ lit "06" := [1; 2; 3] ]} []) _)).
  vm_compute. reflexivity.
Defined.

Lemma hash_name_roundtrip_witness :
  HashValue_from_str (HashValue_to_string (MkHash Sha512 [0; 171; 255])) =
    Ok (MkHash Sha512 [0; 171; 255]) /\
  HashValue_from_str (HashValue_to_string (MkHash Sha256 [171])) =
    HashValue_from_str (lit "sha256:AB").
Proof.
  destruct (hash_name_roundtrip (lit "sha256:AB")) as [H1 H2]. split.
  - apply H1. repeat constructor.
  - apply H2. vm_compute. reflexivity.
Defined.

(** ** The raw cache *)

(** One loader's operations at a fixed size limit, and the same without cache. *)
Inductive raw_op : Type := RawGet (name : bytes) | RawPut (name data : bytes).
Definition raw_step (limit : Z) (s : Raw) (op : raw_op)
  : (result anyhow (option bytes) + result anyhow unit) * Raw :=
  match op with
  | RawGet name => let '(r, s) := get_raw name limit s in (inl r, s)
  | RawPut name data => let '(r, s) := put_raw name data s in (inr r, s)
  end.
Definition raw_spec_step (limit : Z) (f : gmap bytes bytes) (op : raw_op)
  : (result anyhow (option bytes) + result anyhow unit) * gmap bytes bytes :=
  match op with
  | RawGet [] => (inl (Err (Msg "failed to open object file")), f)
  | RawGet name =>
    (inl (match f !! name with
          | None => Ok None
          | Some d => if limit <? zlen d then Err (Msg "file size exceeds limit") else Ok (Some d)
          end), f)
  | RawPut name data => (inr (Ok tt), <[name := data]> f)
  end.
Fixpoint run_raw {S O} (step : S -> raw_op -> O * S) (s : S) (ops : list raw_op) : list O * S :=
  match ops with
  | [] => ([], s)
  | op :: ops =>
    let '(o, s) := step s op in let '(os, s) := run_raw step s ops in (o :: os, s)
  end.

(** The cache holds at most 16 entries, each the content of its file. *)
Record raw_inv (limit : Z) (f : gmap bytes bytes) (s : Raw) : Prop := {
  ri_fs : raw_fs s = MkFs f [];
  ri_cap : (length (cache s) <= lru_cap)%nat;
  ri_coherent : forall k v, (k, v) ∈ cache s -> k <> [] /\ f !! k = Some v /\ zlen v <= limit
}.

Lemma lru_get_spec k c :
  match lru_get k c with
  | (Some v, c') => (k, v) ∈ c /\ length c' = length c /\ (forall e, e ∈ c' -> e ∈ c)
  | (None, c') => c' = c /\ forall v, (k, v) ∉ c
  end.
Proof.
  unfold lru_get. destruct (list_find _ c) as [[i [k' v]]|] eqn:Hf.
  - apply list_find_Some in Hf as (Hl & Hk & _). simpl in Hk. subst k'.
    assert (Hin : (k, v) ∈ c) by (by eapply list_elem_of_lookup_2). split; [done|]. split.
    + cbn [length]. rewrite length_delete by eauto. apply lookup_lt_Some in Hl. lia.
    + intros e [->|He]%elem_of_cons; [done|]. rewrite delete_take_drop in He.
      apply elem_of_app in He as [He|He];
        [by eapply subseteq_take|by eapply subseteq_drop].
  - split; [done|]. intros v Hin. apply list_find_None in Hf.
    rewrite Forall_forall in Hf. by apply (Hf _ Hin).
Qed.

Lemma raw_step_refines limit f s op : raw_inv limit f s ->
  (raw_step limit s op).1 = (raw_spec_step limit f op).1 /\
  raw_inv limit (raw_spec_step limit f op).2 (raw_step limit s op).2.
Proof.
  intros [Hfs Hcap Hco]. destruct op as [name|name data]; simpl.
  - unfold get_raw. pose proof (lru_get_spec name (cache s)) as Hg.
    destruct (lru_get name (cache s)) as [[v|] c].
    + destruct Hg as (Hin & Hlen & Hsub). destruct (Hco _ _ Hin) as (Hne & Hf & Hl).
      destruct name as [|b name]; [done|]. simpl. rewrite Hf, (proj2 (Z.ltb_ge _ _)) by lia.
      split; [done|]. split; simpl; [done|lia|]. eauto.
    + destruct Hg as [-> Hno]. rewrite Hfs. unfold fs_read, sys. simpl.
      destruct name as [|b name]; simpl; [done|].
      destruct (f !! (b :: name)) as [d|] eqn:Hd; simpl; [|done].
      destruct (Z.ltb_spec limit (zlen d)); simpl; [done|]. split; [done|].
      split; cbn [cache raw_fs]; [done|unfold lru_put; rewrite length_take; lia|].
      intros k v [[= -> ->]|Hin]%subseteq_take%elem_of_cons; [done|].
      apply Hco. unfold lru_pop in Hin. by apply list_elem_of_filter in Hin as [_ ?].
  - unfold put_raw. rewrite Hfs. simpl. split; [done|]. split; simpl; [done| |].
    + unfold lru_pop. etrans; [apply length_filter|done].
    + intros k v [Hk Hin]%list_elem_of_filter. simpl in Hk. rewrite lookup_insert_ne by done.
      by apply Hco.
Qed.

Lemma run_raw_refines limit ops : forall f s, raw_inv limit f s ->
  (run_raw (raw_step limit) s ops).1 = (run_raw (raw_spec_step limit) f ops).1.
Proof.
  induction ops as [|op ops IH]; intros f s Hi; [done|]. cbn [run_raw].
  destruct (raw_step_refines limit f s op Hi) as [Ho Hi'].
  destruct (raw_step limit s op) as [o s'], (raw_spec_step limit f op) as [o' f'].
  simpl in Ho, Hi'. subst o'. specialize (IH f' s' Hi').
  destruct (run_raw _ s' ops), (run_raw _ f' ops). simpl in *. by f_equal.
Qed.

(** One loader's cache is invisible: with the size limit the callers use, any
    sequence of reads and writes through a fresh loader returns exactly what the
    files alone would. *)
Theorem raw_cache_transparent limit ops f :
  (run_raw (raw_step limit) (MkRaw [] (MkFs f [])) ops).1 =
  (run_raw (raw_spec_step limit) f ops).1.
Proof.
  apply run_raw_refines. split; simpl; [done|unfold lru_cap; lia|].
  intros k v Hin. by apply elem_of_nil in Hin.
Qed.

(** Loaders do not share their caches although they share the directory:
    once a loader has read a file, it keeps returning the old contents after
    another loader has successfully replaced them, while a fresh loader returns
    the new ones. *)
Theorem raw_cache_stale limit name old new f : name <> [] -> f !! name = Some old ->
  zlen old <= limit -> zlen new <= limit ->
  let a := (get_raw name limit (MkRaw [] (MkFs f []))).2 in
  let b := put_raw name new (MkRaw [] (raw_fs a)) in
  b.1 = Ok tt /\
  (get_raw name limit (MkRaw (cache a) (raw_fs b.2))).1 = Ok (Some old) /\
  (get_raw name limit (MkRaw [] (raw_fs b.2))).1 = Ok (Some new).
Proof.
  intros Hne Hf Hold Hnew. destruct name as [|c name]; [done|].
  assert (Ha : (get_raw (c :: name) limit (MkRaw [] (MkFs f []))).2 =
    MkRaw [(c :: name, old)] (MkFs f [])).
  { unfold get_raw, fs_read, sys. simpl. rewrite Hf. simpl.
    by rewrite (proj2 (Z.ltb_ge _ _)) by lia. }
  rewrite Ha. simpl. split; [done|]. split.
  - unfold get_raw, lru_get. simpl. by rewrite decide_True by done.
  - unfold get_raw, fs_read, sys. simpl. rewrite lookup_insert_eq. simpl.
    by rewrite (proj2 (Z.ltb_ge _ _)) by lia.
Qed.

Lemma raw_cache_stale_witness :
  let a := (get_raw (lit "x") 10 (MkRaw [] (MkFs {[ lit "x" := [1] ]} []))).2 in
  let b := put_raw (lit "x") [2] (MkRaw [] (raw_fs a)) in
  b.1 = Ok tt /\
  (get_raw (lit "x") 10 (MkRaw (cache a) (raw_fs b.2))).1 = Ok (Some [1]) /\
  (get_raw (lit "x") 10 (MkRaw [] (raw_fs b.2))).1 = Ok (Some [2]).
Proof. apply (raw_cache_stale 10 (lit "x") [1] [2] {[ lit "x" := [1] ]}); done. Defined.
