(* ===== verification/VmContext.v ===== *)
(** * The VM context (wapo-host/src/runtime/vm_context.rs)

    The state behind one guest instance, the host implementation of every ocall,
    and the two entry points by which the host pushes requests into a guest. *)
From S2P Require Import Prelude OcallError ArgsStack Ocall OcallDef Meter Resource HostTasks Blobs.

(** ** The surroundings *)

(** What the context asks of tokio, the operating system and the random number
    generator, beyond polling a resource. *)
Class Host (W : Type) `{Tokio W} := {
  MpscSender : Type;
  mpsc_channel : W -> (MpscSender * Receiver) * W;
  mpsc_try_send : MpscSender -> bytes -> W -> bool * W;
  (** [true] when the receiver is still there *)
  oneshot_send : OneshotSender -> bytes + str -> W -> bool * W;
  sleep : Z -> W -> Sleep * W;
  (** [Instant::now().checked_add(d)] and [Sleep::reset] *)
  deadline_in : Z -> W -> option Z;
  reset_sleep : Sleep -> Z -> W -> W;
  (** the port of a parsed [SocketAddr] *)
  parse_socket_addr : str -> option Z;
  tcp_bind : str -> W -> result io_error TcpListener * W;
  poll_accept : TcpListener -> W -> poll (result io_error (TcpStream * str)) * W;
  load_tls_config : TlsServerConfig -> result OcallError ServerConfig;
  tls_accept : TcpStream -> ServerConfig -> W -> TlsStream * W;
  poll_subscription : SniSubscription -> W -> poll (option (TlsStream * str)) * W;
  server_name : str -> bool;
  connect_tcp : str -> Z -> W -> TcpConnectFut * W;
  connect_tls : str -> Z -> W -> TlsConnectFut * W;
  sni_subscribe : str -> str -> str -> W -> option SniSubscription * W;
  fill_bytes : Z -> W -> bytes * W;
  (** whether the world took a reference to the waker with this id *)
  waker_retained : Z -> W -> W -> bool
}.

(** [trait RuntimeCalls]: what the embedder provides, with its own state. *)
Class RuntimeCalls (R : Type) := {
  rc_log : Level -> str -> R -> R;
  rc_worker_pubkey : R -> array 32;
  rc_sign_app_data : bytes -> R -> bytes;
  rc_sgx_quote_app_data : bytes -> R -> option bytes;
  rc_emit_output : bytes -> R -> R;
  rc_tcp_connect_allowed : str -> R -> bool;
  rc_app_metrics : R -> (Metrics * MetricsToken) * R;
  rc_derive_secret : bytes -> R -> array 64;
  rc_query_listened : R -> R;
  rc_try_lock : str -> R -> bool * R;
  rc_unlock : str -> R -> bool * R
}.

(** [impl RuntimeCalls for ()]. *)
#[export] Instance unit_runtime_calls : RuntimeCalls unit := {|
  rc_log := fun _ _ r => r;
  rc_worker_pubkey := fun _ => Arr (replicate 32 0);
  rc_sign_app_data := fun _ _ => [];
  rc_sgx_quote_app_data := fun _ _ => None;
  rc_emit_output := fun _ r => r;
  rc_tcp_connect_allowed := fun _ _ => true;
  rc_app_metrics := fun r => ((Metrics_default, {| mt_sn := 0; mt_session := replicate 32 0;
                                mt_nonce := replicate 32 0 |}), r);
  rc_derive_secret := fun _ _ => Arr (replicate 64 0);
  rc_query_listened := fun r => r;
  rc_try_lock := fun _ r => (true, r);
  rc_unlock := fun _ r => (true, r)
|}.

(** AES-256-GCM with an empty associated text: key, nonce, message. *)
Class Aead := {
  gcm_encrypt : bytes -> bytes -> bytes -> option bytes;
  gcm_decrypt : bytes -> bytes -> bytes -> option bytes
}.
Class AeadLawful `{Aead} := {
  gcm_decrypt_encrypt : forall k n d c, gcm_encrypt k n d = Some c -> gcm_decrypt k n c = Some d;
  gcm_encrypt_len : forall k n d c, gcm_encrypt k n d = Some c -> zlen c = zlen d + 16
}.

(** ** Requests pushed to a guest (wapo-env/src/messages.rs) *)
Record QueryRequest : Type := {
  qr_origin : option (array 32);
  qr_path : str;
  qr_payload : bytes;
  qr_reply_tx : Z
}.
Record HttpHead : Type := { hh_method : str; hh_url : str; hh_headers : list (str * str) }.
Record HttpRequest : Type := { hr_head : HttpHead; hr_response_tx : Z; hr_io_stream : Z }.

(** ** [WapoCtx] *)
Section Context.
Context {W R : Type} `{Tokio W, !Host W, RuntimeCalls R, Digest, Aead}.
Context `{!ScaleCodec QueryRequest, !ScaleCodec HttpRequest}.

Record WapoVmConfig : Type := MkConfig {
  tcp_listen_port_range : Z * Z;
  sni_tls_listener : bool
}.

Record WapoCtx : Type := MkCtx {
  id : array 32;
  resources : list (option (Resource W));
  temp_return_value : option bytes;
  ocall_trace_enabled : bool;
  query_tx : option MpscSender;
  http_connect_tx : option MpscSender;
  tasks : TaskSet;
  weight : Z;
  runtime_calls : R;
  meter : Meter;
  blob_loader : Raw;
  config : WapoVmConfig;
  (** everything outside the process state *)
  world : W
}.

Definition WapoCtx_new (id : array 32) (calls : R) (fs : Fs) (m : Meter) (cfg : WapoVmConfig) (w : W)
  : WapoCtx :=
  MkCtx id [] None false None None with_task0 1 calls m (MkRaw [] fs) cfg w.

(** Field updates. *)
Definition set_resources (c : WapoCtx) t := MkCtx (id c) t (temp_return_value c)
  (ocall_trace_enabled c) (query_tx c) (http_connect_tx c) (tasks c) (weight c)
  (runtime_calls c) (meter c) (blob_loader c) (config c) (world c).
Definition set_return (c : WapoCtx) v := MkCtx (id c) (resources c) v
  (ocall_trace_enabled c) (query_tx c) (http_connect_tx c) (tasks c) (weight c)
  (runtime_calls c) (meter c) (blob_loader c) (config c) (world c).
Definition set_trace (c : WapoCtx) b := MkCtx (id c) (resources c) (temp_return_value c)
  b (query_tx c) (http_connect_tx c) (tasks c) (weight c)
  (runtime_calls c) (meter c) (blob_loader c) (config c) (world c).
Definition set_query_tx (c : WapoCtx) x := MkCtx (id c) (resources c) (temp_return_value c)
  (ocall_trace_enabled c) x (http_connect_tx c) (tasks c) (weight c)
  (runtime_calls c) (meter c) (blob_loader c) (config c) (world c).
Definition set_http_tx (c : WapoCtx) x := MkCtx (id c) (resources c) (temp_return_value c)
  (ocall_trace_enabled c) (query_tx c) x (tasks c) (weight c)
  (runtime_calls c) (meter c) (blob_loader c) (config c) (world c).
Definition set_tasks (c : WapoCtx) t := MkCtx (id c) (resources c) (temp_return_value c)
  (ocall_trace_enabled c) (query_tx c) (http_connect_tx c) t (weight c)
  (runtime_calls c) (meter c) (blob_loader c) (config c) (world c).
Definition set_calls (c : WapoCtx) r := MkCtx (id c) (resources c) (temp_return_value c)
  (ocall_trace_enabled c) (query_tx c) (http_connect_tx c) (tasks c) (weight c)
  r (meter c) (blob_loader c) (config c) (world c).
Definition set_meter (c : WapoCtx) m := MkCtx (id c) (resources c) (temp_return_value c)
  (ocall_trace_enabled c) (query_tx c) (http_connect_tx c) (tasks c) (weight c)
  (runtime_calls c) m (blob_loader c) (config c) (world c).
Definition set_blobs (c : WapoCtx) b := MkCtx (id c) (resources c) (temp_return_value c)
  (ocall_trace_enabled c) (query_tx c) (http_connect_tx c) (tasks c) (weight c)
  (runtime_calls c) (meter c) b (config c) (world c).
Definition set_world (c : WapoCtx) w := MkCtx (id c) (resources c) (temp_return_value c)
  (ocall_trace_enabled c) (query_tx c) (http_connect_tx c) (tasks c) (weight c)
  (runtime_calls c) (meter c) (blob_loader c) (config c) w.
Definition set_weight (w : Z) (c : WapoCtx) := MkCtx (id c) (resources c) (temp_return_value c)
  (ocall_trace_enabled c) (query_tx c) (http_connect_tx c) (tasks c) w
  (runtime_calls c) (meter c) (blob_loader c) (config c) (world c).

(** [impl OcallEnv for WapoCtx]. *)
#[export] Instance ctx_ocall_env : OcallEnv WapoCtx := {|
  put_return := fun rv c => (zlen rv, set_return c (Some rv));
  take_return := fun c => (temp_return_value c, set_return c None)
|}.
#[export] Instance ctx_ocall_env_lawful : OcallEnvLawful WapoCtx.
Proof. by split. Qed.

Definition has_more_ready_tasks (c : WapoCtx) : bool := negb (is_empty (tasks c)).

(** ** Building blocks *)
Abbreviation CtxM := (M WapoCtx OcallError).

Definition gas (n : Z) : CtxM unit := modify (fun c => set_meter c (record_gas n (meter c))).
Definition meter_do (f : Meter -> Meter) : CtxM unit := modify (fun c => set_meter c (f (meter c))).
Definition world_do {A} (op : W -> A * W) : CtxM A := fun c =>
  let '(a, w) := op (world c) in (Ok a, set_world c w).
Definition tasks_do {A} (op : TaskSet -> A * TaskSet) : CtxM A := fun c =>
  let '(a, t) := op (tasks c) in (Ok a, set_tasks c t).
Definition calls_do {A} (op : R -> A * R) : CtxM A := fun c =>
  let '(a, r) := op (runtime_calls c) in (Ok a, set_calls c r).
Definition get_resource (rid : Z) : CtxM (Resource W) := fun c =>
  (get_mut (resources c) rid, c).
Definition push_resource (r : Resource W) : CtxM (int I32) :=
  (fun z => @Int I32 z) <$> zoom resources set_resources (push r).

(** A poll of a resource, on the meter and the world. *)
Definition poll_do {A} (m : M (Meter * W) OcallError A) : CtxM A :=
  zoom (fun c => (meter c, world c)) (fun c '(m, w) => set_world (set_meter c m) w) m.

(** The [PollContext] of an ocall holds a [GuestWaker]; unless the poll stored a
    clone of it, the last reference goes away with the call. *)
Definition with_waker {A} (waker_id : Z) (body : CtxM A) : CtxM A := fun c =>
  let '(r, c') := body c in
  if waker_retained waker_id (world c) (world c') then (r, c')
  else (r, set_tasks c' (push_waker (drop_msg waker_id) (tasks c'))).

(** ** The ocalls *)
Definition close_resource (rid : Z) : CtxM unit := fun c =>
  let '(res, t) := take rid (resources c) in
  (match res with None => Err NotFound | Some _ => Ok tt end, set_resources c t).

Definition close (rid : int I32) : CtxM unit := gas 200;; close_resource (int_val rid).

Definition poll (waker_id rid : int I32) : CtxM bytes :=
  gas 200;;
  with_waker (int_val waker_id)
    (res ← get_resource (int_val rid); poll_do (resource_poll res)).

(** [fuel] bounds the retries of a plain TCP stream; a loop that would not end
    within it is reported as pending. *)
Definition fueled {A} (f : Meter * W -> option (result OcallError A * (Meter * W)))
  : M (Meter * W) OcallError A := fun s => default (Err Pending, s) (f s).

Definition poll_read (fuel : nat) (waker_id rid : int I32) (len : Z) : CtxM bytes :=
  gas 200;;
  with_waker (int_val waker_id)
    (res ← get_resource (int_val rid); poll_do (fueled (resource_poll_read fuel res len))).
Definition poll_write (fuel : nat) (waker_id rid : int I32) (data : bytes) : CtxM (int U32) :=
  gas 200;;
  with_waker (int_val waker_id)
    (res ← get_resource (int_val rid);
     (fun z => @Int U32 z) <$> poll_do (fueled (resource_poll_write fuel res data))).
Definition poll_shutdown (waker_id rid : int I32) : CtxM unit :=
  gas 200;;
  with_waker (int_val waker_id)
    (res ← get_resource (int_val rid); poll_do (resource_poll_shutdown res)).
Definition poll_res (waker_id rid : int I32) : CtxM (int I32) :=
  gas 200;;
  res ← with_waker (int_val waker_id)
    (res ← get_resource (int_val rid); poll_do (resource_poll_res res));
  push_resource res.

Definition mark_task_ready (task_id : int I32) : CtxM unit :=
  gas 200;; modify (fun c => set_tasks c (push_task (int_val task_id) (tasks c))).
Definition next_ready_task : CtxM (int I32) :=
  gas 200;;
  t ← tasks_do pop_task;
  lift ((fun z => @Int I32 z) <$> ok_or t NotFound).

Definition create_timer (timeout : int I32) : CtxM (int I32) :=
  gas 500;;
  s ← world_do (sleep (wrap U64 (int_val timeout)));
  push_resource (RSleep s).
Definition reset_timer (rid timeout : int I32) : CtxM unit :=
  gas 300;;
  res ← get_resource (int_val rid);
  match res with
  | RSleep s =>
    w ← gets world;
    deadline ← lift (ok_or (deadline_in (wrap U64 (int_val timeout)) w) InvalidParameter);
    world_do (fun w => (tt, reset_sleep s deadline w))
  | _ => throw InvalidParameter
  end.

Definition enable_ocall_trace (enable : bool) : CtxM unit :=
  gas 100;; modify (fun c => set_trace c enable).

Definition map_io {A} (r : result io_error A) : result OcallError A := map_err (fun _ => IoError) r.

Definition tcp_listen (addr : str) (tls : option TlsServerConfig) : CtxM (int I32) :=
  gas 1000;;
  port ← lift (ok_or (parse_socket_addr addr) InvalidParameter);
  range ← gets (fun c => tcp_listen_port_range (config c));
  bail_if (negb ((range.1 <=? port) && (port <=? range.2))) Forbiden;;
  r ← world_do (tcp_bind addr);
  listener ← lift (map_io r);
  tls_config ← lift (match tls with
                     | None => Ok None
                     | Some t => Some <$> load_tls_config t
                     end);
  push_resource (RTcpListener {| tlr_listener := listener; tlr_tls_config := tls_config |}).

Definition accept_from (res : Resource W) : CtxM (Resource W * str) :=
  match res with
  | RTcpListener l =>
    r ← world_do (poll_accept (tlr_listener l));
    match r with
    | PPending => throw Pending
    | PReady result =>
      '(stream, addr) ← lift (map_io result);
      meter_do (record_net_ingress 128);;
      match tlr_tls_config l with
      | Some cfg =>
        meter_do (record_net_ingress 1024);;
        meter_do (record_net_egress 1024);;
        t ← world_do (tls_accept stream cfg);
        mret (RTlsStream t, addr)
      | None => mret (RTcpStream stream, addr)
      end
    end
  | RSniSubscription s =>
    r ← world_do (poll_subscription s);
    match r with
    | PPending => throw Pending
    | PReady None => throw EndOfFile
    | PReady (Some (stream, addr)) =>
      meter_do (record_net_ingress 1024);;
      meter_do (record_net_egress 1024);;
      mret (RTlsStream stream, addr)
    end
  | _ => throw UnsupportedOperation
  end.

Definition tcp_accept (waker_id rid : int I32) : CtxM (int I32 * str) :=
  gas 1000;;
  '(res, remote_addr) ← with_waker (int_val waker_id)
    (res ← get_resource (int_val rid); accept_from res);
  res_id ← push_resource res;
  mret (res_id, remote_addr).
Definition tcp_accept_no_addr (waker_id rid : int I32) : CtxM (int I32) :=
  '(res_id, _) ← tcp_accept waker_id rid; mret res_id.

Definition check_connect (host : str) : CtxM unit :=
  bail_if (253 <? zlen (str_bytes host)) InvalidParameter;;
  allowed ← gets (fun c => rc_tcp_connect_allowed host (runtime_calls c));
  bail_if (negb allowed) Forbiden.

Definition tcp_connect (host : str) (port : int U16) : CtxM (int I32) :=
  gas 1000;;
  check_connect host;;
  fut ← world_do (connect_tcp host (int_val port));
  meter_do record_tcp_connect_start;;
  push_resource (RTcpConnect fut).

Definition tcp_connect_tls (host : str) (port : int U16) (cfg : TlsClientConfig) : CtxM (int I32) :=
  gas 1000;;
  check_connect host;;
  bail_if (negb (server_name host)) InvalidParameter;;
  fut ← world_do (connect_tls host (int_val port));
  meter_do record_tls_connect_start;;
  push_resource (RTlsConnect fut).

Definition tls_listen_sni (sni : str) (cfg : TlsServerConfig) : CtxM (int I32) :=
  gas 1000;;
  let '(TlsServerV0 cert key) := cfg in
  has_listener ← gets (fun c => sni_tls_listener (config c));
  bail_if (negb has_listener) Forbiden;;
  r ← world_do (sni_subscribe sni cert key);
  subscription ← lift (ok_or r InvalidParameter);
  gas 10000;;
  push_resource (RSniSubscription subscription).

Definition log (level : Level) (message : str) : CtxM unit :=
  gas (zlen (str_bytes message));; calls_do (fun r => (tt, rc_log level message r)).

Definition awake_wakers_ocall : CtxM (list (int I32)) :=
  gas 500;; ws ← tasks_do drain_wakers; mret ((fun z => @Int I32 z) <$> ws).

Definition getrandom (len : Z) : CtxM bytes :=
  gas (wrap U64 (len * 10));; world_do (fill_bytes len).

(** [oneshot_send] and [oneshot_send_error] differ in the message and its size. *)
Definition send_once (rid : int I32) (msg : bytes + str) (len : Z) : CtxM unit :=
  gas (1000 + len `div` 128);;
  res ← get_resource (int_val rid);
  match res with
  | ROneshotTx (Some sender) =>
    modify (fun c => set_resources c (set_res (resources c) (int_val rid) (ROneshotTx None)));;
    sent ← world_do (oneshot_send sender msg);
    bail_if (negb sent) IoError
  | ROneshotTx None => throw IoError
  | _ => throw UnsupportedOperation
  end.
Definition oneshot_send_ok (rid : int I32) (data : bytes) : CtxM unit :=
  send_once rid (inl data) (zlen data).
Definition oneshot_send_error (rid : int I32) (error : str) : CtxM unit :=
  send_once rid (inr error) (zlen (str_bytes error)).

(** The macro [create_channel!]; the channel is made before the table is asked
    for an id. *)
Definition create_channel (get : WapoCtx -> option MpscSender)
  (set : WapoCtx -> option MpscSender -> WapoCtx) : CtxM (int I32) :=
  existing ← gets get;
  bail_if (match existing with Some _ => true | None => false end) AlreadyExists;;
  '(tx, rx) ← world_do mpsc_channel;
  res ← push_resource (RChannelRx rx);
  modify (fun c => set c (Some tx));;
  mret res.
(** [return Err(..)] and [?] inside the macro leave the whole method, so
    [query_listened] is reported only when the channel was created. *)
Definition create_input_channel (ch : InputChannel) : CtxM (int I32) :=
  gas 1000;;
  match ch with
  | ChQuery =>
    ret ← create_channel query_tx set_query_tx;
    calls_do (fun r => (tt, rc_query_listened r));;
    mret ret
  | ChHttpRequest => create_channel http_connect_tx set_http_tx
  end.

Definition app_address : CtxM (array 32) := gas 100;; gets id.

Definition emit_program_output (output : bytes) : CtxM unit :=
  gas (zlen output `div` 128);; calls_do (fun r => (tt, rc_emit_output output r)).

(** The loader's calls; every error becomes [IoError]. *)
Definition blobs_do {A} (m : M Raw anyhow A) : CtxM A := fun c =>
  let '(r, b) := m (blob_loader c) in (map_err (fun _ => IoError) r, set_blobs c b).
Definition on_fs {A} (m : M Fs anyhow A) : M Raw anyhow A :=
  zoom raw_fs (fun s fs => MkRaw (cache s) fs) m.

Definition blob_get (hash : str) : CtxM bytes :=
  gas 100;;
  obj ← blobs_do (on_fs (get_object (str_bytes hash)));
  obj ← lift (ok_or obj NotFound);
  gas (zlen obj `div` 128);;
  mret obj.

Definition MAX_SIGN_SIZE : Z := 1024 * 1024 * 8.
Definition checked_payload (data : bytes) : CtxM unit :=
  if MAX_SIGN_SIZE <? zlen data then gas 100;; throw InvalidParameter
  else gas (1000 + zlen data).
Definition sign (data : bytes) : CtxM bytes :=
  checked_payload data;; gets (fun c => rc_sign_app_data data (runtime_calls c)).
Definition worker_pubkey : CtxM (array 32) :=
  gas 100;; gets (fun c => rc_worker_pubkey (runtime_calls c)).
Definition sgx_quote (data : bytes) : CtxM (option bytes) :=
  checked_payload data;; gets (fun c => rc_sgx_quote_app_data data (runtime_calls c)).

Definition tip (value : int U64) : CtxM unit :=
  gas 100;; meter_do (add_tip (int_val value)).
Definition app_gas_consumed : CtxM (int U64 * MetricsToken) :=
  gas 1000;;
  '(metrics, token) ← calls_do rc_app_metrics;
  mret (Int (gas_consumed metrics), token).
Definition derive_secret (path : bytes) : CtxM (array 64) :=
  gas (1000 + zlen path);;
  bail_if (256 <? zlen path) InvalidParameter;;
  gets (fun c => rc_derive_secret path (runtime_calls c)).

(** ** Boot data *)
Definition MAX_BOOT_DATA_SIZE : Z := 1024 * 64.
Definition boot_filename (vm_id : array 32) : bytes := hex_encode (arr_bytes vm_id) ++ lit "-bootdata".

Definition NONCE_LEN : Z := 12.
Definition encrypt (nonce data : bytes) (key : array 64) : result OcallError bytes :=
  c ← ok_or (gcm_encrypt (firstn 32 (arr_bytes key)) nonce data) IoError;
  Ok (c ++ nonce).
Definition decrypt (data : bytes) (key : array 64) : result OcallError bytes :=
  if zlen data <? NONCE_LEN then Err IoError else
  let n := Z.to_nat (zlen data - NONCE_LEN) in
  ok_or (gcm_decrypt (firstn 32 (arr_bytes key)) (skipn n data) (firstn n data)) IoError.

Definition read_boot_data : CtxM (option bytes) :=
  vm_id ← gets id;
  encrypted ← blobs_do (get_raw (boot_filename vm_id) MAX_BOOT_DATA_SIZE);
  match encrypted with
  | None => mret None
  | Some encrypted =>
    key ← derive_secret (lit "enc_bootdata");
    Some <$> lift (decrypt encrypted key)
  end.

Definition write_boot_data (data : bytes) : CtxM unit :=
  if MAX_BOOT_DATA_SIZE <? zlen data then gas 100;; throw InvalidParameter else
  vm_id ← gets id;
  key ← derive_secret (lit "enc_bootdata");
  nonce ← world_do (fill_bytes NONCE_LEN);
  data ← lift (encrypt nonce data key);
  blobs_do (put_raw (boot_filename vm_id) data).

Definition app_try_lock (path : str) : CtxM unit :=
  ok ← calls_do (rc_try_lock path); bail_if (negb ok) ConditionError.
Definition app_unlock (path : str) : CtxM unit :=
  ok ← calls_do (rc_unlock path); bail_if (negb ok) ConditionError.

(** ** Requests from the host *)
Definition anyhow_of (e : OcallError) : anyhow := Msg "ocall error".

(** [let reply_tx = self.resources.push(..)?] in a method returning [anyhow]. *)
Definition host_do {A} (m : CtxM A) : M WapoCtx anyhow A := fun c =>
  let '(r, c) := m c in (map_err anyhow_of r, c).

Definition push_query (origin : option (array 32)) (path : str) (payload : bytes) (reply_tx : OneshotSender)
  : M WapoCtx anyhow unit :=
  tx ← gets query_tx;
  match tx with
  | None => mret tt
  | Some tx =>
    reply_tx ← host_do (push_resource (ROneshotTx (Some reply_tx)));
    let query := {| qr_path := path; qr_origin := origin; qr_payload := payload;
                    qr_reply_tx := int_val reply_tx |} in
    sent ← host_do (world_do (mpsc_try_send tx (scale_encode query)));
    if (sent : bool) then mret tt
    else ignore (host_do (close_resource (int_val reply_tx)));; throw (Msg "try_send failed")
  end.

(** [match m { Ok(x) => x, Err(e) => .. }]. *)
Definition or_else {A} (m : M WapoCtx anyhow A) (f : anyhow -> M WapoCtx anyhow A)
  : M WapoCtx anyhow A := fun c =>
  match m c with (Ok a, c) => (Ok a, c) | (Err e, c) => f e c end.

(** [reply_tx] is the sender half of the fresh oneshot channel. *)
Definition push_http_request (head : HttpHead) (body : DuplexStream) (reply_tx : OneshotSender)
  : M WapoCtx anyhow unit :=
  connect_tx ← gets http_connect_tx;
  match connect_tx with
  | None => mret tt
  | Some connect_tx =>
    response_tx ← host_do (push_resource (ROneshotTx (Some reply_tx)));
    body_stream ← or_else (host_do (push_resource (RDuplexStream body)))
      (fun e => ignore (host_do (close_resource (int_val response_tx)));; throw e);
    let query := {| hr_head := head; hr_response_tx := int_val response_tx;
                    hr_io_stream := int_val body_stream |} in
    sent ← host_do (world_do (mpsc_try_send connect_tx (scale_encode query)));
    if (sent : bool) then mret tt
    else ignore (host_do (close_resource (int_val response_tx)));;
         ignore (host_do (close_resource (int_val body_stream)));;
         throw (Msg "try_send failed")
  end.

(** ** The trait implementation: [impl OcallFuncs for WapoCtx]

    [&mut [u8]] arguments are written back to guest memory. *)
Context {Mem : Type} `{GuestMemory Mem}.

Definition on_ctx {A} (m : CtxM A) : M (WapoCtx * Mem) OcallError A :=
  zoom fst (fun s c => (c, s.2)) m.
Definition write_back (buf : host_buf) (data : bytes) : M (WapoCtx * Mem) OcallError unit :=
  modify (fun s => (s.1, default s.2 (copy_from_slice s.2 (hb_ptr buf) data))).

#[export] Instance ctx_ocall_funcs (fuel : nat) : OcallFuncs (WapoCtx * Mem) := {|
  f_close := fun r => on_ctx (close r);
  f_poll := fun w r => on_ctx (poll w r);
  f_poll_read := fun w r buf =>
    data ← on_ctx (poll_read fuel w r (zlen (hb_data buf)));
    write_back buf data;;
    mret (@Int U32 (wrap U32 (zlen data)));
  f_poll_write := fun w r data => on_ctx (poll_write fuel w r data);
  f_poll_shutdown := fun w r => on_ctx (poll_shutdown w r);
  f_poll_res := fun w r => on_ctx (poll_res w r);
  f_mark_task_ready := fun t => on_ctx (mark_task_ready t);
  f_next_ready_task := on_ctx next_ready_task;
  f_enable_ocall_trace := fun b => on_ctx (enable_ocall_trace b);
  f_awake_wakers := on_ctx awake_wakers_ocall;
  f_getrandom := fun buf =>
    data ← on_ctx (getrandom (zlen (hb_data buf)));
    write_back buf data;
  f_create_timer := fun t => on_ctx (create_timer t);
  f_reset_timer := fun r t => on_ctx (reset_timer r t);
  f_oneshot_send := fun r d => on_ctx (oneshot_send_ok r d);
  f_oneshot_send_error := fun r e => on_ctx (oneshot_send_error r e);
  f_tcp_listen := fun '(addr, tls) => on_ctx (tcp_listen addr tls);
  f_tcp_accept := fun w r => on_ctx (tcp_accept w r);
  f_tcp_accept_no_addr := fun w r => on_ctx (tcp_accept_no_addr w r);
  f_tcp_connect := fun h p => on_ctx (tcp_connect h p);
  f_tcp_connect_tls := fun '(h, p, cfg) => on_ctx (tcp_connect_tls h p cfg);
  f_tls_listen_sni := fun '(sni, cfg) => on_ctx (tls_listen_sni sni cfg);
  f_log := fun l m => on_ctx (log l m);
  f_create_input_channel := fun ch => on_ctx (create_input_channel ch);
  f_app_address := on_ctx app_address;
  f_emit_program_output := fun o => on_ctx (emit_program_output o);
  f_blob_get := fun h => on_ctx (blob_get h);
  f_sign := fun d => on_ctx (sign d);
  f_worker_pubkey := on_ctx worker_pubkey;
  f_sgx_quote := fun d => on_ctx (sgx_quote d);
  f_tip := fun v => on_ctx (tip v);
  f_app_gas_consumed := on_ctx app_gas_consumed;
  f_derive_secret := fun p => on_ctx (derive_secret p);
  f_read_boot_data := on_ctx read_boot_data;
  f_write_boot_data := fun d => on_ctx (write_boot_data d);
  f_app_try_lock := fun p => on_ctx (app_try_lock p);
  f_app_unlock := fun p => on_ctx (app_unlock p)
|}.
End Context.
Arguments WapoCtx W R {_ _}.
