(* ===== verification/VmFacts.v ===== *)
(** * Properties of the VM context (wapo-host/src/runtime/vm_context.rs) *)
From S2P Require Import Prelude OcallError ArgsStack Ocall OcallDef Meter Resource HostTasks Blobs VmContext.

(** Every counter of a meter is a [u64]. *)
Definition meter_wf (m : Meter) : Prop :=
  Forall (fun z => in_range U64 z = true)
    [m_gas_consumed m; m_memory_used m; m_net_egress m; m_net_ingress m; m_storage_read m;
     m_storage_written m; m_tip m].

Lemma fetch_add_range a b : in_range U64 (fetch_add a b) = true.
Proof. apply wrap_in_range. Qed.

Ltac meter_solve := unfold meter_wf in *;
  rewrite ?Forall_cons in *; destruct_and?; split_and?; simpl;
  auto using fetch_add_range, wrap_in_range.

Lemma record_gas_wf n m : meter_wf m -> meter_wf (record_gas n m).
Proof. intros; meter_solve. Qed.
Lemma record_net_egress_wf n m : meter_wf m -> meter_wf (record_net_egress n m).
Proof. intros; meter_solve. Qed.
Lemma record_net_ingress_wf n m : meter_wf m -> meter_wf (record_net_ingress n m).
Proof. intros; meter_solve. Qed.
Lemma add_tip_wf n m : meter_wf m -> meter_wf (add_tip n m).
Proof. intros; unfold add_tip; case_match; meter_solve. Qed.
#[export] Hint Resolve record_gas_wf record_net_egress_wf record_net_ingress_wf add_tip_wf : wapo.

Section Facts.
Context {W R : Type} `{Tokio W, !Host W, RuntimeCalls R, Digest, Aead}.
Context `{!ScaleCodec QueryRequest, !ScaleCodec HttpRequest}.

(** What an ocall never changes about the context it started in, and what it
    keeps valid. *)
Record ctx_ok (c0 c : WapoCtx W R) : Prop := {
  co_id : id c = id c0;
  co_config : config c = config c0;
  co_weight : weight c = weight c0;
  co_table : tbl_wf (resources c);
  co_meter : meter_wf (meter c);
  co_query : forall tx, query_tx c0 = Some tx -> query_tx c = Some tx;
  co_http : forall tx, http_connect_tx c0 = Some tx -> http_connect_tx c = Some tx
}.

Lemma ctx_ok_refl c : tbl_wf (resources c) -> meter_wf (meter c) -> ctx_ok c c.
Proof. by split. Qed.
Lemma ctx_ok_trans a b c : ctx_ok a b -> ctx_ok b c -> ctx_ok a c.
Proof. intros [] []; split; eauto; congruence. Qed.

(** Polling a resource keeps the meter well-formed. *)
Abbreviation MW := (fun s : Meter * W => meter_wf s.1).
Lemma in_world_preserves {A} (op : W -> A * W) : preserves MW (in_world op).
Proof. intros [m w] Hs. unfold in_world. by destruct (op w). Qed.
Lemma metered_preserves f : (forall m, meter_wf m -> meter_wf (f m)) ->
  preserves MW (metered (W:=W) f).
Proof. intros Hf [m w] Hs. by apply Hf. Qed.
Hint Resolve in_world_preserves : wapo.
Hint Extern 1 (preserves _ (metered _)) => apply metered_preserves; auto with wapo; fail : wapo.

Lemma tcp_loops_preserve fuel s len buf m w : meter_wf m ->
  (forall r m' w', tcp_read_loop fuel s len m w = Some (r, (m', w')) -> meter_wf m') /\
  (forall r m' w', tcp_write_loop fuel s buf m w = Some (r, (m', w')) -> meter_wf m').
Proof.
  revert w. induction fuel as [|fuel IH]; intros w Hm; [done|]. split; intros r m' w'; simpl.
  - destruct (tcp_try_read s len w) as [[data|[]] w1]; intros; simplify_eq; auto with wapo.
    destruct (tcp_poll_read_ready s w1) as [[[[]|]|] w2]; simplify_eq; auto.
    destruct (IH w2 Hm); eauto.
  - destruct (tcp_try_write s buf w) as [[sz|[]] w1]; intros; simplify_eq; auto with wapo.
    destruct (tcp_poll_write_ready s w1) as [[[[]|]|] w2]; simplify_eq; auto.
    destruct (IH w2 Hm); eauto.
Qed.

Lemma stream_polls_preserve r w s :
  preserves MW (stream_poll_read r) /\ preserves MW (stream_poll_write w) /\
  preserves MW (stream_poll_shutdown s).
Proof.
  unfold stream_poll_read, stream_poll_write, stream_poll_shutdown, record_tcp_shutdown.
  split_and!; preserve.
Qed.

Lemma resource_polls_preserve (res : Resource W) :
  preserves MW (resource_poll res) /\ preserves MW (resource_poll_res res) /\
  preserves MW (resource_poll_shutdown res).
Proof.
  unfold resource_poll, resource_poll_res, resource_poll_shutdown,
    record_tcp_connect_done, record_tls_connect_done.
  split_and!; destruct res; preserve;
    apply (stream_polls_preserve (fun w => (PPending, w)) (fun w => (PPending, w))).
Qed.

Lemma resource_rw_preserve fuel (res : Resource W) len buf :
  preserves MW (fueled (resource_poll_read fuel res len)) /\
  preserves MW (fueled (resource_poll_write fuel res buf)).
Proof.
  assert (Hsome : forall A (m : M (Meter * W) OcallError A), preserves MW m ->
    preserves MW (fueled (fun s => Some (m s)))) by done.
  unfold resource_poll_read, resource_poll_write. split; destruct res;
    try (apply (Hsome _ (throw _)), preserves_throw).
  - apply Hsome. preserve.
  - intros [m w] Hs. unfold fueled. simpl. destruct (tcp_read_loop _ _ _ _ _) as [[r [m' w']]|] eqn:Hl;
      [|done]. by eapply (tcp_loops_preserve _ _ _ []) in Hl.
  - apply Hsome. by apply (stream_polls_preserve _ (fun w => (PPending, w)) (fun w => (PPending, w))).
  - apply Hsome. by apply (stream_polls_preserve _ (fun w => (PPending, w)) (fun w => (PPending, w))).
  - intros [m w] Hs. unfold fueled. simpl. destruct (tcp_write_loop _ _ _ _ _) as [[r [m' w']]|] eqn:Hl;
      [|done]. by eapply (tcp_loops_preserve _ _ 0) in Hl.
  - apply Hsome. by apply (stream_polls_preserve (fun w => (PPending, w)) _ (fun w => (PPending, w))).
  - apply Hsome. by apply (stream_polls_preserve (fun w => (PPending, w)) _ (fun w => (PPending, w))).
Qed.

(** ** Building blocks *)
Section Blocks.
Context (c0 : WapoCtx W R).
Abbreviation OK := (ctx_ok c0).
Ltac same := intros []; split; simpl in *; auto with wapo.

Lemma meter_do_ok f : (forall m, meter_wf m -> meter_wf (f m)) -> preserves OK (meter_do f).
Proof. intros Hf. apply preserves_modify. intros c. same. Qed.
Lemma gas_ok n : preserves OK (gas n).
Proof. apply preserves_modify. intros c. same. Qed.
Lemma world_do_ok {A} (op : W -> A * W) : preserves OK (world_do op).
Proof. intros c. unfold world_do. destruct (op (world c)). same. Qed.
Lemma calls_do_ok {A} (op : R -> A * R) : preserves OK (calls_do op).
Proof. intros c. unfold calls_do. destruct (op (runtime_calls c)). same. Qed.
Lemma tasks_do_ok {A} (op : TaskSet -> A * TaskSet) : preserves OK (tasks_do op).
Proof. intros c. unfold tasks_do. destruct (op (tasks c)). same. Qed.
Lemma blobs_do_ok {A} (m : M Raw anyhow A) : preserves OK (blobs_do m).
Proof. intros c. unfold blobs_do. destruct (m (blob_loader c)). same. Qed.
Lemma get_resource_ok rid : preserves OK (get_resource rid).
Proof. by intros c. Qed.
Lemma push_resource_ok r : preserves OK (push_resource r).
Proof.
  apply preserves_fmap, preserves_zoom. intros c. same.
  pose proof (push_spec r (resources c) co_table0) as Hp. destruct (push r _) as [[]]; naive_solver.
Qed.
Lemma close_resource_ok rid : preserves OK (close_resource rid).
Proof.
  intros c. unfold close_resource, Resource.take. case_match eqn:Ht. same.
  destruct (_ <=? _); simplify_eq; [done|]. unfold tbl_wf, zlen in *. by rewrite length_insert.
Qed.
Lemma set_res_ok rid r : preserves OK (modify (E:=OcallError)
  (fun c => set_resources c (set_res (resources c) rid r))).
Proof.
  apply preserves_modify. intros c. same. unfold tbl_wf, zlen, set_res in *. by rewrite length_insert.
Qed.
Lemma modify_tasks_ok f : preserves OK (modify (E:=OcallError) (fun c => set_tasks c (f (tasks c)))).
Proof. apply preserves_modify. intros c. same. Qed.
Lemma set_trace_ok b : preserves OK (modify (E:=OcallError) (fun c => set_trace c b)).
Proof. apply preserves_modify. intros c. same. Qed.
Lemma poll_do_ok {A} (m : M (Meter * W) OcallError A) : preserves MW m -> preserves OK (poll_do m).
Proof.
  intros Hm. apply preserves_zoom. intros c. specialize (Hm (meter c, world c)).
  destruct (m _) as [r [mt w]]. simpl in *. same.
Qed.
Lemma with_waker_ok {A} wk (m : M (WapoCtx W R) OcallError A) :
  preserves OK m -> preserves OK (with_waker wk m).
Proof.
  intros Hm c Hc. unfold with_waker. specialize (Hm c Hc).
  destruct (m c) as [r c']. destruct (waker_retained _ _ _); [done|]. simpl in *.
  revert Hm. same.
Qed.
End Blocks.
#[local] Hint Resolve gas_ok world_do_ok calls_do_ok tasks_do_ok blobs_do_ok get_resource_ok
  push_resource_ok close_resource_ok set_res_ok modify_tasks_ok set_trace_ok : wapo.
Hint Extern 1 (preserves _ (meter_do _)) => apply meter_do_ok; auto with wapo; fail : wapo.
Hint Extern 1 (preserves _ (with_waker _ _)) => apply with_waker_ok : wapo.
Hint Extern 1 (preserves _ (poll_do _)) => apply poll_do_ok : wapo.

(** ** Every ocall *)
Section Ocalls.
Context (c0 : WapoCtx W R) (fuel : nat).
Abbreviation OK := (ctx_ok c0).
Hint Extern 2 (preserves _ (resource_poll ?r)) => apply (resource_polls_preserve r) : wapo.
Hint Extern 2 (preserves _ (resource_poll_res ?r)) => apply (resource_polls_preserve r) : wapo.
Hint Extern 2 (preserves _ (resource_poll_shutdown ?r)) => apply (resource_polls_preserve r) : wapo.
Hint Extern 2 (preserves _ (fueled (resource_poll_read ?f ?r ?l))) =>
  apply (resource_rw_preserve f r l []) : wapo.
Hint Extern 2 (preserves _ (fueled (resource_poll_write ?f ?r ?b))) =>
  apply (resource_rw_preserve f r 0 b) : wapo.
Ltac ocall_ok := repeat first
  [ progress preserve
  | apply with_waker_ok
  | apply poll_do_ok
  | apply meter_do_ok; auto with wapo; fail ].

Lemma accept_from_ok res : preserves OK (accept_from res).
Proof. unfold accept_from. destruct res; ocall_ok. Qed.
Lemma check_connect_ok host : preserves OK (check_connect host).
Proof. unfold check_connect. ocall_ok. Qed.
Lemma send_once_ok rid msg len : preserves OK (send_once rid msg len).
Proof. unfold send_once. ocall_ok. Qed.
Lemma checked_payload_ok d : preserves OK (checked_payload d).
Proof. unfold checked_payload. ocall_ok. Qed.
Lemma derive_secret_ok p : preserves OK (derive_secret p).
Proof. unfold derive_secret. ocall_ok. Qed.
#[local] Hint Resolve accept_from_ok check_connect_ok send_once_ok checked_payload_ok
  derive_secret_ok : wapo.
Lemma tcp_accept_ok w r : preserves OK (tcp_accept w r).
Proof. unfold tcp_accept. ocall_ok. Qed.
#[local] Hint Resolve tcp_accept_ok : wapo.

(** A channel is only installed where there was none. *)
Lemma create_channel_ok get set :
  (forall c, OK c -> get c = None -> forall c1, OK c1 -> forall tx, OK (set c1 (Some tx))) ->
  preserves OK (create_channel get set).
Proof.
  intros Hset c Hc. unfold create_channel. m_unfold. cbn beta iota.
  destruct (get c) as [tx|] eqn:Hq; cbn beta iota; [done|].
  pose proof (world_do_ok c0 mpsc_channel c Hc) as Hok1.
  destruct (world_do mpsc_channel c) as [[[tx rx]|] c1]; [|done]. cbn beta iota.
  pose proof (push_resource_ok c0 (RChannelRx rx) c1 Hok1) as Hok2.
  destruct (push_resource (RChannelRx rx) c1) as [[rid|] c2]; [|done]. simpl in *. eauto.
Qed.
Lemma create_channel_query_ok : preserves OK (create_channel query_tx set_query_tx).
Proof.
  apply create_channel_ok. intros c [] Hq c1 [] tx. split; simpl; auto.
  intros tx' Htx'. specialize (co_query0 _ Htx'). congruence.
Qed.
Lemma create_channel_http_ok : preserves OK (create_channel http_connect_tx set_http_tx).
Proof.
  apply create_channel_ok. intros c [] Hq c1 [] tx. split; simpl; auto.
  intros tx' Htx'. specialize (co_http0 _ Htx'). congruence.
Qed.
#[local] Hint Resolve create_channel_query_ok create_channel_http_ok : wapo.

Context {Mem : Type} `{GuestMemory Mem}.
Abbreviation OK' := (fun s : WapoCtx W R * Mem => OK s.1).
Lemma on_ctx_ok {A} (m : M (WapoCtx W R) OcallError A) : preserves OK m -> preserves OK' (on_ctx m).
Proof. intros Hm. apply preserves_zoom. intros [c mem] Hc. by apply Hm. Qed.
Lemma write_back_ok buf d : preserves OK' (write_back buf d).
Proof. by apply preserves_modify. Qed.
#[local] Hint Resolve write_back_ok : wapo.

Context `{OcallCodecs}.

Definition ctx_table : list (OcallMethod Mem (WapoCtx W R)) :=
  ocall_table (F:=ctx_ocall_funcs fuel).

Lemma ctx_table_ok : Forall (fun m => forall h, preserves OK' (om_call m h)) ctx_table.
Proof.
  unfold ctx_table, ocall_table.
  repeat (apply Forall_cons; split); [..|apply Forall_nil; done];
    intros h; cbn in h; repeat match goal with h : _ * _ |- _ => destruct h end; cbn;
    lazymatch goal with
    | |- preserves _ (on_ctx _) => apply on_ctx_ok
    | |- preserves _ (mbind _ (on_ctx _)) =>
      apply preserves_bind; [apply on_ctx_ok | intros ?; preserve]
    end.
  1: unfold close; ocall_ok. 1: unfold poll; ocall_ok. 1: unfold poll_read; ocall_ok.
  1: unfold poll_write; ocall_ok. 1: unfold poll_shutdown; ocall_ok. 1: unfold poll_res; ocall_ok.
  1: unfold mark_task_ready; ocall_ok. 1: unfold next_ready_task; ocall_ok.
  1: unfold enable_ocall_trace; ocall_ok. 1: unfold awake_wakers_ocall; ocall_ok.
  1: unfold getrandom; ocall_ok. 1: unfold create_timer; ocall_ok. 1: unfold reset_timer; ocall_ok.
  1: unfold oneshot_send_ok; ocall_ok. 1: unfold oneshot_send_error; ocall_ok.
  1: unfold tcp_listen; ocall_ok. 1: ocall_ok. 1: unfold tcp_accept_no_addr; ocall_ok.
  1: unfold tcp_connect, record_tcp_connect_start; ocall_ok.
  1: unfold tcp_connect_tls, record_tls_connect_start; ocall_ok.
  1: unfold tls_listen_sni; ocall_ok. 1: unfold log; ocall_ok.
  1: unfold create_input_channel; ocall_ok. 1: unfold app_address; ocall_ok.
  1: unfold emit_program_output; ocall_ok. 1: unfold blob_get; ocall_ok.
  1: unfold sign; ocall_ok. 1: unfold worker_pubkey; ocall_ok. 1: unfold sgx_quote; ocall_ok.
  1: unfold tip; ocall_ok. 1: unfold app_gas_consumed; ocall_ok. 1: ocall_ok.
  1: unfold read_boot_data; ocall_ok. 1: unfold write_boot_data; ocall_ok.
  1: unfold app_try_lock; ocall_ok. unfold app_unlock; ocall_ok.
Qed.
End Ocalls.

(** ** What the guest can do with its resources *)

Lemma push_resource_spec r (c : WapoCtx W R) : tbl_wf (resources c) ->
  match push_resource r c with
  | (Ok rid, c') => tbl_wf (resources c') /\ live (resources c) (int_val rid) = None /\
      in_range I32 (int_val rid) = true /\ c' = set_resources c (resources c') /\
      (forall j, live (resources c') j =
        if decide (j = int_val rid) then Some r else live (resources c) j)
  | (Err e, c') => e = ResourceLimited /\ c' = c
  end.
Proof.
  intros Hwf. unfold push_resource, fmap, M_fmap, zoom. pose proof (push_spec r (resources c) Hwf) as Hp.
  destruct (push r (resources c)) as [[rid|e] t]; simpl.
  - destruct Hp as (Hwf' & Hb & Hn & _ & Hl). do 3 (split; [done || idtac|]); try done.
    unfold RESOURCE_ID_MAX in Hb. range_solve.
  - destruct Hp as (-> & -> & _). split; [done|]. by destruct c.
Qed.

Lemma close_resource_spec rid (c : WapoCtx W R) : tbl_wf (resources c) -> in_range I32 rid = true ->
  let '(r, c') := close_resource rid c in
  tbl_wf (resources c') /\ c' = set_resources c (resources c') /\
  (r = match live (resources c) rid with Some _ => Ok tt | None => Err NotFound end) /\
  (forall j, live (resources c') j = if decide (j = rid) then None else live (resources c) j).
Proof.
  intros Hwf Hr. unfold close_resource. pose proof (take_spec rid (resources c) Hwf Hr) as Ht.
  destruct (Resource.take rid (resources c)) as [o t]. destruct Ht as (Hwf' & -> & Hl). simpl.
  done.
Qed.

(** The guards of outgoing and listening sockets: an ocall that opens a
    connection touches the network or the resource table only if the host name
    has at most 253 bytes and the embedder allows it, and one that listens only
    if the address parses and its port is in the configured range. *)
Theorem network_guards (c : WapoCtx W R) :
  (forall host port, let c' := (tcp_connect host port c).2 in
    world c' <> world c \/ resources c' <> resources c ->
    zlen (str_bytes host) <= 253 /\ rc_tcp_connect_allowed host (runtime_calls c) = true) /\
  (forall host port cfg, let c' := (tcp_connect_tls host port cfg c).2 in
    world c' <> world c \/ resources c' <> resources c ->
    zlen (str_bytes host) <= 253 /\ rc_tcp_connect_allowed host (runtime_calls c) = true /\
    server_name host = true) /\
  (forall addr tls, let c' := (tcp_listen addr tls c).2 in
    world c' <> world c \/ resources c' <> resources c ->
    exists port, parse_socket_addr addr = Some port /\
      (tcp_listen_port_range (config c)).1 <= port <= (tcp_listen_port_range (config c)).2).
Proof.
  split_and!.
  - intros host port c'. subst c'. unfold tcp_connect, check_connect, gas. m_unfold. simpl.
    destruct (Z.ltb_spec 253 (zlen (str_bytes host))); simpl; [naive_solver|].
    destruct (rc_tcp_connect_allowed host (runtime_calls c)); simpl; [done|naive_solver].
  - intros host port cfg c'. subst c'. unfold tcp_connect_tls, check_connect, gas. m_unfold. simpl.
    destruct (Z.ltb_spec 253 (zlen (str_bytes host))); simpl; [naive_solver|].
    destruct (rc_tcp_connect_allowed host (runtime_calls c)); simpl; [|naive_solver].
    destruct (server_name host); simpl; [done|naive_solver].
  - intros addr tls c'. subst c'. unfold tcp_listen, gas. m_unfold. simpl.
    destruct (parse_socket_addr addr) as [port|]; simpl; [|naive_solver].
    destruct (_ && _) eqn:Hb; simpl; [|naive_solver]. prop_bools. eauto.
Qed.

(** A reply can be sent once: after any attempt to send on a live oneshot
    resource, whether the receiver was still there or not, every later attempt on
    that id fails with [IoError] and reaches neither the receiver nor the table. *)
Theorem oneshot_sent_once rid m1 l1 m2 l2 tx (c : WapoCtx W R) : tbl_wf (resources c) ->
  in_range I32 (int_val rid) = true ->
  live (resources c) (int_val rid) = Some (ROneshotTx tx) ->
  let c1 := (send_once rid m1 l1 c).2 in
  let '(r2, c2) := send_once rid m2 l2 c1 in
  r2 = Err IoError /\ world c2 = world c1 /\ resources c2 = resources c1.
Proof.
  intros Hwf Hr Hl. cbn zeta.
  assert (Hdead : forall c' : WapoCtx W R, tbl_wf (resources c') ->
    live (resources c') (int_val rid) = Some (ROneshotTx None) ->
    let '(r2, c2) := send_once rid m2 l2 c' in
    r2 = Err IoError /\ world c2 = world c' /\ resources c2 = resources c').
  { intros c' Hwf' Hl'. unfold send_once, gas, get_resource. m_unfold. simpl.
    by rewrite get_mut_live, Hl' by done. }
  assert (Hsend : resources (send_once rid m1 l1 c).2 =
    match tx with Some _ => set_res (resources c) (int_val rid) (ROneshotTx None)
    | None => resources c end).
  { unfold send_once, gas, get_resource. m_unfold. simpl. rewrite get_mut_live, Hl by done. simpl.
    destruct tx as [tx|]; [|done]. unfold world_do. simpl.
    destruct (oneshot_send tx m1 (world c)) as [[] w]; done. }
  assert (0 <= int_val rid < zlen (resources c)).
  { destruct (Z_lt_le_dec (int_val rid) 0); [by rewrite live_out in Hl by lia|].
    destruct (Z_lt_le_dec (int_val rid) (zlen (resources c))); [done|].
    by rewrite live_out in Hl by lia. }
  apply Hdead.
  - rewrite Hsend. destruct tx; [|done]. unfold tbl_wf, zlen, set_res in *. by rewrite length_insert.
  - rewrite Hsend. destruct tx; [|done]. unfold set_res.
    rewrite live_insert by (done || (unfold zlen in *; lia)). by rewrite decide_True by lia.
Qed.

(** ** Requests pushed by the host *)

(** Opening and closing an id again leaves the guest's view as it was. *)
Lemma closed_again t t1 t2 rid (r : Resource W) : live t rid = None ->
  (forall j, live t1 j = if decide (j = rid) then Some r else live t j) ->
  (forall j, live t2 j = if decide (j = rid) then None else live t1 j) -> tbl_equiv t2 t.
Proof.
  intros Hn H1' H2' j. rewrite H2', H1'. case_decide; [by subst|done].
Qed.

(** Pushing a query: without a query channel it is dropped with no effect;
    otherwise, if it reports success, the guest was sent a message naming a fresh
    id that holds the reply sender, and if it fails, the resource table is as
    before: no reply sender is leaked. *)
Lemma push_query_spec origin path payload reply (c : WapoCtx W R) : tbl_wf (resources c) ->
  let '(r, c') := push_query origin path payload reply c in
  match query_tx c with
  | None => r = Ok tt /\ c' = c
  | Some tx =>
    match r with
    | Ok _ => exists rid,
        live (resources c) rid = None /\
        (forall j, live (resources c') j =
          if decide (j = rid) then Some (ROneshotTx (Some reply)) else live (resources c) j) /\
        tbl_wf (resources c') /\ query_tx c' = Some tx /\ in_range I32 rid = true /\
        let q := {| qr_path := path; qr_origin := origin; qr_payload := payload;
                    qr_reply_tx := rid |} in
        mpsc_try_send tx (scale_encode q) (world c) = (true, world c')
    | Err _ => tbl_equiv (resources c') (resources c)
    end
  end.
Proof.
  intros Hwf. unfold push_query. m_unfold. destruct (query_tx c) as [tx|] eqn:Htx; [|done].
  unfold host_do at 1. pose proof (push_resource_spec (ROneshotTx (Some reply)) c Hwf) as Hp.
  destruct (push_resource (ROneshotTx (Some reply)) c) as [[rid|e] c1]; simpl;
    [|destruct Hp as [_ ->]; reflexivity].
  destruct Hp as (Hwf1 & Hn & Hr & Hc1 & Hl). unfold host_do at 1, world_do.
  assert (Hw : world c1 = world c) by (by rewrite Hc1). rewrite Hw.
  destruct (mpsc_try_send tx _ (world c)) as [[] w] eqn:Hs; simpl.
  - exists (int_val rid). split_and!; try done. by rewrite Hc1.
  - unfold ignore, host_do. pose proof (close_resource_spec (int_val rid) (set_world c1 w) Hwf1 Hr) as Hc.
    destruct (close_resource (int_val rid) (set_world c1 w)) as [r2 c2]. simpl in *.
    destruct Hc as (_ & _ & _ & Hl2). by eapply closed_again.
Qed.

(** Pushing an HTTP request: on success the message names two fresh, distinct
    ids, one holding the response sender and one the body stream; on any failure
    the resource table is as before, so neither is leaked. *)
Theorem push_http_request_spec head body reply (c : WapoCtx W R) : tbl_wf (resources c) ->
  let '(r, c') := push_http_request head body reply c in
  match http_connect_tx c with
  | None => r = Ok tt /\ c' = c
  | Some tx =>
    match r with
    | Ok _ => exists rid bid,
        rid <> bid /\ live (resources c) rid = None /\ live (resources c) bid = None /\
        (forall j, live (resources c') j =
          if decide (j = bid) then Some (RDuplexStream body)
          else if decide (j = rid) then Some (ROneshotTx (Some reply)) else live (resources c) j) /\
        let q := {| hr_head := head; hr_response_tx := rid; hr_io_stream := bid |} in
        mpsc_try_send tx (scale_encode q) (world c) = (true, world c')
    | Err _ => tbl_equiv (resources c') (resources c)
    end
  end.
Proof.
  intros Hwf. unfold push_http_request, or_else. m_unfold.
  destruct (http_connect_tx c) as [tx|]; [|done].
  unfold host_do at 1. pose proof (push_resource_spec (ROneshotTx (Some reply)) c Hwf) as Hp.
  destruct (push_resource (ROneshotTx (Some reply)) c) as [[rid|e] c1]; simpl;
    [|destruct Hp as [_ ->]; reflexivity].
  destruct Hp as (Hwf1 & Hn & Hr & Hc1 & Hl). unfold host_do at 1.
  pose proof (push_resource_spec (RDuplexStream body) c1 Hwf1) as Hp.
  destruct (push_resource (RDuplexStream body) c1) as [[bid|e] c2]; simpl.
  - destruct Hp as (Hwf2 & Hn2 & Hr2 & Hc2 & Hl2). unfold host_do at 1, world_do.
    assert (Hw : world c2 = world c) by (by rewrite Hc2, Hc1). rewrite Hw.
    assert (Hne : int_val bid <> int_val rid).
    { intros He. rewrite Hl, He, decide_True in Hn2 by done. done. }
    destruct (mpsc_try_send tx _ (world c)) as [[] w] eqn:Hs; simpl.
    + exists (int_val rid), (int_val bid). rewrite Hl, decide_False in Hn2 by done.
      split_and!; try done. intros j. rewrite Hl2, Hl. done.
    + unfold ignore, host_do.
      pose proof (close_resource_spec (int_val rid) (set_world c2 w) Hwf2 Hr) as Hc.
      destruct (close_resource (int_val rid) (set_world c2 w)) as [r3 c3].
      destruct Hc as (Hwf3 & _ & _ & Hl3). simpl.
      pose proof (close_resource_spec (int_val bid) c3 Hwf3 Hr2) as Hc.
      destruct (close_resource (int_val bid) c3) as [r4 c4]. simpl in *.
      destruct Hc as (_ & _ & _ & Hl4). intros j. rewrite Hl4, Hl3, Hl2, Hl.
      rewrite Hl, decide_False in Hn2 by done. repeat case_decide; subst; congruence.
  - destruct Hp as [_ ->]. unfold ignore, host_do.
    pose proof (close_resource_spec (int_val rid) c1 Hwf1 Hr) as Hc.
    destruct (close_resource (int_val rid) c1) as [r2 c2']. simpl in *.
    destruct Hc as (_ & _ & _ & Hl2). by eapply closed_again.
Qed.

(** ** Input channels *)

(** A guest has at most one input channel of each kind: creating one succeeds
    only if there was none, hands the guest a fresh id for the receiver whose
    sender the host keeps, and reports a query listener exactly once; a second
    attempt is refused with [AlreadyExists] and changes nothing but the gas. *)
Theorem input_channel_once (c : WapoCtx W R) : tbl_wf (resources c) ->
  let '(r, c') := create_input_channel ChQuery c in
  match r with
  | Ok rid => query_tx c = None /\
      let '((tx, rx), w) := mpsc_channel (world c) in
      query_tx c' = Some tx /\ world c' = w /\
      runtime_calls c' = rc_query_listened (runtime_calls c) /\
      live (resources c) (int_val rid) = None /\
      live (resources c') (int_val rid) = Some (RChannelRx rx) /\
      create_input_channel ChQuery c' =
        (Err AlreadyExists, set_meter c' (record_gas 1000 (meter c')))
  | Err e => runtime_calls c' = runtime_calls c /\ query_tx c' = query_tx c /\
      resources c' = resources c /\ (query_tx c = None <-> e = ResourceLimited)
  end.
Proof.
  intros Hwf. unfold create_input_channel, create_channel, gas. m_unfold. cbn beta iota.
  cbn [query_tx set_meter]. destruct (query_tx c) as [tx|] eqn:Hq; cbn beta iota; [done|].
  unfold world_do. cbn [world set_meter]. destruct (mpsc_channel (world c)) as [[tx rx] w].
  cbn beta iota.
  pose proof (push_resource_spec (RChannelRx rx)
    (set_world (set_meter c (record_gas 1000 (meter c))) w) Hwf) as Hp.
  destruct (push_resource (RChannelRx rx) _) as [[rid|e] c2]; simpl.
  - destruct Hp as (_ & Hn & _ & Hc2 & Hl). simpl in *.
    split_and!; try done; try (by rewrite Hc2). by rewrite Hl, decide_True by done.
  - by destruct Hp as [-> ->].
Qed.

(** ** Boot data *)

Lemma derive_secret_run p (c : WapoCtx W R) : zlen p <= 256 ->
  derive_secret p c = (Ok (rc_derive_secret p (runtime_calls c)),
    set_meter c (record_gas (1000 + zlen p) (meter c))).
Proof.
  intros Hp. unfold derive_secret, gas. m_unfold. cbn beta iota.
  by rewrite (proj2 (Z.ltb_ge _ _)) by lia.
Qed.

(** A write that succeeds has put the ciphertext and its nonce in the boot file
    and dropped the cached copy. *)
Lemma write_boot_data_inv data (c c' : WapoCtx W R) : write_boot_data data c = (Ok tt, c') ->
  zlen data <= MAX_BOOT_DATA_SIZE /\
  exists ct, let nonce := (fill_bytes NONCE_LEN (world c)).1 in
    let key := rc_derive_secret (lit "enc_bootdata") (runtime_calls c) in
    gcm_encrypt (firstn 32 (arr_bytes key)) nonce data = Some ct /\
    id c' = id c /\ runtime_calls c' = runtime_calls c /\
    files (raw_fs (blob_loader c')) !! boot_filename (id c) = Some (ct ++ nonce) /\
    lru_get (boot_filename (id c)) (cache (blob_loader c')) = (None, cache (blob_loader c')).
Proof.
  unfold write_boot_data. destruct (Z.ltb_spec MAX_BOOT_DATA_SIZE (zlen data)); [done|].
  m_unfold. cbn beta iota. rewrite derive_secret_run by done. cbn beta iota.
  unfold world_do. cbn [world set_meter].
  destruct (fill_bytes NONCE_LEN (world c)) as [nonce w]. cbn beta iota. unfold encrypt.
  destruct (gcm_encrypt _ nonce data) as [ct|] eqn:He; [|done]. cbn.
  unfold blobs_do, put_raw. cbn [blob_loader set_world set_meter].
  unfold fs_write, sys.
  destruct (faults (raw_fs (blob_loader c))) as [|[n|] fl]; cbn; intros [= <-];
    (split; [done|]; exists ct; split_and!; try done; [apply lookup_insert_eq|]);
    unfold lru_get; (destruct (list_find _ _) as [[i [k v]]|] eqn:Hf; [|done]);
    apply list_find_Some in Hf as (Hl & Hk & _); apply list_elem_of_lookup_2 in Hl;
    unfold lru_pop in Hl; apply list_elem_of_filter in Hl as [Hl _]; done.
Qed.

Lemma boot_filename_cons v : exists b l, boot_filename v = b :: l.
Proof.
  unfold boot_filename. destruct (hex_encode (arr_bytes v)) as [|b l]; [|by exists b, (l ++ lit "-bootdata")].
  change (lit "-bootdata") with (45 :: lit "bootdata"). simpl. eauto.
Qed.

Lemma decrypt_encrypted `{!AeadLawful} nonce data key ct : zlen nonce = NONCE_LEN ->
  gcm_encrypt (firstn 32 (arr_bytes key)) nonce data = Some ct ->
  decrypt (ct ++ nonce) key = Ok data.
Proof.
  intros Hn He. unfold decrypt. autorewrite with wapo. rewrite Hn.
  pose proof (zlen_nonneg ct). rewrite (proj2 (Z.ltb_ge _ _)) by (unfold NONCE_LEN; lia).
  replace (zlen ct + NONCE_LEN - NONCE_LEN) with (zlen ct) by lia. unfold zlen at 1 2.
  rewrite Nat2Z.id, drop_app_length, take_app_length.
  by rewrite (gcm_decrypt_encrypt _ _ _ _ He).
Qed.

(** Boot data written by a guest can be read back by it, provided the data
    has at most 65508 bytes.  Larger data is accepted by the write up to the
    documented 64 KiB, but the stored file, longer by tag and nonce, exceeds the
    limit of the read, which then always fails. *)
Theorem boot_data_roundtrip `{!AeadLawful} data (c c' : WapoCtx W R) :
  write_boot_data data c = (Ok tt, c') ->
  zlen (fill_bytes NONCE_LEN (world c)).1 = NONCE_LEN ->
  faults (raw_fs (blob_loader c')) = [] ->
  (read_boot_data c').1 = if zlen data + 28 <=? MAX_BOOT_DATA_SIZE then Ok (Some data)
                          else Err IoError.
Proof.
  intros Hw Hnonce Hfl. apply write_boot_data_inv in Hw as (_ & ct & He & Hid & Hrc & Hf & Hc).
  set (nonce := (fill_bytes NONCE_LEN (world c)).1) in *.
  pose proof (gcm_encrypt_len _ _ _ _ He) as Hlen.
  unfold read_boot_data. m_unfold. cbn beta iota. rewrite Hid.
  unfold blobs_do, get_raw at 1. rewrite Hc. unfold fs_read, sys. rewrite Hfl.
  destruct (boot_filename_cons (id c)) as (b & l & Hb). rewrite Hb in *. rewrite Hf. cbn.
  autorewrite with wapo. rewrite Hnonce, Hlen.
  destruct (Z.leb_spec (zlen data + 28) MAX_BOOT_DATA_SIZE) as [Hle|Hgt].
  - rewrite (proj2 (Z.ltb_ge _ _)) by (unfold NONCE_LEN; lia). cbn beta iota.
    unfold map_err. rewrite derive_secret_run by done. cbn beta iota.
    cbn [runtime_calls set_blobs]. rewrite Hrc.
    by erewrite decrypt_encrypted by done.
  - by rewrite (proj2 (Z.ltb_lt _ _)) by (unfold NONCE_LEN; lia).
Qed.

(** ** Whole runs *)
Section Runs.
Context {Mem : Type} `{GuestMemory Mem, OcallCodecs} (fuel : nat).

(** Any sequence of ocalls: flavour, call number and four words. *)
Record request : Type := Req { rq_fast : bool; rq_id : Z; rq_p0 : Z; rq_p1 : Z; rq_p2 : Z; rq_p3 : Z }.
Definition serve (s : WapoCtx W R * Mem) (q : request) : WapoCtx W R * Mem :=
  (dispatch_ocall (ctx_table fuel) (rq_fast q) (rq_id q) (rq_p0 q) (rq_p1 q) (rq_p2 q) (rq_p3 q) s).2.

(** C3: whatever ocalls a guest makes, with whatever numbers and arguments, its
    context keeps its identity, its configuration and its weight, never more than
    8192 resource slots, counters within 64 bits, and the input channels once
    created. *)
Theorem ocalls_keep_context reqs (c : WapoCtx W R) (mem : Mem) :
  tbl_wf (resources c) -> meter_wf (meter c) -> ctx_ok c (foldl serve (c, mem) reqs).1.
Proof.
  intros Ht Hm. assert (Hc : ctx_ok c (c, mem).1) by (by apply ctx_ok_refl).
  revert Hc. generalize (c, mem). induction reqs as [|q reqs IH]; intros s Hs; [done|]. simpl.
  apply IH. unfold serve.
  apply (dispatch_preserves (ctx_ok c)); [by intros rv env []|by intros env []| |done].
  apply ctx_table_ok.
Qed.

(** Tips are lost between guest and meter: a guest that calls the [tip] stub
    with any amount below 2^32 gets [Ok] and pays the gas of the call, but the
    metered tip does not change. *)
Theorem guest_tip_not_counted `{!MemLawful Mem} (alloc : Z -> Mem -> Z * Mem) v
  (c : WapoCtx W R) (mem : Mem) :
  alloc_lawful alloc -> meter_wf (meter c) -> 0 <= v < 2 ^ 32 ->
  exists c', guest_call alloc (ctx_table fuel) 
      (OcallDef.m_tip (F:=ctx_ocall_funcs fuel)) (@Int U64 v, tt) (c, mem) = (Some (Ok tt), (c', mem)) /\
    m_tip (meter c') = m_tip (meter c) /\
    m_gas_consumed (meter c') = fetch_add (m_gas_consumed (meter c)) 100.
Proof.
  intros Halloc Hm Hv. unfold ctx_table. rewrite guest_tip_zero by done. simpl.
  unfold meter_wf in Hm. rewrite !Forall_cons in Hm. destruct_and!.
  eexists. split; [reflexivity|]. simpl. split.
  - rewrite add_tip_sat by done. unfold sat_add. simpl. rewrite Z.add_0_r. apply Z.min_l.
    by match goal with Ht : in_range U64 (m_tip _) = true |- _ => apply in_range_spec in Ht as [_ ?] end.
  - unfold add_tip. by case_match.
Qed.
End Runs.
End Facts.

(** ** A small host, for examples

    The world is a counter; names under 100 bytes are server names, addresses
    are their port. *)
#[local] Existing Instances toy_tokio toy_digest.
#[local] Instance toy_host : Host nat := {|
  MpscSender := unit;
  mpsc_channel := fun w => ((tt, tt), w);
  mpsc_try_send := fun _ m w => ((w <? 5)%nat, S w);
  oneshot_send := fun _ _ w => (true, S w);
  sleep := fun _ w => (tt, w);
  deadline_in := fun d _ => Some d;
  reset_sleep := fun _ _ w => w;
  parse_socket_addr := fun a => head (str_bytes a);
  tcp_bind := fun _ w => (Ok tt, S w);
  poll_accept := fun _ w => (PPending, w);
  load_tls_config := fun _ => Ok tt;
  tls_accept := fun _ _ w => (tt, w);
  poll_subscription := fun _ w => (PPending, w);
  server_name := fun h => zlen (str_bytes h) <? 100;
  connect_tcp := fun _ _ w => (tt, S w);
  connect_tls := fun _ _ w => (tt, S w);
  sni_subscribe := fun _ _ _ w => (Some tt, w);
  fill_bytes := fun n w => (replicate (Z.to_nat n) 7, w);
  waker_retained := fun _ _ _ => false
|}.
(** A cipher that appends a tag of 16 zeros. *)
#[local] Instance toy_aead : Aead := {|
  gcm_encrypt := fun _ _ d => Some (d ++ replicate 16 0);
  gcm_decrypt := fun _ _ c => Some (firstn (length c - 16) c)
|}.
#[local] Instance toy_aead_lawful : AeadLawful.
Proof.
  split; intros k n d c; cbn [gcm_encrypt gcm_decrypt toy_aead];
    intros <-%(inj Some).
  - rewrite length_app, length_replicate, Nat.add_sub. by rewrite take_app_length.
  - apply zlen_app.
Qed.
(** Codecs that carry byte strings; the other types are not exercised. *)
Definition no_codec (T : Type) : ScaleCodec T :=
  {| scale_encode := fun _ => []; scale_decode := fun _ => None |}.
#[local] Instance toy_codecs : OcallCodecs := {|
  codec_vec_u8 := {| scale_encode := fun b => b; scale_decode := Some |};
  codec_vec_i32 := no_codec _; codec_i32 := no_codec _; codec_accept := no_codec _;
  codec_option_vec := no_codec _; codec_array32 := no_codec _; codec_array64 := no_codec _;
  codec_gas := no_codec _; codec_unit := no_codec _; codec_listen := no_codec _;
  codec_connect_tls := no_codec _; codec_listen_sni := no_codec _
|}.
#[local] Instance toy_query_codec : ScaleCodec QueryRequest := no_codec _.
#[local] Instance toy_http_codec : ScaleCodec HttpRequest := no_codec _.

Definition toy_tx : @OneshotSender nat toy_tokio := tt.
Definition toy_body : @DuplexStream nat toy_tokio := tt.
Definition toy_ctx : WapoCtx nat unit :=
  WapoCtx_new (Arr [1; 2]) tt (MkFs ∅ []) (Meter_default 0) (MkConfig (100, 200) false) 0%nat.
(** With both input channels open and a reply sender in slot 2. *)
Definition toy_ctx2 : WapoCtx nat unit :=
  set_resources (set_query_tx (set_http_tx toy_ctx (Some tt)) (Some tt))
    [Some (RChannelRx tt); Some (RChannelRx tt); Some (ROneshotTx (Some tt))].

Lemma toy_ctx_wf : tbl_wf (resources toy_ctx2) /\ meter_wf (meter toy_ctx).
Proof. split; [done|]. repeat constructor. Qed.

Lemma network_guards_witness :
  zlen (str_bytes (Str [97])) <= 253 /\
  rc_tcp_connect_allowed (Str [97]) (runtime_calls toy_ctx) = true.
Proof.
  apply (proj1 (network_guards toy_ctx) (Str [97]) (Int 80)). left. vm_compute. discriminate.
Defined.

Lemma oneshot_sent_once_witness :
  let c1 := (send_once (Int 2) (inl [1]) 1 toy_ctx2).2 in
  let '(r2, c2) := send_once (Int 2) (inr (Str [2])) 1 c1 in
  r2 = Err IoError /\ world c2 = world c1 /\ resources c2 = resources c1.
Proof.
  apply (@oneshot_sent_once nat unit toy_tokio toy_host (Int 2) (inl [1]) 1 (inr (Str [2])) 1
    (Some tt) toy_ctx2);
    [apply toy_ctx_wf|reflexivity|reflexivity].
Defined.

Lemma push_query_spec_witness :
  exists c' rid, push_query None (Str []) [1] toy_tx toy_ctx2 = (Ok tt, c') /\
    live (resources toy_ctx2) rid = None /\
    live (resources c') rid = Some (ROneshotTx (Some toy_tx)).
Proof.
  pose proof (push_query_spec None (Str []) [1] toy_tx toy_ctx2 (proj1 toy_ctx_wf)) as Hs.
  destruct (push_query None (Str []) [1] toy_tx toy_ctx2) as [r c'] eqn:He.
  assert (Hr : r = Ok tt) by (apply (f_equal fst) in He; vm_compute in He; by rewrite <- He).
  subst r. change (query_tx toy_ctx2) with (Some tt) in Hs. destruct Hs as (rid & Hn & Hl & _).
  exists c', rid. split; [reflexivity|]. split; [exact Hn|]. rewrite Hl, decide_True; reflexivity.
Defined.

Lemma push_http_request_spec_witness :
  let head := {| hh_method := Str []; hh_url := Str []; hh_headers := [] |} in
  exists c', push_http_request head toy_body toy_tx (set_world toy_ctx2 9%nat) =
      (Err (Msg "try_send failed"), c') /\
    tbl_equiv (resources c') (resources toy_ctx2).
Proof.
  intros head.
  pose proof (push_http_request_spec head toy_body toy_tx (set_world toy_ctx2 9%nat)
    (proj1 toy_ctx_wf)) as Hs.
  destruct (push_http_request head toy_body toy_tx _) as [r c'] eqn:He.
  assert (Hr : r = Err (Msg "try_send failed"))
    by (apply (f_equal fst) in He; vm_compute in He; by rewrite <- He).
  subst r. change (http_connect_tx (set_world toy_ctx2 9%nat)) with (Some tt) in Hs.
  exists c'. split; [reflexivity|exact Hs].
Defined.

Lemma input_channel_once_witness :
  exists rid c', create_input_channel ChQuery toy_ctx = (Ok rid, c') /\
    create_input_channel ChQuery c' =
      (Err AlreadyExists, set_meter c' (record_gas 1000 (meter c'))).
Proof.
  do 2 eexists. split; [reflexivity|]. apply (input_channel_once toy_ctx). done.
Defined.

Lemma boot_data_roundtrip_witness :
  (read_boot_data (write_boot_data [1; 2; 3] toy_ctx).2).1 = Ok (Some [1; 2; 3]).
Proof.
  apply (boot_data_roundtrip [1; 2; 3] toy_ctx (write_boot_data [1; 2; 3] toy_ctx).2);
    vm_compute; reflexivity.
Defined.

Lemma ocalls_keep_context_witness :
  ctx_ok toy_ctx (foldl (serve (Mem:=bytes) 3) (toy_ctx, [])
    [Req false 240 0 0 0 0; Req true 101 5 0 0 0; Req true 999 0 0 0 0]).1.
Proof.
  apply (ocalls_keep_context (Mem:=bytes) 3); [done|apply toy_ctx_wf].
Defined.

Lemma guest_tip_not_counted_witness :
  exists c', guest_call list_alloc (ctx_table (Mem:=bytes) 3)
      (OcallDef.m_tip (F:=ctx_ocall_funcs 3)) (@Int U64 5, tt) (toy_ctx, []) =
      (Some (Ok tt), (c', [])) /\
    m_tip (meter c') = m_tip (meter toy_ctx) /\
    m_gas_consumed (meter c') = fetch_add (m_gas_consumed (meter toy_ctx)) 100.
Proof.
  apply (guest_tip_not_counted 3 list_alloc 5 toy_ctx []);
    [apply list_alloc_lawful|apply toy_ctx_wf|done].
Defined.
