(* ===== verification/OcallMacro.v ===== *)
(** * The ocall macro (wapo-macro/src/macro_ocall.rs)

    What the attribute macro reads from a trait and what it makes of it: the parsed
    methods from which dispatcher and stubs are generated, and the patched trait.
    The trait of the program, as text, expands to the table of Ocalls. *)
From S2P Require Import Prelude OcallError ArgsStack Ocall OcallDef Meter Resource HostTasks Blobs VmContext VmFacts.

(** ** Syntax (crate syn) *)

(** Types are known by their text, and by whether they are references. *)
Inductive SynType : Type := TyPath (text : string) | TyReference (mutability : bool) (elem : string).
(** A pattern is an identifier or something else; a path likewise. *)
Inductive FnArg : Type := Receiver | Typed (pat : option string) (ty : SynType).
Inductive SynLit : Type := LitInt (digits : Z) | LitOther.
Inductive NestedMeta : Type :=
| MetaNameValue (path : option string) (lit : SynLit)
| MetaPath (path : option string)
| NestedOther.
(** What [parse_meta] gives. *)
Inductive Meta : Type := MetaList (nested : list NestedMeta) | MetaOther | MetaInvalid.
Record Attribute : Type := MkAttr { attr_path : option string; attr_meta : Meta }.
Record TraitMethod : Type := MkTraitMethod {
  tm_attrs : list Attribute;
  tm_ident : string;
  tm_inputs : list FnArg;
  tm_output : string
}.
Inductive TraitItem : Type := ItemMethod (m : TraitMethod) | ItemOther.

(** ** Parsing *)
Record ParsedMethod : Type := MkParsed {
  pm_id : Z;
  pm_encode_output : bool;
  pm_encode_input : bool;
  pm_args : list string;
  pm_method : TraitMethod
}.

Definition is_ocall (a : Attribute) : bool := bool_decide (attr_path a = Some "ocall").

(** The variables of [OcallMethod::parse]: id, encode_output, encode_input. *)
Abbreviation flags := (option Z * bool * bool)%type.
Definition parse_nested (st : flags) (n : NestedMeta) : result string flags :=
  let '(id, eo, ei) := st in
  match n with
  | MetaNameValue path lit =>
    name ← ok_or path "Expected an identifier";
    if bool_decide (name = "id") then
      match lit with
      | LitInt v =>
        if negb (in_range I32 v) then Err "number too large to fit in target type"
        else if v <? 100 then Err "Id must greater than 100"
        else Ok (Some v, eo, ei)
      | LitOther => Err "Expected an integer"
      end
    else Err "Unknown attribute"
  | MetaPath path =>
    name ← ok_or path "Expected an identifier";
    if bool_decide (name = "encode_input") then Ok (id, eo, true)
    else if bool_decide (name = "encode_output") then Ok (id, true, ei)
    else Err "Unknown attribute"
  | NestedOther => Err "Invalid attribute"
  end.
Fixpoint fold_result {A B} (f : A -> B -> result string A) (a : A) (l : list B) : result string A :=
  match l with [] => Ok a | b :: l => a ← f a b; fold_result f a l end.
Definition parse_attr (st : flags) (a : Attribute) : result string flags :=
  if negb (is_ocall a) then Ok st else
  match attr_meta a with
  | MetaInvalid => Err "syntax error"
  | MetaList nested => fold_result parse_nested st nested
  | MetaOther => Err "ocall attribute must be a list"
  end.

(** [collect] of the arguments that have a type. *)
Fixpoint parse_args (inputs : list FnArg) : result string (list string) :=
  match inputs with
  | [] => Ok []
  | Receiver :: inputs => parse_args inputs
  | Typed (Some ident) _ :: inputs => args ← parse_args inputs; Ok (ident :: args)
  | Typed None _ :: _ => Err "Expected an identifier"
  end.
Definition OcallMethod_parse (m : TraitMethod) : result string ParsedMethod :=
  '(id, eo, ei) ← fold_result parse_attr (None, false, false) (tm_attrs m);
  match id with
  | None => Err "Missing ocall id attribute"
  | Some id => args ← parse_args (tm_inputs m); Ok (MkParsed id eo ei args m)
  end.

(** ** Checks *)
Fixpoint redundant_ids (ids : list Z) (ms : list ParsedMethod) : result string unit :=
  match ms with
  | [] => Ok tt
  | m :: ms =>
    if bool_decide (pm_id m ∈ ids) then Err "Duplicate ocall id" else redundant_ids (ids ++ [pm_id m]) ms
  end.
Definition arg_ref (a : FnArg) : option bool :=
  match a with Typed _ (TyReference mut _) => Some mut | _ => None end.
Definition multi_ref (m : ParsedMethod) : bool :=
  let refs := omap arg_ref (tm_inputs (pm_method m)) in
  existsb (fun mutability => mutability) refs && (1 <? length refs)%nat.
Fixpoint args_multi_ref (ms : list ParsedMethod) : result string unit :=
  match ms with
  | [] => Ok tt
  | m :: ms => if multi_ref m then Err "Only one &mut ref argument is allowed" else args_multi_ref ms
  end.

(** ** The expansion *)
Definition patch_method (m : TraitMethod) : TraitMethod :=
  MkTraitMethod (filter (fun a => is_ocall a = false) (tm_attrs m)) (tm_ident m)
    (match tm_inputs m with Receiver :: _ => tm_inputs m | _ => Receiver :: tm_inputs m end) (tm_output m).
Definition patch_ocall_trait (items : list TraitItem) : list TraitItem :=
  (fun i => match i with ItemMethod m => ItemMethod (patch_method m) | ItemOther => ItemOther end) <$> items.

(** The arguments of the guest's function for a method: what follows the receiver. *)
Fixpoint take_typed (rev_inputs acc : list FnArg) : list FnArg :=
  match rev_inputs with
  | [] => acc
  | Receiver :: _ => acc
  | arg :: rest => take_typed rest (arg :: acc)
  end.
Definition stub_inputs (m : ParsedMethod) : list FnArg :=
  match tm_inputs (pm_method m) with
  | Receiver :: _ => take_typed (rev (tm_inputs (pm_method m))) []
  | inputs => inputs
  end.

(** [patch_or_err]: dispatcher, stubs and names are generated from the methods. *)
Record Expansion : Type := MkExpansion { ex_trait : list TraitItem; ex_methods : list ParsedMethod }.
Fixpoint parse_methods (items : list TraitItem) : result string (list ParsedMethod) :=
  match items with
  | [] => Ok []
  | ItemOther :: items => parse_methods items
  | ItemMethod m :: items => p ← OcallMethod_parse m; ps ← parse_methods items; Ok (p :: ps)
  end.
Definition patch_or_err (items : list TraitItem) : result string Expansion :=
  methods ← parse_methods items;
  redundant_ids [] methods;;
  args_multi_ref methods;;
  Ok (MkExpansion (patch_ocall_trait items) methods).
(** [ocall_id2name] of the expansion. *)
Definition expansion_id2name (e : Expansion) (id : Z) : string :=
  if id =? 0 then "get_return" else
  match list_find (fun m => pm_id m = id) (ex_methods e) with
  | Some (_, m) => tm_ident (pm_method m)
  | None => "unknown"
  end.

(** ** What an accepted trait is *)
Definition methods_of (items : list TraitItem) : list TraitMethod :=
  omap (fun i => match i with ItemMethod m => Some m | ItemOther => None end) items.

(** What may stand in an ocall attribute. *)
Inductive item_ok : NestedMeta -> Prop :=
| ItemId v : 100 <= v <= int_max I32 -> item_ok (MetaNameValue (Some "id") (LitInt v))
| ItemEncodeInput : item_ok (MetaPath (Some "encode_input"))
| ItemEncodeOutput : item_ok (MetaPath (Some "encode_output")).
Definition item_id (n : NestedMeta) : option Z := match n with MetaNameValue _ (LitInt v) => Some v | _ => None end.
(** All items of a method's ocall attributes. *)
Definition nested_of (a : Attribute) : list NestedMeta := match attr_meta a with MetaList l => l | _ => [] end.
Definition ocall_items (attrs : list Attribute) : list NestedMeta :=
  concat (nested_of <$> filter (fun a => attr_path a = Some "ocall") attrs).
(** The attributes of a method give it an id and two flags: each of its ocall attributes is
    a list, the last id counts, and a flag is set by being there. *)
Record attributed (attrs : list Attribute) (id : Z) (encode_output encode_input : bool) : Prop := MkAttributed {
  at_lists : forall a, a ∈ attrs -> attr_path a = Some "ocall" -> exists l, attr_meta a = MetaList l;
  at_items : Forall item_ok (ocall_items attrs);
  at_id : last (omap item_id (ocall_items attrs)) = Some id;
  at_output : encode_output = true <-> MetaPath (Some "encode_output") ∈ ocall_items attrs;
  at_input : encode_input = true <-> MetaPath (Some "encode_input") ∈ ocall_items attrs
}.
Definition arg_name (a : FnArg) : option string := match a with Typed n _ => n | Receiver => None end.
Record parsed (m : TraitMethod) (p : ParsedMethod) : Prop := MkParsedAs {
  pa_method : pm_method p = m;
  pa_attributed : attributed (tm_attrs m) (pm_id p) (pm_encode_output p) (pm_encode_input p);
  pa_named : forall ty, Typed None ty ∉ tm_inputs m;
  pa_args : pm_args p = omap arg_name (tm_inputs m)
}.
(** A mutable reference beside another reference. *)
Definition mixed_refs (inputs : list FnArg) : Prop :=
  exists l1 l2 pat ty, inputs = l1 ++ Typed pat (TyReference true ty) :: l2 /\
    exists pat' mutability ty', Typed pat' (TyReference mutability ty') ∈ l1 ++ l2.
(** A method of the patched trait: without ocall attributes and otherwise as it was, with a
    receiver in front unless it had one. *)
Record patched (m m' : TraitMethod) : Prop := MkPatched {
  pt_attrs : tm_attrs m' = filter (fun a => attr_path a <> Some "ocall") (tm_attrs m);
  pt_ident : tm_ident m' = tm_ident m;
  pt_output : tm_output m' = tm_output m;
  pt_inputs : tm_inputs m' = tm_inputs m /\ head (tm_inputs m) = Some Receiver \/
              tm_inputs m' = Receiver :: tm_inputs m /\ head (tm_inputs m) <> Some Receiver
}.
Definition patched_item (i i' : TraitItem) : Prop :=
  match i, i' with
  | ItemMethod m, ItemMethod m' => patched m m'
  | ItemOther, ItemOther => True
  | _, _ => False
  end.
(** The traits that are accepted, with what they expand to. *)
Record accepted (items : list TraitItem) (e : Expansion) : Prop := MkAccepted {
  ac_parsed : Forall2 parsed (methods_of items) (ex_methods e);
  ac_ids : NoDup (pm_id <$> ex_methods e);
  ac_refs : forall m, m ∈ methods_of items -> ~ mixed_refs (tm_inputs m);
  ac_trait : Forall2 patched_item items (ex_trait e)
}.

#[export] Instance NestedMeta_eq_dec : EqDecision NestedMeta.
Proof. assert (EqDecision SynLit) by solve_decision. solve_decision. Defined.

(** Partners of the members of two related lists. *)
Lemma Forall2_member_l {A B} (R : A -> B -> Prop) l k x : Forall2 R l k -> x ∈ l -> exists y, R x y /\ y ∈ k.
Proof. intros Hl (i & Hi)%list_elem_of_lookup. destruct (Forall2_lookup_l _ _ _ _ _ Hl Hi) as (y & Hy & HR). eauto using list_elem_of_lookup_2. Qed.
Lemma Forall2_member_r {A B} (R : A -> B -> Prop) l k y : Forall2 R l k -> y ∈ k -> exists x, R x y /\ x ∈ l.
Proof. intros Hl (i & Hi)%list_elem_of_lookup. destruct (Forall2_lookup_r _ _ _ _ _ Hl Hi) as (x & Hx & HR). eauto using list_elem_of_lookup_2. Qed.

(** *** Attributes *)
Lemma fold_result_app {A B} (f : A -> B -> result string A) l1 l2 : forall a,
  fold_result f a (l1 ++ l2) = (a ← fold_result f a l1; fold_result f a l2).
Proof. induction l1 as [|b l1 IH]; intros a; simpl; [done|]. destruct (f a b); simpl; [apply IH|done]. Qed.
(** The flags after some items. *)
Definition flags_after (st : flags) (l : list NestedMeta) : flags :=
  (match last (omap item_id l) with Some v => Some v | None => st.1.1 end,
   st.1.2 || bool_decide (MetaPath (Some "encode_output") ∈ l), st.2 || bool_decide (MetaPath (Some "encode_input") ∈ l)).
Lemma parse_nested_spec st n st' : parse_nested st n = Ok st' <-> item_ok n /\ st' = flags_after st [n].
Proof.
  destruct st as [[id eo] ei]. split.
  - destruct n as [[name|] [v|]|[name|]|]; simpl; try done; repeat case_bool_decide; try done; subst.
    + destruct (in_range I32 v) eqn:Hr; [|done]. simpl. destruct (Z.ltb_spec v 100); [done|]. intros [= <-].
      apply in_range_spec in Hr. split; [constructor; lia|]. by destruct eo, ei.
    + intros [= <-]. split; [constructor|]. by destruct eo, ei.
    + intros [= <-]. split; [constructor|]. by destruct eo, ei.
  - intros [Hok ->]. destruct Hok as [v Hv| |]; simpl; [|by destruct eo, ei..].
    assert (in_range I32 v = true) as -> by (apply in_range_spec; change (int_min I32) with (-2147483648); lia). simpl.
    destruct (Z.ltb_spec v 100); [lia|]. by destruct eo, ei.
Qed.
Lemma flags_after_cons st n l : flags_after (flags_after st [n]) l = flags_after st (n :: l).
Proof.
  destruct st as [[id eo] ei]. unfold flags_after. cbn [fst snd].
  assert (Hb : forall x, bool_decide (x ∈ n :: l) = bool_decide (x ∈ [n]) || bool_decide (x ∈ l)).
  { intros x. repeat case_bool_decide; simpl; try done; set_solver. }
  rewrite !Hb, !orb_assoc. do 2 f_equal. csimpl. destruct (item_id n) as [v|]; [|done].
  rewrite (last_cons v (omap item_id l)). by destruct (last (omap item_id l)).
Qed.
Lemma fold_nested_spec l : forall st st', fold_result parse_nested st l = Ok st' <-> Forall item_ok l /\ st' = flags_after st l.
Proof.
  induction l as [|n l IH]; intros st st'; simpl.
  - assert (flags_after st [] = st) as -> by (destruct st as [[id eo] ei]; unfold flags_after; simpl; by rewrite !orb_false_r).
    split; [intros [= <-]; by split; [constructor|]|by intros [_ ->]].
  - rewrite Forall_cons. destruct (parse_nested st n) as [st1|] eqn:Hn; simpl.
    + apply parse_nested_spec in Hn as [Hok ->]. rewrite IH, flags_after_cons. tauto.
    + split; [done|]. intros [[Hok _] _]. by rewrite (proj2 (parse_nested_spec st n _) (conj Hok eq_refl)) in Hn.
Qed.
Lemma parse_attr_eq st a : parse_attr st a =
  if decide (attr_path a = Some "ocall") then
    match attr_meta a with
    | MetaInvalid => Err "syntax error"
    | MetaList nested => fold_result parse_nested st nested
    | MetaOther => Err "ocall attribute must be a list"
    end
  else Ok st.
Proof. unfold parse_attr, is_ocall. case_decide; [by rewrite bool_decide_true|by rewrite bool_decide_false]. Qed.
Lemma fold_attrs_spec attrs : forall st st', fold_result parse_attr st attrs = Ok st' <->
  (forall a, a ∈ attrs -> attr_path a = Some "ocall" -> exists l, attr_meta a = MetaList l) /\
  fold_result parse_nested st (ocall_items attrs) = Ok st'.
Proof.
  unfold ocall_items. induction attrs as [|a attrs IH]; intros st st'.
  { simpl. split; [|tauto]. split; [by intros a ?%not_elem_of_nil|done]. }
  cbn [fold_result]. rewrite filter_cons. rewrite parse_attr_eq. destruct (decide (attr_path a = Some "ocall")) as [Ho|Ho].
  - cbn [fmap list_fmap concat]. unfold nested_of at 1.
    destruct (attr_meta a) as [l| |] eqn:Hm.
    + rewrite fold_result_app. destruct (fold_result parse_nested st l) as [st1|]; cbn [mbind result_bind].
      * rewrite IH. split; intros [Hl Hf]; (split; [|done]); intros a' Ha'; [|apply Hl; by right].
        apply elem_of_cons in Ha' as [->|Ha']; [by eauto|by apply Hl].
      * split; [done|by intros [_ ?]].
    + split; [done|]. intros [Hl _]. destruct (Hl a ltac:(left) Ho) as [l Hl']. congruence.
    + split; [done|]. intros [Hl _]. destruct (Hl a ltac:(left) Ho) as [l Hl']. congruence.
  - cbn [mbind result_bind]. rewrite IH. split; intros [Hl Hf]; (split; [|done]); intros a' Ha' Hp; [|apply Hl; [by right|done]].
    apply elem_of_cons in Ha' as [->|Ha']; [done|by apply Hl].
Qed.

(** *** Methods *)
Lemma parse_args_spec inputs args : parse_args inputs = Ok args <->
  (forall ty, Typed None ty ∉ inputs) /\ args = omap arg_name inputs.
Proof.
  revert args. induction inputs as [|[|[n|] ty] inputs IH]; intros args; cbn [parse_args].
  - split; [intros [= <-]; split; [by intros ty ?%not_elem_of_nil|done]|by intros [_ ->]].
  - rewrite IH. csimpl. set_solver.
  - csimpl. destruct (parse_args inputs) as [l|]; cbn [mbind result_bind].
    + destruct (proj1 (IH l) eq_refl) as [Hn ->]. split; [intros [= <-]; split; [set_solver|done]|by intros [_ ->]].
    + split; [done|]. intros [Hn _]. enough (Err e = Ok (omap arg_name inputs)) by done.
      apply IH. split; [set_solver|done].
  - split; [done|]. intros [Hn _]. destruct (Hn ty). by left.
Qed.
Lemma parse_spec m p : OcallMethod_parse m = Ok p <-> parsed m p.
Proof.
  unfold OcallMethod_parse. split.
  - destruct (fold_result parse_attr _ _) as [[[id eo] ei]|] eqn:Hf; [|done]. cbn [mbind result_bind].
    destruct id as [id|]; [|done]. destruct (parse_args _) as [args|] eqn:Ha; [|done]. intros [= <-].
    apply parse_args_spec in Ha as [Hn ->]. apply fold_attrs_spec in Hf as [Hl [Hi Hfl]%fold_nested_spec].
    unfold flags_after in Hfl. simpl in Hfl. injection Hfl as Hid -> ->. split; try done. simpl. split; try done.
    + by destruct (last _).
    + by rewrite bool_decide_eq_true.
    + by rewrite bool_decide_eq_true.
  - destruct p as [id eo ei args m']. intros [Hm [Hl Hi Hid Ho Hin] Hn Ha]. simpl in *. subst m' args.
    assert (fold_result parse_attr (None, false, false) (tm_attrs m) = Ok (Some id, eo, ei)) as ->.
    { apply fold_attrs_spec. split; [done|]. apply fold_nested_spec. split; [done|]. unfold flags_after. simpl. rewrite Hid.
      f_equal; [f_equal|]; apply eq_true_iff_eq; rewrite bool_decide_eq_true; done. }
    cbn [mbind result_bind]. by rewrite (proj2 (parse_args_spec (tm_inputs m) _) (conj Hn eq_refl)).
Qed.
Lemma parse_methods_spec items ms : parse_methods items = Ok ms <-> Forall2 parsed (methods_of items) ms.
Proof.
  revert ms. induction items as [|[m|] items IH]; intros ms; cbn [parse_methods]; [| |apply IH].
  { split; [by intros [= <-]|by intros ->%Forall2_nil_inv_l]. }
  change (methods_of (ItemMethod m :: items)) with (m :: methods_of items). split.
  - destruct (OcallMethod_parse m) as [p|] eqn:Hp; [|done]. destruct (parse_methods items) as [ps|]; [|done]. intros [= <-].
    constructor; [by apply parse_spec|by apply IH].
  - intros (p & ps & Hp & Hps & ->)%Forall2_cons_inv_l. apply parse_spec in Hp as ->. apply IH in Hps as Hps'. rewrite Hps'. done.
Qed.

(** *** Checks *)
Lemma redundant_ids_spec ms : forall ids, redundant_ids ids ms = Ok tt <->
  NoDup (pm_id <$> ms) /\ forall m, m ∈ ms -> pm_id m ∉ ids.
Proof.
  induction ms as [|m ms IH]; intros ids; cbn [redundant_ids].
  { split; [|done]. intros _. split; [constructor|by intros m ?%not_elem_of_nil]. }
  csimpl. rewrite NoDup_cons. case_bool_decide as Hin.
  - split; [done|]. intros [_ Hnot]. destruct (Hnot m); [by left|done].
  - rewrite IH. split.
    + intros [Hnd Hnot]. split_and!; [|done|].
      * intros (m' & Heq & Hm')%list_elem_of_fmap. apply (Hnot m' Hm'). rewrite <- Heq. set_solver.
      * intros m' [->|Hm']%elem_of_cons; [done|]. specialize (Hnot m' Hm'). set_solver.
    + intros [[Hm Hnd] Hnot]. split; [done|]. intros m' Hm' [Hids|Heq%list_elem_of_singleton]%elem_of_app; [by apply (Hnot m'); [right|]|].
      apply Hm. rewrite <- Heq. by apply list_elem_of_fmap_2.
Qed.
Lemma refs_mixed inputs : existsb (fun b => b) (omap arg_ref inputs) && (1 <? length (omap arg_ref inputs))%nat = true <-> mixed_refs inputs.
Proof.
  rewrite andb_true_iff, existsb_exists, Nat.ltb_lt. split.
  - intros [(b & Hb%list_elem_of_In & ->) Hlen]. apply list_elem_of_omap in Hb as (a & Ha & Hr).
    destruct a as [|pat [|mu ty]]; try done. injection Hr as ->. apply list_elem_of_split in Ha as (l1 & l2 & ->).
    exists l1, l2, pat, ty. split; [done|]. rewrite omap_app in Hlen. csimpl in *. rewrite length_app in Hlen. simpl in Hlen.
    rewrite Nat.add_succ_r, <- length_app, <- omap_app in Hlen.
    destruct (omap arg_ref (l1 ++ l2)) as [|b r] eqn:Hl; [simpl in Hlen; lia|].
    assert (Hb : b ∈ omap arg_ref (l1 ++ l2)) by (rewrite Hl; left). apply list_elem_of_omap in Hb as ([|pat' [|mu' ty']] & Ha & Hr); try done. eauto.
  - intros (l1 & l2 & pat & ty & -> & pat' & mu & ty' & Ha).
    assert (Hmu : mu ∈ omap arg_ref l1 ++ omap arg_ref l2) by (rewrite <- omap_app; apply list_elem_of_omap; by eexists).
    rewrite omap_app. csimpl. split.
    + exists true. split; [|done]. apply list_elem_of_In. set_solver.
    + rewrite length_app. simpl. rewrite Nat.add_succ_r, <- length_app. destruct (omap arg_ref l1 ++ omap arg_ref l2); [set_solver|simpl; lia].
Qed.
Lemma args_multi_ref_spec ms : args_multi_ref ms = Ok tt <-> forall p, p ∈ ms -> ~ mixed_refs (tm_inputs (pm_method p)).
Proof.
  induction ms as [|m ms IH]; cbn [args_multi_ref]; [split; [by intros _ m ?%not_elem_of_nil|done]|].
  pose proof (refs_mixed (tm_inputs (pm_method m))) as Hmix. fold (multi_ref m) in Hmix. destruct (multi_ref m).
  - split; [done|]. intros Hall. destruct (Hall m); [left|tauto].
  - rewrite IH. split.
    + intros Hall p [->|Hp]%elem_of_cons; [|by apply Hall]. intros Hx%Hmix. done.
    + intros Hall p Hp. apply Hall. by right.
Qed.

(** *** The patched trait *)
Lemma patch_method_spec m m' : patched m m' <-> m' = patch_method m.
Proof.
  assert (Hf : filter (fun a => is_ocall a = false) (tm_attrs m) = filter (fun a => attr_path a <> Some "ocall") (tm_attrs m)).
  { apply list_filter_iff. intros a. unfold is_ocall. apply bool_decide_eq_false. }
  split.
  - destruct m' as [attrs ident inputs output]. intros [Ha Hi Ho Hin]. simpl in *. subst. unfold patch_method. rewrite Hf. f_equal.
    destruct Hin as [[-> Hh]|[-> Hh]]; destruct (tm_inputs m) as [|[|] l]; simpl in Hh; done.
  - intros ->. split; simpl; try done. destruct (tm_inputs m) as [|[|] l]; [right|left|right]; done.
Qed.
Lemma patch_trait_spec items t : Forall2 patched_item items t <-> t = patch_ocall_trait items.
Proof.
  unfold patch_ocall_trait. revert t. induction items as [|i items IH]; intros t; csimpl.
  { split; [by intros ->%Forall2_nil_inv_l|by intros ->]. }
  split.
  - intros (i' & t' & Hi & Ht%IH & ->)%Forall2_cons_inv_l. subst. f_equal. destruct i as [m|], i' as [m'|]; try done.
    f_equal. by apply patch_method_spec.
  - intros ->. constructor; [|by apply IH]. destruct i as [m|]; [|done]. by apply patch_method_spec.
Qed.
(** The macro accepts exactly these traits, and expands them so. *)
Lemma patch_or_err_spec items e : patch_or_err items = Ok e <-> accepted items e.
Proof.
  unfold patch_or_err. split.
  - destruct (parse_methods items) as [ms|] eqn:Hp; [|done]. cbn [mbind result_bind].
    destruct (redundant_ids [] ms) as [[]|] eqn:Hr; [|done]. cbn [mbind result_bind].
    destruct (args_multi_ref ms) as [[]|] eqn:Hm; [|done]. intros [= <-].
    apply parse_methods_spec in Hp. split; simpl; [done|by apply redundant_ids_spec in Hr as [? _]| |by apply patch_trait_spec].
    intros m Hin. destruct (Forall2_member_l _ _ _ _ Hp Hin) as (p & Hpm & Hps). destruct Hpm as [<- _ _ _].
    by apply (proj1 (args_multi_ref_spec ms) Hm).
  - destruct e as [t ms]. intros [Hp Hid Hrefs Ht]. simpl in *. apply parse_methods_spec in Hp as Hp'. rewrite Hp'. cbn [mbind result_bind].
    rewrite (proj2 (redundant_ids_spec ms [])) by (split; [done|set_solver]). cbn [mbind result_bind].
    rewrite (proj2 (args_multi_ref_spec ms)).
    + apply patch_trait_spec in Ht as ->. done.
    + intros p Hin. destruct (Forall2_member_r _ _ _ _ Hp Hin) as (m & Hpm & Hms). destruct Hpm as [-> _ _ _]. by apply Hrefs.
Qed.
Lemma id2name_unique e m : NoDup (pm_id <$> ex_methods e) -> m ∈ ex_methods e -> pm_id m <> 0 ->
  expansion_id2name e (pm_id m) = tm_ident (pm_method m).
Proof.
  intros Hnd Hm H0. unfold expansion_id2name. destruct (Z.eqb_spec (pm_id m) 0); [done|].
  destruct (list_find _ _) as [[i m']|] eqn:Hf.
  - apply list_find_Some in Hf as (Hi & Heq & _). apply list_elem_of_lookup in Hm as [j Hj].
    assert (i = j) as ->; [|by simplify_eq].
    eapply NoDup_lookup; [exact Hnd| |]; rewrite list_lookup_fmap; [by rewrite Hi|by rewrite Hj, Heq].
  - apply list_find_None in Hf. rewrite Forall_forall in Hf. by destruct (Hf m Hm).
Qed.
Lemma attributed_id attrs id eo ei : attributed attrs id eo ei -> 100 <= id <= int_max I32.
Proof.
  intros [_ Hi Hid _ _]. apply last_Some_elem_of, list_elem_of_omap in Hid as (n & Hn & Hv).
  rewrite Forall_forall in Hi. destruct (Hi n Hn) as [v Hb| |]; simpl in Hv; [by injection Hv as ->|done..].
Qed.

(** ** The trait of the program (wapo-env/src/ocall_def.rs) *)
Definition val (name ty : string) : FnArg := Typed (Some name) (TyPath ty).
Definition shared_ref (name ty : string) : FnArg := Typed (Some name) (TyReference false ty).
Definition mut_ref (name ty : string) : FnArg := Typed (Some name) (TyReference true ty).
(** A method with its documentation and its attribute. *)
Definition trait_fn (id : Z) (encode : list string) (name : string) (inputs : list FnArg) (output : string) : TraitItem :=
  ItemMethod (MkTraitMethod
    [MkAttr (Some "doc") MetaOther;
     MkAttr (Some "ocall") (MetaList (MetaNameValue (Some "id") (LitInt id) :: ((fun e => MetaPath (Some e)) <$> encode)))]
    name inputs output).
Definition OcallFuncs_trait : list TraitItem := [
  trait_fn 101 [] "close" [val "resource_id" "i32"] "Result<()>";
  trait_fn 102 ["encode_output"] "poll" [val "waker_id" "i32"; val "resource_id" "i32"] "Result<Vec<u8>>";
  trait_fn 103 [] "poll_read" [val "waker_id" "i32"; val "resource_id" "i32"; mut_ref "data" "[u8]"] "Result<u32>";
  trait_fn 104 [] "poll_write" [val "waker_id" "i32"; val "resource_id" "i32"; shared_ref "data" "[u8]"] "Result<u32>";
  trait_fn 105 [] "poll_shutdown" [val "waker_id" "i32"; val "resource_id" "i32"] "Result<()>";
  trait_fn 106 [] "poll_res" [val "waker_id" "i32"; val "resource_id" "i32"] "Result<i32>";
  trait_fn 109 [] "mark_task_ready" [val "task_id" "i32"] "Result<()>";
  trait_fn 110 [] "next_ready_task" [] "Result<i32>";
  trait_fn 111 [] "enable_ocall_trace" [val "enable" "bool"] "Result<()>";
  trait_fn 112 ["encode_output"] "awake_wakers" [] "Result<Vec<i32>>";
  trait_fn 113 [] "getrandom" [mut_ref "buf" "[u8]"] "Result<()>";
  trait_fn 201 [] "create_timer" [val "timeout" "i32"] "Result<i32>";
  trait_fn 203 [] "reset_timer" [val "id" "i32"; val "timeout" "i32"] "Result<()>";
  trait_fn 202 [] "oneshot_send" [val "resource_id" "i32"; shared_ref "data" "[u8]"] "Result<()>";
  trait_fn 204 [] "oneshot_send_error" [val "resource_id" "i32"; shared_ref "error" "str"] "Result<()>";
  trait_fn 210 ["encode_input"] "tcp_listen" [val "addr" "Cow<str>"; val "tls_config" "Option<TlsServerConfig>"] "Result<i32>";
  trait_fn 211 ["encode_output"] "tcp_accept" [val "waker_id" "i32"; val "resource_id" "i32"] "Result<(i32, String)>";
  trait_fn 212 [] "tcp_accept_no_addr" [val "waker_id" "i32"; val "resource_id" "i32"] "Result<i32>";
  trait_fn 213 [] "tcp_connect" [shared_ref "host" "str"; val "port" "u16"] "Result<i32>";
  trait_fn 214 ["encode_input"] "tcp_connect_tls" [val "host" "String"; val "port" "u16"; val "config" "TlsClientConfig"] "Result<i32>";
  trait_fn 215 ["encode_input"] "tls_listen_sni" [val "sni" "Cow<str>"; val "config" "TlsServerConfig"] "Result<i32>";
  trait_fn 220 [] "log" [val "level" "log::Level"; shared_ref "message" "str"] "Result<()>";
  trait_fn 240 ["encode_output"] "create_input_channel" [val "ch" "InputChannel"] "Result<i32>";
  trait_fn 242 ["encode_output"] "app_address" [] "Result<[u8; 32]>";
  trait_fn 243 [] "emit_program_output" [shared_ref "output" "[u8]"] "Result<()>";
  trait_fn 244 ["encode_output"] "blob_get" [shared_ref "hash" "str"] "Result<Vec<u8>>";
  trait_fn 250 ["encode_output"] "sign" [shared_ref "data" "[u8]"] "Result<Vec<u8>>";
  trait_fn 251 ["encode_output"] "worker_pubkey" [] "Result<[u8; 32]>";
  trait_fn 252 ["encode_output"] "sgx_quote" [shared_ref "data" "[u8]"] "Result<Option<Vec<u8>>>";
  trait_fn 253 [] "tip" [val "value" "u64"] "Result<()>";
  trait_fn 254 ["encode_output"] "app_gas_consumed" [] "Result<(u64, MetricsToken)>";
  trait_fn 255 ["encode_output"] "derive_secret" [shared_ref "path" "[u8]"] "Result<[u8; 64]>";
  trait_fn 260 ["encode_output"] "read_boot_data" [] "Result<Option<Vec<u8>>>";
  trait_fn 261 ["encode_output"] "write_boot_data" [shared_ref "data" "[u8]"] "Result<()>";
  trait_fn 262 [] "app_try_lock" [shared_ref "path" "str"] "Result<()>";
  trait_fn 263 [] "app_unlock" [shared_ref "path" "str"] "Result<()>"].

(** What the types mean: the arguments and results of the table's methods. *)
Section Elaborate.
Context {Mem Env : Type} `{GuestMemory Mem, OcallEnv Env, F : OcallFuncs (Env * Mem)}.
Context `{OcallCodecs}.

Definition arg_types : list (SynType * arg_type Mem) :=
  [(TyPath "i32", a_i32); (TyPath "u16", a_u16); (TyPath "u64", a_u64); (TyPath "bool", a_conv bool);
   (TyPath "log::Level", a_conv Level); (TyPath "InputChannel", a_conv InputChannel);
   (TyReference false "str", a_str); (TyReference false "[u8]", a_bytes); (TyReference true "[u8]", a_bytes_mut)].
Definition fast_outputs : list (string * output_spec) :=
  [("Result<()>", o_conv unit); ("Result<i32>", o_conv (int I32)); ("Result<u32>", o_conv (int U32))].
Definition encoded_outputs : list (string * output_spec) :=
  [("Result<()>", o_enc unit); ("Result<i32>", o_enc (int I32)); ("Result<Vec<u8>>", o_enc bytes);
   ("Result<Vec<i32>>", o_enc (list (int I32))); ("Result<(i32, String)>", o_enc (int I32 * str));
   ("Result<[u8; 32]>", o_enc (array 32)); ("Result<[u8; 64]>", o_enc (array 64));
   ("Result<Option<Vec<u8>>>", o_enc (option bytes)); ("Result<(u64, MetricsToken)>", o_enc (int U64 * MetricsToken))].
Definition encoded_inputs : list (list SynType * input_spec) :=
  [([TyPath "Cow<str>"; TyPath "Option<TlsServerConfig>"], InEncoded (Mem := Mem) (str * option TlsServerConfig) _);
   ([TyPath "String"; TyPath "u16"; TyPath "TlsClientConfig"], InEncoded (str * int U16 * TlsClientConfig) _);
   ([TyPath "Cow<str>"; TyPath "TlsServerConfig"], InEncoded (str * TlsServerConfig) _)].
#[export] Instance SynType_eq_dec : EqDecision SynType.
Proof. solve_decision. Defined.
Definition assoc {K A} `{EqDecision K} (k : K) (l : list (K * A)) : option A := snd <$> find (fun e => bool_decide (e.1 = k)) l.
Definition input_types (m : ParsedMethod) : list SynType :=
  omap (fun a => match a with Typed _ ty => Some ty | Receiver => None end) (stub_inputs m).
Definition elaborate (m : ParsedMethod) : option (Z * string * input_spec * output_spec) :=
  input ← (if pm_encode_input m then assoc (input_types m) encoded_inputs
           else InStack <$> mapM (fun t => assoc t arg_types) (input_types m));
  output ← assoc (tm_output (pm_method m)) (if pm_encode_output m then encoded_outputs else fast_outputs);
  Some (pm_id m, tm_ident (pm_method m), input, output).

Lemma OcallFuncs_expands : exists e, patch_or_err OcallFuncs_trait = Ok e /\
  elaborate <$> ex_methods e = (fun m => Some (om_id m, om_name m, om_input m, om_output m)) <$> ocall_table.
Proof. eexists. split; [vm_compute; reflexivity|]. reflexivity. Qed.

(** C39: the macro and the table.  The macro accepts exactly the traits that are well
    formed, and expands them as specified ([accepted]): every method has ocall attributes that
    are lists of an id and flags and nothing else, with an id from 100 (which its error
    message denies) to the largest [i32], no two the same; arguments have
    names; no method has a mutable reference beside another reference.  In the patched
    trait a method lost its ocall attributes, kept all other attributes, its
    name, arguments and result, and has the receiver once, in front if it was added.
    An id is named after its method.  The trait of the program is
    accepted, and its methods have the ids, names, argument and result types
    and encodings of the table that dispatcher and stubs are proved about; the
    arguments of each fit the four words of an ocall. *)
Theorem ocall_macro_expands items :
  (forall e, patch_or_err items = Ok e <-> accepted items e) /\
  (forall e m, patch_or_err items = Ok e -> m ∈ ex_methods e ->
     100 <= pm_id m <= int_max I32 /\ expansion_id2name e (pm_id m) = tm_ident (pm_method m)) /\
  exists e0, patch_or_err OcallFuncs_trait = Ok e0 /\
    elaborate <$> ex_methods e0 = (fun m => Some (om_id m, om_name m, om_input m, om_output m)) <$> ocall_table /\
    forallb check_n_args ocall_table = true.
Proof.
  split; [intros e; apply patch_or_err_spec|]. split.
  - intros e p [Hp Hnd _ _]%patch_or_err_spec Hin. destruct (Forall2_member_r _ _ _ _ Hp Hin) as (m & [_ Hat _ _] & _).
    apply attributed_id in Hat. split; [done|]. apply id2name_unique; [done|done|lia].
  - destruct OcallFuncs_expands as (e0 & He & Ht). exists e0. split_and!; [done|done|vm_compute; reflexivity].
Qed.
End Elaborate.

(** Accepted and refused traits. *)
#[local] Existing Instances toy_tokio toy_host toy_digest toy_aead toy_codecs toy_query_codec toy_http_codec.
Lemma ocall_macro_expands_witness :
  exists e, patch_or_err [trait_fn 100 ["encode_output"] "f" [val "x" "i32"] "Result<()>"; ItemOther] = Ok e /\
    accepted [trait_fn 100 ["encode_output"] "f" [val "x" "i32"] "Result<()>"; ItemOther] e.
Proof.
  eexists. split; [vm_compute; reflexivity|].
  apply (proj1 (ocall_macro_expands (Mem := bytes) (Env := WapoCtx nat unit) (F := ctx_ocall_funcs 1) _)).
  vm_compute. reflexivity.
Defined.
Example refused_traits :
  patch_or_err <$> [[trait_fn 99 [] "f" [] ""]; [trait_fn 100 [] "f" [] ""; trait_fn 100 [] "g" [] ""];
    [trait_fn 100 ["fast"] "f" [] ""]; [trait_fn 100 [] "f" [mut_ref "a" "[u8]"; shared_ref "b" "str"] ""];
    [ItemMethod (MkTraitMethod [MkAttr (Some "doc") MetaOther] "f" [] "")]] =
  [Err "Id must greater than 100"; Err "Duplicate ocall id"; Err "Unknown attribute";
   Err "Only one &mut ref argument is allowed"; Err "Missing ocall id attribute"].
Proof. reflexivity. Qed.
