(* ===== verification/Linker.v ===== *)
(** * Imports of a guest (wapo-host/src/runtime/vm_context.rs: the linker, do_ocall, the count of contexts)

    The functions that a wasm module can import, under their present and their former
    names, what a call of one does, and the number of contexts alive. *)
From S2P Require Import Prelude OcallError ArgsStack Ocall OcallDef Meter Resource HostTasks Blobs VmContext VmFacts.

(** ** The linker *)

(** The names that are defined, with the function behind each: [ocall] with or without
    a fast return, or a function of WASI. *)
Inductive import_fn : Type := OcallFn (fast_return : bool) | WasiFn (index : nat).
Abbreviation linker := (list (string * string * import_fn)).
Definition import_of (l : linker) (module name : string) : option import_fn :=
  snd <$> find (fun e => bool_decide (e.1 = (module, name))) l.
(** [Linker::func_wrap]: a name is defined once. *)
Definition func_wrap (module name : string) (f : import_fn) (l : linker) : result anyhow linker :=
  if bool_decide (is_Some (import_of l module name)) then Err (Msg "import defined twice") else Ok (l ++ [(module, name, f)]).
Definition add_wapo_ocalls_to_linker (l : linker) : result anyhow linker :=
  l ← context "failed to add wapo.ocall_fast_return to linker" (func_wrap "wapo" "ocall_fast_return" (OcallFn true) l);
  context "failed to add wapo.ocall to linker" (func_wrap "wapo" "ocall" (OcallFn false) l).
Definition add_sidevm_ocalls_to_linker (l : linker) : result anyhow linker :=
  l ← context "failed to add env.sidevm_ocall_fast_return to linker"
        (func_wrap "env" "sidevm_ocall_fast_return" (OcallFn true) l);
  context "failed to add env.sidevm_ocall to linker" (func_wrap "env" "sidevm_ocall" (OcallFn false) l).
Definition add_ocalls_to_linker (l : linker) : result anyhow linker :=
  l ← add_wapo_ocalls_to_linker l;
  add_sidevm_ocalls_to_linker l.

(** ** A call *)

(** What the guest exports under the name "memory". *)
Inductive Extern (Mem : Type) : Type := ExternMemory (m : Mem) | ExternSharedMemory (m : Mem) | ExternOther.
Arguments ExternMemory {Mem} _.
Arguments ExternSharedMemory {Mem} _.
Arguments ExternOther {Mem}.

Section Calls.
Context {Mem Env : Type} `{GuestMemory Mem, OcallEnv Env}.

(** [do_ocall], on the export and the context of the caller; the value is what the
    guest gets, an error is a trap.  The table's methods run with [task_id] as
    the current task. *)
Definition do_ocall (table : Z -> list (OcallMethod Mem Env)) (task_id func_id p0 p1 p2 p3 : Z) (fast_return : bool)
  (export : option (Extern Mem)) (env : Env) : result OcallError Z * option (Extern Mem) * Env :=
  let call mem := host_ocall (table task_id) fast_return func_id p0 p1 p2 p3 (env, mem) in
  match export with
  | Some (ExternMemory mem) => let '(r, (env, mem)) := call mem in (Ok r, Some (ExternMemory mem), env)
  | Some (ExternSharedMemory mem) => let '(r, (env, mem)) := call mem in (Ok r, Some (ExternSharedMemory mem), env)
  | _ => (Err NoMemory, export, env)
  end.
(** A call through an import of the linker, if it is an ocall. *)
Definition call_import (l : linker) (table : Z -> list (OcallMethod Mem Env)) (module name : string)
  (task_id func_id p0 p1 p2 p3 : Z) (export : option (Extern Mem)) (env : Env)
  : option (result OcallError Z * option (Extern Mem) * Env) :=
  match import_of l module name with
  | Some (OcallFn fast) => Some (do_ocall table task_id func_id p0 p1 p2 p3 fast export env)
  | _ => None
  end.
End Calls.

(** ** The count of contexts *)

(** [vm_counter]: contexts are counted when made and when dropped. *)
Definition counter_new (n : Z) : Z := fetch_add n 1.
Definition counter_drop (n : Z) : Z := wrap U64 (n - 1).
Inductive count_op : Type := MakeCtx | DropCtx.
(** The counter and the contexts alive; a context is dropped once. *)
Definition count_step (s : Z * nat) (op : count_op) : Z * nat :=
  match op, s.2 with
  | MakeCtx, n => (counter_new s.1, S n)
  | DropCtx, O => s
  | DropCtx, S n => (counter_drop s.1, n)
  end.

(** ** Facts *)

(** The four names can be defined on a linker that has none of them, and each leads to
    its function. *)
Lemma ocalls_linked l : (forall n, import_of l "wapo" n = None) -> (forall n, import_of l "env" n = None) ->
  exists l', add_ocalls_to_linker l = Ok l' /\
    import_of l' "wapo" "ocall" = Some (OcallFn false) /\ import_of l' "wapo" "ocall_fast_return" = Some (OcallFn true) /\
    import_of l' "env" "sidevm_ocall" = Some (OcallFn false) /\
    import_of l' "env" "sidevm_ocall_fast_return" = Some (OcallFn true) /\
    (forall m n f, import_of l m n = Some f -> import_of l' m n = Some f).
Proof.
  intros Hw He.
  assert (Hadd : forall (l1 : linker) m n f, import_of l1 m n = None -> func_wrap m n f l1 = Ok (l1 ++ [(m, n, f)])).
  { intros l1 m n f Hn. unfold func_wrap. by rewrite Hn, bool_decide_false by by intros []. }
  assert (Hlook : forall (l1 l2 : linker) m n, import_of (l1 ++ l2) m n =
    match import_of l1 m n with Some f => Some f | None => import_of l2 m n end).
  { intros l1 l2 m n. unfold import_of. induction l1 as [|e l1 IH]; [done|]. simpl. by case_bool_decide. }
  unfold add_ocalls_to_linker, add_wapo_ocalls_to_linker, add_sidevm_ocalls_to_linker.
  rewrite Hadd by apply Hw. set (l1 := l ++ _). change (context _ (Ok l1)) with (Ok (E := anyhow) l1).
  cbn [mbind result_bind]. rewrite Hadd by (unfold l1; by rewrite Hlook, Hw). set (l2 := l1 ++ _).
  change (context _ (Ok l2)) with (Ok (E := anyhow) l2). cbn [mbind result_bind].
  rewrite Hadd by (unfold l2, l1; by rewrite !Hlook, He). set (l3 := l2 ++ _).
  change (context _ (Ok l3)) with (Ok (E := anyhow) l3). cbn [mbind result_bind].
  rewrite Hadd by (unfold l3, l2, l1; by rewrite !Hlook, He). unfold l3, l2, l1.
  eexists. split; [done|]. rewrite !Hlook, !Hw, !He. split_and!; try done.
  intros m n f Hf. by rewrite !Hlook, Hf.
Qed.

Section Facts.
Context {Mem Env : Type} `{GuestMemory Mem, OcallEnv Env}.

(** A call through a former name is the call through the present one. *)
Lemma legacy_names (l l' : linker) table tid fid p0 p1 p2 p3 export (env : Env) :
  (forall n, import_of l "wapo" n = None) -> (forall n, import_of l "env" n = None) -> add_ocalls_to_linker l = Ok l' ->
  call_import (Mem := Mem) l' table "env" "sidevm_ocall" tid fid p0 p1 p2 p3 export env =
    call_import l' table "wapo" "ocall" tid fid p0 p1 p2 p3 export env /\
  call_import (Mem := Mem) l' table "env" "sidevm_ocall_fast_return" tid fid p0 p1 p2 p3 export env =
    call_import l' table "wapo" "ocall_fast_return" tid fid p0 p1 p2 p3 export env.
Proof.
  intros Hw He Hl. destruct (ocalls_linked l Hw He) as (l1 & Hl1 & H1 & H2 & H3 & H4 & _).
  rewrite Hl in Hl1. injection Hl1 as <-. unfold call_import. by rewrite H1, H2, H3, H4.
Qed.
(** Without a memory nothing happens but the trap. *)
Lemma no_memory_traps table tid fid p0 p1 p2 p3 fast (export : option (Extern Mem)) (env : Env) :
  (do_ocall table tid fid p0 p1 p2 p3 fast export env).1.1 = Err NoMemory <->
  export = None \/ export = Some ExternOther.
Proof.
  unfold do_ocall. destruct export as [[m|m|]|]; simpl; try (destruct (host_ocall _ _ _ _ _ _ _ _) as [r [e m']]; simpl).
  all: split; [intros [=]|intros [[=]|[=]]]; auto.
Qed.
End Facts.

(** The counter is the number of contexts alive, as long as that fits. *)
Lemma vm_count_exact ops : Z.of_nat (length ops) <= int_max U64 ->
  let s := foldl count_step (0, 0%nat) ops in s.1 = Z.of_nat s.2.
Proof.
  intros Hfit.
  assert (Hgo : forall n, Z.of_nat n + Z.of_nat (length ops) <= int_max U64 ->
    let s := foldl count_step (Z.of_nat n, n) ops in s.1 = Z.of_nat s.2); [|by apply (Hgo 0%nat)].
  clear. induction ops as [|op ops IH]; intros n Hn; [done|]. cbn [length foldl] in *.
  assert (Hs : exists m, count_step (Z.of_nat n, n) op = (Z.of_nat m, m) /\ (m <= S n)%nat).
  { destruct op; unfold count_step; cbn [fst snd].
    - exists (S n). split; [|lia]. f_equal. unfold counter_new, fetch_add. rewrite wrap_id; [lia|]. const_bounds. range_solve.
    - destruct n as [|n]; [exists 0%nat; split; [done|lia]|]. exists n. split; [|lia]. f_equal.
      unfold counter_drop. rewrite wrap_id; [lia|]. const_bounds. range_solve. }
  destruct Hs as (m & -> & Hm). apply IH. lia.
Qed.
