(* ===== verification/GuestLib.v ===== *)
(** * The guest library (crate wapo: net.rs, channel.rs, time.rs, res_id.rs)

    Futures that apps await, on top of the ocalls.  An ocall acts on the host's
    context of the instance, as the theorems on calls justify; the guest's own
    state is its table of wakers.  A panic is an error of the guest's monad. *)
From S2P Require Import Prelude OcallError ArgsStack Ocall OcallDef Meter Resource HostTasks GuestTasks Blobs VmContext VmFacts.

Section Guest.
Context {W R Wk : Type} `{Tokio W, !Host W, RuntimeCalls R, Digest, Aead}.
Context `{!ScaleCodec QueryRequest, !ScaleCodec HttpRequest}.
Abbreviation ctx := (WapoCtx W R).
Abbreviation GuestM := (M (WakerTable Wk * ctx) string).

Definition ocall {A} (m : M ctx OcallError A) : GuestM (result OcallError A) := fun s =>
  let '(r, c) := m s.2 in (Ok r, (s.1, c)).
(** [tasks::intern_waker], which panics when the table is full. *)
Definition intern (wk : Wk) : GuestM (int I32) := fun s =>
  match intern_waker wk s.1 with
  | Some (id, t) => (Ok (Int id), (t, s.2))
  | None => (Err "too many wakers", s)
  end.
Definition expect {E A} (msg : string) (r : result E A) : GuestM A :=
  match r with Ok a => mret a | Err _ => throw msg end.

(** ** Resources (res_id.rs) *)

(** [Drop for ResourceId]. *)
Definition drop_resource (rid : int I32) : GuestM unit := ocall (close rid);; mret tt.

(** [err as i32] in [io::Error::from_raw_os_error]. *)
Definition into_poll {A} (res : result OcallError A) : Resource.poll (result Z A) :=
  match res with
  | Ok v => PReady (Ok v)
  | Err Pending => PPending
  | Err e => PReady (Err (OcallError_code e))
  end.
(** The same with the ocall's own error. *)
Definition ready_unless_pending {A} (res : result OcallError A) : Resource.poll (result OcallError A) :=
  match res with Err Pending => PPending | r => PReady r end.

(** ** Sockets (net.rs, net/sni_listener.rs) *)
Definition poll_tcp_accept (rid : int I32) (wk : Wk) : GuestM (Resource.poll (result OcallError (int I32 * Z))) :=
  waker_id ← intern wk;
  r ← ocall (tcp_accept waker_id rid);
  match r with
  | Ok (stream, remote_addr) =>
    port ← expect "ocall::tcp_accept returned an invalid remote address"
      (ok_or (parse_socket_addr remote_addr) tt);
    mret (PReady (Ok (stream, port)))
  | Err Pending => mret PPending
  | Err err => mret (PReady (Err err))
  end.
(** [Accept for TcpListener] of hyper 0.14: the end of the stream is [None]. *)
Definition hyper_poll_accept (rid : int I32) (wk : Wk) : GuestM (Resource.poll (option (result OcallError (int I32)))) :=
  r ← poll_tcp_accept rid wk;
  mret (match r with
        | PReady (Ok (conn, _)) => PReady (Some (Ok conn))
        | PReady (Err EndOfFile) => PReady None
        | PReady (Err err) => PReady (Some (Err err))
        | PPending => PPending
        end).

Definition listener_bind (addr : str) : GuestM (result OcallError (int I32)) := ocall (tcp_listen addr None).
Definition listener_bind_tls (addr : str) (cfg : TlsServerConfig) : GuestM (result OcallError (int I32)) :=
  ocall (tcp_listen addr (Some cfg)).
Definition sni_listener_bind (sni : str) (cfg : TlsServerConfig) : GuestM (result OcallError (int I32)) :=
  ocall (tls_listen_sni sni cfg).

(** A [TcpConnector] is the outcome of the call that starts the connection. *)
Definition stream_connect (host : str) (port : int U16) (enable_tls : bool) : GuestM (result OcallError (int I32)) :=
  if enable_tls then ocall (tcp_connect_tls host port TlsClientV0) else ocall (tcp_connect host port).
Definition poll_connector (res : result OcallError (int I32)) (wk : Wk)
  : GuestM (Resource.poll (result OcallError (int I32))) :=
  match res with
  | Err err => mret (PReady (Err err))
  | Ok rid =>
    waker_id ← intern wk;
    r ← ocall (poll_res waker_id rid);
    mret (ready_unless_pending r)
  end.

(** [trim_matches] for the brackets of an IPv6 address. *)
Fixpoint trim_brackets (s : bytes) : bytes :=
  match s with
  | c :: rest => if (c =? 91) || (c =? 93) then trim_brackets rest else s
  | [] => []
  end.
Definition trim_matches_brackets (s : bytes) : bytes := rev (trim_brackets (rev (trim_brackets s))).
Definition connect_with_components (scheme host : option bytes) (port : option (int U16))
  : GuestM (result OcallError (int I32)) :=
  let is_https := bool_decide (scheme = Some (lit "https")) in
  let default_port := if is_https then Int 443 else Int 80 in
  stream_connect (Str (trim_matches_brackets (default [] host))) (default default_port port) is_https.

(** tokio's [ReadBuf]: the bytes filled and the capacity. *)
Record ReadBuf : Type := MkBuf { filled : bytes; capacity : Z }.
Definition remaining (b : ReadBuf) : Z := capacity b - zlen (filled b).
Definition tokio_poll_read (fuel : nat) (rid : int I32) (wk : Wk) (buf : ReadBuf)
  : GuestM (Resource.poll (result Z unit) * ReadBuf) :=
  waker_id ← intern wk;
  r ← ocall (poll_read fuel waker_id rid (remaining buf));
  match r with
  | Ok data =>
    if remaining buf <? zlen data then mret (PReady (Err (OcallError_code InvalidEncoding)), buf)
    else mret (PReady (Ok tt), MkBuf (filled buf ++ data) (capacity buf))
  | Err Pending => mret (PPending, buf)
  | Err err => mret (PReady (Err (OcallError_code err)), buf)
  end.
(** [AsyncRead] of the futures crate: the data read, at most as long as the buffer. *)
Definition futures_poll_read (fuel : nat) (rid : int I32) (wk : Wk) (len : Z) : GuestM (Resource.poll (result Z bytes)) :=
  waker_id ← intern wk;
  r ← ocall (poll_read fuel waker_id rid len);
  mret (into_poll r).
Definition stream_poll_write (fuel : nat) (rid : int I32) (wk : Wk) (buf : bytes) : GuestM (Resource.poll (result Z (int U32))) :=
  waker_id ← intern wk;
  r ← ocall (poll_write fuel waker_id rid buf);
  mret (into_poll r).
Definition stream_poll_flush : GuestM (Resource.poll (result Z unit)) := mret (PReady (Ok tt)).
Definition stream_poll_close (rid : int I32) (wk : Wk) : GuestM (Resource.poll (result Z unit)) :=
  waker_id ← intern wk;
  r ← ocall (poll_shutdown waker_id rid);
  mret (into_poll r).

(** ** Timers (time.rs); a [Duration] is in nanoseconds *)
Definition as_millis (d : Z) : Z := d `div` 1000000.
Definition time_sleep (d : Z) : GuestM (int I32) :=
  r ← ocall (create_timer (Int (wrap I32 (as_millis d))));
  expect "failed to create timer" r.
Definition since (instant now : Z) : Z := if now <=? instant then instant - now else 0.
Definition time_sleep_until (now instant : Z) : GuestM (int I32) := time_sleep (since instant now).
Definition sleep_reset (rid : int I32) (now instant : Z) : GuestM unit :=
  r ← ocall (reset_timer rid (Int (wrap I32 (as_millis (since instant now)))));
  expect "failed to reset timer" r.
Definition sleep_poll (fuel : nat) (rid : int I32) (wk : Wk) : GuestM (Resource.poll unit) :=
  waker_id ← intern wk;
  r ← ocall (poll_read fuel waker_id rid 0);
  match r with
  | Ok _ => mret (PReady tt)
  | Err Pending => mret PPending
  | Err _ => throw "unexpected error"
  end.
(** A poll of [timeout]: the future and the sleep, in the order that [select!] happens
    to choose; once the first is ready the other is not polled. *)
Inductive TimedOut : Type := Elapsed.
Definition timeout_poll {A} (fuel : nat) (future_first : bool) (future : GuestM (Resource.poll A)) (sleep : int I32) (wk : Wk)
  : GuestM (Resource.poll (result TimedOut A)) :=
  let on_future (pending : GuestM (Resource.poll (result TimedOut A))) :=
    r ← future; match r with PReady v => mret (PReady (Ok v)) | PPending => pending end in
  let on_sleep (pending : GuestM (Resource.poll (result TimedOut A))) :=
    r ← sleep_poll fuel sleep wk; match r with PReady _ => mret (PReady (Err Elapsed)) | PPending => pending end in
  if future_first then on_future (on_sleep (mret PPending)) else on_sleep (on_future (mret PPending)).
(** [breath]: a future that is pending once. *)
Definition breath : bool := true.
(** [Breath]: the poll result and the new flag; the first poll wakes the task. *)
Definition breath_poll (pending : bool) : Resource.poll unit * bool := if pending then (PPending, false) else (PReady tt, false).

(** ** Requests (channel.rs) *)
Record Query : Type := MkQ { q_origin : option (array 32); q_path : str; q_payload : bytes; q_reply_tx : int I32 }.
Record HttpIncoming : Type := MkH { h_head : HttpHead; h_io_stream : int I32; h_response_tx : int I32 }.

(** Receiving a message from the channel with id [rid]. *)
Definition next_message {A} (decode : bytes -> option A) (msg : string) (rid : int I32) (wk : Wk)
  : GuestM (Resource.poll (option A)) :=
  waker_id ← intern wk;
  r ← ocall (VmContext.poll waker_id rid);
  match r with
  | Ok data => a ← expect msg (ok_or (decode data) tt); mret (PReady (Some a))
  | Err EndOfFile => mret (PReady None)
  | Err Pending => mret PPending
  | Err _ => throw "unexpected error"
  end.
Definition next_query : int I32 -> Wk -> GuestM (Resource.poll (option Query)) :=
  next_message (fun data => (fun r => MkQ (qr_origin r) (qr_path r) (qr_payload r) (Int (qr_reply_tx r)))
                              <$> scale_decode data) "failed to decode QueryRequest".
Definition next_http : int I32 -> Wk -> GuestM (Resource.poll (option HttpIncoming)) :=
  next_message (fun data => (fun r => MkH (hr_head r) (Int (hr_io_stream r)) (Int (hr_response_tx r)))
                              <$> scale_decode data) "failed to decode MsgHttpReqeust".

(** Sending consumes the sender, whose resource is closed on the way out. *)
Definition oneshot_reply (rid : int I32) (data : bytes) : GuestM (result OcallError unit) :=
  r ← ocall (oneshot_send_ok rid data);
  drop_resource rid;;
  mret r.
Definition oneshot_reply_error (rid : int I32) (error : str) : GuestM (result OcallError unit) :=
  r ← ocall (oneshot_send_error rid error);
  drop_resource rid;;
  mret r.

(** The macro [singleton_channel!]: the channel is created at the first use. *)
Definition singleton_channel (ch : InputChannel) (cell : option (int I32)) : GuestM (int I32) :=
  match cell with
  | Some rid => mret rid
  | None => r ← ocall (create_input_channel ch); expect "failed to create input channel" r
  end.

Definition incoming_queries : option (int I32) -> GuestM (int I32) := singleton_channel ChQuery.
Definition incoming_http_requests : option (int I32) -> GuestM (int I32) := singleton_channel ChHttpRequest.
(** [ScaleOneshotSender::send]. *)
Definition scale_oneshot_send {A} `{ScaleCodec A} (rid : int I32) (msg : A) : GuestM (result OcallError unit) :=
  oneshot_reply rid (scale_encode msg).

(** ** The logger (logger.rs) *)

(** The text of the filter, and what is done with a record that it lets pass: level,
    target and message. *)
Definition logger_filter (env : bytes -> option bytes) : bytes := default (lit "info") (env (lit "RUST_LOG")).
Definition logger_log (enabled : Level -> bytes -> bool) (level : Level) (target args : bytes) : GuestM unit :=
  if enabled level target
  then ocall (log level (Str (target ++ lit ": " ++ args)));; mret tt
  else mret tt.

(** ** Queries from end to end

    tokio's channels keep the order of messages: [queued tx rx w q] says that the
    channel between [tx] and [rx] holds [q]. *)
Class Channels := {
  queued : MpscSender -> Receiver -> W -> list bytes -> Prop;
  send_queued : forall tx rx w q m w', queued tx rx w q -> mpsc_try_send tx m w = (true, w') -> queued tx rx w' (q ++ [m]);
  recv_queued : forall tx rx w q m, queued tx rx w (m :: q) ->
    exists w', poll_recv rx w = (PReady (Some m), w') /\ queued tx rx w' q
}.
Context `{!Channels, !ScaleLawful QueryRequest}.

(** What the host is asked to deliver: the query and the sender of its reply. *)
Definition request : Type := option (array 32) * str * bytes * OneshotSender.
Fixpoint push_queries (reqs : list request) : M ctx anyhow unit :=
  match reqs with
  | [] => mret tt
  | (origin, path, payload, reply) :: reqs => push_query origin path payload reply;; push_queries reqs
  end.
(** The guest polls the channel [n] times. *)
Fixpoint poll_queries (n : nat) (rid : int I32) (wk : Wk) : GuestM (list (Resource.poll (option Query))) :=
  match n with
  | O => mret []
  | Datatypes.S n => q ← next_query rid wk; qs ← poll_queries n rid wk; mret (q :: qs)
  end.

(** The message that a request becomes when its reply sender has id [rid], and what
    the guest makes of it. *)
Definition message (e : request * Z) : QueryRequest :=
  let '(origin, path, payload, _, rid) := e in
  {| qr_path := path; qr_origin := origin; qr_payload := payload; qr_reply_tx := rid |}.
Definition received (e : request * Z) : Query :=
  let '(origin, path, payload, _, rid) := e in MkQ origin path payload (Int rid).
Definition holds (t : list (option (Resource W))) (e : request * Z) : Prop :=
  live t e.2 = Some (ROneshotTx (Some e.1.2)) /\ in_range I32 e.2 = true.

Lemma push_queries_spec tx rx reqs : forall c c' q,
  tbl_wf (resources c) -> query_tx c = Some tx -> queued tx rx (world c) q ->
  push_queries reqs c = (Ok tt, c') ->
  exists ids, length ids = length reqs /\ tbl_wf (resources c') /\
    queued tx rx (world c') (q ++ ((fun e => scale_encode (message e)) <$> zip reqs ids)) /\
    Forall (holds (resources c')) (zip reqs ids) /\ NoDup ids /\
    (forall j, j ∈ ids -> live (resources c) j = None) /\
    (forall j, is_Some (live (resources c) j) -> live (resources c') j = live (resources c) j).
Proof.
  induction reqs as [|[[[origin path] payload] reply] reqs IH]; intros c c' q Hwf Htx Hq; cbn [push_queries].
  - intros [_ <-]%pair_equal_spec. exists []. simpl. rewrite app_nil_r. split_and!; try done; [apply NoDup_nil_2|set_solver].
  - intros [([] & c1 & Hp & Hrest)|(e & _ & [=])]%bind_inv.
    pose proof (push_query_spec origin path payload reply c Hwf) as Hs. rewrite Hp, Htx in Hs.
    destruct Hs as (rid & Hnone & Hl & Hwf1 & Htx1 & Hr & Hsent).
    destruct (IH c1 c' _ Hwf1 Htx1 (send_queued _ _ _ _ _ _ Hq Hsent) Hrest) as (ids & Hlen & Hwf' & Hq' & Hh & Hnd & Hfresh & Hkeep).
    assert (Hrid : live (resources c1) rid = Some (ROneshotTx (Some reply))) by (by rewrite Hl, decide_True).
    assert (Hin : rid ∉ ids) by (intros Hin; by rewrite (Hfresh _ Hin) in Hrid).
    exists (rid :: ids). split_and!; simpl; try done; [by rewrite Hlen|by rewrite <- app_assoc in Hq'|..].
    + constructor; [|done]. split; [|done]. simpl. by rewrite Hkeep by (rewrite Hrid; eauto).
    + by constructor.
    + intros j [-> |Hj]%elem_of_cons; [done|]. apply Hfresh in Hj. rewrite Hl in Hj. by case_decide.
    + intros j Hj. assert (j <> rid) by (intros ->; rewrite Hnone in Hj; by destruct Hj).
      rewrite Hkeep by (by rewrite Hl, decide_False). by rewrite Hl, decide_False.
Qed.

Lemma intern_room wk (t : WakerTable Wk) : table_inv t -> zlen (wakers t) < MAX_N_WAKERS ->
  exists id t', intern_waker wk t = Some (id, t') /\ table_inv t' /\ zlen (wakers t') <= zlen (wakers t) + 1.
Proof.
  intros Ht Hroom. destruct (intern_waker wk t) as [[id t']|] eqn:Hi.
  - destruct (intern_waker_spec _ _ _ _ Ht Hi) as (Ht' & _ & _). exists id, t'. split_and!; try done.
    unfold intern_waker in Hi. pose proof (get_free_spec t Ht) as Hg.
    destruct (get_free_waker_id t) as [[j|] t1]; destruct Hg as (Hw & _ & _);
      repeat case_match; simplify_eq; simpl; rewrite ?zlen_app, Hw, ?zlen_cons, ?zlen_nil; [|lia].
    unfold zlen. rewrite length_insert. lia.
  - exfalso. unfold intern_waker in Hi. pose proof (get_free_spec t Ht) as Hg.
    destruct (get_free_waker_id t) as [[j|] t1]; destruct Hg as (Hw & _ & Ho).
    + destruct Ho as [Hj _]. apply slot_Some in Hj as [Hj _]. rewrite Hw in Hi.
      by rewrite (proj2 (Z.leb_le 0 j)), (proj2 (Z.ltb_lt j _)) in Hi by lia.
    + rewrite Hw in Hi. by rewrite (proj2 (Z.ltb_lt _ _)) in Hi by lia.
Qed.

Lemma live_range (t : list (option (Resource W))) j r : tbl_wf t -> live t j = Some r -> in_range I32 j = true.
Proof.
  intros Hwf Hl. destruct (Z_lt_le_dec j 0); [by rewrite live_out in Hl by lia|].
  destruct (Z_lt_le_dec j (zlen t)); [|by rewrite live_out in Hl by lia].
  unfold tbl_wf, RESOURCE_ID_MAX in *. range_solve.
Qed.
Lemma with_waker_run {A} id (m : M ctx OcallError A) (c : ctx) : exists t,
  with_waker id m c = ((m c).1, set_tasks (m c).2 t).
Proof.
  unfold with_waker. destruct (m c) as [r c'] eqn:Hm. destruct (waker_retained _ _ _); simpl; [|eauto].
  exists (tasks c'). by destruct c'.
Qed.
(** One poll of a channel that has a message. *)
Lemma poll_channel_run id rid rx data w' (c : ctx) : tbl_wf (resources c) ->
  live (resources c) (int_val rid) = Some (RChannelRx rx) -> poll_recv rx (world c) = (PReady (Some data), w') ->
  exists c', VmContext.poll id rid c = (Ok data, c') /\ resources c' = resources c /\ world c' = w' /\ query_tx c' = query_tx c.
Proof.
  intros Hwf Hl Hp. unfold VmContext.poll, gas. m_unfold. simpl.
  match goal with |- context [with_waker ?i ?m ?c] => destruct (with_waker_run i m c) as [t Ht] end.
  rewrite Ht. clear Ht. unfold get_resource. m_unfold. simpl.
  rewrite get_mut_live by eauto using live_range. rewrite Hl. simpl. unfold poll_do, zoom, in_world. m_unfold. simpl.
  rewrite Hp. simpl. eexists. split; [done|]. done.
Qed.

Lemma poll_queries_spec tx rx rid wk es : forall t (c : ctx),
  table_inv t -> zlen (wakers t) + zlen es <= MAX_N_WAKERS -> tbl_wf (resources c) ->
  live (resources c) (int_val rid) = Some (RChannelRx rx) ->
  queued tx rx (world c) ((fun e => scale_encode (message e)) <$> es) ->
  exists t' c', poll_queries (length es) rid wk (t, c) = (Ok ((fun e => PReady (Some (received e))) <$> es), (t', c')) /\
    resources c' = resources c.
Proof.
  induction es as [|e es IH]; intros t c Ht Hroom Hwf Hl Hq; cbn [length poll_queries]; [by exists t, c|].
  rewrite zlen_cons in Hroom. pose proof (zlen_nonneg es). destruct (intern_room wk t Ht ltac:(lia)) as (id & t1 & Hi & Ht1 & Hz).
  destruct (recv_queued _ _ _ _ _ Hq) as (w' & Hr & Hq').
  destruct (poll_channel_run (Int id) rid rx _ _ c Hwf Hl Hr) as (c1 & Hc1 & Hres & Hw & _).
  assert (Hone : next_query rid wk (t, c) = (Ok (PReady (Some (received e))), (t1, c1))).
  { unfold next_query, next_message. m_unfold. unfold intern. simpl. rewrite Hi. unfold ocall. simpl. rewrite Hc1. simpl.
    rewrite scale_decode_encode. by destruct e as [[[[origin path] payload] reply] i]. }
  rewrite (bind_Ok _ _ _ _ _ Hone).
  destruct (IH t1 c1) as (t' & c' & Hrun & Hres'); [done|lia|by rewrite Hres|by rewrite Hres|by rewrite Hw|].
  rewrite (bind_Ok _ _ _ _ _ Hrun). exists t', c'. split; [done|congruence].
Qed.

(** Sending a reply. *)
Lemma reply_run i reply data t (c : ctx) : tbl_wf (resources c) -> in_range I32 i = true ->
  live (resources c) i = Some (ROneshotTx (Some reply)) ->
  let '(sent, w3) := oneshot_send reply (inl data) (world c) in
  exists c3, oneshot_reply (Int i) data (t, c) = (Ok (if sent then Ok tt else Err IoError), (t, c3)) /\
    world c3 = w3 /\ live (resources c3) i = None.
Proof.
  intros Hwf Hr Hi. destruct (oneshot_send reply (inl data) (world c)) as [sent w3] eqn:Hsend.
  assert (Hin : 0 <= i < zlen (resources c)).
  { destruct (Z_lt_le_dec i 0); [by rewrite live_out in Hi by lia|].
    destruct (Z_lt_le_dec i (zlen (resources c))); [done|by rewrite live_out in Hi by lia]. }
  assert (Hs : exists c1, oneshot_send_ok (Int i) data c = (if sent then Ok tt else Err IoError, c1) /\ world c1 = w3 /\
    tbl_wf (resources c1)).
  { unfold oneshot_send_ok, send_once, gas, get_resource. m_unfold. simpl. rewrite get_mut_live, Hi by done. simpl.
    unfold world_do. simpl. rewrite Hsend. simpl. eexists. split; [by destruct sent|]. split; [done|].
    unfold tbl_wf, zlen, set_res in *. simpl. by rewrite length_insert. }
  destruct Hs as (c1 & Hs & Hw & Hwf1). unfold oneshot_reply, drop_resource, ocall. m_unfold. simpl. rewrite Hs. simpl.
  unfold close, gas. m_unfold. simpl.
  match goal with |- context [close_resource i ?x] => pose proof (close_resource_spec i x Hwf1 Hr) as Hc;
    destruct (close_resource i x) as [r2 c2]; destruct Hc as (_ & Hc2 & _ & Hl) end.
  exists c2. split; [done|]. split; [by rewrite Hc2|]. by rewrite Hl, decide_True.
Qed.

(** C5: queries reach the guest and replies their callers: queries that the host
    pushed for an instance are received by the guest in order, with the origin,
    path and payload they were pushed with, as soon as it polls its channel; and a
    reply that the guest sends goes to the caller of that query, once, after which
    the id of the sender is free again. *)
Theorem queries_delivered tx rx rid wk reqs t (c c1 : ctx) :
  tbl_wf (resources c) -> query_tx c = Some tx -> live (resources c) (int_val rid) = Some (RChannelRx rx) ->
  queued tx rx (world c) [] -> table_inv t -> zlen (wakers t) + zlen reqs <= MAX_N_WAKERS ->
  push_queries reqs c = (Ok tt, c1) ->
  exists ids t' c2, length ids = length reqs /\ NoDup ids /\
    poll_queries (length reqs) rid wk (t, c1) = (Ok ((fun e => PReady (Some (received e))) <$> zip reqs ids), (t', c2)) /\
    forall req i data, (req, i) ∈ zip reqs ids ->
      let '(sent, w3) := oneshot_send req.2 (inl data) (world c2) in
      exists c3, oneshot_reply (q_reply_tx (received (req, i))) data (t', c2) =
          (Ok (if sent then Ok tt else Err IoError), (t', c3)) /\
        world c3 = w3 /\ live (resources c3) i = None.
Proof.
  intros Hwf Htx Hl Hq Ht Hroom Hp.
  destruct (push_queries_spec tx rx reqs c c1 [] Hwf Htx Hq Hp) as (ids & Hlen & Hwf1 & Hq1 & Hh & Hnd & _ & Hkeep).
  simpl in Hq1. assert (Hz : length (zip reqs ids) = length reqs) by (rewrite length_zip; lia).
  destruct (poll_queries_spec tx rx rid wk (zip reqs ids) t c1) as (t' & c2 & Hrun & Hres);
    [done|unfold zlen in *; by rewrite Hz|done|by rewrite Hkeep by (rewrite Hl; eauto)|done|].
  rewrite Hz in Hrun. exists ids, t', c2. split_and!; [done|done|done|].
  intros req i data Hin. rewrite Forall_forall in Hh. destruct (Hh _ Hin) as [Hi Hr]. simpl in Hi, Hr.
  rewrite <- Hres in Hi, Hwf1. destruct req as [[[origin path] payload] reply].
  apply (reply_run i reply data t' c2); [done|done|done].
Qed.

(** ** Timers *)

(** How long a guest sleeps: the host's timer gets the milliseconds of a
    duration below 2^31 ms (24.8 days) exactly; a longer one, below 2^32 ms, turns
    into more than 2^63 ms, so it never ends; and beyond that multiples of 2^32 ms
    are lost, so the guest wakes up early. *)
Theorem sleep_durations d t (c : ctx) : 0 <= d ->
  exists k, world (time_sleep d (t, c)).2.2 = (VmContext.sleep k (world c)).2 /\
    (as_millis d < 2 ^ 31 -> k = as_millis d) /\
    (2 ^ 31 <= as_millis d < 2 ^ 32 -> k = 2 ^ 64 - 2 ^ 32 + as_millis d) /\
    (2 ^ 32 <= as_millis d < 2 ^ 32 + 2 ^ 31 -> k = as_millis d - 2 ^ 32).
Proof.
  intros Hd. exists (wrap U64 (wrap I32 (as_millis d))). split.
  - unfold time_sleep, ocall, create_timer, gas. m_unfold. simpl. unfold world_do. simpl.
    destruct (VmContext.sleep _ (world c)) as [s w]. simpl. unfold push_resource, zoom, expect. m_unfold. simpl.
    by destruct (push _ _) as [[] ?].
  - assert (Hms : 0 <= as_millis d) by (apply Z.div_pos; lia). set (ms := as_millis d) in *.
    assert (Hhi : forall z, 0 <= z < 2 ^ 31 -> wrap U64 z = z) by (intros; apply wrap_id; range_solve).
    split_and!.
    + intros. rewrite (wrap_id I32) by range_solve. apply Hhi. lia.
    + intros. assert (wrap I32 ms = ms - 2 ^ 32) as ->.
      { unfold wrap. change (int_min I32) with (- 2 ^ 31). change (width I32) with 32.
        replace (ms - - 2 ^ 31) with (ms - 2 ^ 31 + 1 * 2 ^ 32) by lia. rewrite Z.mod_add by lia. rewrite Z.mod_small by lia. lia. }
      unfold wrap. change (int_min U64) with 0. change (width U64) with 64.
      replace (ms - 2 ^ 32 - 0) with (2 ^ 64 - 2 ^ 32 + ms + (-1) * 2 ^ 64) by lia. rewrite Z.mod_add by lia.
      rewrite Z.mod_small; lia.
    + intros. assert (wrap I32 ms = ms - 2 ^ 32) as ->; [|apply Hhi; lia].
      unfold wrap. change (int_min I32) with (- 2 ^ 31). change (width I32) with 32.
      replace (ms - - 2 ^ 31) with (ms - 2 ^ 32 + 2 ^ 31 + 1 * 2 ^ 32) by lia. rewrite Z.mod_add by lia. rewrite Z.mod_small by lia. lia.
Qed.
End Guest.

(** ** A world with one channel *)
Module ToyChannel.
(** The queued messages and the replies sent. *)
Record T : Type := MkT { messages : list bytes; replies : list (nat * (bytes + str)); slept : list Z }.
#[export] Instance tokio : Tokio T := {|
  Sleep := unit; Receiver := unit; OneshotSender := nat; TcpListener := unit; TcpStream := unit;
  TlsStream := unit; TcpConnectFut := unit; TlsConnectFut := unit; DuplexStream := unit;
  SniSubscription := unit; ServerConfig := unit;
  poll_sleep := fun _ w => (PPending, w);
  poll_recv := fun _ w => match messages w with
                          | [] => (PPending, w)
                          | m :: q => (PReady (Some m), MkT q (replies w) (slept w))
                          end;
  tcp_try_read := fun _ _ w => (Err OtherIo, w); tcp_poll_read_ready := fun _ w => (PPending, w);
  tcp_try_write := fun _ _ w => (Err OtherIo, w); tcp_poll_write_ready := fun _ w => (PPending, w);
  tcp_poll_shutdown := fun _ w => (PPending, w); tls_poll_read := fun _ _ w => (PPending, w);
  tls_poll_write := fun _ _ w => (PPending, w); tls_poll_shutdown := fun _ w => (PPending, w);
  duplex_poll_read := fun _ _ w => (PPending, w); duplex_poll_write := fun _ _ w => (PPending, w);
  duplex_poll_shutdown := fun _ w => (PPending, w); poll_tcp_connect := fun _ w => (PPending, w);
  poll_tls_connect := fun _ w => (PPending, w)
|}.
#[export] Instance host : Host T := {|
  MpscSender := unit;
  mpsc_channel := fun w => ((tt, tt), w);
  mpsc_try_send := fun _ m w => (true, MkT (messages w ++ [m]) (replies w) (slept w));
  oneshot_send := fun tx m w => (true, MkT (messages w) (replies w ++ [(tx, m)]) (slept w));
  sleep := fun d w => (tt, MkT (messages w) (replies w) (slept w ++ [d]));
  deadline_in := fun d _ => Some d;
  reset_sleep := fun _ _ w => w;
  parse_socket_addr := fun a => head (str_bytes a);
  tcp_bind := fun _ w => (Ok tt, w);
  poll_accept := fun _ w => (PPending, w);
  load_tls_config := fun _ => Ok tt;
  tls_accept := fun _ _ w => (tt, w);
  poll_subscription := fun _ w => (PPending, w);
  server_name := fun _ => true;
  connect_tcp := fun _ _ w => (tt, w);
  connect_tls := fun _ _ w => (tt, w);
  sni_subscribe := fun _ _ _ w => (None, w);
  fill_bytes := fun n w => (replicate (Z.to_nat n) 7, w);
  waker_retained := fun _ _ _ => false
|}.
#[export] Instance channels : Channels.
Proof.
  refine {| queued := fun _ _ w q => messages w = q |}.
  - intros tx rx w q m w' <- Hs. simpl in Hs. by injection Hs as <-.
  - intros tx rx w q m Hq. exists (MkT q (replies w) (slept w)). simpl. by rewrite Hq.
Defined.

(** Messages as lists: lengths first. *)
Definition enc (b : bytes) : bytes := zlen b :: b.
Definition dec (b : bytes) : option (bytes * bytes) :=
  match b with n :: r => Some (firstn (Z.to_nat n) r, skipn (Z.to_nat n) r) | [] => None end.
#[export] Instance codec : ScaleCodec QueryRequest := {|
  scale_encode q := qr_reply_tx q :: enc (str_bytes (qr_path q)) ++ enc (qr_payload q) ++
    match qr_origin q with None => [] | Some a => enc (arr_bytes a) end;
  scale_decode b := match b with
    | r :: b =>
      '(path, b) ← dec b; '(payload, b) ← dec b;
      Some {| qr_path := Str path; qr_payload := payload; qr_reply_tx := r;
              qr_origin := (fun e => Arr e.1) <$> dec b |}
    | [] => None
    end
|}.
Lemma dec_enc b r : dec (enc b ++ r) = Some (b, r).
Proof. unfold dec, enc, zlen. simpl. rewrite Nat2Z.id. by rewrite take_app_length, drop_app_length. Qed.
#[export] Instance codec_lawful : ScaleLawful QueryRequest.
Proof.
  intros [origin [path] payload rid]. unfold scale_decode, scale_encode, codec.
  cbn [qr_reply_tx qr_path qr_payload qr_origin str_bytes]. rewrite dec_enc. cbn [mbind option_bind].
  rewrite dec_enc. cbn [mbind option_bind].
  destruct origin as [[a]|]; [|done]. by rewrite <- (app_nil_r (enc _)), dec_enc.
Qed.
Definition ctx0 : WapoCtx T unit :=
  set_query_tx (set_resources (WapoCtx_new (Arr [1; 2]) tt (MkFs ∅ []) (Meter_default 0) (MkConfig (100, 200) false)
    (MkT [] [] [])) [Some (RChannelRx tt)]) (Some tt).
Definition tx0 : MpscSender := tt.
Definition rx0 : Receiver := tt.
Definition requests : list request := [(None, Str [1], [2; 3], 10%nat); (Some (Arr [9]), Str [], [], 20%nat)].
End ToyChannel.
Import ToyChannel.

Lemma queries_delivered_witness :
  exists c1 ids t' c2, push_queries requests ctx0 = (Ok tt, c1) /\ length ids = 2%nat /\ NoDup ids /\
    poll_queries 2 (Int 0) tt (MkWakers [] [], c1) =
      (Ok ((fun e => PReady (Some (received e))) <$> zip requests ids), (t', c2)).
Proof.
  destruct (push_queries requests ctx0) as [r c1] eqn:Hp.
  assert (r = Ok tt) as -> by (apply (f_equal fst) in Hp; vm_compute in Hp; by rewrite <- Hp).
  destruct (queries_delivered (Wk := unit) tx0 rx0 (Int 0) tt requests (MkWakers [] []) ctx0 c1)
    as (ids & t' & c2 & Hlen & Hnd & Hrun & _); [done..| |vm_compute; discriminate|exact Hp|].
  - split; [apply NoDup_nil_2|set_solver|vm_compute; discriminate].
  - exists c1, ids, t', c2. done.
Defined.

(** A sleep of 50 days lasts less than one. *)
Lemma sleep_durations_witness :
  exists k, world (time_sleep (Wk := unit) (50 * 86400 * 1000000000) (MkWakers [] [], ctx0)).2.2 =
      (VmContext.sleep k (world ctx0)).2 /\ k = 50 * 86400 * 1000 - 2 ^ 32.
Proof.
  destruct (sleep_durations (Wk := unit) (50 * 86400 * 1000000000) (MkWakers [] []) ctx0) as (k & Hw & _ & _ & Hk); [lia|].
  exists k. split; [exact Hw|]. apply Hk. vm_compute. split; [discriminate|reflexivity].
Defined.
