(* ===== verification/GuestHyper.v ===== *)
(** * hyper in the guest (wapo/src/hyper_rt.rs, net.rs)

    The adapters between the reading and writing traits of hyper and of tokio, with
    the buffers they share; connectors, timers and the executor for hyper; and
    streams that know the address of their peer. *)
From S2P Require Import Prelude OcallError ArgsStack Ocall OcallDef Meter Resource HostTasks GuestTasks Blobs VmContext VmFacts GuestLib.

(** ** Buffers *)

(** tokio's and hyper's [ReadBuf]: the memory, the length of the filled part, and of
    the part that has been initialized. *)
Record RawBuf : Type := MkRaw { raw : bytes; b_filled : nat; b_init : nat }.
Definition raw_wf (b : RawBuf) : Prop := (b_filled b <= b_init b <= length (raw b))%nat.
Definition uninit (memory : bytes) : RawBuf := MkRaw memory 0 0.
Definition filled_bytes (b : RawBuf) : bytes := firstn (b_filled b) (raw b).
Definition unfilled_mut (b : RawBuf) : bytes := skipn (b_filled b) (raw b).
Definition raw_remaining (b : RawBuf) : nat := length (raw b) - b_filled b.
(** What a part of the memory, lent from the end of the filled part on, has become. *)
Definition returned (memory : bytes) (b : RawBuf) : RawBuf := MkRaw (filled_bytes b ++ memory) (b_filled b) (b_init b).

(** tokio: [initialize_unfilled_to], [assume_init], [set_filled], [advance]; those that
    assert may panic. *)
Definition initialize_unfilled_to (n : nat) (b : RawBuf) : RawBuf :=
  let end_ := (b_filled b + n)%nat in
  if (b_init b <? end_)%nat
  then MkRaw (firstn (b_init b) (raw b) ++ replicate (end_ - b_init b) 0 ++ skipn end_ (raw b)) (b_filled b) end_ else b.
Definition assume_init (n : nat) (b : RawBuf) : RawBuf :=
  let new := (b_filled b + n)%nat in
  if (b_init b <? new)%nat then MkRaw (raw b) (b_filled b) new else b.
Definition set_filled (n : nat) (b : RawBuf) : result string RawBuf :=
  if (n <=? b_init b)%nat then Ok (MkRaw (raw b) n (b_init b))
  else Err "filled must not become larger than initialized".
Definition advance (n : nat) (b : RawBuf) : result string RawBuf := set_filled (b_filled b + n) b.
(** hyper's [advance] of a cursor. *)
Definition cursor_advance (n : nat) (b : RawBuf) : RawBuf :=
  MkRaw (raw b) (b_filled b + n) (b_init b `max` (b_filled b + n)).
(** Writing to the unfilled part. *)
Definition put (data : bytes) (b : RawBuf) : RawBuf := returned (data ++ skipn (length data) (unfilled_mut b)) b.

(** ** The adapters *)
Section Adapters.
Context {S : Type}.
(** [poll_read] of either trait, on a stream of the state. *)
Abbreviation reader := (RawBuf -> M S string (Resource.poll (result Z unit) * RawBuf)).

(** [hyper::rt::Read for HyperTokioIo]. *)
Definition hyper_poll_read (inner : reader) : reader := fun buf =>
  '(r, tbuf) ← inner (uninit (unfilled_mut buf));
  let buf := returned (raw tbuf) buf in
  match r with
  | PReady (Ok _) => let n := length (filled_bytes tbuf) in mret (PReady (Ok tt), cursor_advance n buf)
  | other => mret (other, buf)
  end.
(** [tokio::io::AsyncRead for HyperTokioIo]. *)
Definition tokio_io_poll_read (inner : reader) : reader := fun tbuf =>
  let filled := length (filled_bytes tbuf) in
  '(r, buf) ← inner (uninit (unfilled_mut tbuf));
  let tbuf := returned (raw buf) tbuf in
  match r with
  | PReady (Ok _) =>
    let sub_filled := length (filled_bytes buf) in
    let n_filled := (filled + sub_filled)%nat in
    let n_init := sub_filled in
    tbuf ← lift (set_filled n_filled (assume_init n_init tbuf));
    mret (PReady (Ok tt), tbuf)
  | other => mret (other, tbuf)
  end.

(** The contract of a reader: what it does is determined by the room in the buffer,
    as [core] says, and it appends the data to the filled part. *)
Definition appended (b b' : RawBuf) (data : bytes) : Prop :=
  raw_wf b' /\ length (raw b') = length (raw b) /\ filled_bytes b' = filled_bytes b ++ data.
Definition reads (core : nat -> M S string (Resource.poll (result Z unit) * bytes)) (inner : reader) : Prop :=
  forall b s, raw_wf b ->
    match core (raw_remaining b) s with
    | (Err e, s') => inner b s = (Err e, s')
    | (Ok (r, data), s') => exists b', inner b s = (Ok (r, b'), s') /\ appended b b' data /\
        (r <> PReady (Ok tt) -> data = [])
    end.

Lemma filled_length b : raw_wf b -> length (filled_bytes b) = b_filled b.
Proof. intros [? ?]. unfold filled_bytes. rewrite length_take. lia. Qed.
Lemma unfilled_length b : length (unfilled_mut b) = raw_remaining b.
Proof. unfold unfilled_mut, raw_remaining. by rewrite length_drop. Qed.
Lemma uninit_wf m : raw_wf (uninit m).
Proof. split; simpl; lia. Qed.

(** A part of the memory is lent, and comes back with data at its front. *)
Lemma returned_filled b sub data n : raw_wf b -> n = (b_filled b + length data)%nat ->
  length (raw sub) = raw_remaining b -> filled_bytes sub = data -> raw_wf sub ->
  firstn n (filled_bytes b ++ raw sub) = filled_bytes b ++ data.
Proof.
  intros Hb -> Hl <- Hs. pose proof (filled_length b Hb) as Hf. rewrite filled_length by done. unfold filled_bytes at 3.
  rewrite take_app. rewrite Hf. f_equal; [rewrite take_ge by lia; done|f_equal; lia].
Qed.
Lemma lend core inner b s : reads core inner -> raw_wf b ->
  match core (raw_remaining b) s with
  | (Err e, s') => inner (uninit (unfilled_mut b)) s = (Err e, s')
  | (Ok (r, data), s') => exists sub, inner (uninit (unfilled_mut b)) s = (Ok (r, sub), s') /\
      length (filled_bytes sub) = length data /\ (b_filled b + length data <= length (raw b))%nat /\
      length (filled_bytes b ++ raw sub) = length (raw b) /\
      firstn (b_filled b + length data) (filled_bytes b ++ raw sub) = filled_bytes b ++ data /\
      (r <> PReady (Ok tt) -> data = [] /\ appended b (returned (raw sub) b) [])
  end.
Proof.
  intros Hr Hb. specialize (Hr (uninit (unfilled_mut b)) s (uninit_wf _)).
  assert (Hroom : raw_remaining (uninit (unfilled_mut b)) = raw_remaining b).
  { unfold raw_remaining at 1. simpl. rewrite unfilled_length. lia. }
  rewrite Hroom in Hr. destruct (core (raw_remaining b) s) as [[[r data]|e] s']; [|done].
  destruct Hr as (sub & Hrun & (Hwf & Hlen & Hfill) & Hnil). simpl in Hfill, Hlen. rewrite unfilled_length in Hlen.
  pose proof (filled_length sub Hwf) as Hl'. pose proof (filled_length b Hb) as Hl.
  pose proof (returned_filled b sub data _ Hb eq_refl Hlen Hfill Hwf) as Hpre.
  assert (Htot : length (filled_bytes b ++ raw sub) = length (raw b)).
  { rewrite length_app, Hl, Hlen. unfold raw_remaining. destruct Hb. lia. }
  exists sub. rewrite Hfill. split_and!; try done.
  - rewrite <- Htot, length_app, Hl. rewrite Hfill in Hl'. destruct Hwf. simpl in *. lia.
  - intros Hne. rewrite (Hnil Hne) in *. split; [done|]. destruct Hb. repeat split; simpl; [lia|lia|done|].
    unfold filled_bytes at 1. simpl. by rewrite Nat.add_0_r in Hpre.
Qed.
Lemma hyper_read_reads core inner : reads core inner -> reads core (hyper_poll_read inner).
Proof.
  intros Hr b s Hb. pose proof (lend core inner b s Hr Hb) as Hl. unfold hyper_poll_read. m_unfold.
  destruct (core (raw_remaining b) s) as [[[r data]|e] s']; [|by rewrite Hl].
  destruct Hl as (sub & -> & Hf & Hroom & Htot & Hpre & Hother).
  destruct r as [[[]|e]|]; simpl; eexists; (split; [done|]); [|by destruct Hother as [-> ?]..].
  split; [|done]. rewrite Hf. repeat split; simpl; [lia|destruct Hb; lia|done|]. done.
Qed.
Lemma tokio_read_reads core inner : reads core inner -> reads core (tokio_io_poll_read inner).
Proof.
  intros Hr b s Hb. pose proof (lend core inner b s Hr Hb) as Hl. unfold tokio_io_poll_read. m_unfold.
  destruct (core (raw_remaining b) s) as [[[r data]|e] s']; [|by rewrite Hl].
  destruct Hl as (sub & -> & Hf & Hroom & Htot & Hpre & Hother).
  destruct r as [[[]|e]|]; simpl; [|by eexists; split; [done|]; destruct Hother as [-> ?]..].
  rewrite Hf, (filled_length b Hb). unfold assume_init, set_filled. simpl. destruct Hb.
  destruct (Nat.ltb_spec (b_init b) (b_filled b + length data)); simpl.
  all: rewrite (proj2 (Nat.leb_le _ _)) by lia; simpl; eexists; (split; [done|]); (split; [|done]).
  all: repeat split; simpl; (done || lia).
Qed.
End Adapters.

(** ** Streams *)
Section Streams.
Context {W R Wk : Type} `{Tokio W, !Host W, RuntimeCalls R, Digest, Aead}.
Abbreviation ctx := (WapoCtx W R).
Abbreviation GuestM := (M (WakerTable Wk * ctx) string).

(** The operations of a stream with a given waker, in either trait. *)
Record Io : Type := MkIo {
  io_read : RawBuf -> GuestM (Resource.poll (result Z unit) * RawBuf);
  io_write : bytes -> GuestM (Resource.poll (result Z (int U32)));
  io_flush : GuestM (Resource.poll (result Z unit));
  io_shutdown : GuestM (Resource.poll (result Z unit));
  io_is_write_vectored : bool;
  io_write_vectored : list bytes -> GuestM (Resource.poll (result Z (int U32)))
}.

(** [tokio::io::AsyncRead for TcpStream] on the memory of the buffer. *)
Definition tcp_poll_read (fuel : nat) (rid : int I32) (wk : Wk) (buf : RawBuf)
  : GuestM (Resource.poll (result Z unit) * RawBuf) :=
  let size := raw_remaining buf in
  let buf := initialize_unfilled_to size buf in
  waker_id ← intern wk;
  r ← ocall (poll_read fuel waker_id rid (Z.of_nat size));
  match r with
  | Ok data =>
    if Z.of_nat (raw_remaining buf) <? zlen data then mret (PReady (Err (OcallError_code InvalidEncoding)), buf)
    else buf ← lift (advance (length data) (put data buf)); mret (PReady (Ok tt), buf)
  | Err Pending => mret (PPending, buf)
  | Err err => mret (PReady (Err (OcallError_code err)), buf)
  end.
(** The default of [poll_write_vectored]: the first buffer that is not empty. *)
Definition first_nonempty (bufs : list bytes) : bytes := default [] (find (fun b => negb (zlen b =? 0)) bufs).
Definition tcp_io (fuel : nat) (rid : int I32) (wk : Wk) : Io :=
  MkIo (tcp_poll_read fuel rid wk) (stream_poll_write fuel rid wk) stream_poll_flush (stream_poll_close rid wk) false
    (fun bufs => stream_poll_write fuel rid wk (first_nonempty bufs)).

(** [HyperTokioIo] in the two directions, and the parts of [AddrStream]. *)
Definition hyper_io (inner : Io) : Io :=
  MkIo (hyper_poll_read (io_read inner)) (io_write inner) (io_flush inner) (io_shutdown inner)
    (io_is_write_vectored inner) (io_write_vectored inner).
Definition tokio_io (inner : Io) : Io :=
  MkIo (tokio_io_poll_read (io_read inner)) (io_write inner) (io_flush inner) (io_shutdown inner)
    (io_is_write_vectored inner) (io_write_vectored inner).
(** [AddrStream]: a stream and the address of the peer; it has the default
    [poll_write_vectored]. *)
Record AddrStream : Type := MkAddrStream { as_stream : Io; as_remote_addr : Z }.
Definition addr_io (a : AddrStream) : Io :=
  MkIo (io_read (as_stream a)) (io_write (as_stream a)) (io_flush (as_stream a)) (io_shutdown (as_stream a)) false
    (fun bufs => io_write (as_stream a) (first_nonempty bufs)).

Inductive adapter : Type := AsHyper | AsTokio | AsAddr (addr : Z).
Definition adapt (io : Io) (a : adapter) : Io :=
  match a with
  | AsHyper => hyper_io io
  | AsTokio => tokio_io io
  | AsAddr addr => addr_io (MkAddrStream io addr)
  end.

(** ** Connecting and accepting *)

(** [HttpConnector::call] of both versions of hyper, and the future it returns in the
    later one; a URI is its scheme, host and port. *)
Definition http_connector_call (uri : option bytes * option bytes * option (int U16)) : GuestM (result OcallError (int I32)) :=
  connect_with_components uri.1.1 uri.1.2 uri.2.
Definition http_connector_v0_call (uri : option bytes * option bytes * option (int U16)) : GuestM (result OcallError (int I32)) :=
  connect_with_components uri.1.1 uri.1.2 uri.2.
Definition http_connecting_poll (res : result OcallError (int I32)) (wk : Wk)
  : GuestM (Resource.poll (result OcallError (int I32))) :=
  r ← poll_connector res wk;
  mret (match r with
        | PPending => PPending
        | PReady (Err e) => PReady (Err e)
        | PReady (Ok stream) => PReady (Ok stream)
        end).
(** [AddrIncoming]. *)
Definition addr_incoming_poll_accept (rid : int I32) (wk : Wk)
  : GuestM (Resource.poll (option (result OcallError (int I32 * Z)))) :=
  r ← poll_tcp_accept rid wk;
  mret (match r with
        | PReady (Ok (stream, remote_addr)) => PReady (Some (Ok (stream, remote_addr)))
        | PReady (Err EndOfFile) => PReady None
        | PReady (Err err) => PReady (Some (Err err))
        | PPending => PPending
        end).

(** [HyperTimer]: timers of this library, and others that it does not reset. *)
Inductive SleepBox : Type := HyperSleep (rid : int I32) | ForeignSleep.
Definition hyper_sleep (d : Z) : GuestM SleepBox := rid ← time_sleep d; mret (HyperSleep rid).
Definition hyper_sleep_until (now deadline : Z) : GuestM SleepBox := rid ← time_sleep_until now deadline; mret (HyperSleep rid).
Definition hyper_reset (sleep : SleepBox) (now new_deadline : Z) : GuestM unit :=
  match sleep with
  | HyperSleep rid => sleep_reset rid now new_deadline
  | ForeignSleep => mret tt
  end.
Definition hyper_sleep_poll (fuel : nat) (rid : int I32) (wk : Wk) : GuestM (Resource.poll unit) := sleep_poll fuel rid wk.

(** ** Nothing is lost on the way *)

(** What a TCP stream reads into a given room. *)
Definition tcp_core (fuel : nat) (rid : int I32) (wk : Wk) (room : nat) : GuestM (Resource.poll (result Z unit) * bytes) :=
  waker_id ← intern wk;
  r ← ocall (poll_read fuel waker_id rid (Z.of_nat room));
  mret (match r with
        | Ok data => if Z.of_nat room <? zlen data then (PReady (Err (OcallError_code InvalidEncoding)), [])
                     else (PReady (Ok tt), data)
        | Err Pending => (PPending, [])
        | Err err => (PReady (Err (OcallError_code err)), [])
        end).

Lemma initialized b : raw_wf b ->
  let b1 := initialize_unfilled_to (raw_remaining b) b in
  b_filled b1 = b_filled b /\ b_init b1 = length (raw b) /\ length (raw b1) = length (raw b) /\ filled_bytes b1 = filled_bytes b.
Proof.
  intros [Hf Hi]. unfold initialize_unfilled_to, raw_remaining.
  replace (b_filled b + (length (raw b) - b_filled b))%nat with (length (raw b)) by lia.
  destruct (Nat.ltb_spec (b_init b) (length (raw b))); simpl; [|split_and!; (done || lia)].
  split_and!; try done.
  - rewrite !length_app, length_take, length_replicate, length_drop. lia.
  - unfold filled_bytes. simpl. rewrite take_app_le by (rewrite length_take; lia). rewrite take_take. f_equal. lia.
Qed.
Lemma put_filled data b : raw_wf b -> (length data <= raw_remaining b)%nat ->
  length (raw (put data b)) = length (raw b) /\ firstn (b_filled b + length data) (raw (put data b)) = filled_bytes b ++ data.
Proof.
  intros Hb Hd. pose proof (filled_length b Hb) as Hf. pose proof (unfilled_length b) as Hu. unfold put, returned. simpl. split.
  - rewrite !length_app, length_drop, Hf, Hu. unfold raw_remaining in *. destruct Hb. lia.
  - rewrite app_assoc, take_app_length' by (rewrite length_app; lia). done.
Qed.
Lemma tcp_reads fuel rid wk : reads (tcp_core fuel rid wk) (tcp_poll_read fuel rid wk).
Proof.
  intros b s Hb. destruct (initialized b Hb) as (Hf & Hi & Hl & Hd). unfold tcp_core, tcp_poll_read. m_unfold.
  assert (Hr : raw_remaining (initialize_unfilled_to (raw_remaining b) b) = raw_remaining b).
  { unfold raw_remaining at 1. by rewrite Hf, Hl. }
  set (b1 := initialize_unfilled_to _ b) in *.
  assert (Hb1 : raw_wf b1) by (destruct Hb; split; lia).
  assert (Hsame : appended b b1 []) by (split_and!; [done|done|by rewrite app_nil_r]).
  destruct (intern wk s) as [[id|e] s1]; [|done]. simpl. unfold ocall. simpl.
  destruct (poll_read fuel id rid _ s1.2) as [[data|e] c2]; simpl.
  - rewrite Hr. destruct (Z.ltb_spec (Z.of_nat (raw_remaining b)) (zlen data)) as [|Hle]; simpl; [by exists b1|].
    destruct (put_filled data b1 Hb1) as [Hpl Hpf]; [unfold zlen in Hle; lia|].
    unfold zlen in Hle. assert (b_filled b + length data <= length (raw b))%nat by (unfold raw_remaining in Hle; destruct Hb; lia).
    assert (Hp1 : b_filled (put data b1) = b_filled b) by done. assert (Hp2 : b_init (put data b1) = length (raw b)) by done.
    remember (put data b1) as q eqn:Hq. clear Hq.
    unfold advance, set_filled. rewrite Hp1, Hp2, (proj2 (Nat.leb_le _ _)) by lia. simpl. eexists. split; [done|].
    split; [|done]. split_and!; [split; simpl; lia|simpl; congruence|].
    rewrite <- Hd, <- Hpf, Hf. done.
  - destruct e; by exists b1.
Qed.
Lemma adapt_reads core io ws : reads core (io_read io) -> reads core (io_read (foldl adapt io ws)).
Proof.
  revert io. induction ws as [|[| |addr] ws IH]; intros io Hr; simpl; [done|..]; apply IH; simpl.
  - by apply hyper_read_reads.
  - by apply tokio_read_reads.
  - done.
Qed.
Lemma adapt_writes io ws : (forall bufs, io_write_vectored io bufs = io_write io (first_nonempty bufs)) ->
  let io' := foldl adapt io ws in
  io_write io' = io_write io /\ io_flush io' = io_flush io /\ io_shutdown io' = io_shutdown io /\
  forall bufs, io_write_vectored io' bufs = io_write io (first_nonempty bufs).
Proof.
  revert io. induction ws as [|a ws IH]; intros io Hv; [done|]. simpl.
  destruct (IH (adapt io a)) as (-> & -> & -> & Hbufs); [destruct a; simpl; auto|].
  by destruct a.
Qed.

(** C38: HTTP libraries see the socket.  Through any nesting of the adapters, a read
    into a buffer gives the same outcome as a read of the stream itself with the
    same room, leaves the host in the same state, adds the same data after what
    the buffer already holds, and never panics on its own; and what is written,
    and how, is the same, also for a list of buffers. *)
Theorem hyper_io_transparent fuel rid wk ws b s : raw_wf b ->
  let io := foldl adapt (tcp_io fuel rid wk) ws in
  match tokio_poll_read fuel rid wk (MkBuf (filled_bytes b) (zlen (raw b))) s with
  | (Ok (r, buf), s') => exists b', io_read io b s = (Ok (r, b'), s') /\ raw_wf b' /\
      filled_bytes b' = filled buf /\ length (raw b') = length (raw b)
  | (Err e, s') => io_read io b s = (Err e, s')
  end /\
  (forall data, io_write io data s = stream_poll_write fuel rid wk data s) /\
  (forall bufs, io_write_vectored io bufs s = stream_poll_write fuel rid wk (first_nonempty bufs) s) /\
  io_flush io s = stream_poll_flush s /\ io_shutdown io s = stream_poll_close rid wk s.
Proof.
  intros Hb io. split.
  - pose proof (adapt_reads _ (tcp_io fuel rid wk) ws (tcp_reads fuel rid wk) b s Hb) as Hr. fold io in Hr.
    assert (Hroom : remaining (MkBuf (filled_bytes b) (zlen (raw b))) = Z.of_nat (raw_remaining b)).
    { unfold remaining, zlen, raw_remaining. simpl. rewrite filled_length by done. destruct Hb. lia. }
    revert Hr. unfold tokio_poll_read, tcp_core. m_unfold. destruct (intern wk s) as [[id|e] s1]; [|done].
    unfold ocall. simpl. rewrite Hroom. destruct (poll_read fuel id rid _ s1.2) as [[data|e] c2]; simpl.
    + destruct (Z.ltb_spec (Z.of_nat (raw_remaining b)) (zlen data)); simpl;
        intros (b' & Hrun & (Hwf & Hlen & Hfill) & _); exists b'; rewrite ?app_nil_r in Hfill; done.
    + destruct e; simpl; intros (b' & Hrun & (Hwf & Hlen & Hfill) & _); exists b'; rewrite ?app_nil_r in Hfill; done.
  - destruct (adapt_writes (tcp_io fuel rid wk) ws) as (Hw & Hf & Hs & Hv); [done|]. fold io in Hw, Hf, Hs, Hv.
    rewrite Hw, Hf, Hs. split_and!; try done. intros bufs. by rewrite Hv.
Qed.
End Streams.

(** A read of the socket through two adapters, into a buffer that holds a byte
    already. *)
Lemma hyper_io_transparent_witness :
  let b := MkRaw [5; 0; 0; 0] 1 1 in
  let s := (MkWakers [] [], ToyChannel.ctx0) in
  exists r b' s', io_read (foldl adapt (tcp_io 5 (Int 9) tt) [AsHyper; AsTokio; AsAddr 80]) b s = (Ok (r, b'), s') /\
    r = PReady (Err (OcallError_code NotFound)) /\ filled_bytes b' = [5].
Proof.
  intros b s. destruct (hyper_io_transparent 5 (Int 9) tt [AsHyper; AsTokio; AsAddr 80] b s) as [Hr _]; [split; simpl; lia|].
  destruct (tokio_poll_read 5 (Int 9) tt (MkBuf (filled_bytes b) (zlen (raw b))) s) as [[[r buf]|e] s'] eqn:Ht.
  - destruct Hr as (b' & Hrun & _ & Hf & _). exists r, b', s'. destruct buf as [fl cap].
    apply (f_equal (fun x => (fun p => (p.1, filled p.2)) <$> x.1)) in Ht. vm_compute in Ht. injection Ht as Hr' Hf'.
    split; [exact Hrun|]. split; [by rewrite <- Hr'|by rewrite Hf, <- Hf'].
  - apply (f_equal fst) in Ht. vm_compute in Ht. discriminate.
Defined.
