(* ===== verification/LinearMemory.v ===== *)
(** * Linear memories (wapo-host/src/linear_memory.rs)

    The creator of the guests' memories, which recycles buffers through a pool. *)
From S2P Require Import Prelude.

Record MemoryPool : Type := MkPool {
  pool_limit : Z;
  (** [None] when the pool is disabled; the last buffer is on top *)
  pool : option (list bytes)
}.

Definition zeros (n : Z) : bytes := replicate (Z.to_nat n) 0.

Definition pool_new (limit pool_size : Z) : MemoryPool :=
  MkPool limit (if 0 <? pool_size then Some (replicate (Z.to_nat pool_size) (zeros limit)) else None).

Record Memory : Type := MkMemory {
  mem_limit : Z;
  memory : bytes;
  (** whether the buffer goes back to the pool *)
  pooled : bool
}.

Definition byte_size (m : Memory) : Z := zlen (memory m).

(** [Vec::resize(new_size, 0)]. *)
Definition vec_resize (v : bytes) (n : Z) : bytes := firstn (Z.to_nat n) v ++ zeros (n - zlen v).

Definition grow_to (new_size : Z) (m : Memory) : result anyhow unit * Memory :=
  if mem_limit m <? new_size then (Err (Msg "memory limit exceeded"), m)
  else if zlen (memory m) <? new_size
  then (Ok tt, MkMemory (mem_limit m) (vec_resize (memory m) new_size) (pooled m))
  else (Ok tt, m).

(** [new_memory]; the type is 64-bit, shared. *)
Definition new_memory (is_64 is_shared : bool) (minimum : Z) (maximum reserved : option Z) (guard_size : Z)
  : M MemoryPool string Memory := fun p =>
  if is_64 || is_shared then (Err "unsupported memory type", p) else
  match pool p, reserved with
  | None, Some _ => (Err "reserved size is not supported", p)
  | Some _, _ =>
    if pool_limit p <? default 0 reserved then (Err "reserved size is too large", p) else
    if negb (guard_size =? 0) then (Err "guard size is not supported", p) else
    let limit := Z.min (default (pool_limit p) maximum) (pool_limit p) in
    match pool p with
    | Some l =>
      match last l with
      | Some m => (Ok (MkMemory limit (vec_resize [] minimum) true),
                   MkPool (pool_limit p) (Some (removelast l)))
      | None => (Err "mem pool: out of memory", p)
      end
    | None => (Err "mem pool: out of memory", p)
    end
  | None, None =>
    if negb (guard_size =? 0) then (Err "guard size is not supported", p) else
    let limit := Z.min (default (pool_limit p) maximum) (pool_limit p) in
    (Ok (MkMemory limit (zeros minimum) false), p)
  end.

(** [Drop for Memory]. *)
Definition drop_memory (m : Memory) (p : MemoryPool) : MemoryPool :=
  match pool p with
  | Some l => if pooled m then MkPool (pool_limit p) (Some (l ++ [memory m])) else p
  | None => p
  end.

(** ** An engine at work *)
Record Engine : Type := MkEngine { e_pool : MemoryPool; live_mem : gmap nat Memory }.

Inductive mem_op : Type :=
| MNew (id : nat) (is_64 is_shared : bool) (minimum : Z) (maximum reserved : option Z) (guard_size : Z)
| MGrow (id : nat) (new_size : Z)
| MWrite (id : nat) (data : bytes)
| MDrop (id : nat).

(** The engine asks for a memory under a free id; the guest overwrites its
    memory. *)
Definition mem_step (e : Engine) (op : mem_op) : Engine :=
  match op with
  | MNew id is_64 is_shared mn mx rs g =>
    match live_mem e !! id with
    | Some _ => e
    | None =>
      match new_memory is_64 is_shared mn mx rs g (e_pool e) with
      | (Ok m, p) => MkEngine p (<[id := m]> (live_mem e))
      | (Err _, p) => MkEngine p (live_mem e)
      end
    end
  | MGrow id n =>
    match live_mem e !! id with
    | Some m => MkEngine (e_pool e) (<[id := (grow_to n m).2]> (live_mem e))
    | None => e
    end
  | MWrite id data =>
    match live_mem e !! id with
    | Some m => if zlen data =? byte_size m
                then MkEngine (e_pool e) (<[id := MkMemory (mem_limit m) data (pooled m)]> (live_mem e))
                else e
    | None => e
    end
  | MDrop id =>
    match live_mem e !! id with
    | Some m => MkEngine (drop_memory m (e_pool e)) (delete id (live_mem e))
    | None => e
    end
  end.

(** A minimum is a size, and not above the limit. *)
Definition op_ok (limit : Z) (op : mem_op) : Prop :=
  match op with
  | MNew _ _ _ mn mx _ _ => 0 <= mn <= Z.min limit (default limit mx)
  | _ => True
  end.

Record engine_inv (limit size0 : Z) (e : Engine) : Prop := {
  ei_limit : pool_limit (e_pool e) = limit;
  (** buffers are neither lost nor made *)
  ei_count : match pool (e_pool e) with
             | Some l => 0 < size0 /\ zlen l + Z.of_nat (size (live_mem e)) = size0
             | None => size0 <= 0
             end;
  ei_mem : map_Forall (fun _ m => byte_size m <= mem_limit m <= limit /\
             pooled m = bool_decide (is_Some (pool (e_pool e)))) (live_mem e)
}.

Lemma zeros_length n : 0 <= n -> zlen (zeros n) = n.
Proof. intros. unfold zlen, zeros. rewrite length_replicate. lia. Qed.

Lemma vec_resize_length v n : 0 <= n -> zlen (vec_resize v n) = n.
Proof.
  intros Hn. unfold vec_resize. rewrite zlen_app. unfold zlen, zeros.
  rewrite length_take, length_replicate. lia.
Qed.

Lemma removelast_length (l : list bytes) m : last l = Some m -> zlen (removelast l) = zlen l - 1.
Proof.
  intros Hl. apply last_Some in Hl as [l' ->]. rewrite removelast_last, zlen_app. unfold zlen. simpl. lia.
Qed.

(** A new memory is zeroed, of the requested size. *)
Lemma new_memory_spec is_64 sh mn mx rs g p m p' : 0 <= mn ->
  new_memory is_64 sh mn mx rs g p = (Ok m, p') ->
  memory m = zeros mn /\ mem_limit m = Z.min (default (pool_limit p) mx) (pool_limit p) /\
  pool_limit p' = pool_limit p /\ is_64 = false /\ sh = false /\ g = 0 /\
  match pool p with
  | Some l => pooled m = true /\ exists l', pool p' = Some l' /\ zlen l' = zlen l - 1
  | None => pooled m = false /\ p' = p
  end.
Proof.
  intros Hmn. unfold new_memory. destruct is_64, sh; simpl; try done.
  destruct (pool p) as [l|] eqn:Hp.
  - destruct (_ <? _); [done|]. destruct (Z.eqb_spec g 0); simpl; [|done].
    destruct (last l) as [b|] eqn:Hl; [|done]. intros [= <- <-]. simpl.
    unfold vec_resize. rewrite take_nil. simpl. change (zlen (@nil Z)) with 0. rewrite Z.sub_0_r.
    split_and!; try done. eexists. split; [done|]. by eapply removelast_length.
  - destruct rs; [done|]. destruct (Z.eqb_spec g 0); simpl; [|done]. intros [= <- <-]. done.
Qed.

Lemma new_memory_err is_64 sh mn mx rs g p e p' :
  new_memory is_64 sh mn mx rs g p = (Err e, p') -> p' = p.
Proof. unfold new_memory. repeat case_match; naive_solver. Qed.

Lemma mem_step_inv limit size0 e op : op_ok limit op -> engine_inv limit size0 e ->
  engine_inv limit size0 (mem_step e op).
Proof.
  intros Hop He. pose proof He as [Hl Hc Hm].
  destruct op as [id is_64 sh mn mx rs g|id n|id d|id]; simpl;
    destruct (live_mem e !! id) as [m|] eqn:Hi; try done.
  - destruct (new_memory is_64 sh mn mx rs g (e_pool e)) as [[m|er] p'] eqn:Hn.
    2: { apply new_memory_err in Hn as ->. by destruct e. }
    simpl in Hop. apply new_memory_spec in Hn as (Hz & Hlim & Hpl & _ & _ & _ & Hp); [|lia].
    assert (Hb : byte_size m <= mem_limit m <= limit).
    { unfold byte_size. rewrite Hz, zeros_length, Hlim, Hl by lia. lia. }
    split; simpl; [congruence|..].
    + destruct (pool (e_pool e)) as [l|] eqn:Hpool.
      * destruct Hp as (_ & l' & -> & Hl'). rewrite map_size_insert_None by done. lia.
      * destruct Hp as [_ ->]. by rewrite Hpool.
    + apply map_Forall_insert_2.
      * split; [done|]. destruct (pool (e_pool e)) as [l|] eqn:Hpool.
        -- destruct Hp as (-> & l' & -> & _). by rewrite bool_decide_true.
        -- destruct Hp as [-> ->]. rewrite Hpool, bool_decide_false; [done|]. by intros [].
      * eapply map_Forall_impl; [exact Hm|]. intros k x [Hx ->]. split; [done|].
        destruct (pool (e_pool e)) as [l|] eqn:Hpool.
        -- destruct Hp as (_ & l' & -> & _). by rewrite !bool_decide_true.
        -- destruct Hp as [_ ->]. by rewrite Hpool.
  - destruct (Hm _ _ Hi) as [Hb Hpo].
    assert (Hg : byte_size (grow_to n m).2 <= mem_limit (grow_to n m).2 <= limit /\
      pooled (grow_to n m).2 = pooled m).
    { unfold grow_to. destruct (Z.ltb_spec (mem_limit m) n); [done|].
      destruct (Z.ltb_spec (zlen (memory m)) n); [|done]. simpl. split; [|done].
      unfold byte_size. simpl. pose proof (zlen_nonneg (memory m)). rewrite vec_resize_length by lia. lia. }
    split; simpl; [done|by rewrite map_size_insert_Some by eauto|].
    apply map_Forall_insert_2; [|done]. destruct Hg as [? ->]. done.
  - destruct (Z.eqb_spec (zlen d) (byte_size m)) as [Hd|]; [|done]. destruct (Hm _ _ Hi) as [Hb Hpo].
    split; simpl; [done|by rewrite map_size_insert_Some by eauto|].
    apply map_Forall_insert_2; [|done]. split; [|done]. unfold byte_size. simpl. rewrite Hd. done.
  - destruct (Hm _ _ Hi) as [Hb Hpo]. unfold drop_memory.
    assert (size (live_mem e) <> 0%nat) by (apply map_size_ne_0_lookup; eauto).
    destruct (pool (e_pool e)) as [l|] eqn:Hpool.
    + rewrite bool_decide_true in Hpo by done. rewrite Hpo. split; simpl; [done|..].
      * rewrite map_size_delete_Some by eauto. rewrite zlen_app. change (zlen [memory m]) with 1. lia.
      * apply map_Forall_delete. eapply map_Forall_impl; [exact Hm|]. intros k x [Hx ->].
        split; [done|]. by rewrite !bool_decide_true.
    + split; simpl; [done|by rewrite Hpool|]. rewrite Hpool. by apply map_Forall_delete.
Qed.

(** The memory pool, under any use of any number of memories: no memory
    exceeds its own limit or the pool's, buffers are neither lost nor created (so
    at most [pool_size] memories exist at a time), and every new memory consists
    of zeros, whatever its recycled buffer contained before. *)
Theorem memory_pool_correct limit pool_size ops : 0 <= limit -> Forall (op_ok limit) ops ->
  let e := foldl mem_step (MkEngine (pool_new limit pool_size) ∅) ops in
  engine_inv limit pool_size e /\
  forall is_64 sh mn mx rs g m p', 0 <= mn ->
    new_memory is_64 sh mn mx rs g (e_pool e) = (Ok m, p') -> memory m = zeros mn.
Proof.
  intros Hlim Hops e. split; [|intros; by eapply new_memory_spec].
  assert (H0 : engine_inv limit pool_size (MkEngine (pool_new limit pool_size) ∅)).
  { split; simpl; [done| |done]. unfold pool_new. simpl. destruct (Z.ltb_spec 0 pool_size); [|done].
    split; [done|]. unfold zlen. rewrite length_replicate, map_size_empty. lia. }
  subst e. revert H0. generalize (MkEngine (pool_new limit pool_size) ∅).
  induction Hops as [|op ops Hop Hops IH]; intros e He; [done|]. simpl. apply IH. by apply mem_step_inv.
Qed.
Lemma memory_pool_correct_witness :
  let e := foldl mem_step (MkEngine (pool_new 4 1) ∅)
    [MNew 0 false false 2 None None 0; MWrite 0 [7; 7]; MGrow 0 3; MDrop 0] in
  engine_inv 4 1 e /\ pool (e_pool e) = Some [[7; 7; 0]].
Proof.
  split; [|reflexivity].
  apply (memory_pool_correct 4 1 [MNew 0 false false 2 None None 0; MWrite 0 [7; 7]; MGrow 0 3; MDrop 0]); [lia|].
  apply Forall_cons_2; [simpl; lia|]. do 3 (apply Forall_cons_2; [exact I|]). apply Forall_nil_2.
Defined.
