(* ===== verification/SniAgent.v ===== *)
(** * TLS listening by server name (sni-tls-listener/src/listener.rs, agent.rs)

    One listener per worker accepts TLS connections and hands each to the
    subscriber of its server name.  An agent multiplexes the subscription of one
    name to several subscribers, or queues a connection and asks for a new
    instance.  The agent's forwarding task, the listener and the guests interleave
    at the locks of listener and agent. *)
From S2P Require Import Prelude.

Section Sni.
(** A TLS connection, a certified key, and the check of a key for a name at a time. *)
Context {Conn Key : Type} (verify_certifacate : Z -> Key -> bytes -> result anyhow unit).

(** [SubscribeInfo]: the key and the channel of 32 connections whose receiver the
    task [ls_task] holds. *)
Record LSub : Type := MkLSub { ls_key : Key; ls_task : nat; ls_buf : list Conn }.

(** [SubState]: queued connections with their times, the subscriptions with the
    contents of their channels of one connection, and the forwarding task that the
    cancel sender keeps alive. *)
Record SubState : Type := MkSub {
  sub_queue : list (Z * Conn);
  subscriptions : gmap Z (list Conn);
  ss_task : nat
}.

Record AgentState : Type := MkAgent {
  subscribers : gmap bytes SubState;
  reuse_subscriber : bool;
  connect_timeout : Z
}.

(** A listener with its agents.  [tasks] are the forwarding tasks with their agent
    and name, [cancelled] those whose cancel sender is gone; [created] are the
    requests for a new instance, by agent. *)
Record Sni : Type := MkSni {
  l_subs : gmap bytes LSub;
  verify_flag : bool;
  agents : gmap nat AgentState;
  tasks : gmap nat (nat * bytes);
  cancelled : gset nat;
  next_sub_id : Z;
  next_task : nat;
  created : list nat
}.
Abbreviation SniM := (M Sni anyhow).

Definition sni_new (verify : bool) : Sni := MkSni ∅ verify ∅ ∅ ∅ 0 0 [].

Definition set_l_subs (m : gmap bytes LSub) (s : Sni) : Sni :=
  MkSni m (verify_flag s) (agents s) (tasks s) (cancelled s) (next_sub_id s) (next_task s) (created s).
Definition set_agents (m : gmap nat AgentState) (s : Sni) : Sni :=
  MkSni (l_subs s) (verify_flag s) m (tasks s) (cancelled s) (next_sub_id s) (next_task s) (created s).
Definition set_sub (a : nat) (st : AgentState) (d : bytes) (ss : SubState) (s : Sni) : Sni :=
  set_agents (<[a := MkAgent (<[d := ss]> (subscribers st)) (reuse_subscriber st) (connect_timeout st)]>
                (agents s)) s.
Definition cancel (ts : gset nat) (s : Sni) : Sni :=
  MkSni (l_subs s) (verify_flag s) (agents s) (tasks s) (ts ∪ cancelled s) (next_sub_id s) (next_task s) (created s).

(** ** The listener *)
Definition check_key (now : Z) (key : Key) (name : bytes) (s : Sni) : result anyhow unit :=
  if verify_flag s then verify_certifacate now key name else Ok tt.

Definition update_key (now : Z) (name : bytes) (key : Key) : SniM unit := fun s =>
  match check_key now key name s with
  | Err e => (Err e, s)
  | Ok _ =>
    match l_subs s !! name with
    | None => (Err (Msg "server_name not subscribed"), s)
    | Some l => (Ok tt, set_l_subs (<[name := MkLSub key (ls_task l) (ls_buf l)]> (l_subs s)) s)
    end
  end.

(** [subscribe]: the receiver is given to the new task [t]. *)
Definition listener_subscribe (now : Z) (name : bytes) (key : Key) (t : nat) : SniM unit := fun s =>
  match check_key now key name s with
  | Err e => (Err e, s)
  | Ok _ =>
    match l_subs s !! name with
    | Some _ => (Err (Msg "server_name already subscribed"), s)
    | None => (Ok tt, set_l_subs (<[name := MkLSub key t []]> (l_subs s)) s)
    end
  end.

(** The end of [listening_service] for a connection to [name]. *)
Definition incoming (name : bytes) (c : Conn) (s : Sni) : Sni :=
  match l_subs s !! name with
  | None => s
  | Some l =>
    match tasks s !! ls_task l with
    | None => set_l_subs (delete name (l_subs s)) s
    | Some _ =>
      if 32 <=? zlen (ls_buf l) then s
      else set_l_subs (<[name := MkLSub (ls_key l) (ls_task l) (ls_buf l ++ [c])]> (l_subs s)) s
    end
  end.

(** A forwarding task ends: its subscription is dropped, which removes the name. *)
Definition end_task (t : nat) (s : Sni) : Sni :=
  match tasks s !! t with
  | None => s
  | Some (_, name) =>
    MkSni (delete name (l_subs s)) (verify_flag s) (agents s) (delete t (tasks s)) (cancelled s)
      (next_sub_id s) (next_task s) (created s)
  end.

(** ** The agent *)
Definition sub_channel : SniM Z := fun s =>
  (Ok (next_sub_id s), MkSni (l_subs s) (verify_flag s) (agents s) (tasks s) (cancelled s)
                         (next_sub_id s + 1) (next_task s) (created s)).

(** [AgentState::subscribe] of agent [a]: the id of the subscription. *)
Definition subscribe (now : Z) (a : nat) (domain : bytes) (key : Key) : SniM Z := fun s =>
  match agents s !! a with
  | None => (Err (Msg "no agent"), s)
  | Some st =>
    match subscribers st !! domain with
    | Some ss =>
      (update_key now domain key;;
       id ← sub_channel;
       let '(front, rest) := match sub_queue ss with
                             | [] => ([], []) | (_, c) :: q => ([c], q) end in
       modify (set_sub a st domain (MkSub rest (<[id := front]> (subscriptions ss)) (ss_task ss)));;
       mret id) s
    | None =>
      (listener_subscribe now domain key (next_task s);;
       id ← sub_channel;
       modify (fun s => MkSni (l_subs s) (verify_flag s) (agents s)
                 (<[next_task s := (a, domain)]> (tasks s)) (cancelled s) (next_sub_id s)
                 (S (next_task s)) (created s));;
       modify (set_sub a st domain (MkSub [] {[ id := [] ]} (next_task s)));;
       mret id) s
    end
  end.

(** [dispatch_connection]. *)
Definition dispatch_connection (now : Z) (a : nat) (domain : bytes) (c : Conn) : SniM unit := fun s =>
  match agents s !! a with
  | None => (Err (Msg "no agent"), s)
  | Some st =>
    match subscribers st !! domain with
    | None => (Err (Msg "no subscribers"), s)
    | Some ss =>
      match (if reuse_subscriber st then first_value (subscriptions ss) else None) with
      | Some (id, buf) =>
        if (length buf =? 0)%nat
        then (Ok tt, set_sub a st domain (MkSub (sub_queue ss) (<[id := [c]]> (subscriptions ss)) (ss_task ss)) s)
        else (Err (Ctx "failed to dispatch the connection" (Msg "subscriber buffer full")), s)
      | None =>
        let s := set_sub a st domain (MkSub (sub_queue ss ++ [(now, c)]) (subscriptions ss) (ss_task ss)) s in
        (Ok tt, MkSni (l_subs s) (verify_flag s) (agents s) (tasks s) (cancelled s) (next_sub_id s)
                  (next_task s) (created s ++ [a]))
      end
    end
  end.

(** One round of the forwarding task. *)
Definition forward (now : Z) (t : nat) (s : Sni) : Sni :=
  match tasks s !! t with
  | None => s
  | Some (a, name) =>
    match l_subs s !! name with
    | None => s
    | Some l =>
      match ls_buf l with
      | [] => s
      | c :: buf =>
        let s := set_l_subs (<[name := MkLSub (ls_key l) (ls_task l) buf]> (l_subs s)) s in
        match agents s !! a with
        | None => end_task t s
        | Some _ => (dispatch_connection now a name c s).2
        end
      end
    end
  end.

(** The checker of queued connections. *)
Definition clear_timeout_connections (now : Z) (a : nat) (domain : bytes) (s : Sni) : Sni :=
  match agents s !! a with
  | None => s
  | Some st =>
    match subscribers st !! domain with
    | None => s
    | Some ss => set_sub a st domain
        (MkSub (filter (fun e => now - e.1 < connect_timeout st) (sub_queue ss)) (subscriptions ss) (ss_task ss)) s
    end
  end.

Definition unsubscribe (a : nat) (domain : bytes) : SniM unit := fun s =>
  match agents s !! a with
  | None => (Err (Msg "no agent"), s)
  | Some st =>
    match subscribers st !! domain with
    | None => (Err (Msg "no subscribers"), s)
    | Some ss => (Ok tt, cancel {[ ss_task ss ]} (set_agents
        (<[a := MkAgent (delete domain (subscribers st)) (reuse_subscriber st) (connect_timeout st)]>
           (agents s)) s))
    end
  end.

(** A subscription is dropped. *)
Definition remove_sub (a : nat) (domain : bytes) (id : Z) : SniM unit := fun s =>
  match agents s !! a with
  | None => (Ok tt, s)
  | Some st =>
    match subscribers st !! domain with
    | None => (Err (Msg "no subscribers"), s)
    | Some ss =>
      match subscriptions ss !! id with
      | None => (Err (Msg "no subscription"), s)
      | Some _ =>
        let subs := delete id (subscriptions ss) in
        let s := set_sub a st domain (MkSub (sub_queue ss) subs (ss_task ss)) s in
        if (size subs =? 0)%nat then unsubscribe a domain s else (Ok tt, s)
      end
    end
  end.

(** [Subscription::next] of a guest's subscription. *)
Definition sub_next (a : nat) (domain : bytes) (id : Z) (s : Sni) : option Conn * Sni :=
  match agents s !! a with
  | None => (None, s)
  | Some st =>
    match subscribers st !! domain with
    | None => (None, s)
    | Some ss =>
      match subscriptions ss !! id with
      | Some (c :: buf) =>
        (Some c, set_sub a st domain (MkSub (sub_queue ss) (<[id := buf]> (subscriptions ss)) (ss_task ss)) s)
      | _ => (None, s)
      end
    end
  end.

(** A new agent, as every instance gets one; the end of an instance drops its
    agent with all cancel senders. *)
Definition agent_new (a : nat) (reuse : bool) (timeout : Z) (s : Sni) : Sni :=
  match agents s !! a with
  | None => set_agents (<[a := MkAgent ∅ reuse timeout]> (agents s)) s
  | Some _ => s
  end.
Definition drop_agent (a : nat) (s : Sni) : Sni :=
  match agents s !! a with
  | None => s
  | Some st => cancel (list_to_set (ss_task <$> (map_to_list (subscribers st)).*2))
                 (set_agents (delete a (agents s)) s)
  end.

Inductive sni_op : Type :=
| SNewAgent (a : nat) (reuse : bool) (timeout : Z)
| SDropAgent (a : nat)
| SSubscribe (now : Z) (a : nat) (domain : bytes) (key : Key)
| SRemoveSub (a : nat) (domain : bytes) (id : Z)
| SIncoming (name : bytes) (c : Conn)
| SForward (now : Z) (t : nat)
| STimeout (now : Z) (a : nat) (domain : bytes)
| SNext (a : nat) (domain : bytes) (id : Z)
| SCancelled (t : nat).

Definition sni_step (s : Sni) (op : sni_op) : Sni :=
  match op with
  | SNewAgent a reuse timeout => agent_new a reuse timeout s
  | SDropAgent a => drop_agent a s
  | SSubscribe now a d key => (subscribe now a d key s).2
  | SRemoveSub a d id => (remove_sub a d id s).2
  | SIncoming n c => incoming n c s
  | SForward now t => forward now t s
  | STimeout now a d => clear_timeout_connections now a d s
  | SNext a d id => (sub_next a d id s).2
  | SCancelled t => if bool_decide (t ∈ cancelled s) then end_task t s else s
  end.

(** ** The invariant: a name belongs to one task, and its agent *)
Record sni_inv (s : Sni) : Prop := {
  si_agents : forall a st d ss, agents s !! a = Some st -> subscribers st !! d = Some ss ->
    tasks s !! ss_task ss = Some (a, d) /\ ss_task ss ∉ cancelled s;
  si_tasks : forall t a d, tasks s !! t = Some (a, d) ->
    exists l, l_subs s !! d = Some l /\ ls_task l = t;
  si_subs : forall d l, l_subs s !! d = Some l -> exists a, tasks s !! ls_task l = Some (a, d);
  si_next : forall t, is_Some (tasks s !! t) \/ t ∈ cancelled s -> (t < next_task s)%nat
}.

Lemma sni_new_inv v : sni_inv (sni_new v).
Proof. split; simpl; try done. intros t [[x Hx]|Ht]; [done|set_solver]. Qed.

(** The agents' queues and channels do not matter, only their tasks. *)
Lemma set_sub_inv a st d ss ss' s : sni_inv s -> agents s !! a = Some st ->
  subscribers st !! d = Some ss -> ss_task ss' = ss_task ss -> sni_inv (set_sub a st d ss' s).
Proof.
  intros [] Ha Hd Ht. split; simpl; try done.
  intros b stb e sse [[<- <-]|[Hb Hstb]]%lookup_insert_Some; simpl; [|eauto].
  intros [[<- <-]|[He Hsse]]%lookup_insert_Some; [rewrite Ht|]; eauto.
Qed.

(** Nor does what is in the listener's channels. *)
Lemma set_buf_inv d l l' s : sni_inv s -> l_subs s !! d = Some l -> ls_task l' = ls_task l ->
  sni_inv (set_l_subs (<[d := l']> (l_subs s)) s).
Proof.
  intros [] Hl Ht. split; simpl; try done.
  - intros t a e Hte. destruct (si_tasks0 _ _ _ Hte) as (l0 & Hl0 & <-).
    destruct (decide (d = e)) as [<- |Hne].
    + rewrite lookup_insert_eq. simplify_eq. eauto.
    + rewrite lookup_insert_ne by done. eauto.
  - intros e l0 [[<- <-]|[He Hl0]]%lookup_insert_Some; [rewrite Ht|]; eauto.
Qed.

Lemma end_task_inv t s : sni_inv s ->
  (forall a st d ss, agents s !! a = Some st -> subscribers st !! d = Some ss -> ss_task ss <> t) ->
  sni_inv (end_task t s).
Proof.
  intros [] Hno. unfold end_task. destruct (tasks s !! t) as [[a d]|] eqn:Ht; [|by split].
  destruct (si_tasks0 _ _ _ Ht) as (l & Hl & Hlt). split; simpl.
  - intros b st e ss Hb He. destruct (si_agents0 _ _ _ _ Hb He) as [Hte Hc]. split; [|done].
    rewrite lookup_delete_ne; [done|]. intros Heq. by apply (Hno _ _ _ _ Hb He).
  - intros t' b e [Hne Hte]%lookup_delete_Some. destruct (si_tasks0 _ _ _ Hte) as (l' & Hl' & Hlt').
    exists l'. rewrite lookup_delete_ne; [done|]. intros <-. simplify_eq.
  - intros e l' [Hne Hl']%lookup_delete_Some. destruct (si_subs0 _ _ Hl') as [b Hb]. exists b.
    rewrite lookup_delete_ne; [done|]. intros Heq. rewrite <- Heq, Ht in Hb. congruence.
  - intros t'. rewrite lookup_delete_is_Some. intros [[_ ?]|?]; auto.
Qed.

(** Cancelling tasks that no agent refers to. *)
Lemma cancel_inv ts s : sni_inv s -> (forall t, t ∈ ts -> is_Some (tasks s !! t)) ->
  (forall a st d ss, agents s !! a = Some st -> subscribers st !! d = Some ss -> ss_task ss ∉ ts) ->
  sni_inv (cancel ts s).
Proof.
  intros [] Hts Hno. split; simpl; try done.
  - intros a st d ss Ha Hd. destruct (si_agents0 _ _ _ _ Ha Hd) as [Ht Hc]. split; [done|].
    apply not_elem_of_union. split; [by eapply Hno|done].
  - intros t [Ht|[Ht|Ht]%elem_of_union]; apply si_next0; auto.
Qed.

(** Removing agents' entries keeps what the rest needs. *)
Lemma set_agents_inv m s : sni_inv s ->
  (forall a st d ss, m !! a = Some st -> subscribers st !! d = Some ss ->
     exists st', agents s !! a = Some st' /\ subscribers st' !! d = Some ss) ->
  sni_inv (set_agents m s).
Proof.
  intros [] Hm. split; simpl; try done. intros a st d ss Ha Hd.
  destruct (Hm _ _ _ _ Ha Hd) as (st' & Ha' & Hd'). eauto.
Qed.

(** Two entries with the same task are the same entry. *)
Lemma task_owner s a b sta stb d e ssa ssb : sni_inv s ->
  agents s !! a = Some sta -> subscribers sta !! d = Some ssa ->
  agents s !! b = Some stb -> subscribers stb !! e = Some ssb ->
  ss_task ssa = ss_task ssb -> a = b /\ d = e.
Proof.
  intros [] Ha Hd Hb He Heq. destruct (si_agents0 _ _ _ _ Ha Hd) as [Hta _].
  destruct (si_agents0 _ _ _ _ Hb He) as [Htb _]. rewrite Heq in Hta. by simplify_eq.
Qed.

Lemma unsubscribe_inv a d s : sni_inv s -> sni_inv (unsubscribe a d s).2.
Proof.
  intros Hs. unfold unsubscribe. destruct (agents s !! a) as [st|] eqn:Ha; [|done].
  destruct (subscribers st !! d) as [ss|] eqn:Hd; [|done]. cbn [snd].
  set (m := <[a := _]> (agents s)).
  assert (Hm : forall b stb e sse, m !! b = Some stb -> subscribers stb !! e = Some sse ->
    exists st', agents s !! b = Some st' /\ subscribers st' !! e = Some sse /\ (b = a -> e <> d)).
  { intros b stb e sse Hb He. subst m.
    apply lookup_insert_Some in Hb as [[<- <-]|[Hne Hb]]; simpl in He.
    - apply lookup_delete_Some in He as [Hne He]. exists st. naive_solver.
    - exists stb. naive_solver. }
  apply cancel_inv.
  - apply set_agents_inv; [done|]. intros b stb e sse Hb He.
    destruct (Hm _ _ _ _ Hb He) as (st' & ? & ? & _). eauto.
  - intros t ->%elem_of_singleton. simpl. destruct (si_agents s Hs _ _ _ _ Ha Hd) as [-> _]. eauto.
  - intros b stb e sse Hb He. destruct (Hm _ _ _ _ Hb He) as (st' & Hb' & He' & Hne).
    apply not_elem_of_singleton. intros Heq.
    destruct (task_owner s b a st' st e d sse ss Hs Hb' He' Ha Hd Heq) as [-> ->]. by apply Hne.
Qed.

Lemma remove_sub_inv a d id s : sni_inv s -> sni_inv (remove_sub a d id s).2.
Proof.
  intros Hs. unfold remove_sub. destruct (agents s !! a) as [st|] eqn:Ha; [|done].
  destruct (subscribers st !! d) as [ss|] eqn:Hd; [|done].
  destruct (subscriptions ss !! id); [|done].
  set (s1 := set_sub _ _ _ _ _). assert (Hs1 : sni_inv s1) by (by eapply set_sub_inv).
  destruct (_ =? _)%nat; [by apply unsubscribe_inv|done].
Qed.

Lemma drop_agent_inv a s : sni_inv s -> sni_inv (drop_agent a s).
Proof.
  intros Hs. unfold drop_agent. destruct (agents s !! a) as [st|] eqn:Ha; [|done].
  assert (Hin : forall t, t ∈ (list_to_set (ss_task <$> (map_to_list (subscribers st)).*2) : gset nat) ->
    exists d ss, subscribers st !! d = Some ss /\ t = ss_task ss).
  { intros t [ss [-> ([d ss'] & -> & Hd)%list_elem_of_fmap]]%elem_of_list_to_set%list_elem_of_fmap.
    apply elem_of_map_to_list in Hd. eauto. }
  apply cancel_inv.
  - apply set_agents_inv; [done|]. intros b stb e sse [_ Hb]%lookup_delete_Some He. eauto.
  - intros t (d & ss & Hd & ->)%Hin. simpl. destruct (si_agents s Hs _ _ _ _ Ha Hd) as [-> _]. eauto.
  - simpl. intros b stb e sse [Hne Hb]%lookup_delete_Some He (d & ss & Hd & Heq)%Hin.
    destruct (task_owner s b a stb st e d sse ss Hs Hb He Ha Hd Heq) as [-> _]. done.
Qed.

Lemma subscribe_inv now a d key s : sni_inv s -> sni_inv (subscribe now a d key s).2.
Proof.
  intros Hs. unfold subscribe. destruct (agents s !! a) as [st|] eqn:Ha; [|done].
  destruct (subscribers st !! d) as [ss|] eqn:Hd.
  - unfold update_key, sub_channel. m_unfold. destruct (check_key now key d s); [|done].
    destruct (l_subs s !! d) as [l|] eqn:Hl; [|done].
    destruct (sub_queue ss) as [|[n c] q]; cbn [snd].
    all: eapply set_sub_inv; [|done..|by simpl].
    all: pose proof (set_buf_inv d l (MkLSub key (ls_task l) (ls_buf l)) s Hs Hl eq_refl) as []; by split.
  - unfold listener_subscribe, sub_channel. m_unfold. destruct (check_key now key d s); [|done].
    destruct (l_subs s !! d) as [l|] eqn:Hl; [done|]. cbn [snd]. destruct Hs.
    assert (Hfresh : tasks s !! next_task s = None).
    { apply eq_None_not_Some. intros Hx. assert (next_task s < next_task s)%nat by auto. lia. }
    assert (Hfresh' : next_task s ∉ cancelled s).
    { intros Hx. assert (next_task s < next_task s)%nat by auto. lia. }
    split; simpl.
    + intros b stb e sse [[<- <-]|[Hb Hstb]]%lookup_insert_Some; simpl.
      * intros [[<- <-]|[He Hsse]]%lookup_insert_Some; simpl; [by rewrite lookup_insert_eq|].
        destruct (si_agents0 _ _ _ _ Ha Hsse) as [Ht Hc]. split; [|done].
        rewrite lookup_insert_ne; [done|]. intros Heq. rewrite <- Heq in Ht. congruence.
      * intros He. destruct (si_agents0 _ _ _ _ Hstb He) as [Ht Hc]. split; [|done].
        rewrite lookup_insert_ne; [done|]. intros Heq. rewrite <- Heq in Ht. congruence.
    + intros t b e [[<- [= <- <-]]|[Hne Ht]]%lookup_insert_Some; [rewrite lookup_insert_eq; eauto|].
      destruct (si_tasks0 _ _ _ Ht) as (l & Hl' & <-). exists l. split; [|done].
      rewrite lookup_insert_ne; [done|]. intros <-. congruence.
    + intros e l [[<- <-]|[Hne Hl']]%lookup_insert_Some; simpl; [rewrite lookup_insert_eq; eauto|].
      destruct (si_subs0 _ _ Hl') as [b Hb]. exists b. rewrite lookup_insert_ne; [done|].
      intros Heq. rewrite <- Heq in Hb. congruence.
    + intros t. rewrite lookup_insert_is_Some'. intros [[<- |Ht]|Ht]; [lia|..];
        (assert (t < next_task s)%nat by auto); lia.
Qed.

Lemma dispatch_inv now a d c s : sni_inv s -> sni_inv (dispatch_connection now a d c s).2.
Proof.
  intros Hs. unfold dispatch_connection. destruct (agents s !! a) as [st|] eqn:Ha; [|done].
  destruct (subscribers st !! d) as [ss|] eqn:Hd; [|done].
  destruct (if reuse_subscriber st then _ else _) as [[id buf]|].
  - destruct (_ =? _)%nat; [|done]. by eapply set_sub_inv.
  - simpl. pose proof (set_sub_inv a st d ss (MkSub (sub_queue ss ++ [(now, c)]) (subscriptions ss) (ss_task ss))
      s Hs Ha Hd eq_refl) as []. by split.
Qed.

Lemma forward_inv now t s : sni_inv s -> sni_inv (forward now t s).
Proof.
  intros Hs. unfold forward. destruct (tasks s !! t) as [[a n]|] eqn:Ht; [|done].
  destruct (l_subs s !! n) as [l|] eqn:Hl; [|done]. destruct (ls_buf l) as [|c buf]; [done|].
  set (s1 := set_l_subs _ _). assert (Hs1 : sni_inv s1) by (by eapply set_buf_inv).
  destruct (agents s1 !! a) as [st|] eqn:Ha; [by apply dispatch_inv|].
  apply end_task_inv; [done|]. intros b st d ss Hb Hd Heq.
  destruct (si_agents s1 Hs1 _ _ _ _ Hb Hd) as [Htb _]. rewrite Heq in Htb. simpl in Htb.
  rewrite Ht in Htb. simplify_eq.
Qed.

Lemma sni_step_inv s op : sni_inv s -> sni_inv (sni_step s op).
Proof.
  intros Hs. destruct op; simpl.
  - unfold agent_new. destruct (agents s !! a) eqn:Ha; [done|]. apply set_agents_inv; [done|].
    intros b stb e sse [[<- <-]|[_ Hb]]%lookup_insert_Some He; [done|eauto].
  - by apply drop_agent_inv.
  - by apply subscribe_inv.
  - by apply remove_sub_inv.
  - unfold incoming. destruct (l_subs s !! name) as [l|] eqn:Hl; [|done].
    destruct (si_subs s Hs _ _ Hl) as [a ->]. destruct (_ <=? _); [done|]. by eapply set_buf_inv.
  - by apply forward_inv.
  - unfold clear_timeout_connections. destruct (agents s !! a) as [st|] eqn:Ha; [|done].
    destruct (subscribers st !! domain) as [ss|] eqn:Hd; [|done]. by eapply set_sub_inv.
  - unfold sub_next. destruct (agents s !! a) as [st|] eqn:Ha; [|done].
    destruct (subscribers st !! domain) as [ss|] eqn:Hd; [|done].
    destruct (subscriptions ss !! id) as [[|c buf]|]; try done. by eapply set_sub_inv.
  - case_bool_decide as Hc; [|done]. apply end_task_inv; [done|]. intros a st d ss Ha Hd <-.
    by destruct (si_agents s Hs _ _ _ _ Ha Hd).
Qed.

Lemma sni_run_inv v ops : sni_inv (foldl sni_step (sni_new v) ops).
Proof.
  assert (H : forall s, sni_inv s -> sni_inv (foldl sni_step s ops)).
  { induction ops as [|op ops IH]; intros s Hs; [done|]. simpl. by apply IH, sni_step_inv. }
  apply H, sni_new_inv.
Qed.

(** A server name belongs to one agent at a time: in every reachable state,
    while an agent has a subscriber for a name, no other agent has one, and none
    can get one, since its subscription is refused without any effect.  Every
    instance has an agent of its own, so an instance that was created to serve a
    queued connection cannot take it over. *)
Theorem sni_name_exclusive v ops a b d now key :
  let s := foldl sni_step (sni_new v) ops in
  forall sta stb, agents s !! a = Some sta -> agents s !! b = Some stb -> a <> b ->
  is_Some (subscribers sta !! d) ->
  subscribers stb !! d = None /\
  exists e, subscribe now b d key s = (Err e, s) /\
    (e = Msg "server_name already subscribed" \/ check_key now key d s = Err e).
Proof.
  intros s sta stb Ha Hb Hab [ss Hd]. assert (Hs : sni_inv s) by apply sni_run_inv.
  clearbody s. destruct Hs.
  destruct (si_agents0 _ _ _ _ Ha Hd) as [Hta _].
  destruct (si_tasks0 _ _ _ Hta) as (l & Hl & Hlt).
  assert (Hnone : subscribers stb !! d = None).
  { destruct (subscribers stb !! d) as [ss'|] eqn:Hd'; [|done].
    destruct (si_agents0 _ _ _ _ Hb Hd') as [Htb _].
    destruct (si_tasks0 _ _ _ Htb) as (l' & Hl' & Hlt'). simplify_eq. congruence. }
  split; [done|]. unfold subscribe. rewrite Hb, Hnone. unfold listener_subscribe. m_unfold.
  destruct (check_key now key d s) as [u|e]; [|eauto]. rewrite Hl. eauto.
Qed.
End Sni.

(** Two instances, the second created for a connection that the first queued. *)
Lemma sni_name_exclusive_witness :
  let ops := [SNewAgent 0 false 5; SSubscribe 0 0 [1] tt; SIncoming [1] 77; SForward 3 0; SNewAgent 1 false 5] in
  let s := foldl (sni_step (fun _ _ _ => Ok tt)) (sni_new true) ops in
  created s = [0%nat] /\
  exists e, subscribe (fun _ _ _ => Ok tt) 9 1 [1] tt s = (Err e, s).
Proof.
  intros ops s. split; [vm_compute; reflexivity|].
  destruct (sni_name_exclusive (fun _ _ _ => Ok tt) true ops 0 1 [1] 9 tt
    (MkAgent {[ [1] := MkSub [(3, 77)] {[ 0 := [] ]} 0 ]} false 5) (MkAgent ∅ false 5)) as [_ (e & He & _)].
  - vm_compute. reflexivity.
  - vm_compute. reflexivity.
  - discriminate.
  - vm_compute. eexists. reflexivity.
  - exists e. exact He.
Defined.
