(* ===== verification/SniListener.v ===== *)
(** * Accepting TLS connections (sni-tls-listener/src/listener.rs)

    The service that accepts sockets, shakes hands with the key of the server name
    the client asks for, and hands the connection to the listener of SniAgent; the
    loading and the verification of certificates.  The service, the handshakes, the
    agents and the guests interleave. *)
From S2P Require Import Prelude SniAgent.

(** ** Certificates *)

(** What a PEM file contains, and the forms of a private key. *)
Inductive PemItem : Type := Pkcs1Key (der : bytes) | Pkcs8Key (der : bytes) | Sec1Key (der : bytes) | OtherItem.
Inductive PrivateKeyDer : Type := Pkcs1 (der : bytes) | Pkcs8 (der : bytes) | Sec1 (der : bytes).

(** rustls and its helpers; the provider may be missing. *)
Class Rustls := {
  SigningKey : Type;
  pem_certs : bytes -> list (result anyhow bytes);
  read_all : bytes -> list (result anyhow PemItem);
  load_private_key : option (PrivateKeyDer -> result anyhow SigningKey);
  build_verifier : result anyhow unit;
  server_name_try_from : bytes -> result anyhow bytes;
  verify_server_cert : bytes -> list bytes -> bytes -> bytes -> Z -> result anyhow unit;
  keys_match : list bytes -> SigningKey -> result anyhow unit
}.

Section Certificates.
Context `{Rustls}.
Record CertifiedKey : Type := MkCertified { cert : list bytes; signing_key : SigningKey; ocsp : option bytes }.

(** [collect] into a result: the first error. *)
Fixpoint collect_results {A} (l : list (result anyhow A)) : result anyhow (list A) :=
  match l with
  | [] => Ok []
  | r :: l => x ← r; xs ← collect_results l; Ok (x :: xs)
  end.

Definition wrap_certified_key (pem_cert pem_key : bytes) : result anyhow CertifiedKey :=
  certs ← context "invalid certificate" (collect_results (pem_certs pem_cert));
  first ← ok_or (head (read_all pem_key)) (Msg "no key found");
  item ← context "invalid key" first;
  der ← match item with
        | Pkcs1Key k => Ok (Pkcs1 k)
        | Pkcs8Key k => Ok (Pkcs8 k)
        | Sec1Key k => Ok (Sec1 k)
        | OtherItem => Err (Msg "invalid key")
        end;
  load ← ok_or load_private_key (Msg "no crypto provider");
  key ← context "failed to load private key" (load der);
  Ok (MkCertified certs key None).

Definition verify_certifacate (now : Z) (k : CertifiedKey) (server_name : bytes) : result anyhow unit :=
  build_verifier;;
  match cert k with
  | [] => Err (Msg "no end entity cert")
  | end_entity :: intermediates =>
    name ← context "invalid dnsname" (server_name_try_from server_name);
    verify_server_cert end_entity intermediates name (default [] (ocsp k)) now;;
    keys_match (cert k) (signing_key k)
  end.

(** ** The service *)

(** [Connection]: the stream, by the number of its socket, and the peer. *)
Record Connection : Type := MkConnection { c_stream : nat; c_remote_addr : bytes }.
Abbreviation SniState := (Sni (Conn := Connection) (Key := CertifiedKey)).
Abbreviation SniOp := (sni_op (Conn := Connection) (Key := CertifiedKey)).

(** The task of a socket: spawned, or with a permit in a handshake since some time;
    then with the name and key once the client's hello was answered. *)
Inductive hs_state : Type := Spawned | Shaking (since : Z) (hello : option (bytes * CertifiedKey)).

(** [sv_sessions] has the TLS sessions: the name that was asked for and the key that
    was presented.  [sv_held]: the worker keeps the listener.  [sv_got] is what guests received: agent,
    name, subscription and connection. *)
Record Serving : Type := MkServing {
  sv_sni : SniState;
  sv_tasks : gmap nat (bytes * hs_state);
  sv_sessions : gmap nat (bytes * CertifiedKey);
  sv_next : nat;
  sv_held : bool;
  sv_running : bool;
  sv_got : list (nat * bytes * Z * Connection)
}.
Definition serve_new (verify : bool) : Serving := MkServing (sni_new verify) ∅ ∅ 0 true true [].
Definition set_tasks (m : gmap nat (bytes * hs_state)) (s : Serving) : Serving :=
  MkServing (sv_sni s) m (sv_sessions s) (sv_next s) (sv_held s) (sv_running s) (sv_got s).

Definition PERMITS : nat := 1024.
Definition HANDSHAKE_TIMEOUT : Z := 10000.
Definition permits_used (s : Serving) : nat :=
  map_sum (fun _ t => match t.2 with Spawned => 0 | Shaking _ _ => 1 end)%nat (sv_tasks s).
(** The state of the listener is kept by the worker, by the agents and by the tasks
    of the sockets. *)
Definition upgradable (s : Serving) : bool :=
  sv_held s || negb (bool_decide (agents (sv_sni s) = ∅)) || negb (bool_decide (sv_tasks s = ∅)).

(** A socket is accepted. *)
Definition accept (peer : bytes) (s : Serving) : Serving :=
  if negb (sv_running s) then s
  else if upgradable s
  then MkServing (sv_sni s) (<[sv_next s := (peer, Spawned)]> (sv_tasks s)) (sv_sessions s) (S (sv_next s)) (sv_held s) true
    (sv_got s)
  else MkServing (sv_sni s) (sv_tasks s) (sv_sessions s) (sv_next s) (sv_held s) false (sv_got s).
(** The task of a socket starts. *)
Definition start_task (now : Z) (k : nat) (s : Serving) : Serving :=
  match sv_tasks s !! k with
  | Some (peer, Spawned) =>
    if (permits_used s <? PERMITS)%nat then set_tasks (<[k := (peer, Shaking now None)]> (sv_tasks s)) s
    else set_tasks (delete k (sv_tasks s)) s
  | _ => s
  end.
(** [resolve]: the key of the name that the client asks for. *)
Definition resolve (server_name : option bytes) (s : Serving) : option CertifiedKey :=
  if upgradable s then name ← server_name; ls_key <$> l_subs (sv_sni s) !! name else None.
(** The client's hello arrives; without a key the handshake fails. *)
Definition client_hello (k : nat) (server_name : option bytes) (s : Serving) : Serving :=
  match sv_tasks s !! k with
  | Some (peer, Shaking since None) =>
    match server_name, resolve server_name s with
    | Some name, Some key => set_tasks (<[k := (peer, Shaking since (Some (name, key)))]> (sv_tasks s)) s
    | _, _ => set_tasks (delete k (sv_tasks s)) s
    end
  | _ => s
  end.
(** A handshake succeeds, fails, or takes too long. *)
Definition handshake_done (k : nat) (s : Serving) : Serving :=
  match sv_tasks s !! k with
  | Some (peer, Shaking _ (Some (name, key))) =>
    MkServing (incoming name (MkConnection k peer) (sv_sni s)) (delete k (sv_tasks s))
      (<[k := (name, key)]> (sv_sessions s)) (sv_next s) (sv_held s) (sv_running s) (sv_got s)
  | _ => s
  end.
Definition handshake_failed (k : nat) (s : Serving) : Serving :=
  match sv_tasks s !! k with
  | Some (_, Shaking _ _) => set_tasks (delete k (sv_tasks s)) s
  | _ => s
  end.
Definition handshake_timeout (now : Z) (k : nat) (s : Serving) : Serving :=
  match sv_tasks s !! k with
  | Some (_, Shaking since _) => if since + HANDSHAKE_TIMEOUT <=? now then set_tasks (delete k (sv_tasks s)) s else s
  | _ => s
  end.
(** What agents and guests do; connections come in only by handshakes. *)
Definition agent_op (op : SniOp) (s : Serving) : Serving :=
  match op with
  | SIncoming _ _ => s
  | SNext a d id =>
    let '(c, sni) := sub_next a d id (sv_sni s) in
    MkServing sni (sv_tasks s) (sv_sessions s) (sv_next s) (sv_held s) (sv_running s)
      (sv_got s ++ match c with Some c => [(a, d, id, c)] | None => [] end)
  | _ => MkServing (sni_step verify_certifacate (sv_sni s) op) (sv_tasks s) (sv_sessions s) (sv_next s) (sv_held s)
           (sv_running s) (sv_got s)
  end.

Inductive serve_op : Type :=
| LAccept (peer : bytes)
| LStart (now : Z) (k : nat)
| LHello (k : nat) (server_name : option bytes)
| LDone (k : nat)
| LFailed (k : nat)
| LTimeout (now : Z) (k : nat)
| LAgent (op : SniOp)
| LRelease
| LTerminate.
Definition serve_step (s : Serving) (op : serve_op) : Serving :=
  match op with
  | LAccept peer => accept peer s
  | LStart now k => start_task now k s
  | LHello k n => client_hello k n s
  | LDone k => handshake_done k s
  | LFailed k => handshake_failed k s
  | LTimeout now k => handshake_timeout now k s
  | LAgent op => agent_op op s
  | LRelease => MkServing (sv_sni s) (sv_tasks s) (sv_sessions s) (sv_next s) false (sv_running s) (sv_got s)
  | LTerminate =>
    MkServing (sv_sni s) (sv_tasks s) (sv_sessions s) (sv_next s) (sv_held s) (sv_running s && upgradable s) (sv_got s)
  end.
End Certificates.

(** ** Where a connection is *)

(** The number of connections in the listener's channels, the agents' queues and the
    subscriptions that satisfy a predicate of the name they are kept for. *)
Section Occurrences.
Context {Conn Key : Type} (verify : Z -> Key -> bytes -> result anyhow unit) (P : bytes -> Conn -> bool).
Definition count (d : bytes) (l : list Conn) : nat := length (filter (fun c => P d c = true) l).
Definition sub_occ (d : bytes) (ss : SubState) : nat :=
  (count d (sub_queue ss).*2 + map_sum (fun (_ : Z) buf => count d buf) (subscriptions ss))%nat.
Definition agent_occ (_ : nat) (st : AgentState) : nat := map_sum sub_occ (subscribers st).
Definition lsub_occ (d : bytes) (l : LSub (Conn := Conn) (Key := Key)) : nat := count d (ls_buf l).
Definition sni_occ (s : Sni) : nat := (map_sum lsub_occ (l_subs s) + map_sum agent_occ (agents s))%nat.

Lemma count_app d l1 l2 : count d (l1 ++ l2) = (count d l1 + count d l2)%nat.
Proof. unfold count. by rewrite filter_app, length_app. Qed.
Lemma count_nil d : count d [] = 0%nat.
Proof. done. Qed.
Lemma count_one d c : count d [c] = if P d c then 1%nat else 0%nat.
Proof. unfold count, filter. simpl. destruct (P d c); by case_decide. Qed.
Lemma count_cons d c l : count d (c :: l) = ((if P d c then 1 else 0) + count d l)%nat.
Proof. rewrite <- count_one. apply (count_app d [c] l). Qed.
Lemma count_filter d (Q : Z * Conn -> Prop) `{!forall x, Decision (Q x)} l :
  (count d (filter Q l).*2 <= count d l.*2)%nat.
Proof.
  induction l as [|[t c] l IH]; [done|]. rewrite filter_cons. case_decide; rewrite ?fmap_cons; cbn [snd]; rewrite ?count_cons; lia.
Qed.

(** Replacing the state of a name of an agent, and adding one. *)
Lemma set_sub_occ a st d ss ss' s : agents s !! a = Some st -> subscribers st !! d = Some ss ->
  (sni_occ (set_sub a st d ss' s) + sub_occ d ss = sni_occ s + sub_occ d ss')%nat.
Proof.
  intros Ha Hd. unfold sni_occ, set_sub, set_agents. simpl. rewrite map_sum_insert.
  rewrite (map_sum_delete agent_occ (agents s) a st) by done. unfold agent_occ at 1 3. simpl.
  rewrite map_sum_insert, (map_sum_delete sub_occ (subscribers st) d ss) by done. lia.
Qed.
Lemma set_sub_occ_new a st d ss' s : agents s !! a = Some st -> subscribers st !! d = None ->
  sni_occ (set_sub a st d ss' s) = (sni_occ s + sub_occ d ss')%nat.
Proof.
  intros Ha Hd. unfold sni_occ, set_sub, set_agents. simpl. rewrite map_sum_insert.
  rewrite (map_sum_delete agent_occ (agents s) a st) by done. unfold agent_occ at 1 3. simpl.
  rewrite map_sum_insert, delete_id by done. lia.
Qed.
Lemma set_buf_occ d l l' s : l_subs s !! d = Some l ->
  (sni_occ (set_l_subs (<[d := l']> (l_subs s)) s) + count d (ls_buf l) = sni_occ s + count d (ls_buf l'))%nat.
Proof.
  intros Hl. unfold sni_occ. simpl. rewrite map_sum_insert, (map_sum_delete lsub_occ (l_subs s) d l) by done.
  unfold lsub_occ. lia.
Qed.
(** The queue, and the channel of one subscription. *)
Lemma sub_occ_insert d q (subs : gmap Z (list Conn)) id b b' t : subs !! id = Some b ->
  (sub_occ d (MkSub q (<[id := b']> subs) t) + count d b = sub_occ d (MkSub q subs t) + count d b')%nat.
Proof.
  intros Hb. unfold sub_occ. simpl. rewrite map_sum_insert, (map_sum_delete _ subs id b) by done. simpl. lia.
Qed.

Lemma end_task_occ t s : (sni_occ (end_task t s) <= sni_occ s)%nat.
Proof.
  unfold end_task. destruct (tasks s !! t) as [[a d]|]; [|done]. unfold sni_occ. simpl.
  pose proof (map_sum_delete_le lsub_occ (l_subs s) d). lia.
Qed.
End Occurrences.

Section Steps.
Context {Conn Key : Type} (verify : Z -> Key -> bytes -> result anyhow unit) (P : bytes -> Conn -> bool).
Abbreviation occ := (sni_occ (Key := Key) P).

Lemma incoming_occ n c s : (occ (incoming n c s) <= occ s + if P n c then 1 else 0)%nat.
Proof.
  unfold incoming. destruct (l_subs s !! n) as [l|] eqn:Hl; [|lia].
  destruct (tasks s !! ls_task l); [destruct (_ <=? _); [lia|]|].
  - pose proof (set_buf_occ P n l (MkLSub (ls_key l) (ls_task l) (ls_buf l ++ [c])) s Hl) as Ho. simpl in Ho.
    rewrite count_app, count_one in Ho. lia.
  - unfold sni_occ. simpl. pose proof (map_sum_delete_le (lsub_occ P) (l_subs s) n). lia.
Qed.
Lemma sub_next_occ a d id s c s' : sub_next a d id s = (c, s') ->
  (occ s' + match c with Some c => if P d c then 1 else 0 | None => 0 end = occ s)%nat.
Proof.
  unfold sub_next. destruct (agents s !! a) as [st|] eqn:Ha; [|intros [= <- <-]; lia].
  destruct (subscribers st !! d) as [ss|] eqn:Hd; [|intros [= <- <-]; lia].
  destruct (subscriptions ss !! id) as [[|x buf]|] eqn:Hb; intros [= <- <-]; try lia.
  pose proof (set_sub_occ P a st d ss (MkSub (sub_queue ss) (<[id := buf]> (subscriptions ss)) (ss_task ss)) s Ha Hd) as Ho.
  pose proof (sub_occ_insert P d (sub_queue ss) (subscriptions ss) id (x :: buf) buf (ss_task ss) Hb) as Hs.
  rewrite count_cons in Hs. destruct ss as [q subs t]. simpl in *. lia.
Qed.
Lemma dispatch_occ now a d c s : (occ (dispatch_connection now a d c s).2 <= occ s + if P d c then 1 else 0)%nat.
Proof.
  unfold dispatch_connection. destruct (agents s !! a) as [st|] eqn:Ha; [|simpl; lia].
  destruct (subscribers st !! d) as [ss|] eqn:Hd; [|simpl; lia].
  destruct (if reuse_subscriber st then _ else _) as [[id buf]|] eqn:Hf.
  - destruct (Nat.eqb_spec (length buf) 0) as [Hb|]; [|simpl; lia]. cbn [snd].
    apply nil_length_inv in Hb as ->.
    assert (Hb : subscriptions ss !! id = Some []).
    { destruct (reuse_subscriber st); [|done]. by apply first_value_Some in Hf as [? _]. }
    pose proof (set_sub_occ P a st d ss (MkSub (sub_queue ss) (<[id := [c]]> (subscriptions ss)) (ss_task ss)) s Ha Hd) as Ho.
    pose proof (sub_occ_insert P d (sub_queue ss) (subscriptions ss) id [] [c] (ss_task ss) Hb) as Hs.
    rewrite count_one, count_nil in Hs. destruct ss as [q subs t]. simpl in *. lia.
  - pose proof (set_sub_occ P a st d ss (MkSub (sub_queue ss ++ [(now, c)]) (subscriptions ss) (ss_task ss)) s Ha Hd) as Ho.
    unfold sub_occ in Ho. simpl in Ho. rewrite fmap_app, count_app in Ho. simpl in Ho. rewrite count_one in Ho.
    unfold sni_occ in *. simpl in *. lia.
Qed.
Lemma forward_occ now t s : (occ (forward now t s) <= occ s)%nat.
Proof.
  unfold forward. destruct (tasks s !! t) as [[a n]|]; [|lia]. destruct (l_subs s !! n) as [l|] eqn:Hl; [|lia].
  destruct (ls_buf l) as [|c buf] eqn:Hb; [lia|].
  pose proof (set_buf_occ P n l (MkLSub (ls_key l) (ls_task l) buf) s Hl) as Ho. rewrite Hb, count_cons in Ho. simpl in Ho.
  set (s1 := set_l_subs _ _) in *. destruct (agents s1 !! a).
  - pose proof (dispatch_occ now a n c s1). lia.
  - pose proof (end_task_occ P t s1). lia.
Qed.
Lemma remove_sub_occ a d id s : (occ (remove_sub a d id s).2 <= occ s)%nat.
Proof.
  unfold remove_sub. destruct (agents s !! a) as [st|] eqn:Ha; [|done].
  destruct (subscribers st !! d) as [ss|] eqn:Hd; [|done].
  destruct (subscriptions ss !! id) as [b|] eqn:Hb; [|done].
  pose proof (set_sub_occ P a st d ss (MkSub (sub_queue ss) (delete id (subscriptions ss)) (ss_task ss)) s Ha Hd) as Ho.
  unfold sub_occ in Ho. simpl in Ho. pose proof (map_sum_delete_le (fun (_ : Z) b => count P d b) (subscriptions ss) id).
  set (s1 := set_sub _ _ _ _ _) in *. assert (occ s1 <= occ s)%nat by lia.
  destruct (_ =? _)%nat; [|done]. etrans; [|done]. unfold unsubscribe.
  destruct (agents s1 !! a) as [st1|] eqn:Ha1; [|done]. destruct (subscribers st1 !! d); [|done].
  unfold sni_occ. simpl. rewrite map_sum_insert, (map_sum_delete _ (agents s1) a st1) by done.
  unfold agent_occ at 1 3. simpl. pose proof (map_sum_delete_le (sub_occ P) (subscribers st1) d). lia.
Qed.
(** Adding a subscription with at most one connection of the queue. *)
Lemma add_sub_occ d q q' front (subs : gmap Z (list Conn)) id t : (count P d q'.*2 + count P d front <= count P d q.*2)%nat ->
  (sub_occ P d (MkSub q' (<[id := front]> subs) t) <= sub_occ P d (MkSub q subs t))%nat.
Proof.
  intros Hq. unfold sub_occ. simpl. rewrite map_sum_insert.
  pose proof (map_sum_delete_le (fun (_ : Z) b => count P d b) subs id). lia.
Qed.
Lemma subscribe_occ now a d key s : (occ (subscribe verify now a d key s).2 <= occ s)%nat.
Proof.
  unfold subscribe. destruct (agents s !! a) as [st|] eqn:Ha; [|done].
  destruct (subscribers st !! d) as [ss|] eqn:Hd.
  - unfold update_key, sub_channel. m_unfold. destruct (check_key verify now key d s); [|done].
    destruct (l_subs s !! d) as [l|] eqn:Hl; [|done].
    pose proof (set_buf_occ P d l (MkLSub key (ls_task l) (ls_buf l)) s Hl) as Hk. cbn [ls_buf] in Hk.
    assert (Hq : forall q' front, (count P d q'.*2 + count P d front <= count P d (sub_queue ss).*2)%nat -> forall s2,
      agents s2 = agents s -> occ s2 = occ s ->
      (occ (set_sub a st d (MkSub q' (<[next_sub_id s := front]> (subscriptions ss)) (ss_task ss)) s2) <= occ s)%nat).
    { intros q' front Hc s2 Hs2 Ho2. destruct ss as [q subs t]. simpl in *.
      pose proof (set_sub_occ P a st d (MkSub q subs t) (MkSub q' (<[next_sub_id s := front]> subs) t) s2) as Ho.
      rewrite Hs2 in Ho. specialize (Ho Ha Hd). pose proof (add_sub_occ d q q' front subs (next_sub_id s) t Hc). lia. }
    destruct (sub_queue ss) as [|[n c] q] eqn:Hsq; cbn [snd]; (apply Hq; [|done|unfold sni_occ in *; simpl in *; lia]).
    + done.
    + rewrite fmap_cons, !count_cons, count_nil. cbn [snd]. lia.
  - unfold listener_subscribe, sub_channel. m_unfold. destruct (check_key verify now key d s); [|done].
    destruct (l_subs s !! d) as [l|] eqn:Hl; [done|]. cbn [snd].
    rewrite set_sub_occ_new by done. unfold sub_occ. cbn [sub_queue subscriptions].
    rewrite <- insert_empty, map_sum_insert, delete_empty, map_sum_empty. unfold sni_occ. simpl.
    rewrite map_sum_insert, delete_id by done. unfold lsub_occ at 1. simpl. unfold count. simpl. lia.
Qed.
(** Only an incoming connection adds one. *)
Lemma sni_step_occ s op : (forall n c, op <> SIncoming n c) -> (occ (sni_step verify s op) <= occ s)%nat.
Proof.
  intros Hop. destruct op; simpl.
  - unfold agent_new. destruct (agents s !! a) eqn:Ha; [done|]. unfold sni_occ. simpl.
    rewrite map_sum_insert, delete_id by done. unfold agent_occ at 1. simpl. rewrite map_sum_empty. lia.
  - unfold drop_agent. destruct (agents s !! a) eqn:Ha; [|done]. unfold sni_occ. simpl.
    pose proof (map_sum_delete_le (agent_occ P) (agents s) a). lia.
  - apply subscribe_occ.
  - apply remove_sub_occ.
  - by destruct (Hop name c).
  - apply forward_occ.
  - unfold clear_timeout_connections. destruct (agents s !! a) as [st|] eqn:Ha; [|done].
    destruct (subscribers st !! domain) as [ss|] eqn:Hd; [|done].
    pose proof (set_sub_occ P a st domain ss (MkSub (filter (fun e => now - e.1 < connect_timeout st) (sub_queue ss))
      (subscriptions ss) (ss_task ss)) s Ha Hd) as Ho.
    unfold sub_occ in Ho. simpl in Ho.
    pose proof (count_filter P domain (fun e => now - e.1 < connect_timeout st) (sub_queue ss)). lia.
  - destruct (sub_next a domain id s) as [c s'] eqn:Hn. apply sub_next_occ in Hn. simpl. lia.
  - case_bool_decide; [apply end_task_occ|done].
Qed.

(** A key of the listener was there before, or has just been checked. *)
Definition old_or_checked (s s' : Sni (Conn := Conn) (Key := Key)) : Prop :=
  verify_flag s' = verify_flag s /\
  forall d l', l_subs s' !! d = Some l' ->
    (exists l, l_subs s !! d = Some l /\ ls_key l = ls_key l') \/ (exists now, check_key verify now (ls_key l') d s = Ok tt).
Lemma same_keys s s' : verify_flag s' = verify_flag s -> l_subs s' = l_subs s -> old_or_checked s s'.
Proof. intros Hf Hs. split; [done|]. rewrite Hs. eauto. Qed.
Lemma buf_keys s d l buf : l_subs s !! d = Some l ->
  old_or_checked s (set_l_subs (<[d := MkLSub (ls_key l) (ls_task l) buf]> (l_subs s)) s).
Proof. intros Hl. split; [done|]. simpl. intros e l' [[<- <-]|[_ He]]%lookup_insert_Some; left; eauto. Qed.
Lemma delete_keys s s' d : verify_flag s' = verify_flag s -> l_subs s' = delete d (l_subs s) -> old_or_checked s s'.
Proof. intros Hf Hs. split; [done|]. rewrite Hs. intros e l' [_ He]%lookup_delete_Some. left. eauto. Qed.
Lemma end_task_keys t s : old_or_checked s (end_task t s).
Proof. unfold end_task. destruct (tasks s !! t) as [[a d]|]; [by apply (delete_keys _ _ d)|by apply same_keys]. Qed.
Lemma dispatch_keys now a d c (s : Sni (Conn := Conn) (Key := Key)) : l_subs (dispatch_connection now a d c s).2 = l_subs s /\
  verify_flag (dispatch_connection now a d c s).2 = verify_flag s.
Proof. unfold dispatch_connection. by repeat case_match. Qed.
Lemma incoming_keys n c s : old_or_checked s (incoming n c s).
Proof.
  unfold incoming. destruct (l_subs s !! n) eqn:Hl; [|by apply same_keys]. destruct (tasks s !! _).
  - destruct (_ <=? _); [by apply same_keys|by apply buf_keys].
  - by apply (delete_keys _ _ n).
Qed.
Lemma sub_next_keys a d id s : old_or_checked s (sub_next a d id s).2.
Proof. unfold sub_next. repeat case_match; by apply same_keys. Qed.
Lemma subscribe_keys now a d key s : old_or_checked s (subscribe verify now a d key s).2.
Proof.
  unfold subscribe. destruct (agents s !! a); [|by apply same_keys]. destruct (subscribers _ !! d) as [ss|].
  - unfold update_key, sub_channel. m_unfold. destruct (check_key verify now key d s) as [[]|] eqn:Hc; [|by apply same_keys].
    destruct (l_subs s !! d); [|by apply same_keys].
    destruct (sub_queue ss) as [|[]]; (split; [done|]); simpl;
      (intros e l' [[<- <-]|[_ He]]%lookup_insert_Some; [right|left]); eauto.
  - unfold listener_subscribe, sub_channel. m_unfold.
    destruct (check_key verify now key d s) as [[]|] eqn:Hc; [|by apply same_keys].
    destruct (l_subs s !! d); [by apply same_keys|]. split; [done|]. simpl.
    intros e l' [[<- <-]|[_ He]]%lookup_insert_Some; [right|left]; eauto.
Qed.
Lemma sni_step_keys s op : old_or_checked s (sni_step verify s op).
Proof.
  destruct op; simpl.
  - unfold agent_new. destruct (agents s !! a); by apply same_keys.
  - unfold drop_agent. destruct (agents s !! a); by apply same_keys.
  - apply subscribe_keys.
  - unfold remove_sub, unsubscribe. repeat case_match; by apply same_keys.
  - apply incoming_keys.
  - unfold forward. destruct (tasks s !! t) as [[a n]|]; [|by apply same_keys].
    destruct (l_subs s !! n) as [l|] eqn:Hl; [|by apply same_keys]. destruct (ls_buf l) as [|c buf]; [by apply same_keys|].
    pose proof (buf_keys s n l buf Hl) as Hb. set (s1 := set_l_subs _ s) in *. destruct (agents s1 !! a).
    + destruct (dispatch_keys now a n c s1) as [Hl1 Hf1], Hb as [Hf Hb]. split; [by rewrite Hf1|by rewrite Hl1].
    + unfold end_task. destruct (tasks s1 !! t) as [[? d]|]; [|done]. destruct Hb as [Hf Hb].
      split; [done|]. simpl. intros e l' [_ He]%lookup_delete_Some. by apply Hb.
  - unfold clear_timeout_connections. repeat case_match; by apply same_keys.
  - apply sub_next_keys.
  - case_bool_decide; [apply end_task_keys|by apply same_keys].
Qed.

(** Every key was checked for its name when it was installed. *)
Definition keys_checked (s : Sni (Conn := Conn) (Key := Key)) : Prop :=
  verify_flag s = true -> forall d l, l_subs s !! d = Some l -> exists t, verify t (ls_key l) d = Ok tt.
Lemma keys_checked_step s s' : old_or_checked s s' -> keys_checked s -> keys_checked s'.
Proof.
  intros [Hf Hk] Hs Hv d l' Hl'. rewrite Hf in Hv. destruct (Hk d l' Hl') as [(l & Hl & <-)|[t Ht]]; [by apply Hs|].
  exists t. unfold check_key in Ht. by rewrite Hv in Ht.
Qed.
End Steps.

(** ** What guests receive *)
Section Delivery.
Context `{Rustls}.

(** Connections that are kept for a subscriber, and that were received. *)
Definition got_occ (P : bytes -> Connection -> bool) (s : Serving) : nat :=
  length (filter (fun e => P e.1.1.2 e.2 = true) (sv_got s)).
Definition kept (P : bytes -> Connection -> bool) (s : Serving) : nat := (sni_occ P (sv_sni s) + got_occ P s)%nat.
Lemma next_kept P a d id s : (kept P (agent_op (SNext a d id) s) = kept P s)%nat.
Proof.
  unfold agent_op. destruct (sub_next a d id (sv_sni s)) as [c s'] eqn:Hn. apply (sub_next_occ P) in Hn.
  unfold kept, got_occ. simpl. rewrite filter_app, length_app. destruct c as [c|]; simpl; [|lia].
  unfold filter at 2. simpl. destruct (P d c); case_decide; simpl; (done || lia).
Qed.
Lemma agent_op_kept P op s : (kept P (agent_op op s) <= kept P s)%nat.
Proof.
  destruct op; try (rewrite next_kept; done); try done.
  all: unfold kept, agent_op, got_occ; cbn [sv_sni sv_got]; apply Nat.add_le_mono_r, sni_step_occ; congruence.
Qed.

Definition socket (k : nat) : bytes -> Connection -> bool := fun _ c => bool_decide (c_stream c = k).
Definition socket_at (k : nat) (n : bytes) : bytes -> Connection -> bool := fun d c => bool_decide (c_stream c = k /\ d = n).
(** A key that was valid for a name at some time, when keys are verified. *)
Definition checked (v : bool) (n : bytes) (key : CertifiedKey) : Prop :=
  v = true -> exists t, verify_certifacate t key n = Ok tt.

(** Sockets are in one place each, which their session's name determines. *)
Record serve_inv (v : bool) (s : Serving) : Prop := {
  in_flag : verify_flag (sv_sni s) = v;
  in_keys : keys_checked verify_certifacate (sv_sni s);
  in_hello : forall k peer since n key, sv_tasks s !! k = Some (peer, Shaking since (Some (n, key))) -> checked v n key;
  in_session : forall k n key, sv_sessions s !! k = Some (n, key) -> checked v n key;
  in_task : forall k, is_Some (sv_tasks s !! k) -> (k < sv_next s)%nat /\ sv_sessions s !! k = None;
  in_old : forall k, (sv_next s <= k)%nat -> sv_sessions s !! k = None;
  in_place : forall k n, fst <$> sv_sessions s !! k <> Some n -> kept (socket_at k n) s = 0%nat;
  in_once : forall k, (kept (socket k) s <= if sv_sessions s !! k is Some _ then 1 else 0)%nat;
  in_permits : (permits_used s <= PERMITS)%nat
}.

Lemma serve_new_inv v : serve_inv v (serve_new v).
Proof.
  split; simpl; try done.
  - intros k [x Hx]. done.
  - unfold permits_used. simpl. rewrite map_sum_empty. lia.
Qed.
(** Changes of tasks only. *)
Lemma end_socket_inv v k s : serve_inv v s -> serve_inv v (set_tasks (delete k (sv_tasks s)) s).
Proof.
  intros []. split; simpl; try done.
  - intros j peer since n key [_ Hj]%lookup_delete_Some. eauto.
  - intros j [x [_ Hj]%lookup_delete_Some]. eauto.
  - unfold permits_used in *. simpl. etrans; [apply map_sum_delete_le|done].
Qed.
Lemma set_task_inv v k peer old new s : serve_inv v s -> sv_tasks s !! k = Some (peer, old) ->
  (forall since n key, new = Shaking since (Some (n, key)) -> checked v n key) ->
  (old = Spawned -> (permits_used s < PERMITS)%nat) -> serve_inv v (set_tasks (<[k := (peer, new)]> (sv_tasks s)) s).
Proof.
  intros [] Hk Hnew Hold. split; simpl; try done.
  - intros j p since n key [[<- [= <- ->]]|[_ Hj]]%lookup_insert_Some; eauto.
  - intros j [x [[<- _]|[_ Hj]]%lookup_insert_Some]; eauto.
  - unfold permits_used in *. simpl. rewrite map_sum_insert. rewrite (map_sum_delete _ _ k _ Hk) in Hold, in_permits0. simpl in *.
    destruct old; [specialize (Hold eq_refl)|]; destruct new; lia.
Qed.
Lemma accept_inv v peer s : serve_inv v s -> serve_inv v (accept peer s).
Proof.
  intros Hs. unfold accept. destruct (negb _); [done|]. destruct (upgradable s); destruct Hs; [|by split].
  split; simpl; try done.
  - intros k p since n key [[_ ?]|[_ Hk]]%lookup_insert_Some; [done|eauto].
  - intros k [x [[<- _]|[_ Hk]]%lookup_insert_Some]; [split; [lia|auto]|].
    destruct (in_task0 k) as [? ?]; [eauto|]. split; [lia|done].
  - intros k Hk. apply in_old0. lia.
  - unfold permits_used in *. simpl. rewrite map_sum_insert. simpl. etrans; [apply map_sum_delete_le|done].
Qed.
Lemma agent_op_inv v op s : serve_inv v s -> serve_inv v (agent_op op s).
Proof.
  intros [].
  assert (Hrest : exists s2 got, agent_op op s =
    MkServing s2 (sv_tasks s) (sv_sessions s) (sv_next s) (sv_held s) (sv_running s) got /\
    old_or_checked verify_certifacate (sv_sni s) s2).
  { destruct op; try (eexists _, _; split; [reflexivity|apply sni_step_keys]); simpl.
    - exists (sv_sni s), (sv_got s). split; [by destruct s|by apply same_keys].
    - pose proof (sub_next_keys verify_certifacate a domain id (sv_sni s)) as Hn.
      destruct (sub_next a domain id (sv_sni s)) as [c s']. eexists _, _. by split. }
  pose proof (fun P => agent_op_kept P op s) as Hkept. destruct Hrest as (s2 & got & Heq & Hk). rewrite Heq in *.
  split; simpl; try done.
  - destruct Hk as [Hf _]. by rewrite Hf.
  - by eapply keys_checked_step.
  - intros k n Hn. specialize (Hkept (socket_at k n)). rewrite (in_place0 k n Hn) in Hkept. lia.
  - intros k. etrans; [apply Hkept|apply in_once0].
Qed.
Lemma done_inv v k s : serve_inv v s -> serve_inv v (handshake_done k s).
Proof.
  intros Hs. unfold handshake_done. destruct (sv_tasks s !! k) as [[peer [|since [[name key]|]]]|] eqn:Hk; try done.
  set (c := MkConnection k peer). destruct (end_socket_inv v k s Hs). simpl in *. destruct (in_task v s Hs k) as [Hlt Hnew]; [eauto|].
  pose proof (incoming_keys verify_certifacate name c (sv_sni s)) as Hkeys.
  pose proof (fun P => incoming_occ P name c (sv_sni s)) as Hocc.
  split; simpl; try done.
  - by destruct Hkeys as [-> _].
  - by eapply keys_checked_step.
  - intros j n key' [[<- [= <- <-]]|[_ Hj]]%lookup_insert_Some; [by eapply (in_hello v s Hs)|eauto].
  - intros j [x [Hne Hj]%lookup_delete_Some]. rewrite lookup_insert_ne by done. apply (in_task v s Hs). eauto.
  - intros j Hj. rewrite lookup_insert_ne by lia. auto.
  - intros j n Hn. specialize (Hocc (socket_at j n)). unfold socket_at at 3 in Hocc. unfold c in Hocc at 2. simpl in Hocc.
    destruct (decide (j = k)) as [->|Hne].
    + rewrite lookup_insert_eq in Hn. simpl in Hn. rewrite bool_decide_false in Hocc by naive_solver.
      pose proof (in_place0 k n) as Hp. rewrite Hnew in Hp. specialize (Hp ltac:(done)). unfold kept, got_occ in *. simpl in *. lia.
    + rewrite lookup_insert_ne in Hn by done. rewrite bool_decide_false in Hocc by naive_solver.
      pose proof (in_place0 j n Hn) as Hp. unfold kept, got_occ in *. simpl in *. lia.
  - intros j. specialize (Hocc (socket j)). unfold socket at 3 in Hocc. unfold c in Hocc at 2. simpl in Hocc.
    pose proof (in_once0 j) as Hp. destruct (decide (j = k)) as [->|Hne].
    + rewrite lookup_insert_eq. rewrite Hnew in Hp. rewrite bool_decide_true in Hocc by done.
      unfold kept, got_occ in *. simpl in *. lia.
    + rewrite lookup_insert_ne by done. rewrite bool_decide_false in Hocc by naive_solver.
      unfold kept, got_occ in *. simpl in *. lia.
Qed.
Lemma resolve_checked v n s key : serve_inv v s -> resolve (Some n) s = Some key -> checked v n key.
Proof.
  intros []. unfold resolve. destruct (upgradable s); [|done]. simpl.
  destruct (l_subs (sv_sni s) !! n) as [l|] eqn:Hl; [|done]. intros [= <-] ->. by apply in_keys0.
Qed.
Lemma serve_step_inv v s op : serve_inv v s -> serve_inv v (serve_step s op).
Proof.
  intros Hs. destruct op; simpl.
  - by apply accept_inv.
  - unfold start_task. destruct (sv_tasks s !! k) as [[peer []]|] eqn:Hk; try done.
    destruct (Nat.ltb_spec (permits_used s) PERMITS); [by eapply set_task_inv|by apply end_socket_inv].
  - unfold client_hello. destruct (sv_tasks s !! k) as [[peer [|since [?|]]]|] eqn:Hk; try done.
    destruct server_name as [n|]; [|by apply end_socket_inv].
    destruct (resolve (Some n) s) as [key|] eqn:Hr; [|by apply end_socket_inv].
    eapply set_task_inv; [done..| |done]. intros ? ? ? [= <- <- <-]. by eapply resolve_checked.
  - by apply done_inv.
  - unfold handshake_failed. destruct (sv_tasks s !! k) as [[peer []]|]; try done. by apply end_socket_inv.
  - unfold handshake_timeout. destruct (sv_tasks s !! k) as [[peer []]|]; try done.
    destruct (_ <=? _); [by apply end_socket_inv|done].
  - by apply agent_op_inv.
  - by destruct Hs; split.
  - by destruct Hs; split.
Qed.
Lemma serve_run_inv v ops : serve_inv v (foldl serve_step (serve_new v) ops).
Proof.
  assert (Hr : forall s, serve_inv v s -> serve_inv v (foldl serve_step s ops)).
  { induction ops as [|op ops IH]; intros s Hs; [done|]. simpl. by apply IH, serve_step_inv. }
  apply Hr, serve_new_inv.
Qed.

Lemma NoDup_by_count {A} (f : A -> nat) l : (forall k, length (filter (fun x => bool_decide (f x = k) = true) l) <= 1)%nat -> NoDup (f <$> l).
Proof.
  induction l as [|x l IH]; intros Hc; simpl; [constructor|]. constructor.
  - intros (y & Hy & Hin)%list_elem_of_fmap. specialize (Hc (f x)). rewrite filter_cons_True in Hc by by apply bool_decide_true.
    assert (Hy' : y ∈ filter (fun z => bool_decide (f z = f x) = true) l).
    { apply list_elem_of_filter. split; [by apply bool_decide_true|done]. }
    destruct (filter _ l); [by apply not_elem_of_nil in Hy'|]. simpl in Hc. lia.
  - apply IH. intros k. specialize (Hc k). rewrite filter_cons in Hc. case_decide; simpl in Hc; lia.
Qed.

(** C27: the TLS listener end to end, for any interleaving of the service, the
    handshakes, the agents and the guests.  A connection that a guest receives from
    a subscription has a session for the name of that subscription, in which a key
    was presented that was valid for this name when a subscriber installed it
    (unless verification is off); a connection is received once at most; and no
    more than 1024 handshakes are in progress. *)
Theorem sni_delivery v ops :
  let s := foldl serve_step (serve_new v) ops in
  (forall a d id c, (a, d, id, c) ∈ sv_got s ->
     exists key, sv_sessions s !! c_stream c = Some (d, key) /\
       (v = true -> exists t, verify_certifacate t key d = Ok tt)) /\
  NoDup ((fun e => c_stream e.2) <$> sv_got s) /\
  (permits_used s <= 1024)%nat.
Proof.
  intros s. assert (Hs : serve_inv v s) by apply serve_run_inv. clearbody s. destruct Hs. split_and!; [|..|done].
  - intros a d id c Hc. destruct (decide (fst <$> sv_sessions s !! c_stream c = Some d)) as [Hd|Hd].
    + destruct (sv_sessions s !! c_stream c) as [[n key]|] eqn:Hk; [|done]. injection Hd as <-. exists key. split; [done|by apply (in_session0 _ _ _ Hk)].
    + specialize (in_place0 _ _ Hd). unfold kept, got_occ in in_place0.
      assert (Hin : (a, d, id, c) ∈ filter (fun e => socket_at (c_stream c) d e.1.1.2 e.2 = true) (sv_got s)).
      { apply list_elem_of_filter. split; [by apply bool_decide_true|done]. }
      destruct (filter _ (sv_got s)); [by apply not_elem_of_nil in Hin|]. simpl in in_place0. lia.
  - apply NoDup_by_count. intros k. specialize (in_once0 k). unfold kept, got_occ, socket in in_once0.
    destruct (sv_sessions s !! k); lia.
Qed.
End Delivery.

(** A certificate is a name and the time until which it is valid. *)
Module ToyTls.
#[export] Instance rustls : Rustls := {
  SigningKey := bytes;
  pem_certs b := [Ok b];
  read_all b := [Ok (Pkcs8Key b)];
  load_private_key := Some (fun d => match d with Pkcs8 k => Ok k | _ => Err (Msg "unsupported") end);
  build_verifier := Ok tt;
  server_name_try_from b := match b with [] => Err (Msg "invalid") | _ => Ok b end;
  verify_server_cert e _ n _ now := if bool_decide (e = n) && (now <? 100) then Ok tt else Err (Msg "invalid peer certificate");
  keys_match c k := Ok tt
}.
Definition key : CertifiedKey := MkCertified [[97]] [1] None.
Definition ops : list serve_op :=
  [LAgent (SNewAgent 0 true 5); LAgent (SSubscribe 7 0 [97] key); LAccept [10]; LAccept [11]; LStart 1 0; LStart 1 1;
   LHello 0 (Some [97]); LHello 1 (Some [98]); LDone 0; LDone 1; LAgent (SForward 3 0); LAgent (SNext 0 [97] 0);
   LAgent (SNext 0 [97] 0)].
End ToyTls.
Import ToyTls.
(** A connection is served, one to an unknown name is not, and a key for another
    name is refused. *)
Example sni_served :
  let s := foldl serve_step (serve_new true) ops in
  wrap_certified_key [97] [1] = Ok key /\
  sv_got s = [(0%nat, [97], 0, MkConnection 0 [10])] /\ sv_tasks s = ∅ /\
  (subscribe verify_certifacate 7 0 [98] key (sv_sni s)).1 = Err (Msg "invalid peer certificate").
Proof. vm_compute. repeat split. Qed.
