(* ===== verification/ModuleLoader.v ===== *)
(** * The module loader (wapo-host/src/module_loader.rs)

    Callers ask for a compiled module; a cache answers, or the call waits for a
    compilation that up to two threads perform from a queue.  The threads and the
    calls interleave at the lock: one event is one critical section. *)
From S2P Require Import Prelude Ordered.

(** ** [LruCache], most recently used first *)
Section Lru.
Context {V : Type}.
Definition mlru_get (k : bytes) (c : list (bytes * V)) : option V * list (bytes * V) :=
  match list_find (fun e => e.1 = k) c with
  | Some (_, (_, v)) => (Some v, (k, v) :: filter (fun e => e.1 <> k) c)
  | None => (None, c)
  end.
Definition mlru_put (cap : nat) (k : bytes) (v : V) (c : list (bytes * V)) : list (bytes * V) :=
  firstn cap ((k, v) :: filter (fun e => e.1 <> k) c).
End Lru.

Section Loader.
(** A compiled module, and [WasmEngine::compile]. *)
Context {WasmModule : Type} (engine_compile : bytes -> result anyhow WasmModule).

(** [max_compilation_tasks] and [queue_cap], which the constructor fixes. *)
Definition max_compilation_tasks : Z := 2.
Definition queue_cap : Z := 128.

(** [ModuleLoaderState].  A broadcast sender is the list of calls that subscribed
    to it.  [threads] are the running [serve_compilation]s: [None] before the
    lock is taken to pop the queue, [Some h] while compiling [h].  [answers] is
    what each call of [load_module] returned, [log] what each compilation gave. *)
Record Loader : Type := MkLoader {
  ml_cache : list (bytes * WasmModule);
  cache_cap : nat;
  compiling : gmap bytes (list nat);
  compiling_tasks : Z;
  ml_queue : list bytes;
  threads : gmap nat (option bytes);
  next_thread : nat;
  answers : list (nat * bytes * result anyhow WasmModule);
  log : list (bytes * result anyhow WasmModule)
}.

Definition loader_new (cache_size : nat) : Loader :=
  MkLoader [] (Nat.max cache_size 1) ∅ 0 [] ∅ 0 [] [].

Definition answer (cs : list nat) (h : bytes) (r : result anyhow WasmModule) (s : Loader) : Loader :=
  MkLoader (ml_cache s) (cache_cap s) (compiling s) (compiling_tasks s) (ml_queue s) (threads s)
    (next_thread s) (answers s ++ ((fun c => (c, h, r)) <$> cs)) (log s).
Definition set_cache (c : list (bytes * WasmModule)) (s : Loader) : Loader :=
  MkLoader c (cache_cap s) (compiling s) (compiling_tasks s) (ml_queue s) (threads s)
    (next_thread s) (answers s) (log s).
Definition set_compiling (m : gmap bytes (list nat)) (s : Loader) : Loader :=
  MkLoader (ml_cache s) (cache_cap s) m (compiling_tasks s) (ml_queue s) (threads s)
    (next_thread s) (answers s) (log s).
Definition set_queue (q : list bytes) (s : Loader) : Loader :=
  MkLoader (ml_cache s) (cache_cap s) (compiling s) (compiling_tasks s) q (threads s)
    (next_thread s) (answers s) (log s).
Definition set_threads (n : Z) (t : gmap nat (option bytes)) (s : Loader) : Loader :=
  MkLoader (ml_cache s) (cache_cap s) (compiling s) n (ml_queue s) t
    (next_thread s) (answers s) (log s).

(** A new compiler thread, if fewer than two run. *)
Definition maybe_spawn (s : Loader) : Loader :=
  if compiling_tasks s <? max_compilation_tasks then
    MkLoader (ml_cache s) (cache_cap s) (compiling s) (compiling_tasks s + 1) (ml_queue s)
      (<[next_thread s := None]> (threads s)) (S (next_thread s)) (answers s) (log s)
  else s.

(** The locked section of [load_module] for the call [c]; a call that is not
    answered here waits on the sender in [compiling]. *)
Definition load_module (c : nat) (code_hash : bytes) (s : Loader) : Loader :=
  let '(hit, cache) := mlru_get code_hash (ml_cache s) in
  match hit with
  | Some m => answer [c] code_hash (Ok m) (set_cache cache s)
  | None =>
    match compiling s !! code_hash with
    | Some waiting => set_compiling (<[code_hash := waiting ++ [c]]> (compiling s)) s
    | None =>
      if queue_cap <=? zlen (ml_queue s)
      then answer [c] code_hash (Err (Msg "module compilation queue is full")) s
      else maybe_spawn (set_compiling (<[code_hash := [c]]> (compiling s))
                         (set_queue (bset_insert code_hash (ml_queue s)) s))
    end
  end.

(** [compile]; [blobs] is what the blob loader gives at the time. *)
Definition compile (blobs : bytes -> result anyhow (option bytes)) (code_hash : bytes)
  : result anyhow WasmModule :=
  code ← context "failed to load module" (blobs code_hash);
  code ← ok_or code (Msg "Wasm code not found");
  context "failed to compile module" (engine_compile code).

(** The two critical sections of [serve_compilation]'s loop. *)
Definition pop_job (i : nat) (s : Loader) : Loader :=
  match ml_queue s with
  | [] => set_threads (compiling_tasks s - 1) (delete i (threads s)) s
  | h :: q => set_threads (compiling_tasks s) (<[i := Some h]> (threads s)) (set_queue q s)
  end.
Definition finish_job (i : nat) (h : bytes) (module : result anyhow WasmModule) (s : Loader) : Loader :=
  let s := set_threads (compiling_tasks s) (<[i := None]> (threads s)) s in
  let s := MkLoader (ml_cache s) (cache_cap s) (compiling s) (compiling_tasks s) (ml_queue s)
             (threads s) (next_thread s) (answers s) (log s ++ [(h, module)]) in
  match compiling s !! h with
  | None => s
  | Some waiting =>
    let s := set_compiling (delete h (compiling s)) s in
    let s := match module with
             | Ok m => set_cache (mlru_put (cache_cap s) h m (ml_cache s)) s
             | Err _ => s
             end in
    answer waiting h module s
  end.

(** A step of thread [i], if it runs. *)
Definition thread_step (i : nat) (blobs : bytes -> result anyhow (option bytes)) (s : Loader) : Loader :=
  match threads s !! i with
  | None => s
  | Some None => pop_job i s
  | Some (Some h) => finish_job i h (compile blobs h) s
  end.

Inductive ml_event : Type :=
| EvLoad (c : nat) (code_hash : bytes)
| EvThread (i : nat) (blobs : bytes -> result anyhow (option bytes)).

Definition loader_step (s : Loader) (e : ml_event) : Loader :=
  match e with
  | EvLoad c h => load_module c h s
  | EvThread i blobs => thread_step i blobs s
  end.
Definition loader_run : Loader -> list ml_event -> Loader := foldl loader_step.

(** ** The invariant *)

(** [h] is being compiled by some thread. *)
Definition in_work (s : Loader) (h : bytes) : Prop := exists i, threads s !! i = Some (Some h).

Record loader_pre (s : Loader) : Prop := {
  li_tasks : compiling_tasks s = Z.of_nat (size (threads s));
  li_max : compiling_tasks s <= max_compilation_tasks;
  li_next : forall i, is_Some (threads s !! i) -> (i < next_thread s)%nat;
  li_nodup : NoDup (ml_queue s);
  li_cap : zlen (ml_queue s) <= queue_cap;
  (** a hash has waiting calls iff it is queued or in work, never both, and in
      work in one thread only *)
  li_dom : forall h, is_Some (compiling s !! h) <-> h ∈ ml_queue s \/ in_work s h;
  li_once : forall h, h ∈ ml_queue s -> ~ in_work s h;
  li_owner : forall i j h, threads s !! i = Some (Some h) -> threads s !! j = Some (Some h) -> i = j;
  li_cache : (length (ml_cache s) <= cache_cap s)%nat
}.
(** Moreover queued work has a thread that will take it. *)
Definition loader_inv (s : Loader) : Prop :=
  loader_pre s /\ (ml_queue s <> [] -> threads s <> ∅).

Lemma mlru_get_length {V} k (c : list (bytes * V)) : (length (mlru_get k c).2 <= length c)%nat.
Proof.
  unfold mlru_get. destruct (list_find _ c) as [[i [k' v]]|] eqn:Hf; [|done].
  apply list_find_Some in Hf as (Hi & Hk & _). simpl in *. subst k'.
  assert (length (filter (fun e => e.1 <> k) c) < length c)%nat; [|lia].
  eapply length_filter_lt; [by eapply list_elem_of_lookup_2|naive_solver].
Qed.

Lemma loader_new_inv n : loader_inv (loader_new n).
Proof.
  assert (Hno : forall h, ~ in_work (loader_new n) h) by (intros h [i Hi]; done).
  split; [|done]. split; simpl; try done.
  - intros i [x Hx]. done.
  - constructor.
  - intros h. split; [by intros [x Hx]|]. intros [Hh|Hh]; [set_solver|by apply Hno in Hh].
  - lia.
Qed.

Lemma answer_inv cs h r s : loader_inv s -> loader_inv (answer cs h r s).
Proof. by intros [[]]. Qed.

Lemma set_cache_inv c s : loader_inv s -> (length c <= cache_cap s)%nat -> loader_inv (set_cache c s).
Proof. by intros [[]]. Qed.

Lemma maybe_spawn_inv s : loader_pre s -> loader_inv (maybe_spawn s).
Proof.
  intros Hs. unfold maybe_spawn.
  destruct (Z.ltb_spec (compiling_tasks s) max_compilation_tasks) as [Hlt|Hge].
  2: { split; [done|]. intros _ He. destruct Hs. rewrite He, map_size_empty in li_tasks0.
       unfold max_compilation_tasks in *. lia. }
  destruct Hs. assert (Hfresh : threads s !! next_thread s = None).
  { apply eq_None_not_Some. intros Hx. specialize (li_next0 _ Hx). lia. }
  set (s1 := MkLoader _ _ _ _ _ _ _ _ _).
  assert (Hwork : forall h, in_work s1 h <-> in_work s h).
  { intros h. split; intros [i Hi]; exists i; simpl in *.
    - by apply lookup_insert_Some in Hi as [[_ ?]|[_ ?]].
    - rewrite lookup_insert_ne; [done|]. intros <-. by rewrite Hfresh in Hi. }
  split; [|intros _; apply insert_non_empty]. split; simpl; try done.
  - rewrite map_size_insert_None by done. lia.
  - lia.
  - intros i. rewrite lookup_insert_is_Some'. intros [<- |Hi]; [lia|]. specialize (li_next0 _ Hi). lia.
  - intros h. by rewrite Hwork.
  - intros h Hh. rewrite Hwork. auto.
  - intros i j h Hi Hj. apply lookup_insert_Some in Hi as [[_ ?]|[_ ?]]; [done|].
    apply lookup_insert_Some in Hj as [[_ ?]|[_ ?]]; [done|eauto].
Qed.

Lemma load_module_inv c h s : loader_inv s -> loader_inv (load_module c h s).
Proof.
  intros Hs. unfold load_module. pose proof (mlru_get_length h (ml_cache s)) as Hlen.
  destruct (mlru_get h (ml_cache s)) as [[m|] ca]; simpl in Hlen.
  { apply answer_inv, set_cache_inv; [done|]. pose proof (li_cache s (proj1 Hs)). lia. }
  destruct (compiling s !! h) as [ws|] eqn:Hc.
  { destruct Hs as [[] Hserved]. split; [|done]. split; try done. intros k. simpl. rewrite lookup_insert_is_Some'. rewrite <- li_dom0.
    split; [|tauto]. intros [<- |?]; [by rewrite Hc|done]. }
  destruct (Z.leb_spec queue_cap (zlen (ml_queue s))) as [|Hcap]; [by apply answer_inv|].
  destruct Hs as [[] Hserved]. assert (Hnot : (h ∉ ml_queue s) /\ (~ in_work s h)).
  { split; intros Hx; assert (is_Some (compiling s !! h)) as [? ?] by (apply li_dom0; tauto); congruence. }
  destruct Hnot as [Hnq Hnw]. pose proof (bset_insert_perm h (ml_queue s) Hnq) as Hp.
  apply maybe_spawn_inv. split; simpl; try done.
  - rewrite Hp. by constructor.
  - unfold zlen in *. rewrite (Permutation_length Hp). simpl. lia.
  - intros k. unfold in_work in *. simpl. rewrite lookup_insert_is_Some', li_dom0, Hp, elem_of_cons.
    naive_solver.
  - intros k. unfold in_work in *. simpl. rewrite Hp, elem_of_cons. intros [-> |Hk]; [done|]. by apply li_once0.
Qed.

Lemma pop_job_inv i s : loader_inv s -> threads s !! i = Some None -> loader_inv (pop_job i s).
Proof.
  intros [[] Hserved] Hi. unfold pop_job. destruct (ml_queue s) as [|h q] eqn:Hq.
  - assert (Hwork : forall k, in_work (set_threads (compiling_tasks s - 1) (delete i (threads s)) s) k
      <-> in_work s k).
    { intros k. split; intros [j Hj]; exists j; simpl in *.
      - by apply lookup_delete_Some in Hj as [_ ?].
      - rewrite lookup_delete_ne; [done|]. intros <-. by rewrite Hi in Hj. }
    split; simpl; [|by rewrite Hq]. split; simpl; rewrite ?Hq; try done.
    + rewrite map_size_delete_Some by eauto.
      assert (size (threads s) <> 0%nat) by (apply map_size_ne_0_lookup; eauto). lia.
    + lia.
    + intros j. rewrite lookup_delete_is_Some. intros [_ ?]. auto.
    + intros k. by rewrite Hwork, li_dom0.
    + intros k Hk. set_solver.
    + intros j j' k Hj Hj'. apply lookup_delete_Some in Hj as [_ ?].
      apply lookup_delete_Some in Hj' as [_ ?]. eauto.
  - apply NoDup_cons in li_nodup0 as [Hnq Hnd].
    assert (Hwork : forall k, in_work (set_threads (compiling_tasks s) (<[i := Some h]> (threads s))
      (set_queue q s)) k <-> k = h \/ in_work s k).
    { intros k. split.
      - intros [j Hj]. simpl in Hj. apply lookup_insert_Some in Hj as [[_ [= ->]]|[_ ?]]; [by left|].
        right. by exists j.
      - intros [-> |[j Hj]].
        + exists i. simpl. by rewrite lookup_insert_eq.
        + exists j. simpl. rewrite lookup_insert_ne; [done|]. intros <-. by rewrite Hi in Hj. }
    split; [|intros _; apply insert_non_empty]. split; simpl; try done.
    + rewrite map_size_insert_Some; [done|by eauto].
    + intros j. rewrite lookup_insert_is_Some'. intros [<- |?]; apply li_next0; [by rewrite Hi|done].
    + rewrite zlen_cons in li_cap0. lia.
    + intros k. rewrite Hwork, li_dom0, elem_of_cons. tauto.
    + intros k Hk. rewrite Hwork. intros [-> |Hw]; [done|]. apply (li_once0 k); [set_solver|done].
    + intros j j' k Hj Hj'. simpl in *.
      assert (Hno : ~ in_work s h) by (apply li_once0; set_solver).
      apply lookup_insert_Some in Hj as [[<- [= <-]]|[? Hj]];
        apply lookup_insert_Some in Hj' as [[<- Hx]|[? Hj']]; try done; try (simplify_eq; exfalso; apply Hno; eexists; done).
      eauto.
Qed.

Lemma finish_job_inv i h r s : loader_inv s -> threads s !! i = Some (Some h) ->
  loader_inv (finish_job i h r s).
Proof.
  intros [[] Hserved] Hi. unfold finish_job. simpl.
  assert (Hc : is_Some (compiling s !! h)) by (apply li_dom0; right; by exists i).
  destruct Hc as [ws Hc]. rewrite Hc.
  apply answer_inv. set (s1 := set_compiling _ _).
  assert (Hwork : forall k, in_work s1 k <-> k <> h /\ in_work s k).
  { intros k. split.
    - intros [j Hj]. subst s1. simpl in Hj. apply lookup_insert_Some in Hj as [[_ ?]|[Hne Hj]]; [done|].
      split; [|by exists j]. intros ->. apply Hne. eauto.
    - intros [Hk [j Hj]]. exists j. subst s1. simpl. rewrite lookup_insert_ne; [done|].
      intros <-. rewrite Hi in Hj. by simplify_eq. }
  assert (Hs1 : loader_inv s1).
  { split; [|intros _; apply insert_non_empty]. split; simpl; try done.
    - rewrite map_size_insert_Some; [done|by eauto].
    - intros j. rewrite lookup_insert_is_Some'. intros [<- |?]; apply li_next0; [by rewrite Hi|done].
    - intros k. rewrite lookup_delete_is_Some, Hwork, li_dom0.
      assert (k ∈ ml_queue s -> h <> k) by (intros Hk ->; apply (li_once0 k Hk); by exists i).
      naive_solver.
    - intros k Hk. rewrite Hwork. intros [_ ?]. by apply (li_once0 k).
    - intros j j' k Hj Hj'. apply lookup_insert_Some in Hj as [[_ ?]|[_ ?]]; [done|].
      apply lookup_insert_Some in Hj' as [[_ ?]|[_ ?]]; [done|eauto]. }
  destruct r as [m|e]; [|done]. apply set_cache_inv; [done|]. unfold mlru_put. rewrite length_take. simpl. lia.
Qed.

Lemma thread_step_inv i got s : loader_inv s -> loader_inv (thread_step i got s).
Proof.
  intros Hs. unfold thread_step. destruct (threads s !! i) as [[h|]|] eqn:Hi; [|..|done].
  - by apply finish_job_inv.
  - by apply pop_job_inv.
Qed.

Lemma loader_run_inv n evs : loader_inv (loader_run (loader_new n) evs).
Proof.
  assert (H : forall s, loader_inv s -> loader_inv (loader_run s evs)).
  { induction evs as [|[c h|i got] evs IH]; intros s Hs; simpl; auto using load_module_inv, thread_step_inv. }
  apply H, loader_new_inv.
Qed.

(** ** Progress *)

(** What is left to do: a queued job takes three steps, a running one two, and a
    thread one more to end. *)
Definition thread_weight (o : option bytes) : Z := match o with None => 1 | Some _ => 2 end.
Definition threads_weight (t : gmap nat (option bytes)) : Z :=
  map_fold (fun _ o n => thread_weight o + n) 0 t.
Definition work (s : Loader) : Z := 3 * zlen (ml_queue s) + threads_weight (threads s).

Lemma threads_weight_delete t i o : t !! i = Some o ->
  threads_weight t = thread_weight o + threads_weight (delete i t).
Proof. intros Hi. unfold threads_weight. rewrite (map_fold_delete_L _ _ i o t); [done|intros; lia|done]. Qed.
Lemma threads_weight_update t i o o' : t !! i = Some o ->
  threads_weight (<[i := o']> t) = threads_weight t - thread_weight o + thread_weight o'.
Proof.
  intros Hi. rewrite (threads_weight_delete t i o Hi), <- insert_delete_eq.
  unfold threads_weight at 1. rewrite map_fold_insert_L; [|intros; lia|apply lookup_delete_eq].
  fold (threads_weight (delete i t)). lia.
Qed.
Lemma threads_weight_nonneg t : 0 <= threads_weight t.
Proof.
  unfold threads_weight. induction t as [|i o t Hi IH] using map_ind; [by rewrite map_fold_empty|].
  rewrite map_fold_insert_L; [|intros; lia|done]. destruct o; simpl; lia.
Qed.
Lemma work_nonneg s : 0 <= work s.
Proof. unfold work. pose proof (zlen_nonneg (ml_queue s)). pose proof (threads_weight_nonneg (threads s)). lia. Qed.

Lemma thread_step_work i blobs s : is_Some (threads s !! i) -> work (thread_step i blobs s) < work s.
Proof.
  intros [[h|] Hi]; unfold thread_step, work; rewrite Hi.
  - unfold finish_job. simpl.
    assert (Hw : threads_weight (<[i := None]> (threads s)) < threads_weight (threads s)).
    { rewrite (threads_weight_update _ _ _ _ Hi). simpl. lia. }
    destruct (compiling s !! h); simpl; [|lia]. destruct (compile blobs h); simpl; lia.
  - unfold pop_job. destruct (ml_queue s) as [|h q] eqn:Hq; simpl.
    + rewrite Hq, (threads_weight_delete _ _ _ Hi). simpl. lia.
    + rewrite zlen_cons, (threads_weight_update _ _ _ _ Hi). simpl. lia.
Qed.

(** Steps of running threads, in any order. *)
Fixpoint live_steps (s : Loader) (sched : list (nat * (bytes -> result anyhow (option bytes)))) : Prop :=
  match sched with
  | [] => True
  | (i, blobs) :: sched =>
    is_Some (threads s !! i) /\ live_steps (thread_step i blobs s) sched
  end.
Definition as_events (sched : list (nat * (bytes -> result anyhow (option bytes)))) : list ml_event :=
  (fun '(i, blobs) => EvThread i blobs) <$> sched.

Lemma live_steps_bound sched : forall s, live_steps s sched -> zlen sched <= work s.
Proof.
  induction sched as [|[i blobs] sched IH]; intros s; simpl.
  - intros _. rewrite zlen_nil. apply work_nonneg.
  - intros [Hi Hs]. rewrite zlen_cons. specialize (IH _ Hs).
    pose proof (thread_step_work i blobs s Hi). lia.
Qed.

(** ** Every call is answered, with what its hash compiles to *)
Definition loads (evs : list ml_event) : list (nat * bytes) :=
  omap (fun e => match e with EvLoad c h => Some (c, h) | EvThread _ _ => None end) evs.

(** Call [c] for [h] has been answered, or waits for [h]. *)
Definition accounted (s : Loader) (c : nat) (h : bytes) : Prop :=
  (exists r, (c, h, r) ∈ answers s) \/ (exists ws, compiling s !! h = Some ws /\ c ∈ ws).

Lemma answer_accounted cs k r s c h : accounted s c h -> accounted (answer cs k r s) c h.
Proof. intros [[r' Hr]|Hw]; [left; exists r'; set_solver|by right]. Qed.

Lemma load_module_accounted c h s : accounted (load_module c h s) c h /\
  forall c' h', accounted s c' h' -> accounted (load_module c h s) c' h'.
Proof.
  unfold load_module. destruct (mlru_get h (ml_cache s)) as [[m|] ca].
  { split; [left; exists (Ok m); set_solver|]. intros c' h' Ha. by apply answer_accounted. }
  destruct (compiling s !! h) as [ws|] eqn:Hc.
  { split.
    - right. exists (ws ++ [c]). simpl. rewrite lookup_insert_eq. split; [done|set_solver].
    - intros c' h' [Hr|(ws' & Hw & Hin)]; [by left|]. right. simpl.
      destruct (decide (h = h')) as [<- |Hne].
      + rewrite lookup_insert_eq. simplify_eq. eexists. split; [done|set_solver].
      + rewrite lookup_insert_ne by done. eauto. }
  destruct (queue_cap <=? _).
  { split; [left; exists (Err (Msg "module compilation queue is full")); set_solver|].
    intros c' h' Ha. by apply answer_accounted. }
  unfold maybe_spawn. simpl.
  assert (Hgen : forall s', answers s' = answers s -> compiling s' = <[h := [c]]> (compiling s) ->
    accounted s' c h /\ forall c' h', accounted s c' h' -> accounted s' c' h').
  { intros s' Hans Hcomp. unfold accounted. rewrite Hans, Hcomp. split.
    - right. exists [c]. rewrite lookup_insert_eq. split; [done|set_solver].
    - intros c' h' [Hr|(ws' & Hw & Hin)]; [by left|]. right. exists ws'.
      rewrite lookup_insert_ne; [done|]. intros ->. by rewrite Hc in Hw. }
  destruct (_ <? _); by apply Hgen.
Qed.

Lemma thread_step_accounted i blobs s c h : accounted s c h -> accounted (thread_step i blobs s) c h.
Proof.
  intros Ha. unfold thread_step. destruct (threads s !! i) as [[k|]|]; [|..|done].
  - unfold finish_job. simpl. destruct (compiling s !! k) as [ws|] eqn:Hk; [|done].
    destruct Ha as [[r Hr]|(ws' & Hw & Hin)].
    + left. exists r. destruct (compile blobs k); set_solver.
    + destruct (decide (k = h)) as [-> |Hne].
      * left. exists (compile blobs h). simplify_eq.
        destruct (compile blobs h); simpl; apply elem_of_app; right; apply list_elem_of_fmap; eauto.
      * right. exists ws'. destruct (compile blobs k); simpl; rewrite lookup_delete_ne by done; done.
  - unfold pop_job. by destruct (ml_queue s).
Qed.

Lemma run_accounted evs : forall s, (forall c h, (c, h) ∈ loads evs -> accounted (loader_run s evs) c h) /\
  forall c h, accounted s c h -> accounted (loader_run s evs) c h.
Proof.
  induction evs as [|e evs IH]; intros s; simpl; [set_solver|].
  destruct (IH (loader_step s e)) as [IH1 IH2]. split.
  - intros c h. destruct e as [c' h'|i blobs]; simpl; [|apply IH1].
    intros [[= <- <-]|Hin]%elem_of_cons; [|by apply IH1]. apply IH2, (proj1 (load_module_accounted _ _ s)).
  - intros c h Ha. apply IH2. destruct e; simpl; [by apply load_module_accounted|by apply thread_step_accounted].
Qed.

Lemma no_threads_no_waiting s : loader_inv s -> threads s = ∅ -> forall h, compiling s !! h = None.
Proof.
  intros [Hs Hserved] Ht h. apply eq_None_not_Some. rewrite (li_dom s Hs h). intros [Hq|[i Hi]].
  - apply Hserved; [|done]. intros Hn. rewrite Hn in Hq. set_solver.
  - by rewrite Ht in Hi.
Qed.

(** C25: loading always ends: after any calls and thread steps, the running
    compiler threads can take only finitely many more steps, whatever their
    interleaving and whatever the blob store gives, and when none is left running
    every call made has been answered. *)
Theorem loads_complete n evs sched :
  let s := loader_run (loader_new n) evs in
  live_steps s sched ->
  zlen sched <= work s /\
  (let s' := loader_run s (as_events sched) in
   threads s' = ∅ -> forall c h, (c, h) ∈ loads evs -> exists r, (c, h, r) ∈ answers s').
Proof.
  intros s Hl. split; [by apply live_steps_bound|]. intros s' Ht c h Hin.
  assert (Hinv : loader_inv s').
  { subst s' s. unfold loader_run. rewrite <- foldl_app. apply loader_run_inv. }
  assert (Ha : accounted s' c h) by (apply run_accounted, (proj1 (run_accounted evs _)), Hin).
  destruct Ha as [Ha|(ws & Hw & _)]; [done|].
  by rewrite (no_threads_no_waiting s' Hinv Ht h) in Hw.
Qed.

(** The loader's bookkeeping, in every reachable state: at most two compiler
    threads run and [compiling_tasks] counts them; a module with waiting calls is
    either queued or compiled by exactly one thread, so no module is compiled
    twice at the same time and no finished compilation misses its waiting calls;
    queue and cache stay within their capacities. *)
Theorem loader_invariant n evs : loader_inv (loader_run (loader_new n) evs).
Proof. apply loader_run_inv. Qed.

(** The blob stores that compilations saw. *)
Definition stores (evs : list ml_event) : list (bytes -> result anyhow (option bytes)) :=
  omap (fun e => match e with EvThread _ b => Some b | EvLoad _ _ => None end) evs.

(** Everything given out or cached is the outcome of a compilation of its hash. *)
Record origin_inv (evs : list ml_event) (s : Loader) : Prop := {
  oi_log : forall h r, (h, r) ∈ log s -> exists b, b ∈ stores evs /\ r = compile b h;
  oi_cache : forall h m, (h, m) ∈ ml_cache s -> (h, Ok m) ∈ log s;
  oi_answers : forall c h r, (c, h, r) ∈ answers s ->
    r = Err (Msg "module compilation queue is full") \/ (h, r) ∈ log s
}.

Lemma mlru_get_sub {V} k (c : list (bytes * V)) :
  (forall e, e ∈ (mlru_get k c).2 -> e ∈ c) /\ (forall v, (mlru_get k c).1 = Some v -> (k, v) ∈ c).
Proof.
  unfold mlru_get. destruct (list_find _ c) as [[i [k' v]]|] eqn:Hf; [|done].
  apply list_find_Some in Hf as (Hi & Hk & _). simpl in *. subst k'.
  apply list_elem_of_lookup_2 in Hi. split.
  - intros e [-> |He]%elem_of_cons; [done|]. by apply list_elem_of_filter in He as [_ ?].
  - by intros ? [= <-].
Qed.

Lemma origin_mono evs evs' s : (forall b, b ∈ stores evs -> b ∈ stores evs') ->
  origin_inv evs s -> origin_inv evs' s.
Proof. intros Hb []. split; try done. intros h r Hr. destruct (oi_log0 h r Hr) as (b & ? & ?). eauto. Qed.

Lemma answer_origin evs cs h r s : origin_inv evs s ->
  r = Err (Msg "module compilation queue is full") \/ (h, r) ∈ log s ->
  origin_inv evs (answer cs h r s).
Proof.
  intros [] Hr. split; try done. simpl. intros c k r' [Hin|Hin]%elem_of_app; [by eapply oi_answers0|].
  apply list_elem_of_fmap in Hin as (c' & [= -> -> ->] & _). done.
Qed.

Lemma load_module_origin evs c h s : origin_inv evs s -> origin_inv evs (load_module c h s).
Proof.
  intros Hs. unfold load_module. pose proof (mlru_get_sub h (ml_cache s)) as [Hsub Hhit].
  destruct (mlru_get h (ml_cache s)) as [[m|] ca]; simpl in *.
  { apply answer_origin; [|right; by apply (oi_cache _ _ Hs), Hhit].
    destruct Hs. split; try done. simpl. intros k v Hk. by apply oi_cache0, Hsub. }
  destruct (compiling s !! h); [by destruct Hs|].
  destruct (queue_cap <=? _); [apply answer_origin; auto|].
  unfold maybe_spawn. destruct (_ <? _); by destruct Hs.
Qed.

Lemma finish_job_origin evs i h b s : b ∈ stores evs -> origin_inv evs s ->
  origin_inv evs (finish_job i h (compile b h) s).
Proof.
  intros Hb []. unfold finish_job. simpl.
  set (s1 := MkLoader _ _ _ _ _ _ _ _ _).
  assert (Hs1 : origin_inv evs s1).
  { split; simpl.
    - intros k r [Hr|Hr]%elem_of_app; [by apply oi_log0|].
      apply list_elem_of_singleton in Hr as [= -> ->]. eauto.
    - intros k m Hk. apply elem_of_app. auto.
    - intros c k r Hr. destruct (oi_answers0 _ _ _ Hr); [by left|]. right. apply elem_of_app. auto. }
  destruct (compiling s !! h) as [ws|]; [|done].
  apply answer_origin; [|right; destruct (compile b h); simpl; apply elem_of_app; right; by left].
  destruct (compile b h) as [m|e]; [|by destruct Hs1]. destruct Hs1. split; try done. simpl in *.
  intros k v Hk. unfold mlru_put in Hk. apply elem_of_take in Hk as (j & Hj & _).
  apply list_elem_of_lookup_2 in Hj. apply elem_of_cons in Hj as [[= -> ->]|Hj].
  - apply elem_of_app. right. by left.
  - apply list_elem_of_filter in Hj as [_ Hj]. by apply oi_cache1.
Qed.

(** A call gets what its hash compiles to: every answer is the outcome of
    loading and compiling that very hash from the blob store as some compilation
    saw it, whether it comes from the cache or from a compilation shared with
    other calls; the only other answer is that the queue is full. *)
Theorem answers_correct n evs c h r :
  (c, h, r) ∈ answers (loader_run (loader_new n) evs) ->
  r = Err (Msg "module compilation queue is full") \/
  exists blobs, blobs ∈ stores evs /\ r = compile blobs h.
Proof.
  assert (Hrun : forall evs' s, (forall b, b ∈ stores evs' -> b ∈ stores evs) -> origin_inv evs s ->
    origin_inv evs (loader_run s evs')).
  { induction evs' as [|e evs' IH]; intros s Hsub Hs; [done|]. simpl. apply IH.
    - intros b Hb. apply Hsub. destruct e; simpl; [done|]. by right.
    - destruct e as [c' h'|i b]; simpl; [by apply load_module_origin|].
      unfold thread_step. destruct (threads s !! i) as [[k|]|]; [|..|done].
      + apply finish_job_origin; [|done]. apply Hsub. by left.
      + unfold pop_job. by destruct (ml_queue s), Hs. }
  intros Hin. destruct (Hrun evs (loader_new n)) as [Hlog _ Hans]; [done|by split; set_solver|].
  destruct (Hans _ _ _ Hin) as [-> |Hl]; [by left|]. right. by apply Hlog.
Qed.
End Loader.

(** A toy engine: a module is its code. *)
Definition toy_engine (code : bytes) : result anyhow bytes :=
  if bool_decide (code = []) then Err (Msg "empty module") else Ok code.
Definition toy_blobs (h : bytes) : result anyhow (option bytes) :=
  Ok (if bool_decide (h = [9]) then None else Some (7 :: h)).
Definition toy_loads : list ml_event :=
  [EvLoad 0 [1]; EvLoad 1 [2]; EvLoad 2 [1]; EvThread 0 toy_blobs; EvLoad 3 [9]].
Definition toy_sched : list (nat * (bytes -> result anyhow (option bytes))) :=
  [(1%nat, toy_blobs); (0%nat, toy_blobs); (1%nat, toy_blobs); (0%nat, toy_blobs); (1%nat, toy_blobs);
   (0%nat, toy_blobs); (0%nat, toy_blobs)].

Lemma loads_complete_witness :
  let s := loader_run toy_engine (loader_new 4) toy_loads in
  let s' := loader_run toy_engine s (as_events toy_sched) in
  threads s' = ∅ /\ zlen toy_sched <= work s /\ exists r, (2%nat, [1], r) ∈ answers s'.
Proof.
  intros s s'. assert (Ht : threads s' = ∅) by (vm_compute; reflexivity). split; [exact Ht|].
  destruct (loads_complete toy_engine 4 toy_loads toy_sched) as [H1 H2].
  - repeat (split; [vm_compute; eexists; reflexivity|]). exact I.
  - split; [exact H1|]. apply (H2 Ht). right. right. left.
Defined.

Lemma answers_correct_witness :
  exists blobs, blobs ∈ stores (toy_loads ++ as_events toy_sched) /\
    Ok [7; 1] = compile toy_engine blobs [1].
Proof.
  destruct (answers_correct toy_engine 4 (toy_loads ++ as_events toy_sched) 2 [1] (Ok [7; 1])) as [H|H].
  - vm_compute. right. left.
  - discriminate H.
  - exact H.
Defined.
