(* ===== verification/Run.v ===== *)
(** * Engine and instance run (wapo-host/src/run.rs)

    The limits of the engine, the creation of an instance from its configuration,
    and the poll of a running instance: it waits for its turn at the scheduler,
    calls the guest's poll function, asks to be polled again while tasks are ready,
    and converts the fuel used into gas.  wasmtime and the scheduler are classes. *)
From S2P Require Import Prelude OcallError ArgsStack Ocall OcallDef Meter Resource HostTasks GuestTasks Blobs VmContext VmFacts LinearMemory.

(** ** The engine *)

(** [WasmEngine::new]; creating the engine and the ticking thread can fail. *)
Definition engine_new (created ticking : result anyhow unit) (tick_time_ms mem_limit mem_pool_size : Z)
  : result anyhow MemoryPool :=
  if int_max U32 <? mem_limit then Err (Msg "Memory size too large") else
  let pool := pool_new mem_limit mem_pool_size in
  context "failed to create Wasm engine" created;;
  (if 0 <? tick_time_ms then context "failed to start epoch ticking service" ticking else Ok tt);;
  Ok pool.

(** [(max_memory_pages as usize).checked_mul(64 * 1024)] with a 64-bit [usize]. *)
Definition memory_size (max_memory_pages : Z) : result anyhow Z :=
  let n := max_memory_pages * (64 * 1024) in
  if in_range U64 n then Ok n else Err (Msg "Memory size too large").

(** ** Instances *)
Section Run.
Context {W R : Type} `{Tokio W, !Host W, RuntimeCalls R}.

(** What the engine keeps for an instance: the context that its ocalls act on, the
    fuel that is left, and the guest's own memory. *)
Record Store (G : Type) : Type := MkStore { st_ctx : WapoCtx W R; st_fuel : Z; st_guest : G }.
Arguments MkStore {G} _ _ _.
Arguments st_ctx {G} _.
Arguments st_fuel {G} _.
Arguments st_guest {G} _.

(** [sync_gas]. *)
Definition store_sync {G} (s : Store G) : Store G :=
  let f := sync_gas {| fuel := st_fuel s; fs_meter := meter (st_ctx s) |} in
  MkStore (set_meter (st_ctx s) (fs_meter f)) (fuel f) (st_guest s).

(** The callback at an epoch deadline: the next deadline, or an error that ends
    the guest's call. *)
Definition epoch_deadline_callback {G} (epoch_deadline : Z) (s : Store G) : result anyhow Z * Store G :=
  if m_stopped (meter (st_ctx s)) then (Err (Msg "stopped by meter"), s)
  else (Ok epoch_deadline, store_sync s).

(** The configuration of an instance; cloning it shares what the runtime calls
    refer to. *)
Record InstanceConfig : Type := MkInstance {
  ic_id : array 32;
  max_memory_pages : Z;
  scheduled : bool;
  ic_weight : Z;
  epoch_deadline : Z;
  ic_calls : R;
  ic_meter : option Meter;
  ic_vm : WapoVmConfig;
  wasi_args : result anyhow unit;
  wasi_envs : result anyhow unit
}.

(** wasmtime: creating an instance, with a limit on its memory and its first fuel,
    runs its start function; typed exports are looked up by name; a call runs the guest in pieces between epoch deadlines, where it
    consults the callback. *)
Class Wasm := {
  Gst : Type;
  Func : Type;
  instantiate : Z -> Z -> WapoCtx W R -> result anyhow (Store Gst);
  get_typed_func : Store Gst -> string -> option Func;
  pieces : Func -> Store Gst -> list (Store Gst -> Store Gst);
  returns : Func -> Store Gst -> result anyhow Z
}.
(** The scheduler shares the processor between instances. *)
Class Scheduler (S : Type) := {
  sch_reset : array 32 -> S -> S;
  sch_exit : array 32 -> S -> S;
  sch_poll_resume : array 32 -> Z -> S -> Resource.poll unit * S;
  (** dropping the guard of a granted turn *)
  sch_release : array 32 -> S -> S
}.
Context `{Wasm} {S : Type} `{Scheduler S}.

(** A call: pieces of the guest with the callback between them. *)
Fixpoint run_pieces (deadline : Z) (rv : result anyhow Z) (ps : list (Store Gst -> Store Gst)) (s : Store Gst)
  : result anyhow Z * Store Gst :=
  match ps with
  | [] => (rv, s)
  | p :: ps =>
    match ps with
    | [] => (rv, p s)
    | _ =>
      match epoch_deadline_callback deadline (p s) with
      | (Ok _, s) => run_pieces deadline rv ps s
      | (Err e, s) => (Err e, s)
      end
    end
  end.
Definition wasm_call (deadline : Z) (f : Func) (s : Store Gst) : result anyhow Z * Store Gst :=
  run_pieces deadline (returns f s) (pieces f s) s.

Record WasmRun : Type := MkRun {
  run_id : array 32;
  store : Store Gst;
  wasm_poll_entry : Func;
  run_scheduled : bool;
  run_deadline : Z
}.

(** The context of a new instance. *)
Definition instance_ctx (now : Z) (fs : Fs) (w : W) (cfg : InstanceConfig) : WapoCtx W R :=
  set_weight (ic_weight cfg)
    (WapoCtx_new (ic_id cfg) (ic_calls cfg) fs (default (Meter_default now) (ic_meter cfg)) (ic_vm cfg) w).

(** [WasmModule::run]; [linked] is the outcome of adding the ocalls and WASI to the
    linker, [now] the creation time of a fresh meter. *)
Definition module_run (linked : result anyhow unit) (now : Z) (fs : Fs) (w : W) (cfg : InstanceConfig) (sch : S)
  : result anyhow WasmRun * S :=
  let ctx := instance_ctx now fs w cfg in
  let created :=
    linked;;
    context "failed to set args" (wasi_args cfg);;
    context "failed to set envs" (wasi_envs cfg);;
    size ← memory_size (max_memory_pages cfg);
    s ← context "failed to create instance" (instantiate size (int_max U64) ctx);
    entry ← (match get_typed_func s "wapo_poll" with
             | Some f => Ok f
             | None => ok_or (get_typed_func s "sidevm_poll") (Msg "no poll function found in the WASM module")
             end);
    Ok (MkRun (ic_id cfg) s entry (scheduled cfg) (epoch_deadline cfg)) in
  match created with
  | Ok r => (Ok r, if scheduled cfg then sch_reset (ic_id cfg) sch else sch)
  | Err e => (Err e, sch)
  end.
(** [Drop for WasmRun]. *)
Definition run_drop (r : WasmRun) (sch : S) : S := if run_scheduled r then sch_exit (run_id r) sch else sch.

(** What the executor sees: the scheduler, and how often its waker was woken. *)
Definition set_store (r : WasmRun) (s : Store Gst) : WasmRun :=
  MkRun (run_id r) s (wasm_poll_entry r) (run_scheduled r) (run_deadline r).

(** [Future for WasmRun]: the result, whether the executor's waker was woken, the
    run and the scheduler. *)
Definition wasm_run_poll (r : WasmRun) (sch : S) : Resource.poll (result anyhow unit) * bool * WasmRun * S :=
  let '(turn, sch) :=
    if run_scheduled r then sch_poll_resume (run_id r) (weight (st_ctx (store r))) sch else (PReady tt, sch) in
  match turn with
  | PPending => (PPending, false, r, sch)
  | PReady _ =>
    let '(rv, s) := wasm_call (run_deadline r) (wasm_poll_entry r) (store r) in
    let '(res, woken) :=
      match rv with
      | Ok 0 => (PPending, has_more_ready_tasks (st_ctx s))
      | Ok 1 => (PReady (Ok tt), false)
      | Ok _ => (PReady (Err (Msg "Invalid poll return value from wasm")), false)
      | Err e => (PReady (Err e), false)
      end in
    (res, woken, set_store r (store_sync s), if run_scheduled r then sch_release (run_id r) sch else sch)
  end.

(** ** Progress

    The guest runs the task runtime: a call of the poll function that returns a
    value is a [wapo_poll] on the guest's tasks and the host's queues. *)
Section Progress.
Context {Fut Wk : Type} (wake : Wk -> TaskSet -> TaskSet)
  (poll_future : Z -> Fut -> WakerTable Wk * TaskSet -> option Fut * list Fut * (WakerTable Wk * TaskSet)).
Context (guest_mem : Gst -> Guest (Fut := Fut) (Wk := Wk)).
Definition guest_of (s : Store Gst) : Guest :=
  let g := guest_mem (st_guest s) in
  MkGuest (g_tasks g) (g_spawning g) (g_current g) (g_wakers g) (tasks (st_ctx s)).
Hypothesis wake_appends : forall k t, exists l, awake_tasks (wake k t) = awake_tasks t ++ l.
Hypothesis poll_appends : forall id f w t, exists l,
  awake_tasks (poll_future id f (w, t)).2.2 = awake_tasks t ++ l.
Hypothesis runs_guest : forall d f s rv s', wasm_call d f s = (Ok rv, s') ->
  exists polled, wapo_poll wake poll_future (guest_of s) = Some (rv, polled, guest_of s').

(** The task that a poll of the instance polls. *)
Definition polled_task (s : Store Gst) : option Z :=
  match wapo_poll wake poll_future (guest_of s) with Some (_, polled, _) => polled | None => None end.

(** An executor: it polls the instance as long as its waker was woken. *)
Inductive outcome : Type := Ended (res : result anyhow unit) | Sleeping | More.
Fixpoint drive (n : nat) (r : WasmRun) (sch : S) : list (option Z) * outcome :=
  match n with
  | O => ([], More)
  | Datatypes.S n =>
    let t := polled_task (store r) in
    match wasm_run_poll r sch with
    | (PReady res, _, _, _) => ([t], Ended res)
    | (PPending, false, _, _) => ([t], Sleeping)
    | (PPending, true, r, sch) => let '(ts, o) := drive n r sch in (t :: ts, o)
    end
  end.

Lemma guest_of_sync s : guest_of (store_sync s) = guest_of s.
Proof. done. Qed.
Lemma more_ready_tasks (c : WapoCtx W R) k id : awake_tasks (tasks c) !! k = Some id -> has_more_ready_tasks c = true.
Proof. unfold has_more_ready_tasks, is_empty. by destruct (awake_tasks (tasks c)). Qed.

(** C6: no ready task is forgotten: an executor that polls an instance whenever its
    waker was woken polls the task at position [k] of the ready queue in its
    [k]-th poll from now, unless the instance ends before; it does not go to sleep
    while tasks are ready. *)
Theorem ready_task_polled n : forall r sch k id,
  run_scheduled r = false -> awake_tasks (tasks (st_ctx (store r))) !! k = Some id -> (k < n)%nat ->
  let '(ts, o) := drive n r sch in ts !! k = Some (Some id) \/ exists res, o = Ended res.
Proof.
  induction n as [|n IH]; intros r sch k id Hs Hk Hlt; [lia|]. cbn [drive].
  unfold wasm_run_poll. rewrite Hs. destruct (wasm_call _ _ _) as [rv s'] eqn:Hc.
  destruct rv as [rv|e]; [|right; eauto]. destruct (runs_guest _ _ _ _ _ Hc) as [polled Hp].
  assert (Hpos := wapo_poll_position wake poll_future wake_appends poll_appends _ _ _ _ k id Hp Hk).
  destruct rv as [|[rv|rv|]|rv]; [|right; eauto..].
  destruct k as [|k].
  - unfold polled_task. rewrite Hp, Hpos. destruct (has_more_ready_tasks (st_ctx s')); [|by left].
    destruct (drive n _ _). by left.
  - rewrite (more_ready_tasks (st_ctx s') k id Hpos).
    pose proof (IH (set_store r (store_sync s')) sch k id Hs Hpos ltac:(lia)) as IH'.
    destruct (drive n _ _) as [ts o]. exact IH'.
Qed.
End Progress.

(** ** Stopping *)

(** The pieces of a call that run before the meter is found stopped. *)
Fixpoint stops_after (k : nat) (deadline : Z) (ps : list (Store Gst -> Store Gst)) (s : Store Gst) : option (Store Gst) :=
  match ps with
  | p :: ps =>
    match k with
    | O => if m_stopped (meter (st_ctx (p s))) then Some (p s) else None
    | Datatypes.S k => if m_stopped (meter (st_ctx (p s))) then None else stops_after k deadline ps (store_sync (p s))
    end
  | [] => None
  end.

Lemma run_pieces_stopped k : forall deadline rv ps s s', (Datatypes.S k < length ps)%nat ->
  stops_after k deadline ps s = Some s' -> run_pieces deadline rv ps s = (Err (Msg "stopped by meter"), s').
Proof.
  induction k as [|k IH]; intros deadline rv [|p [|q ps]] s s'; simpl; try lia; intros Hlen;
    unfold epoch_deadline_callback; destruct (m_stopped _); try done.
  - by intros [= ->].
  - intros Hs. apply (IH deadline rv (q :: ps)); [simpl; lia|done].
Qed.

(** A stopped instance stops: if the meter is found stopped at an epoch deadline
    inside a call of the guest, no further piece of the guest runs, and the poll
    of the instance ends with an error that says so; and whatever the guest did,
    at most 16384 units of fuel are left unaccounted after a poll. *)
Theorem stopped_instance_ends r sch k s' : run_scheduled r = false ->
  (Datatypes.S k < length (pieces (wasm_poll_entry r) (store r)))%nat ->
  stops_after k (run_deadline r) (pieces (wasm_poll_entry r) (store r)) (store r) = Some s' ->
  st_fuel s' <= int_max U64 ->
  exists r', wasm_run_poll r sch = (PReady (Err (Msg "stopped by meter")), false, r', sch) /\
    st_guest (store r') = st_guest s' /\
    0 <= int_max U64 - st_fuel (store r') <= 16384.
Proof.
  intros Hs Hlen Hst Hf. unfold wasm_run_poll, wasm_call. rewrite Hs, (run_pieces_stopped k _ _ _ _ s') by done.
  eexists. split; [done|]. split; [done|]. simpl. unfold sync_gas, consumed_fuel. simpl.
  destruct (Z.ltb_spec (1024 * 16) (int_max U64 - st_fuel s')); simpl; lia.
Qed.
End Run.
Arguments MkStore {W R _ _ G} _ _ _.
Arguments st_ctx {W R _ _ G} _.
Arguments st_fuel {W R _ _ G} _.
Arguments st_guest {W R _ _ G} _.
Arguments InstanceConfig R : clear implicits.

(** ** A guest with three tasks, and one that is stopped *)
Module ToyWasm.
#[local] Existing Instances toy_tokio toy_host.
Abbreviation TStore := (Store (W := nat) (R := unit)).
(** The poll function is one piece: the task runtime on the context's queues. *)
Definition toy_guest : Type := Guest (Fut := toy_fut) (Wk := Z).
Definition host_guest (s : TStore toy_guest) : toy_guest :=
  let g := st_guest s in MkGuest (g_tasks g) (g_spawning g) (g_current g) (g_wakers g) (tasks (st_ctx s)).
Definition toy_wapo_poll := wapo_poll (fun k t => push_task k t) toy_poll.
#[export] Instance toy_wasm : Wasm (W := nat) (R := unit) := {
  Gst := toy_guest;
  Func := unit;
  instantiate _ f c := Ok (MkStore c f (guest_init (Toy 3 [Toy 0 []; Toy 0 []])));
  get_typed_func _ name := if bool_decide (name = "wapo_poll"%string) then Some tt else None;
  pieces _ _ := [fun s => match toy_wapo_poll (host_guest s) with
                          | Some (_, _, g) => MkStore (set_tasks (st_ctx s) (g_host g)) (st_fuel s - 70000) g
                          | None => s
                          end];
  returns _ s := match toy_wapo_poll (host_guest s) with Some (rv, _, _) => Ok rv | None => Err (Msg "trap") end
}.
#[export] Instance no_scheduler : Scheduler unit := {
  sch_reset _ s := s; sch_exit _ s := s; sch_poll_resume _ _ s := (PReady tt, s); sch_release _ s := s
}.
Definition toy_config : InstanceConfig unit :=
  MkInstance (Arr [1; 2]) 16 false 1 10 tt None (MkConfig (100, 200) false) (Ok tt) (Ok tt).
Definition toy_mem (g : toy_guest) : toy_guest := g.

(** A guest of three pieces that count; the second one finds itself stopped. *)
Definition toy_stop (m : Meter) : Meter :=
  MkMeter (created_at m) (m_gas_consumed m) (m_memory_used m) (m_net_egress m) (m_net_ingress m)
    (m_storage_read m) (m_storage_written m) (m_tip m) true.
Definition counting (stop : bool) (s : TStore nat) : TStore nat :=
  MkStore (if stop then set_meter (st_ctx s) (toy_stop (meter (st_ctx s))) else st_ctx s)
    (st_fuel s - 20000) (S (st_guest s)).
Definition counting_wasm : Wasm (W := nat) (R := unit) := {|
  Gst := nat;
  Func := unit;
  instantiate _ f c := Ok (MkStore c f 0%nat);
  get_typed_func _ _ := Some tt;
  pieces _ _ := [counting false; counting true; counting false];
  returns _ _ := Ok 0
|}.
Definition counting_run : WasmRun (H1 := counting_wasm) :=
  @MkRun nat unit _ _ counting_wasm (Arr [1; 2]) (MkStore toy_ctx (int_max U64) 0%nat) tt false 10.
End ToyWasm.
Import ToyWasm.
#[local] Existing Instances toy_tokio toy_host.

Lemma ready_task_polled_witness :
  exists r, (module_run (Ok tt) 0 (MkFs ∅ []) 0%nat toy_config tt).1 = Ok r /\
  let r1 := (wasm_run_poll r tt).1.2 in
  awake_tasks (tasks (st_ctx (store r1))) = [0; 1; 2] /\
  let '(ts, o) := drive (fun k t => push_task k t) toy_poll toy_mem 3 r1 tt in
  ts !! 2%nat = Some (Some 2) \/ exists res, o = Ended res.
Proof.
  eexists. split; [reflexivity|]. intros r1. split; [vm_compute; reflexivity|].
  refine (ready_task_polled (fun k t => push_task k t) toy_poll toy_mem _ _ _ 3 r1 tt 2 2 _ _ _).
  - intros k t. apply push_task_prefix.
  - intros id [[|n] cs] w t; simpl; [exists []; by rewrite app_nil_r|]. apply push_task_prefix.
  - intros d f s rv s'. unfold wasm_call. cbn [pieces returns toy_wasm run_pieces].
    destruct (toy_wapo_poll (host_guest s)) as [[[rv' polled] g']|] eqn:Hp; [|done].
    intros [[= <-] <-]%pair_equal_spec. exists polled.
    transitivity (Some (rv', polled, g')); [exact Hp|by destruct g'].
  - vm_compute. reflexivity.
  - vm_compute. reflexivity.
  - lia.
Defined.

Lemma stopped_instance_ends_witness :
  exists r', @wasm_run_poll nat unit _ _ counting_wasm unit _ counting_run tt =
      (PReady (Err (Msg "stopped by meter")), false, r', tt) /\
    st_guest (@store nat unit _ _ counting_wasm r') = 2%nat /\
    0 <= int_max U64 - st_fuel (@store nat unit _ _ counting_wasm r') <= 16384.
Proof.
  apply (@stopped_instance_ends nat unit _ _ counting_wasm unit _ counting_run tt 1
    (@counting true (store_sync (counting false (MkStore toy_ctx (int_max U64) 0%nat)))));
    [reflexivity|simpl; lia|reflexivity|vm_compute; discriminate].
Defined.
