(* ===== verification/TcpAcl.v ===== *)
(** * The access list for connections (wapod/src/tcp_acl.rs)

    A filter is made of lines: networks, addresses and names to which apps may not
    connect.  Text is UTF-8 bytes.  The parser of addresses and the trimming of
    lines are the standard library's; networks and ranges of them come from the
    crates ipnet and iprange, which are the class [IpNets] with its law. *)
From S2P Require Import Prelude Ordered ArgsStack Blobs.

(** ** Text *)
Fixpoint strip_prefix (p s : bytes) : option bytes :=
  match p, s with
  | [], s => Some s
  | x :: p, y :: s => if x =? y then strip_prefix p s else None
  | _ :: _, [] => None
  end.

(** The encodings of the characters with the property White_Space. *)
Definition white_space : list bytes :=
  ((fun z => [z]) <$> [9; 10; 11; 12; 13; 32]) ++ [[0xc2; 0x85]; [0xc2; 0xa0]; [0xe1; 0x9a; 0x80]] ++
  ((fun z => [0xe2; 0x80; z]) <$> (seqZ 0x80 11 ++ [0xa8; 0xa9; 0xaf])) ++
  [[0xe2; 0x81; 0x9f]; [0xe3; 0x80; 0x80]].

Fixpoint trim_front (fuel : nat) (seps : list bytes) (s : bytes) : bytes :=
  match fuel with
  | O => s
  | S fuel =>
    match omap (fun p => strip_prefix p s) seps with
    | rest :: _ => trim_front fuel seps rest
    | [] => s
    end
  end.
(** [str::trim]; each round removes at least one byte. *)
Definition trim (s : bytes) : bytes :=
  let s := trim_front (length s) white_space s in
  reverse (trim_front (length s) (reverse <$> white_space) (reverse s)).

(** ** Addresses: the parser of [IpAddr] *)
Inductive IpAddr : Type := V4 (octets : list Z) | V6 (groups : list Z).
#[export] Instance IpAddr_eq_dec : EqDecision IpAddr.
Proof. solve_decision. Defined.

(** A parser returns the value and the rest of the input. *)
Definition parser (A : Type) : Type := bytes -> option (A * bytes).

Definition to_digit (radix : Z) (c : Z) : option Z :=
  let d := if (48 <=? c) && (c <=? 57) then c - 48
           else if (97 <=? c) && (c <=? 122) then c - 87
           else if (65 <=? c) && (c <=? 90) then c - 55 else radix in
  if d <? radix then Some d else None.
Fixpoint read_digits (radix : Z) (s : bytes) : list Z * bytes :=
  match s with
  | c :: rest =>
    match to_digit radix c with
    | Some d => let '(ds, rest) := read_digits radix rest in (d :: ds, rest)
    | None => ([], s)
    end
  | [] => ([], [])
  end.
Definition read_number (t : int_ty) (radix max_digits : Z) (allow_zero_prefix : bool) : parser Z := fun s =>
  let '(ds, rest) := read_digits radix s in
  let v := foldl (fun n d => n * radix + d) 0 ds in
  if (zlen ds =? 0) || (max_digits <? zlen ds) then None
  else if negb allow_zero_prefix && bool_decide (head s = Some 48) && (1 <? zlen ds) then None
  else if in_range t v then Some (v, rest) else None.

Definition read_given_char (c : Z) : parser unit := fun s =>
  match s with x :: s => if x =? c then Some (tt, s) else None | [] => None end.
Definition read_separator {A} (sep : Z) (first : bool) (inner : parser A) : parser A := fun s =>
  if first then inner s else '(_, s) ← read_given_char sep s; inner s.

Definition dot : Z := 46.
Definition colon : Z := 58.
Definition read_ipv4_addr : parser (list Z) := fun s =>
  let octet := read_number U8 10 3 false in
  '(a, s) ← octet s;
  '(b, s) ← read_separator dot false octet s;
  '(c, s) ← read_separator dot false octet s;
  '(d, s) ← read_separator dot false octet s;
  Some ([a; b; c; d], s).

(** [read_groups]: up to [limit] groups, the last two possibly as an IPv4 address;
    the groups read, whether they end with one, and the rest. *)
Fixpoint read_groups (limit : nat) (first : bool) (s : bytes) : list Z * bool * bytes :=
  match limit with
  | O => ([], false, s)
  | S limit =>
    match (if (limit =? 0)%nat then None else read_separator colon first read_ipv4_addr s) with
    | Some ([a; b; c; d], s) => ([a * 256 + b; c * 256 + d], true, s)
    | _ =>
      match read_separator colon first (read_number U16 16 4 true) s with
      | Some (g, s) => let '(gs, v4, s) := read_groups limit false s in (g :: gs, v4, s)
      | None => ([], false, s)
      end
    end
  end.
Definition read_ipv6_addr : parser (list Z) := fun s =>
  let '(head, head_ipv4, s) := read_groups 8 true s in
  if (length head =? 8)%nat then Some (head, s) else
  if head_ipv4 then None else
  '(_, s) ← read_given_char colon s;
  '(_, s) ← read_given_char colon s;
  let '(tail, _, s) := read_groups (8 - (length head + 1)) true s in
  Some (head ++ replicate (8 - length head - length tail) 0 ++ tail, s).
Definition read_ip_addr : parser IpAddr := fun s =>
  match read_ipv4_addr s with
  | Some (a, s) => Some (V4 a, s)
  | None => '(a, s) ← read_ipv6_addr s; Some (V6 a, s)
  end.
(** [IpAddr::from_str]: nothing may be left. *)
Definition parse_ip (s : bytes) : option IpAddr :=
  '(a, rest) ← read_ip_addr s;
  match rest with [] => Some a | _ => None end.

(** ** Networks and ranges *)
Class IpNets := {
  Ipv4Net : Type;
  Ipv6Net : Type;
  (** [IpNet::from_str] *)
  parse_net : bytes -> option (Ipv4Net + Ipv6Net);
  (** the network of one address *)
  net4 : list Z -> Ipv4Net;
  net6 : list Z -> Ipv6Net;
  net4_contains : Ipv4Net -> list Z -> bool;
  net6_contains : Ipv6Net -> list Z -> bool;
  IpRange : Type -> Type;
  range_new : forall N, IpRange N;
  range4_add : Ipv4Net -> IpRange Ipv4Net -> IpRange Ipv4Net;
  range6_add : Ipv6Net -> IpRange Ipv6Net -> IpRange Ipv6Net;
  range4_contains : IpRange Ipv4Net -> list Z -> bool;
  range6_contains : IpRange Ipv6Net -> list Z -> bool
}.
(** A range contains what its networks do; a network of one address that address
    only; and a network's text has a prefix length, so an address is not one. *)
Class IpNetsLawful `{IpNets} := {
  range4_empty : forall ip, range4_contains (range_new _) ip = false;
  range6_empty : forall ip, range6_contains (range_new _) ip = false;
  range4_add_spec : forall n r ip, range4_contains (range4_add n r) ip = net4_contains n ip || range4_contains r ip;
  range6_add_spec : forall n r ip, range6_contains (range6_add n r) ip = net6_contains n ip || range6_contains r ip;
  net4_single : forall a ip, net4_contains (net4 a) ip = bool_decide (ip = a);
  net6_single : forall a ip, net6_contains (net6 a) ip = bool_decide (ip = a);
  parse_net_slash : forall s n, parse_net s = Some n -> 47 ∈ s
}.

Section Filter.
Context `{IpNets}.

Record HostFilter : Type := MkFilter {
  ipv4_blacklist : IpRange Ipv4Net;
  ipv6_blacklist : IpRange Ipv6Net;
  domain_blacklist : list bytes
}.
Definition filter_new : HostFilter := MkFilter (range_new _) (range_new _) [].

(** One line of [from_iter]. *)
Definition add_line (f : HostFilter) (line : bytes) : HostFilter :=
  let line := trim line in
  if bool_decide (line = []) || bool_decide (head line = Some 35) then f else
  let add4 n := MkFilter (range4_add n (ipv4_blacklist f)) (ipv6_blacklist f) (domain_blacklist f) in
  let add6 n := MkFilter (ipv4_blacklist f) (range6_add n (ipv6_blacklist f)) (domain_blacklist f) in
  match parse_net line with
  | Some (inl net) => add4 net
  | Some (inr net) => add6 net
  | None =>
    match parse_ip line with
    | Some (V4 ip) => add4 (net4 ip)
    | Some (V6 ip) => add6 (net6 ip)
    | None => MkFilter (ipv4_blacklist f) (ipv6_blacklist f) (bset_insert line (domain_blacklist f))
    end
  end.
Definition filter_from_iter (lines : list bytes) : HostFilter := foldl add_line filter_new lines.

Definition is_host_allowed (f : HostFilter) (host : bytes) : bool :=
  if bool_decide (host ∈ domain_blacklist f) then false else
  match parse_ip host with
  | None => true
  | Some (V4 ip) => negb (range4_contains (ipv4_blacklist f) ip)
  | Some (V6 ip) => negb (range6_contains (ipv6_blacklist f) ip)
  end.
End Filter.

(** ** What a filter refuses *)

Section FilterFacts.
Context `{IpNetsLawful}.

(** A line refuses a host: as a network or address that contains the host's
    address, or as the host's name. *)
Definition line_blocks (line host : bytes) : bool :=
  match parse_net line with
  | Some (inl net) => match parse_ip host with Some (V4 ip) => net4_contains net ip | _ => false end
  | Some (inr net) => match parse_ip host with Some (V6 ip) => net6_contains net ip | _ => false end
  | None =>
    match parse_ip line with
    | Some ip => bool_decide (parse_ip host = Some ip)
    | None => bool_decide (host = line)
    end
  end.
(** The lines that count. *)
Definition entry (line : bytes) : option bytes :=
  let line := trim line in
  if bool_decide (line = []) || bool_decide (head line = Some 35) then None else Some line.

Lemma add_line_spec f line host :
  is_host_allowed (add_line f line) host =
  is_host_allowed f host && negb (match entry line with Some l => line_blocks l host | None => false end).
Proof.
  unfold add_line, entry. destruct (bool_decide (trim line = []) || _); [by rewrite andb_true_r|].
  generalize (trim line) as l. clear line. intros l. unfold line_blocks.
  destruct (parse_net l) as [[n|n]|]; [..|destruct (parse_ip l) as [[ip|ip]|]]; unfold is_host_allowed; simpl.
  1-4: destruct (bool_decide (host ∈ _)); [done|]; destruct (parse_ip host) as [[h|h]|]; simpl;
    rewrite ?range4_add_spec, ?range6_add_spec, ?net4_single, ?net6_single, ?andb_true_r, ?negb_orb;
    try (by rewrite andb_comm); repeat case_bool_decide; simplify_eq; by rewrite ?andb_true_r, ?andb_false_r.
  rewrite (bool_decide_ext (host ∈ bset_insert l (domain_blacklist f)) (host = l \/ host ∈ domain_blacklist f))
    by apply elem_of_bset_insert.
  rewrite bool_decide_or. destruct (bool_decide (host = l)); simpl; by rewrite ?andb_true_r, ?andb_false_r.
Qed.

(** The access list: a host is refused exactly when one of the lines, trimmed,
    that is neither empty nor a comment names it, or is a network or an address
    that contains the address the host is the text of. *)
Lemma host_filter_spec lines host :
  is_host_allowed (filter_from_iter lines) host =
  negb (existsb (fun line => match entry line with Some l => line_blocks l host | None => false end) lines).
Proof.
  unfold filter_from_iter. assert (Hg : forall f, is_host_allowed (foldl add_line f lines) host =
    is_host_allowed f host && negb (existsb (fun line => match entry line with Some l => line_blocks l host | None => false end) lines)).
  { induction lines as [|l lines IH]; intros f; simpl; [by rewrite andb_true_r|].
    rewrite IH, add_line_spec, negb_orb. by rewrite andb_assoc. }
  rewrite Hg. unfold is_host_allowed, filter_new. simpl.
  destruct (parse_ip host) as [[ip|ip]|]; simpl; by rewrite ?range4_empty, ?range6_empty.
Qed.

(** The texts that a list refuses, kind by kind: a line that is a name refuses this text; a
    network or an address refuses the texts of its own family that are parsed to an
    address in it. *)
Inductive refused (lines : list bytes) (text : bytes) : Prop :=
| refused_name line : line ∈ lines -> entry line = Some text -> parse_net text = None -> parse_ip text = None -> refused lines text
| refused_net4 line l net ip : line ∈ lines -> entry line = Some l -> parse_net l = Some (inl net) ->
    parse_ip text = Some (V4 ip) -> net4_contains net ip = true -> refused lines text
| refused_net6 line l net ip : line ∈ lines -> entry line = Some l -> parse_net l = Some (inr net) ->
    parse_ip text = Some (V6 ip) -> net6_contains net ip = true -> refused lines text
| refused_ip line l ip : line ∈ lines -> entry line = Some l -> parse_net l = None -> parse_ip l = Some ip ->
    parse_ip text = Some ip -> refused lines text.
Lemma line_blocks_refused lines line l text : line ∈ lines -> entry line = Some l -> line_blocks l text = true -> refused lines text.
Proof.
  intros Hin Hl. unfold line_blocks. destruct (parse_net l) as [[net|net]|] eqn:Hn; [..|destruct (parse_ip l) as [ip|] eqn:Hi].
  - destruct (parse_ip text) as [[ip|ip]|] eqn:Ht; try done. intros Hc. by eapply refused_net4.
  - destruct (parse_ip text) as [[ip|ip]|] eqn:Ht; try done. intros Hc. by eapply refused_net6.
  - intros Ht%bool_decide_eq_true. by eapply refused_ip.
  - intros ->%bool_decide_eq_true. by eapply refused_name.
Qed.
Lemma refused_blocks lines text : refused lines text -> exists line l, line ∈ lines /\ entry line = Some l /\ line_blocks l text = true.
Proof.
  intros [line Hin Hl Hn Hi|line l net ip Hin Hl Hn Hi Hc|line l net ip Hin Hl Hn Hi Hc|line l ip Hin Hl Hn Hi Ht]; exists line;
    [exists text|exists l..]; (split; [done|split; [done|]]); unfold line_blocks; rewrite ?Hn, ?Hi; rewrite ?Ht; try done;
    by apply bool_decide_true.
Qed.
Lemma is_host_allowed_iff lines text : is_host_allowed (filter_from_iter lines) text = false <-> refused lines text.
Proof.
  rewrite host_filter_spec, negb_false_iff, existsb_exists. split.
  - intros (line & Hin%list_elem_of_In & Hb). destruct (entry line) as [l|] eqn:Hl; [|done]. by eapply line_blocks_refused.
  - intros (line & l & Hin & Hl & Hb)%refused_blocks. exists line. rewrite Hl. split; [by apply list_elem_of_In|done].
Qed.
(** A text that is no address is refused only by a line with this name. *)
Lemma refused_only_named lines text : parse_ip text = None -> (forall line, line ∈ lines -> entry line <> Some text) -> ~ refused lines text.
Proof. intros Hi Hn Hr. inversion Hr; simplify_eq; try congruence. by eapply Hn. Qed.
End FilterFacts.

(** ** Addresses as text *)
Definition dec (n : Z) : bytes :=
  if n <? 10 then [48 + n] else if n <? 100 then [48 + n `div` 10; 48 + n `mod` 10]
  else [48 + n `div` 100; 48 + (n `div` 10) `mod` 10; 48 + n `mod` 10].
Definition dotted (a b c d : Z) : bytes := dec a ++ dot :: dec b ++ dot :: dec c ++ dot :: dec d.
(** The IPv4-mapped address, [::ffff:a.b.c.d]. *)
Definition mapped (a b c d : Z) : bytes := [colon; colon; 102; 102; 102; 102; colon] ++ dotted a b c d.
Definition is_octet (a : Z) : Prop := 0 <= a < 256.

Lemma read_digit d s : 0 <= d < 10 ->
  read_digits 10 (48 + d :: s) = (d :: (read_digits 10 s).1, (read_digits 10 s).2).
Proof.
  intros Hd. simpl. unfold to_digit. rewrite (proj2 (Z.leb_le 48 (48 + d))), (proj2 (Z.leb_le (48 + d) 57)) by lia.
  replace (48 + d - 48) with d by lia. simpl. rewrite (proj2 (Z.ltb_lt d 10)) by lia. by destruct (read_digits 10 s).
Qed.
Lemma read_octet a r : is_octet a -> read_digits 10 r = ([], r) ->
  read_number U8 10 3 false (dec a ++ r) = Some (a, r).
Proof.
  unfold is_octet. intros Ha Hr. unfold read_number, dec. pose proof (Z.div_mod a 10 ltac:(lia)) as H1.
  pose proof (Z.div_mod (a `div` 10) 10 ltac:(lia)) as H2. rewrite Z.div_div in H2 by lia. change (10 * 10) with 100 in H2.
  pose proof (Z.mod_pos_bound a 10 ltac:(lia)). pose proof (Z.mod_pos_bound (a `div` 10) 10 ltac:(lia)).
  destruct (Z.ltb_spec a 10); [|destruct (Z.ltb_spec a 100)]; cbn [app]; rewrite !read_digit, Hr by lia;
    cbn [fst snd foldl head]; autorewrite with wapo; cbn [Z.add Z.eqb Z.ltb orb Z.compare Pos.compare Pos.compare_cont andb negb];
    [|rewrite bool_decide_false by (intros [= ?]; lia)..];
    try rewrite andb_false_r; cbn [andb].
  all: match goal with |- context [in_range U8 ?v] => replace v with a by lia end.
  all: by replace (in_range U8 a) with true by (symmetry; range_solve).
Qed.
Lemma dot_stops r : read_digits 10 (dot :: r) = ([], dot :: r).
Proof. done. Qed.

Lemma read_dotted a b c d : is_octet a -> is_octet b -> is_octet c -> is_octet d ->
  read_ipv4_addr (dotted a b c d) = Some ([a; b; c; d], []).
Proof.
  intros Ha Hb Hc Hd. unfold read_ipv4_addr, dotted.
  do 3 (rewrite read_octet by done; cbn [mbind option_bind read_separator read_given_char dot Z.eqb Pos.eqb]).
  by rewrite <- (app_nil_r (dec d)), read_octet.
Qed.
Lemma parse_dotted a b c d : is_octet a -> is_octet b -> is_octet c -> is_octet d ->
  parse_ip (dotted a b c d) = Some (V4 [a; b; c; d]).
Proof. intros. unfold parse_ip, read_ip_addr. by rewrite read_dotted. Qed.
Lemma read_groups_group limit first s g r : read_separator colon first read_ipv4_addr s = None ->
  read_separator colon first (read_number U16 16 4 true) s = Some (g, r) ->
  read_groups (S limit) first s = let '(gs, v4, s) := read_groups limit false r in (g :: gs, v4, s).
Proof. intros H4 Hg. cbn [read_groups]. rewrite H4, Hg. by destruct (limit =? 0)%nat. Qed.
Lemma read_groups_v4 limit first s a b c d r : read_separator colon first read_ipv4_addr s = Some ([a; b; c; d], r) ->
  read_groups (S (S limit)) first s = ([a * 256 + b; c * 256 + d], true, r).
Proof. intros H4. cbn [read_groups Nat.eqb]. by rewrite H4. Qed.
Lemma read_ipv6_tail s gs v4 : (length gs <= 7)%nat -> read_groups 7 true s = (gs, v4, []) ->
  read_ipv6_addr (colon :: colon :: s) = Some (replicate (8 - length gs) 0 ++ gs, []).
Proof.
  intros Hl Hg. unfold read_ipv6_addr. change (read_groups 8 true (colon :: colon :: s)) with (@nil Z, false, colon :: colon :: s).
  cbn [length Nat.eqb read_given_char]. rewrite Z.eqb_refl. cbn [mbind option_bind read_given_char].
  rewrite Z.eqb_refl. cbn [mbind option_bind]. change (8 - (0 + 1))%nat with 7%nat. by rewrite Hg.
Qed.
(** The part of the text that is read as [ffff] and an IPv4 address. *)
Lemma read_mapped a b c d : is_octet a -> is_octet b -> is_octet c -> is_octet d ->
  read_groups 7 true ([102; 102; 102; 102; colon] ++ dotted a b c d) = ([65535; a * 256 + b; c * 256 + d], true, []).
Proof.
  intros. erewrite read_groups_group; [|done..].
  rewrite (read_groups_v4 _ _ _ a b c d []); [done|]. unfold read_separator, read_given_char.
  rewrite Z.eqb_refl. cbn [mbind option_bind]. by apply read_dotted.
Qed.
Lemma parse_mapped a b c d : is_octet a -> is_octet b -> is_octet c -> is_octet d ->
  parse_ip (mapped a b c d) = Some (V6 [0; 0; 0; 0; 0; 65535; a * 256 + b; c * 256 + d]).
Proof.
  intros. unfold parse_ip, read_ip_addr, mapped. cbn [app].
  erewrite read_ipv6_tail; [| |by apply read_mapped]; [done|simpl; lia].
Qed.

Section Bypass.
Context `{IpNetsLawful}.

Lemma dec_plain a : is_octet a -> Forall (fun c => 48 <= c <= 57) (dec a).
Proof.
  unfold is_octet, dec. intros Ha. pose proof (Z.div_mod a 10 ltac:(lia)). pose proof (Z.div_mod (a `div` 10) 10 ltac:(lia)) as H2.
  rewrite Z.div_div in H2 by lia. change (10 * 10) with 100 in H2.
  pose proof (Z.mod_pos_bound a 10 ltac:(lia)). pose proof (Z.mod_pos_bound (a `div` 10) 10 ltac:(lia)).
  destruct (Z.ltb_spec a 10); [|destruct (Z.ltb_spec a 100)]; repeat constructor; lia.
Qed.
Lemma dotted_plain a b c d : is_octet a -> is_octet b -> is_octet c -> is_octet d ->
  Forall (fun c => 46 = c \/ 48 <= c <= 57) (dotted a b c d).
Proof.
  intros. assert (Hp : forall a, is_octet a -> Forall (fun c => 46 = c \/ 48 <= c <= 57) (dec a)).
  { intros x Hx. eapply Forall_impl; [by apply dec_plain|]. simpl. lia. }
  unfold dotted, dot. repeat (apply Forall_app; split; [by apply Hp|]; constructor; [by left|]). by apply Hp.
Qed.
Lemma dotted_not_net a b c d : is_octet a -> is_octet b -> is_octet c -> is_octet d -> parse_net (dotted a b c d) = None.
Proof.
  intros. destruct (parse_net _) eqn:Hn; [|done]. apply parse_net_slash in Hn.
  pose proof (dotted_plain a b c d) as Hp. rewrite Forall_forall in Hp. specialize (Hp ltac:(done) ltac:(done) ltac:(done) ltac:(done) _ Hn). lia.
Qed.

(** An IPv4-mapped address is refused only by networks and addresses of IPv6. *)
Lemma mapped_not_refused a b c d lines : is_octet a -> is_octet b -> is_octet c -> is_octet d ->
  (forall line l, line ∈ lines -> entry line = Some l -> (forall net, parse_net l <> Some (inr net)) /\ forall ip, parse_ip l <> Some (V6 ip)) ->
  ~ refused lines (mapped a b c d).
Proof.
  intros Ha Hb Hc Hd Hall. pose proof (parse_mapped a b c d Ha Hb Hc Hd) as Hm.
  intros [line Hin Hl Hn Hi|line l net ip Hin Hl Hn Hi Hx|line l net ip Hin Hl Hn Hi Hx|line l ip Hin Hl Hn Hi Ht]; try congruence.
  - by destruct (Hall line l Hin Hl) as [Hv _]; destruct (Hv net).
  - destruct (Hall line l Hin Hl) as [_ Hv]. rewrite Hm in Ht. injection Ht as <-. by destruct (Hv _ Hi).
Qed.

(** What an address in the list does and does not refuse: an IPv4 address in
    the list refuses that address written in the usual way, whatever else is
    listed.  But the same host can be named by its IPv4-mapped IPv6 address, which
    a list of IPv4 addresses does not refuse. *)
Theorem mapped_address_allowed a b c d lines :
  is_octet a -> is_octet b -> is_octet c -> is_octet d ->
  (forall line, line ∈ lines -> exists a' b' c' d', is_octet a' /\ is_octet b' /\ is_octet c' /\ is_octet d' /\
     entry line = Some (dotted a' b' c' d')) ->
  (exists line, line ∈ lines /\ entry line = Some (dotted a b c d)) ->
  is_host_allowed (filter_from_iter lines) (dotted a b c d) = false /\
  is_host_allowed (filter_from_iter lines) (mapped a b c d) = true.
Proof.
  intros Ha Hb Hc Hd Hall (line & Hin & Hl). rewrite !host_filter_spec. split.
  - apply negb_false_iff, existsb_exists. exists line. rewrite list_elem_of_In in Hin. split; [done|].
    rewrite Hl. unfold line_blocks. rewrite dotted_not_net, parse_dotted by done. by apply bool_decide_true.
  - apply negb_true_iff, not_true_iff_false. rewrite existsb_exists. intros (l & Hl' & Hb').
    rewrite <- list_elem_of_In in Hl'. destruct (Hall l Hl') as (a' & b' & c' & d' & ? & ? & ? & ? & He).
    rewrite He in Hb'. unfold line_blocks in Hb'. rewrite dotted_not_net, parse_dotted, parse_mapped in Hb' by done.
    by apply bool_decide_eq_true in Hb'.
Qed.
End Bypass.

(** ** Networks as address and prefix length *)
Module ToyNets.
Definition bits (size : Z) (l : list Z) : Z := foldl (fun n x => n * size + x) 0 l.
Definition covers (width size : Z) (net : list Z * Z) (ip : list Z) : bool :=
  (length net.1 =? length ip)%nat && (net.2 =? width) && bool_decide (ip = net.1) ||
  negb (net.2 =? width) && (Z.shiftr (bits size net.1) (width - net.2) =? Z.shiftr (bits size ip) (width - net.2)).
Definition parse (s : bytes) : option (list Z * Z + list Z * Z) :=
  '(ip, s) ← read_ip_addr s;
  '(_, s) ← read_given_char 47 s;
  '(n, s) ← read_number U8 10 3 false s;
  match s, ip with [], V4 a => Some (inl (a, n)) | [], V6 a => Some (inr (a, n)) | _, _ => None end.
#[export] Instance nets : IpNets := {
  Ipv4Net := list Z * Z;
  Ipv6Net := list Z * Z;
  parse_net s := if bool_decide (47 ∈ s) then parse s else None;
  net4 a := (a, 32);
  net6 a := (a, 128);
  net4_contains := covers 32 256;
  net6_contains := covers 128 65536;
  IpRange N := list N;
  range_new N := [];
  range4_add n r := n :: r;
  range6_add n r := n :: r;
  range4_contains r ip := existsb (fun n => covers 32 256 n ip) r;
  range6_contains r ip := existsb (fun n => covers 128 65536 n ip) r
}.
#[export] Instance nets_lawful : IpNetsLawful.
Proof.
  split; try done; simpl.
  1-2: intros a ip; unfold covers; simpl; rewrite orb_false_r;
    destruct (Nat.eqb_spec (length a) (length ip)) as [_|Hn]; simpl; [done|];
    case_bool_decide; [|done]; subst; done.
  intros s n. by case_bool_decide.
Qed.
End ToyNets.
Import ToyNets.

(** The source's own test: a network, a name and two addresses, indented. *)
Definition demo_lines : list bytes := lit <$> ["            192.168.0.0/16"; "            localhost"; "            127.0.0.1";
  "            ::1"; ""; "# a comment"].
Example demo_filter :
  (is_host_allowed (filter_from_iter demo_lines) ∘ lit) <$>
    ["google.com"; "localhost"; "192.168.1.195"; "::1"; "192.169.0.1"; "LOCALHOST"] =
  [true; false; false; false; true; true].
Proof. vm_compute. reflexivity. Qed.

Lemma mapped_address_allowed_witness :
  is_host_allowed (filter_from_iter [lit " 127.0.0.1 "]) (dotted 127 0 0 1) = false /\
  is_host_allowed (filter_from_iter [lit " 127.0.0.1 "]) (mapped 127 0 0 1) = true.
Proof.
  apply (mapped_address_allowed 127 0 0 1 [lit " 127.0.0.1 "]); [done..| |].
  - intros line ->%list_elem_of_singleton. exists 127, 0, 0, 1. done.
  - exists (lit " 127.0.0.1 "). split; [by apply list_elem_of_singleton|done].
Defined.
