(* ===== verification/Connect.v ===== *)
(** * Opening a connection (wapo-host/src/runtime/vm_context.rs [tcp_connect])

    The task behind a connecting resource: through a proxy, to an address, or to
    the addresses a name resolves to, one after the other.  Proxy, sockets and
    resolver are parameters over the network's state. *)
From S2P Require Import Prelude Ordered ArgsStack Blobs TcpAcl.

Section Connect.
Context {W E Stream : Type}.
Context (env : bytes -> option bytes)
  (proxy_connect : bytes -> Z -> bytes -> M W E Stream)
  (socket_connect : IpAddr -> Z -> M W E Stream)
  (resolver : M W E unit) (lookup_ip : bytes -> M W E (list IpAddr))
  (no_address : E).

(** [str::ends_with]. *)
Definition ends_with (suffix s : bytes) : bool :=
  match strip_prefix (rev suffix) (rev s) with Some _ => true | None => false end.
Definition is_ip (host : bytes) : bool := match parse_ip host with Some _ => true | None => false end.
Definition get_proxy (key : bytes) : option bytes :=
  uri ← env key;
  if bool_decide (trim uri = []) then None else Some uri.
Definition proxy_for (host : bytes) : option bytes :=
  match (if ends_with (lit ".i2p") host then get_proxy (lit "i2p_proxy") else None) with
  | Some url => Some url
  | None => get_proxy (lit "all_proxy")
  end.

(** The loop over the addresses of a name. *)
Fixpoint connect_any (port : Z) (last_err : option E) (ips : list IpAddr) : M W E Stream :=
  match ips with
  | [] => throw (default no_address last_err)
  | ip :: ips => fun w =>
    match socket_connect ip port w with
    | (Ok stream, w) => (Ok stream, w)
    | (Err e, w) => connect_any port (Some e) ips w
    end
  end.

Definition connect_stream (host : bytes) (port : Z) : M W E Stream :=
  match proxy_for host with
  | Some proxy_url => proxy_connect host port proxy_url
  | None =>
    match parse_ip host with
    | Some ip => socket_connect ip port
    | None => resolver;; ips ← lookup_ip host; connect_any port None ips
    end
  end.

(** ** What a connection reaches *)

(** The attempts on a list of addresses that all fail, with their errors. *)
Inductive fails (port : Z) : list IpAddr -> W -> list E -> W -> Prop :=
| fails_nil w : fails port [] w [] w
| fails_cons ip ips w e w1 es w' : socket_connect ip port w = (Err e, w1) -> fails port ips w1 es w' ->
    fails port (ip :: ips) w (e :: es) w'.

Lemma last_default {A} (l : list A) : forall x d d', List.last (x :: l) d = List.last (x :: l) d'.
Proof. induction l as [|y l IH]; intros x d d'; [done|]. apply (IH y). Qed.
Lemma connect_any_spec port ips : forall last_err w r w', connect_any port last_err ips w = (r, w') ->
  (exists tried ip rest es w1 s, ips = tried ++ ip :: rest /\ fails port tried w es w1 /\
     socket_connect ip port w1 = (Ok s, w') /\ r = Ok s) \/
  (exists es, fails port ips w es w' /\ r = Err (List.last es (default no_address last_err))).
Proof.
  induction ips as [|ip ips IH]; intros last_err w r w'; simpl.
  - intros [= <- <-]. right. exists []. split; [constructor|done].
  - destruct (socket_connect ip port w) as [[s|e] w1] eqn:Hc.
    + intros [= <- <-]. left. exists [], ip, ips, [], w, s. split_and!; [done|constructor|done|done].
    + intros [(tried & ip' & rest & es & w2 & s & -> & Hf & Hs & ->)|(es & Hf & ->)]%IH.
      * left. exists (ip :: tried), ip', rest, (e :: es), w2, s. split_and!; try done. by econstructor.
      * right. exists (e :: es). split; [by econstructor|].
        destruct es as [|e' es]; [done|]. f_equal. apply (last_default es).
Qed.

(** A name is connected to by its addresses in the resolver's order: the first
    that answers, after those before it failed; when all fail the error is the
    last one, and without addresses it says so. *)
Theorem resolved_in_order host port w w0 ips w1 : proxy_for host = None -> parse_ip host = None ->
  resolver w = (Ok tt, w0) -> lookup_ip host w0 = (Ok ips, w1) ->
  let '(r, w') := connect_stream host port w in
  (exists tried ip rest es w2 s, ips = tried ++ ip :: rest /\ fails port tried w1 es w2 /\
     socket_connect ip port w2 = (Ok s, w') /\ r = Ok s) \/
  (exists es, fails port ips w1 es w' /\ r = Err (List.last es no_address)).
Proof.
  intros Hp Hi Hr Hl. unfold connect_stream. rewrite Hp, Hi. unfold mbind, M_bind. rewrite Hr, Hl.
  destruct (connect_any port None ips w1) as [r w'] eqn:Hc. by apply connect_any_spec in Hc.
Qed.

(** The access list sees only the text of the host: a name that no line gives is
    allowed, and is connected to whatever address it resolves to, also one that a
    line of the list blocks. *)
Theorem resolved_address_unchecked `{IpNetsLawful} lines host ip port w w0 w1 :
  parse_ip host = None -> (forall line, line ∈ lines -> entry line <> Some host) ->
  proxy_for host = None -> resolver w = (Ok tt, w0) -> lookup_ip host w0 = (Ok [ip], w1) ->
  is_host_allowed (filter_from_iter lines) host = true /\
  connect_stream host port w = match socket_connect ip port w1 with (Ok s, w') => (Ok s, w') | (Err e, w') => (Err e, w') end.
Proof.
  intros Hi Hn Hp Hr Hl. split.
  - rewrite host_filter_spec. apply negb_true_iff, not_true_is_false. rewrite existsb_exists.
    intros (line & Hin%list_elem_of_In & Hb). specialize (Hn line Hin). destruct (entry line) as [l|]; [|done].
    unfold line_blocks in Hb. rewrite Hi in Hb. destruct (parse_net l) as [[]|]; [done..|].
    destruct (parse_ip l); [by case_bool_decide|]. case_bool_decide; congruence.
  - unfold connect_stream. rewrite Hp, Hi. unfold mbind, M_bind. rewrite Hr, Hl. done.
Qed.
End Connect.

Import ToyNets.
(** A name for the loop-back address, which the list blocks. *)
Definition toy_connect : M nat bytes IpAddr :=
  connect_stream (fun _ => None) (fun _ _ _ => throw []) (fun ip _ n => (Ok ip, S n)) (mret tt)
    (fun _ => mret [V4 [127; 0; 0; 1]]) [] (lit "localhost.example") 80.
Lemma resolved_address_unchecked_witness :
  is_host_allowed (filter_from_iter demo_lines) (lit "127.0.0.1") = false /\
  is_host_allowed (filter_from_iter demo_lines) (lit "localhost.example") = true /\
  toy_connect 0%nat = (Ok (V4 [127; 0; 0; 1]), 1%nat).
Proof.
  split; [vm_compute; reflexivity|].
  apply (resolved_address_unchecked (fun _ => None) (fun _ _ _ => throw []) (fun ip _ n => (Ok ip, S n)) (mret tt)
    (fun _ => mret [V4 [127; 0; 0; 1]]) [] demo_lines (lit "localhost.example") (V4 [127; 0; 0; 1]) 80 0%nat 0%nat 0%nat);
    try (vm_compute; reflexivity).
  apply (proj1 (Forall_forall _ _)). unfold demo_lines.
  apply (bool_decide_unpack (Forall (fun l => entry l <> Some (lit "localhost.example")) _)). vm_compute. reflexivity.
Defined.
Lemma resolved_in_order_witness :
  exists r w', toy_connect 0%nat = (r, w') /\ exists s, r = Ok s.
Proof.
  pose proof (resolved_in_order (fun _ => None) (fun _ _ _ => throw []) (fun ip _ n => (Ok ip, S n)) (mret tt)
    (fun _ => mret [V4 [127; 0; 0; 1]]) ([] : bytes) (lit "localhost.example") 80 0%nat 0%nat [V4 [127; 0; 0; 1]] 0%nat
    ltac:(vm_compute; reflexivity) ltac:(vm_compute; reflexivity) eq_refl eq_refl) as H.
  unfold toy_connect. destruct (connect_stream _ _ _ _ _ _ _ _ _) as [r w'] eqn:Hc. exists r, w'. split; [done|].
  destruct H as [(? & ? & ? & ? & ? & s & _ & _ & _ & ->)|(es & Hf & ->)]; [eauto|].
  exfalso. inversion Hf; simplify_eq.
Defined.
