(* ===== verification/Service.v ===== *)
(** * The VM service (wapo-host/src/service.rs)

    The life of one instance as the task spawned by [ServiceHandle::start] sees
    it: load the module, create the instance, then a loop that waits for the
    first of a time limit, the end of the guest, a command or a control command. *)
From stdpp Require Import pretty.
From S2P Require Import Prelude Meter.

Inductive VmStatus : Type :=
| LoadingCode
| CreatingInstance
| Running
| Stopped (reason : string) (error : option anyhow).

Inductive ExitReason : Type :=
| Exited (code : Z)
| EStopped
| InputClosed
| Trap
| Cancelled
| Restore
| WaitingForCode
| CodeTooLarge
| FailedToStart.

#[export] Instance ExitReason_eq_dec : EqDecision ExitReason.
Proof. solve_decision. Defined.

(** [{reason:?}], the derived [Debug]. *)
Definition ExitReason_debug (r : ExitReason) : string :=
  match r with
  | Exited code => "Exited(" +:+ pretty code +:+ ")" | EStopped => "Stopped" | InputClosed => "InputClosed" | Trap => "Trap"
  | Cancelled => "Cancelled" | Restore => "Restore" | WaitingForCode => "WaitingForCode"
  | CodeTooLarge => "CodeTooLarge" | FailedToStart => "FailedToStart"
  end.

(** How the guest future ended: returned, left by [proc_exit], or failed. *)
Inductive run_end : Type := RetOk | RetExit (code : Z) | RetErr.

(** [{err}]: the outermost message of an error. *)
Definition anyhow_display (e : anyhow) : string :=
  match e with Msg s => s | Ctx s _ => s end.

(** What the task waits for, in the order it happens.  [None] is a closed
    channel; a query or an HTTP request is handed to the VM context, whose
    failure is only logged.  [EvMeterStop] is the first half of [VmHandle::stop],
    [EvStop] what the task receives of its second half.  [EvTaskEnd] is the end of
    the task by a cancellation or a panic, which drops its guards. *)
Inductive event : Type :=
| EvLoaded (r : result anyhow unit)
| EvCreated (r : result anyhow unit)
| EvTimeLimit
| EvRunEnd (r : run_end) (restarted : result anyhow unit)
| EvCommand (c : option unit)
| EvStop
| EvUpdateWeight (w : Z)
| EvControlClosed
| EvMeterStop
| EvTaskEnd (cancelled : bool).

(** [InstanceStartConfig], as far as the loop looks. *)
Record StartConfig : Type := MkStart {
  sc_auto_restart : bool;
  sc_time_limit : option Z;
  sc_weight : Z
}.

Definition MIN_LIVE_TIME : Z := 10 * 1000.

(** The task's position; times are in milliseconds.  [timer] is when the current
    round of the loop created its time limit future. *)
Inductive phase : Type :=
| Loading
| Creating
| Looping (start_time timer : Z) (weight : Z)
| Done (r : ExitReason).

Record Vm : Type := MkVm {
  vm_phase : phase;
  (** everything sent on the status channel, oldest first *)
  statuses : list VmStatus;
  vm_meter_stopped : bool
}.

Definition vm_init : Vm := MkVm Loading [LoadingCode] false.

Definition send_status (st : VmStatus) (v : Vm) (p : phase) : Vm :=
  MkVm p (statuses v ++ [st]) (vm_meter_stopped v).

(** Leaving the loop: [defer!] stops the meter, the guard sends the status. *)
Definition exit_with (r : ExitReason) (v : Vm) : Vm :=
  MkVm (Done r) (statuses v ++ [Stopped (ExitReason_debug r) None]) true.

Definition stop_meter (v : Vm) : Vm := MkVm (vm_phase v) (statuses v) true.

(** The task is dropped: the status guard reports it, and in the loop the
    deferred stop of the meter runs. *)
Definition drop_task (r : ExitReason) (v : Vm) : Vm :=
  MkVm (Done r) (statuses v ++ [Stopped "Unknown error" None])
    (vm_meter_stopped v || match vm_phase v with Looping _ _ _ => true | _ => false end).

(** Whether a guest that ended is started again. *)
Definition need_restart (cfg : StartConfig) (now start_time : Z) (stopped : bool) : bool :=
  sc_auto_restart cfg && (MIN_LIVE_TIME <? now - start_time) && negb stopped &&
  match sc_time_limit cfg with None => true | Some _ => false end.

Definition end_reason (r : run_end) : ExitReason :=
  match r with RetOk => Exited 0 | RetExit code => Exited code | RetErr => Trap end.

(** The outer task: a panicked or cancelled instance task still yields a reason. *)
Definition join_reason (r : result bool ExitReason) : ExitReason :=
  match r with Ok r => r | Err true => Cancelled | Err false => Trap end.

Section Step.
(** [{err:?}]: anyhow's rendering of an error with its causes. *)
Context (anyhow_debug : anyhow -> string).

(** One step at time [now]; an event that the task is not waiting for has no
    effect. *)
Definition vm_step (cfg : StartConfig) (v : Vm) (te : Z * event) : Vm :=
  let '(now, ev) := te in
  match vm_phase v, ev with
  | Loading, EvLoaded (Ok _) => send_status CreatingInstance v Creating
  | Loading, EvLoaded (Err err) =>
    let err := Ctx "failed to load module" err in
    send_status (Stopped (anyhow_debug err) (Some err)) v (Done FailedToStart)
  | Creating, EvCreated (Ok _) => send_status Running v (Looping now now (sc_weight cfg))
  | Creating, EvCreated (Err err) =>
    let err := Ctx "failed to create instance" err in
    send_status (Stopped (anyhow_display err) (Some err)) v (Done FailedToStart)
  | Looping start_time timer w, EvTimeLimit =>
    match sc_time_limit cfg with
    | Some t => if timer + t <=? now then exit_with EStopped v else v
    | None => v
    end
  | Looping start_time timer w, EvRunEnd r restarted =>
    if negb (need_restart cfg now start_time (vm_meter_stopped v)) then exit_with (end_reason r) v
    else match restarted with
         | Ok _ => MkVm (Looping now now (sc_weight cfg)) (statuses v) (vm_meter_stopped v)
         | Err _ => exit_with FailedToStart v
         end
  | Looping start_time timer w, EvCommand None => exit_with InputClosed v
  | Looping start_time timer w, EvCommand (Some _) =>
    MkVm (Looping start_time now w) (statuses v) (vm_meter_stopped v)
  | Looping start_time timer w, EvControlClosed => exit_with InputClosed v
  | Looping start_time timer w, EvStop => exit_with EStopped v
  | Looping start_time timer w, EvUpdateWeight w' =>
    MkVm (Looping start_time now w') (statuses v) (vm_meter_stopped v)
  | _, EvMeterStop => stop_meter v
  | Done _, _ => v
  | _, EvTaskEnd cancelled => drop_task (join_reason (Err cancelled)) v
  | _, _ => v
  end.

Definition vm_run (cfg : StartConfig) : Vm -> list (Z * event) -> Vm := foldl (vm_step cfg).
End Step.

(** [VmHandle::stop] at time [now]: the meter is marked, then the task told. *)
Definition handle_stop (now : Z) : list (Z * event) := [(now, EvMeterStop); (now, EvStop)].

(** ** [CommandSender]

    The senders of an instance are shared; dropping the last clone sends [Stop]. *)
Record CommandSender : Type := { cs_refs : nat; cs_sent : list event }.
Definition cs_clone (s : CommandSender) : CommandSender :=
  {| cs_refs := S (cs_refs s); cs_sent := cs_sent s |}.
Definition cs_drop (s : CommandSender) : CommandSender :=
  match cs_refs s with
  | S (S n) => {| cs_refs := S n; cs_sent := cs_sent s |}
  | S O => {| cs_refs := 0; cs_sent := cs_sent s ++ [EvStop] |}
  | O => s
  end.

(** ** Properties *)

Definition is_stopped (st : VmStatus) : bool :=
  match st with Stopped _ _ => true | _ => false end.

Section Facts.
Context (dbg : anyhow -> string).
Abbreviation vm_step := (vm_step dbg).
Abbreviation vm_run := (vm_run dbg).

(** The statuses sent in each phase. *)
Definition status_inv (v : Vm) : Prop :=
  match vm_phase v with
  | Loading => statuses v = [LoadingCode]
  | Creating => statuses v = [LoadingCode; CreatingInstance]
  | Looping _ _ _ => statuses v = [LoadingCode; CreatingInstance; Running]
  | Done r => exists pre reason err, statuses v = pre ++ [Stopped reason err] /\
      pre ∈ [[LoadingCode]; [LoadingCode; CreatingInstance];
             [LoadingCode; CreatingInstance; Running]] /\
      match err with
      | Some _ => r = FailedToStart /\ Running ∉ pre
      | None => (reason = ExitReason_debug r /\ Running ∈ pre) \/
                (reason = "Unknown error" /\ (r = Cancelled \/ r = Trap))
      end
  end.

Lemma exit_with_inv r v : statuses v = [LoadingCode; CreatingInstance; Running] ->
  status_inv (exit_with r v).
Proof.
  intros Hs. unfold exit_with, status_inv. simpl. rewrite Hs. do 3 eexists. split; [done|].
  split; [set_solver|]. left. split; [done|set_solver].
Qed.

Lemma drop_task_inv b v pre : statuses v = pre ->
  pre ∈ [[LoadingCode]; [LoadingCode; CreatingInstance]; [LoadingCode; CreatingInstance; Running]] ->
  status_inv (drop_task (join_reason (Err b)) v).
Proof.
  intros Hs Hpre. unfold drop_task, status_inv. simpl. rewrite Hs. do 3 eexists. split; [done|].
  split; [done|]. right. split; [done|]. destruct b; eauto.
Qed.

Lemma failed_inv pre r err : Running ∉ pre ->
  pre ∈ [[LoadingCode]; [LoadingCode; CreatingInstance]; [LoadingCode; CreatingInstance; Running]] ->
  forall b, status_inv (MkVm (Done FailedToStart) (pre ++ [Stopped r (Some err)]) b).
Proof. intros ? ? b. unfold status_inv. simpl. by exists pre, r, (Some err). Qed.

Lemma vm_step_inv cfg v te : status_inv v -> status_inv (vm_step cfg v te).
Proof.
  destruct te as [now ev]. intros Hv. unfold Service.vm_step.
  destruct (vm_phase v) as [| |st tm w|r] eqn:Hp; pose proof Hv as Hv0;
    unfold status_inv in Hv; rewrite Hp in Hv.
  - destruct ev as [[]| | | | | | | | |]; try done; try (by unfold status_inv; simpl; rewrite ?Hp, Hv).
    + unfold send_status. rewrite Hv. apply failed_inv; set_solver.
    + eapply drop_task_inv; [done|set_solver].
  - destruct ev as [|[]| | | | | | | |]; try done; try (by unfold status_inv; simpl; rewrite ?Hp, Hv).
    + unfold send_status. rewrite Hv. apply failed_inv; set_solver.
    + eapply drop_task_inv; [done|set_solver].
  - destruct ev as [| | |re rs|c| |w'| | |]; try done; try (by apply exit_with_inv);
      try (unfold status_inv; simpl; rewrite ?Hp; done).
    + destruct (sc_time_limit cfg) as [t|]; [|done]. case_match; [by apply exit_with_inv|done].
    + case_match; [by apply exit_with_inv|]. destruct rs; [done|by apply exit_with_inv].
    + destruct c; [done|by apply exit_with_inv].
    + eapply drop_task_inv; [done|set_solver].
  - destruct ev as [[]|[]| | | | | | | |]; try done.
Qed.

Lemma vm_run_inv cfg evs : forall v, status_inv v -> status_inv (vm_run cfg v evs).
Proof. induction evs; intros v Hv; simpl; eauto using vm_step_inv. Qed.

Lemma vm_step_done cfg v r te : vm_phase v = Done r ->
  vm_phase (vm_step cfg v te) = Done r /\ statuses (vm_step cfg v te) = statuses v.
Proof.
  destruct te as [now ev]. unfold Service.vm_step. intros Hp. rewrite Hp.
  by destruct ev as [[]|[]| | | | | | | |].
Qed.

Lemma vm_run_done cfg r evs : forall v, vm_phase v = Done r ->
  vm_phase (vm_run cfg v evs) = Done r /\ statuses (vm_run cfg v evs) = statuses v.
Proof.
  induction evs as [|te evs IH]; intros v Hv; [done|]. simpl.
  destruct (vm_step_done cfg v r te Hv) as [Hp Hs]. rewrite <- Hs. by apply IH.
Qed.

(** C21: the life of an instance, whatever happens to it: its statuses are
    LoadingCode, CreatingInstance and Running in that order, followed by one
    Stopped.  That one carries an error only if the instance was never running,
    and otherwise names the exit reason, unless the task itself was cancelled or
    panicked.  Once it has stopped, neither its phase nor its statuses change. *)
Theorem vm_lifecycle cfg evs evs' :
  let v := vm_run cfg vm_init evs in
  status_inv v /\
  (existsb is_stopped (statuses v) = true ->
   vm_phase (vm_run cfg v evs') = vm_phase v /\ statuses (vm_run cfg v evs') = statuses v).
Proof.
  intros v. assert (Hv : status_inv v) by (by apply vm_run_inv). split; [done|].
  unfold status_inv in Hv. destruct (vm_phase v) as [| | |r] eqn:Hp; try (by rewrite Hv).
  intros _. by apply vm_run_done.
Qed.

(** Events in time order, from [t0] on. *)
Fixpoint ordered (t0 : Z) (evs : list (Z * event)) : Prop :=
  match evs with [] => True | (t, _) :: evs => t0 <= t /\ ordered t evs end.

(** Restarts of the guest along a run. *)
Definition is_restart (cfg : StartConfig) (v : Vm) (te : Z * event) : bool :=
  match vm_phase v, te with
  | Looping start_time _ _, (now, EvRunEnd _ (Ok _)) =>
    need_restart cfg now start_time (vm_meter_stopped v)
  | _, _ => false
  end.
Fixpoint restarts (cfg : StartConfig) (v : Vm) (evs : list (Z * event)) : Z :=
  match evs with
  | [] => 0
  | te :: evs => (if is_restart cfg v te then 1 else 0) + restarts cfg (vm_step cfg v te) evs
  end.

Definition started_at (v : Vm) (t : Z) : Prop :=
  match vm_phase v with Looping st _ _ => st <= t | _ => True end.

Lemma restart_step cfg v t ev : started_at v t ->
  started_at (vm_step cfg v (t, ev)) t /\
  (is_restart cfg v (t, ev) = true ->
    exists st tm w, vm_phase v = Looping st tm w /\ MIN_LIVE_TIME < t - st /\
      exists tm' w', vm_phase (vm_step cfg v (t, ev)) = Looping t tm' w') /\
  (is_restart cfg v (t, ev) = false -> forall st tm w, vm_phase v = Looping st tm w ->
    match vm_phase (vm_step cfg v (t, ev)) with Looping st' _ _ => st' = st | _ => True end).
Proof.
  unfold started_at, is_restart, Service.vm_step. intros Hs.
  destruct (vm_phase v) as [| |st tm w|r] eqn:Hp.
  - destruct ev as [[]|[]| | | | | | | |]; simpl; try rewrite Hp; done.
  - destruct ev as [[]|[]| | | | | | | |]; simpl; try rewrite Hp; split_and!; try done; lia.
  - destruct ev as [[]|[]| |re [[]|e]|[[]|]| |w'| | |]; simpl; try rewrite Hp;
      try (split_and!; try done; intros; simplify_eq; done).
    + destruct (sc_time_limit cfg) as [tl|]; [destruct (tm + tl <=? t)|]; simpl; rewrite ?Hp;
        naive_solver.
    + destruct (need_restart cfg t st (vm_meter_stopped v)) eqn:Hn; simpl; split_and!; try done.
      intros _. do 3 eexists. split; [done|].
      unfold need_restart in Hn. prop_bools. eauto.
    + destruct (negb _); simpl; split_and!; done.
  - destruct ev as [[]|[]| | | | | | | |]; simpl; rewrite Hp; done.
Qed.

Lemma enter_loop_step cfg v t ev st tm w :
  vm_phase (vm_step cfg v (t, ev)) = Looping st tm w ->
  (exists st0 tm0 w0, vm_phase v = Looping st0 tm0 w0) \/ st = t.
Proof.
  unfold Service.vm_step. destruct (vm_phase v) as [| |st0 tm0 w0|r] eqn:Hp; [| |by eauto|].
  all: destruct ev as [[]|[]| | | | | | | |]; simpl; rewrite ?Hp; intros; simplify_eq; eauto.
Qed.

Definition base (v : Vm) (t0 : Z) : Z :=
  match vm_phase v with Looping st _ _ => st | _ => t0 end.
Definition last_time (t0 : Z) (evs : list (Z * event)) : Z := foldl (fun _ te => te.1) t0 evs.

Lemma base_step cfg v t0 t ev : started_at v t0 -> t0 <= t ->
  started_at (vm_step cfg v (t, ev)) t /\
  base v t0 + (if is_restart cfg v (t, ev) then MIN_LIVE_TIME else 0)
    <= base (vm_step cfg v (t, ev)) t.
Proof.
  intros Hs Ht. assert (Hst : started_at v t).
  { unfold started_at in *. destruct (vm_phase v); lia || done. }
  destruct (restart_step cfg v t ev Hst) as (Hs' & Hyes & Hno). split; [done|].
  destruct (is_restart cfg v (t, ev)).
  - destruct Hyes as (st & tm & w & Hp & Hlive & tm' & w' & Hp'); [done|].
    unfold base. rewrite Hp, Hp'. lia.
  - specialize (Hno eq_refl). unfold base, started_at in *.
    destruct (vm_phase (vm_step cfg v (t, ev))) as [| |st' tm' w'|r'] eqn:Hq;
      try (destruct (vm_phase v); lia).
    destruct (enter_loop_step _ _ _ _ _ _ _ Hq) as [(st & tm & w & Hp)| ->].
    + rewrite Hp. specialize (Hno _ _ _ Hp). lia.
    + destruct (vm_phase v); lia.
Qed.

Lemma last_time_ge t0 evs : ordered t0 evs -> t0 <= last_time t0 evs.
Proof.
  unfold last_time. revert t0. induction evs as [|[t ev] evs IH]; intros t0; simpl; [lia|].
  intros [Ht Ho]. specialize (IH t Ho). lia.
Qed.

Lemma restarts_bound cfg evs : forall v t0, ordered t0 evs -> started_at v t0 ->
  base v t0 + MIN_LIVE_TIME * restarts cfg v evs <= Z.max (base v t0) (last_time t0 evs).
Proof.
  induction evs as [|[t ev] evs IH]; intros v t0 Ho Hs; [simpl; lia|].
  destruct Ho as [Ht Ho]. destruct (base_step cfg v t0 t ev Hs Ht) as [Hs' Hb].
  specialize (IH _ _ Ho Hs'). pose proof (last_time_ge _ _ Ho) as Hl.
  cbn [restarts]. change (last_time t0 ((t, ev) :: evs)) with (last_time t evs).
  assert (Hbt : base (vm_step cfg v (t, ev)) t <= t).
  { unfold base, started_at in *. destruct (vm_phase _); lia. }
  destruct (is_restart cfg v (t, ev)); lia.
Qed.

(** Restarts are rate limited: along any run with events in time order, the
    guest is restarted at most once per ten seconds; with a time limit or without
    [auto_restart] it is never restarted. *)
Theorem restart_rate cfg evs t0 : ordered t0 evs ->
  MIN_LIVE_TIME * restarts cfg vm_init evs <= last_time t0 evs - t0 /\
  (sc_auto_restart cfg = false \/ sc_time_limit cfg <> None -> restarts cfg vm_init evs = 0).
Proof.
  intros Ho. split.
  - pose proof (restarts_bound cfg evs vm_init t0 Ho I) as Hb. unfold base in Hb. simpl in Hb.
    pose proof (last_time_ge _ _ Ho). lia.
  - clear Ho. intros Hcfg. generalize vm_init.
    induction evs as [|[t ev] evs IH]; intros v; [done|]. cbn [restarts]. rewrite IH.
    assert (is_restart cfg v (t, ev) = false) as ->; [|done].
    unfold is_restart, need_restart.
    destruct (vm_phase v); try done. destruct ev as [| | |? []| | | | | |]; try done.
    destruct Hcfg as [-> |Hl]; [done|]. destruct (sc_time_limit cfg); [|done]. apply andb_false_r.
Qed.

Lemma meter_stopped_step cfg v te : vm_meter_stopped v = true ->
  vm_meter_stopped (vm_step cfg v te) = true /\ is_restart cfg v te = false.
Proof.
  destruct te as [now ev]. unfold Service.vm_step, is_restart, need_restart, drop_task. intros Hm.
  destruct (vm_phase v) as [| |st tm w|r] eqn:Hp;
    destruct ev as [[]|[]| |re [[]|e]|[[]|]| |w'| | |]; simpl; rewrite ?Hm, ?andb_false_r; try done.
  destruct (sc_time_limit cfg); [|done]. by case_match.
Qed.

Lemma stop_step cfg v st tm w t : vm_phase v = Looping st tm w ->
  vm_phase (vm_step cfg v (t, EvStop)) = Done EStopped.
Proof. unfold Service.vm_step. by intros ->. Qed.

Lemma looping_step cfg v te st tm w : vm_phase v = Looping st tm w ->
  (exists st' tm' w', vm_phase (vm_step cfg v te) = Looping st' tm' w') \/
  (exists r, vm_phase (vm_step cfg v te) = Done r).
Proof.
  destruct te as [now ev]. unfold Service.vm_step. intros Hp. rewrite Hp.
  destruct ev as [[]|[]| |re [[]|e]|[[]|]| |w'| | |]; simpl; rewrite ?Hp; eauto;
    repeat case_match; simpl; eauto.
Qed.

(** C22: stopping is final: an instance whose meter has been stopped is never
    restarted, whatever happens; and a running instance whose task receives the
    stop command [VmHandle::stop] sent, whatever it receives before, ends. *)
Theorem stop_is_final cfg v st tm w evs : vm_phase v = Looping st tm w ->
  let v' := vm_step cfg v (tm, EvMeterStop) in
  restarts cfg v' evs = 0 /\
  (EvStop ∈ evs.*2 -> exists r, vm_phase (vm_run cfg v' evs) = Done r).
Proof.
  intros Hp v'.
  assert (Hm : vm_meter_stopped v' = true) by (subst v'; unfold Service.vm_step; by rewrite Hp).
  assert (Hp' : vm_phase v' = Looping st tm w) by (subst v'; unfold Service.vm_step; by rewrite Hp).
  clearbody v'. clear v Hp. split.
  - clear Hp'. revert v' Hm. induction evs as [|te evs IH]; intros v Hm; [done|]. cbn [restarts].
    destruct (meter_stopped_step cfg v te Hm) as [Hm' ->]. rewrite IH; done.
  - clear Hm. revert v' st tm w Hp'.
    induction evs as [|[t ev] evs IH]; intros v st tm w Hp Hin; [by apply elem_of_nil in Hin|].
    cbn [Service.vm_run foldl]. change (EvStop ∈ ev :: evs.*2) in Hin. apply elem_of_cons in Hin as [<- |Hin].
    + eexists. by apply vm_run_done, (stop_step _ _ st tm w).
    + destruct (looping_step cfg v (t, ev) st tm w Hp) as [(st' & tm' & w' & Hp')|[r Hp']].
      * by apply (IH _ st' tm' w').
      * exists r. by apply vm_run_done.
Qed.

(** Commands at the given times, each preceded by an expiry of the time limit if
    it is due. *)
Definition busy (ts : list Z) : list (Z * event) :=
  ts ≫= (fun t => [(t, EvTimeLimit); (t, EvCommand (Some tt))]).

(** Less than [limit] passes between one time and the next. *)
Fixpoint gaps_below (limit t0 : Z) (ts : list Z) : Prop :=
  match ts with [] => True | t :: ts => t0 <= t < t0 + limit /\ gaps_below limit t ts end.

(** The time limit of an instance does not bound its execution time: it is
    measured from the last command, so an instance that gets a command before the
    limit runs out is kept running for as long as that goes on, however long the
    whole takes. *)
Theorem time_limit_restarts limit auto wt ts : forall v st timer w,
  vm_phase v = Looping st timer w -> gaps_below limit timer ts ->
  vm_phase (vm_run (MkStart auto (Some limit) wt) v (busy ts)) =
    Looping st (foldl (fun _ t => t) timer ts) w.
Proof.
  induction ts as [|t ts IH]; intros v st timer w Hp Hg; [done|].
  destruct Hg as [Hg1 Hg2].
  change (busy (t :: ts)) with ((t, EvTimeLimit) :: (t, EvCommand (Some tt)) :: busy ts).
  cbn [Service.vm_run foldl]. unfold Service.vm_step at 2. rewrite Hp. cbn [sc_time_limit].
  rewrite (proj2 (Z.leb_gt _ _)) by lia. unfold Service.vm_step at 1. rewrite Hp.
  fold (vm_run (MkStart auto (Some limit) wt)).
  by rewrite (IH _ st t w).
Qed.
End Facts.

Lemma vm_lifecycle_witness :
  let cfg := MkStart false None 1 in
  let v := vm_run anyhow_display cfg vm_init
    [(0, EvLoaded (Ok tt)); (1, EvCreated (Ok tt)); (2, EvRunEnd (RetExit 3) (Ok tt))] in
  statuses v = [LoadingCode; CreatingInstance; Running; Stopped "Exited(3)" None] /\
  vm_phase (vm_run anyhow_display cfg v (handle_stop 4)) = vm_phase v.
Proof.
  split; [reflexivity|].
  apply (vm_lifecycle anyhow_display (MkStart false None 1)
    [(0, EvLoaded (Ok tt)); (1, EvCreated (Ok tt)); (2, EvRunEnd (RetExit 3) (Ok tt))]). reflexivity.
Defined.

Lemma restart_rate_witness :
  let cfg := MkStart true None 1 in
  let evs := [(0, EvLoaded (Ok tt)); (5, EvCreated (Ok tt)); (10100, EvRunEnd RetErr (Ok tt));
     (20200, EvRunEnd RetOk (Ok tt)); (20300, EvRunEnd RetOk (Ok tt))] in
  restarts anyhow_display cfg vm_init evs = 2 /\
  MIN_LIVE_TIME * restarts anyhow_display cfg vm_init evs <= 20300 - 0.
Proof.
  intros cfg evs. split; [reflexivity|].
  apply (restart_rate anyhow_display cfg evs 0). simpl. lia.
Defined.

Lemma stop_is_final_witness :
  let v := MkVm (Looping 0 0 1) [LoadingCode; CreatingInstance; Running] false in
  exists r, vm_phase (vm_run anyhow_display (MkStart true None 1)
    (vm_step anyhow_display (MkStart true None 1) v (0, EvMeterStop))
    [(20000, EvCommand (Some tt)); (20001, EvStop)]) = Done r.
Proof.
  apply (stop_is_final anyhow_display (MkStart true None 1)
    (MkVm (Looping 0 0 1) [LoadingCode; CreatingInstance; Running] false) 0 0 1
    [(20000, EvCommand (Some tt)); (20001, EvStop)]); [reflexivity|]. simpl. right. left.
Defined.

Lemma time_limit_restarts_witness :
  vm_phase (vm_run anyhow_display (MkStart false (Some 100) 1)
    (MkVm (Looping 0 0 1) [LoadingCode; CreatingInstance; Running] false) (busy [90; 180; 270])) =
    Looping 0 270 1.
Proof.
  apply (time_limit_restarts anyhow_display 100 false 1 [90; 180; 270] (MkVm (Looping 0 0 1)
    [LoadingCode; CreatingInstance; Running] false) 0 0 1); [reflexivity|simpl; lia].
Defined.
