(* ===== verification/Reports.v ===== *)
(** * Reports of the VM service (wapo-host/src/service.rs)

    Around the task of an instance (Service) [ServiceHandle::start] spawns a second
    one, which waits for its end, reports the reason on a channel of bounded size
    and then signals whoever stops the instance; [ServiceRun::run] passes the
    reports on.  Tasks and the loop run interleaved; one event is one step of one of
    them.  The channel is tokio's: a sender that finds no room waits in a queue, and
    room that becomes free is reserved for the first of the queue. *)
From S2P Require Import Prelude Meter Service.

(** ** The tasks and the loop *)
Inductive Report : Type := VmTerminated (id : bytes) (reason : ExitReason).

(** The outer task: waiting for the instance, sending the report, ended after the stop
    signal was sent; [sent] tells whether the report could be sent. *)
Inductive task_state : Type :=
| TWaiting
| TReporting (reason : ExitReason)
| TEnded (reason : ExitReason) (sent : bool).

Record ServiceRun : Type := MkRun {
  sr_tasks : gmap nat (bytes * task_state);
  sr_next : nat;
  (** the report channel: what it holds, the senders that have a reserved place, those
      that wait for one, and whether the receiver exists *)
  report_channel : list Report;
  sr_granted : list nat;
  sr_waiters : list nat;
  sr_open : bool;
  (** what the event handler was called with *)
  sr_handled : list Report
}.
Definition channel_cap : nat := 100.
Definition service_new : ServiceRun := MkRun ∅ 0 [] [] [] true [].

(** [SvSend i]: the [i]-th task is polled while it sends; [SvClose]: the receiver is
    dropped, with what the channel holds. *)
Inductive service_event : Type :=
| SvStart (id : bytes)
| SvInstanceEnds (i : nat) (r : result bool ExitReason)
| SvSend (i : nat)
| SvRecv
| SvClose.

Definition put_task (i : nat) (t : bytes * task_state) (s : ServiceRun) : ServiceRun :=
  MkRun (<[i := t]> (sr_tasks s)) (sr_next s) (report_channel s) (sr_granted s) (sr_waiters s) (sr_open s) (sr_handled s).
(** Places that are free and not reserved. *)
Definition has_room (s : ServiceRun) : bool := (length (report_channel s) + length (sr_granted s) <? channel_cap)%nat.
(** [report_tx.send(..).await] of the [i]-th task, and after it the stop signal. *)
Definition poll_send (i : nat) (id : bytes) (reason : ExitReason) (s : ServiceRun) : ServiceRun :=
  let sent granted :=
    MkRun (<[i := (id, TEnded reason true)]> (sr_tasks s)) (sr_next s) (report_channel s ++ [VmTerminated id reason]) granted
      (sr_waiters s) (sr_open s) (sr_handled s) in
  if negb (sr_open s) then put_task i (id, TEnded reason false) s
  else if bool_decide (i ∈ sr_granted s) then sent (filter (fun j => j <> i) (sr_granted s))
  else if bool_decide (i ∈ sr_waiters s) then s
  else if has_room s then sent (sr_granted s)
  else MkRun (sr_tasks s) (sr_next s) (report_channel s) (sr_granted s) (sr_waiters s ++ [i]) (sr_open s) (sr_handled s).
(** One turn of the loop: a report is taken, and its place goes to the first waiter. *)
Definition recv_report (s : ServiceRun) : ServiceRun :=
  match report_channel s with
  | [] => s
  | r :: rest =>
    let '(granted, waiters) := match sr_waiters s with [] => (sr_granted s, []) | w :: ws => (sr_granted s ++ [w], ws) end in
    MkRun (sr_tasks s) (sr_next s) rest granted waiters (sr_open s) (sr_handled s ++ [r])
  end.
Definition service_step (s : ServiceRun) (ev : service_event) : ServiceRun :=
  match ev with
  | SvStart id =>
    MkRun (<[sr_next s := (id, TWaiting)]> (sr_tasks s)) (S (sr_next s)) (report_channel s) (sr_granted s) (sr_waiters s)
      (sr_open s) (sr_handled s)
  | SvInstanceEnds i r =>
    match sr_tasks s !! i with
    | Some (id, TWaiting) => put_task i (id, TReporting (join_reason r)) s
    | _ => s
    end
  | SvSend i =>
    match sr_tasks s !! i with
    | Some (id, TReporting reason) => poll_send i id reason s
    | _ => s
    end
  | SvRecv => if sr_open s then recv_report s else s
  | SvClose => MkRun (sr_tasks s) (sr_next s) [] [] [] false (sr_handled s)
  end.

(** ** Handles *)

(** [VmHandle], of the [i]-th task, with the meter it shares with the instance; the signal is
    waited for once. *)
Record VmHandle : Type := MkVmHandle { vh_task : nat; vh_signal : bool; vh_meter : Meter }.
Definition vh_is_stopped (h : VmHandle) : bool := negb (vh_signal h).
(** [stop]: the meter is stopped in any case; sending the command fails once the instance has
    ended, and the signal is kept; otherwise the signal, if it was not taken before,
    is waited for. *)
Definition vh_stop (control_open : bool) (h : VmHandle) : result anyhow bool * VmHandle :=
  let m := meter_stop (vh_meter h) in
  if control_open then (Ok (vh_signal h), MkVmHandle (vh_task h) false m)
  else (Err (Msg "channel closed"), MkVmHandle (vh_task h) (vh_signal h) m).
(** The signal of a task in a state of the service; [None] is pending. *)
Definition await_signal (task : nat) (s : ServiceRun) : option (result anyhow unit) :=
  match sr_tasks s !! task with
  | Some (_, TEnded _ _) => Some (Ok tt)
  | Some _ => None
  | None => Some (Err (Msg "channel closed"))
  end.

(** ** Every end is reported once *)

(** The report that a task has sent. *)
Definition report_of (s : ServiceRun) (i : nat) : option Report :=
  match sr_tasks s !! i with
  | Some (id, TEnded reason true) => Some (VmTerminated id reason)
  | _ => None
  end.
Definition reporting (s : ServiceRun) (i : nat) : Prop := exists id reason, sr_tasks s !! i = Some (id, TReporting reason).
(** [sent] lists the tasks that have sent, in the order of their reports. *)
Record reported (sent : list nat) (s : ServiceRun) : Prop := MkReported {
  rp_all : if sr_open s then sr_handled s ++ report_channel s = omap (report_of s) sent
           else sr_handled s `prefix_of` omap (report_of s) sent;
  rp_once : NoDup sent;
  rp_sent : forall i, i ∈ sent <-> is_Some (report_of s i);
  rp_lost : sr_open s = true -> forall i id reason, sr_tasks s !! i <> Some (id, TEnded reason false);
  rp_cap : (length (report_channel s) + length (sr_granted s) <= channel_cap)%nat;
  rp_full : sr_waiters s <> [] -> (length (report_channel s) + length (sr_granted s) = channel_cap)%nat;
  rp_queue : NoDup (sr_granted s ++ sr_waiters s) /\ Forall (reporting s) (sr_granted s ++ sr_waiters s);
  rp_fresh : forall i, (sr_next s <= i)%nat -> sr_tasks s !! i = None;
  rp_closed : sr_open s = false -> sr_granted s = [] /\ sr_waiters s = []
}.

Lemma omap_ext_in {A B} (f g : A -> option B) (l : list A) : (forall x, x ∈ l -> f x = g x) -> omap f l = omap g l.
Proof.
  induction l as [|x l IH]; intros Hl; [done|]. csimpl. rewrite (Hl x) by left.
  rewrite IH; [done|]. intros y Hy. apply Hl. by right.
Qed.
Lemma report_of_insert m n c g w o h i t j :
  report_of (MkRun (<[i := t]> m) n c g w o h) j =
  if decide (i = j) then match t.2 with TEnded r true => Some (VmTerminated t.1 r) | _ => None end
  else report_of (MkRun m n c g w o h) j.
Proof.
  unfold report_of. simpl. case_decide as Hd; [subst; rewrite lookup_insert_eq|by rewrite lookup_insert_ne].
  destruct t as [id [| |r []]]; done.
Qed.
(** Only the tasks decide which reports were sent. *)
Lemma omap_report_same s s' (sent : list nat) : (forall j, report_of s' j = report_of s j) -> omap (report_of s') sent = omap (report_of s) sent.
Proof. intros Hs. apply omap_ext_in. intros j _. apply Hs. Qed.
Lemma not_sent sent s i : reported sent s -> (forall id r, sr_tasks s !! i <> Some (id, TEnded r true)) -> i ∉ sent.
Proof.
  intros Hs Hi Hin%(rp_sent sent s Hs). unfold report_of in Hin. destruct (sr_tasks s !! i) as [[id [| |r []]]|]; try by destruct Hin.
  by destruct (Hi id r).
Qed.

(** A task that is not sending changes without sending. *)
Lemma reported_put sent s i id st st' n : reported sent s -> (sr_next s <= n)%nat -> (i < n)%nat ->
  sr_tasks s !! i = st -> (st = None \/ st = Some (id, TWaiting)) -> (forall r b, st' <> TEnded r b) ->
  reported sent (MkRun (<[i := (id, st')]> (sr_tasks s)) n (report_channel s) (sr_granted s) (sr_waiters s) (sr_open s) (sr_handled s)).
Proof.
  intros [Hall Honce Hsent Hlost Hcap Hfull [Hq Hr] Hfresh Hclosed] Hn Hin Hi Hst Hst'.
  set (s' := MkRun _ _ _ _ _ _ _). assert (Hsame : forall j, report_of s' j = report_of s j).
  { intros j. unfold s'. rewrite report_of_insert. case_decide as Hd; [subst j|done]. unfold report_of. rewrite Hi.
    destruct Hst as [->| ->]; destruct st' as [| |r b]; simpl; try done; by destruct (Hst' r b). }
  split; simpl; try done.
  - fold s'. by rewrite (omap_report_same _ _ _ Hsame).
  - intros j. fold s'. by rewrite Hsame.
  - intros Ho j id' r. destruct (decide (i = j)) as [<-|Hne]; [rewrite lookup_insert_eq; intros [= -> Hx]; by destruct (Hst' r false)|].
    rewrite lookup_insert_ne by done. by apply Hlost.
  - split; [done|]. eapply Forall_impl; [exact Hr|]. intros j (id' & r & Hj). exists id', r. simpl. rewrite lookup_insert_ne; [done|].
    intros ->. rewrite Hi in Hj. destruct Hst as [->| ->]; done.
  - intros j Hj. rewrite lookup_insert_ne by lia. apply Hfresh. lia.
Qed.

(** A task sends: it leaves the places that are reserved, if it had one. *)
Lemma reported_send sent s i id reason granted : reported sent s -> sr_open s = true ->
  sr_tasks s !! i = Some (id, TReporting reason) -> i ∉ granted -> i ∉ sr_waiters s -> granted `sublist_of` sr_granted s ->
  (length (report_channel s) + length granted < channel_cap)%nat ->
  (sr_waiters s <> [] -> (length (report_channel s) + length granted = Nat.pred channel_cap)%nat) ->
  reported (sent ++ [i]) (MkRun (<[i := (id, TEnded reason true)]> (sr_tasks s)) (sr_next s)
    (report_channel s ++ [VmTerminated id reason]) granted (sr_waiters s) true (sr_handled s)).
Proof.
  intros Hs Ho Hi Hig Hiw Hsub Hroom Hfull'. pose proof Hs as [Hall Honce Hsent Hlost Hcap Hfull [Hq Hr] Hfresh Hclosed].
  assert (Hnot : i ∉ sent) by (eapply not_sent; [done|]; intros ? ?; by rewrite Hi). rewrite Ho in *.
  set (s' := MkRun _ _ _ _ _ _ _).
  assert (Hof : forall j, report_of s' j = if decide (i = j) then Some (VmTerminated id reason) else report_of s j).
  { intros j. unfold s'. by rewrite report_of_insert. }
  split; simpl.
  - fold s'. rewrite omap_app, (assoc_L (++)), Hall. f_equal.
    + apply omap_ext_in. intros j Hj. rewrite Hof, decide_False; [done|]. by intros ->.
    + simpl. by rewrite Hof, decide_True.
  - apply NoDup_app. split_and!; [done| |by apply NoDup_singleton]. by intros j Hj ->%list_elem_of_singleton.
  - intros j. fold s'. rewrite elem_of_app, list_elem_of_singleton, Hof, Hsent. case_decide as Hd; [subst; split; eauto|].
    split; [intros [?| ->]; done|by left].
  - intros _ j id' r. destruct (decide (i = j)) as [<-|Hne]; [by rewrite lookup_insert_eq|rewrite lookup_insert_ne by done; by apply Hlost].
  - rewrite length_app. simpl. unfold channel_cap in *. lia.
  - intros Hw. specialize (Hfull' Hw). rewrite length_app. simpl. unfold channel_cap in *. lia.
  - assert (Hsub' : granted ++ sr_waiters s `sublist_of` sr_granted s ++ sr_waiters s) by by apply sublist_app.
    split; [by eapply sublist_NoDup|]. apply Forall_forall. intros j Hj. rewrite Forall_forall in Hr.
    destruct (Hr j) as (id' & r & Hj'); [eapply elem_of_sublist; eauto|]. exists id', r. simpl. rewrite lookup_insert_ne; [done|].
    intros ->. set_solver.
  - intros j Hj. rewrite lookup_insert_ne; [by apply Hfresh|]. intros ->. by rewrite Hfresh in Hi.
  - done.
Qed.
Lemma filter_other (i : nat) l : NoDup l -> i ∈ l -> S (length (filter (fun j => j <> i) l)) = length l.
Proof.
  induction 1 as [|j l Hj Hl IH]; intros Hin; [by apply not_elem_of_nil in Hin|]. rewrite filter_cons. apply elem_of_cons in Hin as [->|Hin].
  - rewrite decide_False by tauto. clear IH. f_equal. induction l as [|k l IHl]; [done|]. rewrite filter_cons, decide_True by set_solver.
    simpl. rewrite IHl; [done|set_solver|by inversion Hl].
  - rewrite decide_True by (intros ->; done). simpl. by rewrite IH.
Qed.
(** A task that cannot send ends without. *)
Lemma reported_lost sent s i id reason : reported sent s -> sr_open s = false ->
  sr_tasks s !! i = Some (id, TReporting reason) -> reported sent (put_task i (id, TEnded reason false) s).
Proof.
  intros Hs Ho Hi. pose proof Hs as [Hall Honce Hsent Hlost Hcap Hfull [Hq Hr] Hfresh Hclosed]. destruct (Hclosed Ho) as [Hg Hw].
  assert (Hsame : forall j, report_of (put_task i (id, TEnded reason false) s) j = report_of s j).
  { intros j. unfold put_task. rewrite report_of_insert. case_decide as Hd; [subst j|done]. unfold report_of. by rewrite Hi. }
  split; try done.
  - by rewrite (omap_report_same s _ sent Hsame).
  - intros j. by rewrite Hsame.
  - simpl. congruence.
  - simpl. rewrite Hg, Hw. split; constructor.
  - intros j Hj. simpl. rewrite lookup_insert_ne; [by apply Hfresh|]. intros ->. by rewrite Hfresh in Hi.
Qed.
Lemma poll_send_reported sent s i id reason : reported sent s -> sr_tasks s !! i = Some (id, TReporting reason) ->
  exists sent', reported sent' (poll_send i id reason s).
Proof.
  intros Hs Hi. pose proof Hs as [Hall Honce Hsent Hlost Hcap Hfull [Hq Hr] Hfresh Hclosed]. unfold poll_send, has_room.
  pose proof Hq as (Hg & Hgw & Hw)%NoDup_app.
  destruct (sr_open s) eqn:Ho; cbn [negb]; [|exists sent; by apply reported_lost].
  case_bool_decide as Hgr; [|case_bool_decide as Hwt; [by exists sent|destruct (Nat.ltb_spec (length (report_channel s) + length (sr_granted s)) channel_cap) as [Hroom|Hroom]]].
  - pose proof (filter_other i (sr_granted s) Hg Hgr) as Hlen. exists (sent ++ [i]). apply reported_send; try done.
    + by intros [? _]%list_elem_of_filter.
    + by apply Hgw.
    + apply sublist_filter.
    + lia.
    + intros Hne%Hfull. lia.
  - exists (sent ++ [i]). apply reported_send; try done. intros Hne%Hfull. lia.
  - exists sent. split; simpl; try done; try lia.
    rewrite (assoc_L (++)). split.
    + apply NoDup_app. split_and!; [done| |by apply NoDup_singleton]. intros j Hj ->%list_elem_of_singleton. set_solver.
    + apply Forall_app. split; [done|]. constructor; [by exists id, reason|done].
Qed.

Lemma recv_reported sent s : reported sent s -> sr_open s = true -> reported sent (recv_report s).
Proof.
  intros Hs Ho. pose proof Hs as [Hall Honce Hsent Hlost Hcap Hfull [Hq Hr] Hfresh Hclosed]. unfold recv_report.
  destruct (report_channel s) as [|r rest] eqn:Hc; [done|]. rewrite Ho in *.
  destruct (sr_waiters s) as [|w ws] eqn:Hw; split; simpl in *; rewrite ?Ho; try done; rewrite ?length_app; simpl; try lia;
    try (by rewrite <- (assoc_L (++))).
  - intros _. specialize (Hfull ltac:(done)). lia.
Qed.
Lemma service_step_reported sent s ev : reported sent s -> exists sent', reported sent' (service_step s ev).
Proof.
  intros Hs. pose proof Hs as [Hall Honce Hsent Hlost Hcap Hfull [Hq Hr] Hfresh Hclosed]. destruct ev as [id|i r|i| |]; cbn [service_step].
  - exists sent. eapply reported_put; try done; [lia|lia|]. left. apply Hfresh. lia.
  - destruct (sr_tasks s !! i) as [[id []]|] eqn:Hi; try by exists sent. exists sent. eapply reported_put; try done; [|by right].
    destruct (decide (i < sr_next s)%nat); [done|]. by rewrite Hfresh in Hi by lia.
  - destruct (sr_tasks s !! i) as [[id [| reason|]]|] eqn:Hi; try by exists sent. by eapply poll_send_reported.
  - exists sent. destruct (sr_open s) eqn:Ho; [by apply recv_reported|done].
  - exists sent. split; simpl; try done; [|unfold channel_cap; lia|split; constructor].
    destruct (sr_open s); [|done]. rewrite (omap_report_same s _ sent) by done. rewrite <- Hall. by eexists.
Qed.
Lemma service_run_reported_from sent s evs : reported sent s -> exists sent', reported sent' (foldl service_step s evs).
Proof.
  revert sent s. induction evs as [|ev evs IH]; intros sent s Hs; [eauto|].
  destruct (service_step_reported sent s ev Hs) as [sent' Hs']. by eapply IH.
Qed.
Lemma service_run_reported evs : exists sent, reported sent (foldl service_step service_new evs).
Proof.
  apply (service_run_reported_from []). split; simpl; try done; [by apply NoDup_nil| |unfold channel_cap; lia|by split; [constructor|constructor]].
  intros i. split; [by intros ?%elem_of_nil|by intros []].
Qed.

(** ** A report waits its turn *)
Definition handled_count (s : ServiceRun) : nat := length (sr_handled s).
(** How many reports the loop must take before the [i]-th task has a place: its position in the queue of senders. *)
Definition reports_ahead (s : ServiceRun) (i : nat) : nat :=
  match list_find (fun j => j = i) (sr_waiters s) with Some (k, _) => S k | None => 0 end.
(** The [i]-th task has its reason, and sends it or has ended. *)
Definition owes (i : nat) (id : bytes) (reason : ExitReason) (s : ServiceRun) : Prop :=
  sr_tasks s !! i = Some (id, TReporting reason) \/ exists sent, sr_tasks s !! i = Some (id, TEnded reason sent).
(** It has a place, or will have one once the loop has taken [n] reports in all. *)
Definition turn_by (n i : nat) (s : ServiceRun) : Prop :=
  reporting s i -> sr_open s = true -> i ∈ sr_granted s \/ exists k, sr_waiters s !! k = Some i /\ (k + handled_count s < n)%nat.

Lemma owes_poll i id reason j id' reason' s : owes i id reason s -> sr_tasks s !! j = Some (id', TReporting reason') ->
  owes i id reason (poll_send j id' reason' s).
Proof.
  intros Hi Hj. assert (Hput : forall b, owes i id reason (put_task j (id', TEnded reason' b) s)).
  { intros b. unfold owes, put_task. simpl. destruct (decide (j = i)) as [->|Hne]; [|by rewrite lookup_insert_ne].
    right. exists b. rewrite lookup_insert_eq. destruct Hi as [Hi|[? Hi]]; congruence. }
  unfold poll_send. repeat case_match; try done; try exact (Hput _).
Qed.
Lemma owes_step i id reason s ev : (i < sr_next s)%nat -> owes i id reason s -> owes i id reason (service_step s ev).
Proof.
  intros Hlt Hi. assert (Hw : forall id', sr_tasks s !! i <> Some (id', TWaiting)) by (intros id' Hx; destruct Hi as [Hi|[? Hi]]; congruence).
  destruct ev as [id'|j r|j| |]; cbn [service_step].
  - unfold owes. simpl. by rewrite !lookup_insert_ne by lia.
  - destruct (sr_tasks s !! j) as [[id' []]|] eqn:Hj; try done. unfold owes, put_task. simpl.
    rewrite lookup_insert_ne; [done|]. intros ->. by destruct (Hw id').
  - destruct (sr_tasks s !! j) as [[id' [|r|]]|] eqn:Hj; try done. by apply owes_poll.
  - unfold recv_report. repeat case_match; done.
  - done.
Qed.
Lemma next_mono s ev : (sr_next s <= sr_next (service_step s ev))%nat.
Proof. destruct ev as [id|j r|j| |]; simpl; unfold put_task, poll_send, recv_report; repeat case_match; simpl; lia. Qed.
Lemma next_mono_run s evs : (sr_next s <= sr_next (foldl service_step s evs))%nat.
Proof. revert s. induction evs as [|ev evs IH]; intros s; simpl; [lia|]. pose proof (next_mono s ev). pose proof (IH (service_step s ev)). lia. Qed.
Lemma owes_run i id reason evs : forall s, (i < sr_next s)%nat -> owes i id reason s -> owes i id reason (foldl service_step s evs).
Proof.
  induction evs as [|ev evs IH]; intros s Hlt Hi; [done|]. simpl. pose proof (next_mono s ev). apply IH; [lia|by apply owes_step].
Qed.

Lemma turn_poll sent n i j id reason s : reported sent s -> sr_tasks s !! j = Some (id, TReporting reason) -> turn_by n i s ->
  turn_by n i (poll_send j id reason s).
Proof.
  intros Hs Hj Ht. assert (Hrep : reporting (poll_send j id reason s) i -> reporting s i).
  { intros (id' & r & Hi). revert Hi. unfold poll_send, put_task. destruct (decide (j = i)) as [->|Hne]; [intros _; by eexists _, _|].
    repeat case_match; simpl; rewrite ?lookup_insert_ne by done; intros Hi; by eexists _, _. }
  intros Hi Ho. specialize (Ht (Hrep Hi)). destruct (decide (j = i)) as [->|Hne].
  - revert Hi Ho. unfold poll_send, put_task. destruct (sr_open s) eqn:Hopen; simpl; [|done].
    assert (Hend : forall c g w, reporting (MkRun (<[i := (id, TEnded reason true)]> (sr_tasks s)) (sr_next s) c g w true (sr_handled s)) i -> False).
    { intros c g w (id' & r & Hx). simpl in Hx. by rewrite lookup_insert_eq in Hx. }
    repeat case_match; simpl; intros Hi Ho; try (by destruct (Hend _ _ _ Hi)); try (by apply Ht); destruct (Ht eq_refl) as [|(k & Hk & ?)]; auto.
    right. exists k. split; [by apply lookup_app_l_Some|done].
  - revert Ho. unfold poll_send, put_task. destruct (sr_open s) eqn:Hopen; simpl; [|done]. intros _.
    repeat case_match; simpl; destruct (Ht eq_refl) as [Hg|(k & Hk & Hn)]; eauto.
    + left. apply list_elem_of_filter. done.
    + right. exists k. split; [by apply lookup_app_l_Some|done].
Qed.
Lemma turn_recv n i s : turn_by n i s -> turn_by n i (recv_report s).
Proof.
  intros Ht. unfold recv_report. destruct (report_channel s) as [|r rest]; [done|]. intros Hi Ho.
  assert (Hi' : reporting s i) by (destruct (sr_waiters s); exact Hi). unfold handled_count.
  destruct (sr_waiters s) as [|w ws] eqn:Hw; simpl in *; destruct (Ht Hi' Ho) as [Hg|(k & Hk & Hn)]; rewrite ?Hw in *.
  - by left.
  - done.
  - left. apply elem_of_app. by left.
  - destruct k as [|k]; [injection Hk as ->; left; apply elem_of_app; right; by left|]. right. exists k. split; [done|].
    rewrite length_app. simpl. unfold handled_count in Hn. lia.
Qed.
Lemma turn_step sent n i s ev : reported sent s -> (forall id, sr_tasks s !! i <> Some (id, TWaiting)) -> (i < sr_next s)%nat -> turn_by n i s ->
  turn_by n i (service_step s ev).
Proof.
  intros Hs Hw Hlt Ht. destruct ev as [id|j r|j| |]; cbn [service_step].
  - intros (id' & r & Hi). simpl in Hi. rewrite lookup_insert_ne in Hi by lia. apply Ht. by exists id', r.
  - destruct (sr_tasks s !! j) as [[id' []]|] eqn:Hj; try done. intros (id & r' & Hi). simpl in Hi.
    rewrite lookup_insert_ne in Hi by (intros ->; by destruct (Hw id')). apply Ht. by exists id, r'.
  - destruct (sr_tasks s !! j) as [[id' [|r|]]|] eqn:Hj; try done. by eapply turn_poll.
  - destruct (sr_open s); [by apply turn_recv|done].
  - intros _ Ho. done.
Qed.
Lemma turn_run n i id reason evs : forall sent s, reported sent s -> (i < sr_next s)%nat -> owes i id reason s -> turn_by n i s ->
  turn_by n i (foldl service_step s evs).
Proof.
  induction evs as [|ev evs IH]; intros sent s Hs Hlt Hi Ht; [done|]. simpl. pose proof (next_mono s ev).
  destruct (service_step_reported sent s ev Hs) as [sent' Hs']. eapply IH; [exact Hs'|lia|by apply owes_step|].
  eapply turn_step; eauto. intros id' Hx. destruct Hi as [Hi|[? Hi]]; congruence.
Qed.
(** Once polled, the task is in line. *)
Lemma polled_turn sent s i id reason : reported sent s -> owes i id reason s ->
  let s1 := service_step s (SvSend i) in turn_by (handled_count s1 + reports_ahead s1 i) i s1.
Proof.
  intros Hs Hi s1 Hr Ho. assert (Hwait : i ∈ sr_granted s1 \/ i ∈ sr_waiters s1).
  { destruct Hi as [Hi|[b Hi]]; [|destruct Hr as (id' & r & Hr); unfold s1 in Hr; cbn [service_step] in Hr; by rewrite !Hi in Hr].
    revert Hr Ho. unfold s1. cbn [service_step]. rewrite Hi. unfold poll_send, put_task, reporting.
    repeat case_match; simpl; try (intros (? & ? & Hx); by rewrite lookup_insert_eq in Hx); intros _ _; 
      repeat match goal with H : bool_decide _ = true |- _ => apply bool_decide_eq_true in H end; auto.
    right. apply elem_of_app. right. by left. }
  destruct Hwait as [|Hwait]; [by left|right]. unfold reports_ahead.
  destruct (list_find (fun j => j = i) (sr_waiters s1)) as [[k j]|] eqn:Hf.
  - apply list_find_Some in Hf as (Hk & -> & _). exists k. split; [done|]. lia.
  - apply list_find_None in Hf. rewrite Forall_forall in Hf. by destruct (Hf i Hwait).
Qed.
(** A task with a place sends when it is polled; one that cannot send ends as well. *)
Lemma turn_ends n i id reason s : owes i id reason s -> turn_by n i s -> sr_open s = false \/ (n <= handled_count s)%nat ->
  exists sent, sr_tasks (service_step s (SvSend i)) !! i = Some (id, TEnded reason sent).
Proof.
  intros Hi Ht Hn. cbn [service_step]. destruct Hi as [Hi|[b Hi]]; [|exists b; by rewrite !Hi]. rewrite Hi. unfold poll_send, put_task.
  destruct (sr_open s) eqn:Ho; cbn [negb]; [|exists false; simpl; by rewrite lookup_insert_eq]. destruct Hn as [|Hn]; [done|].
  destruct (Ht ltac:(by eexists _, _) Ho) as [Hg|(k & _ & Hk)]; [|lia]. rewrite bool_decide_true by done.
  exists true. simpl. by rewrite lookup_insert_eq.
Qed.
(** The loop empties the channel. *)
Lemma recv_many n : forall s, sr_open s = true ->
  sr_handled (foldl service_step s (replicate n SvRecv)) = sr_handled s ++ take n (report_channel s).
Proof.
  induction n as [|n IH]; intros s Ho; [by rewrite take_0, app_nil_r|]. cbn [replicate foldl service_step]. rewrite Ho. unfold recv_report.
  destruct (report_channel s) as [|r rest] eqn:Hc; simpl.
  - rewrite IH by done. by rewrite Hc, take_nil.
  - destruct (sr_waiters s); rewrite IH by done; simpl; by rewrite <- (assoc_L (++)).
Qed.
(** What a task has sent is handled once the channel is empty. *)
Lemma sent_handled sent s i id reason b : reported sent s -> sr_open s = true -> sr_tasks s !! i = Some (id, TEnded reason b) ->
  VmTerminated id reason ∈ sr_handled (foldl service_step s (replicate 100 SvRecv)).
Proof.
  intros [Hall _ Hsent Hlost Hcap _ _ _ _] Ho Hi. destruct b; [|by destruct (Hlost Ho i id reason)].
  rewrite Ho in Hall. rewrite recv_many by done. rewrite take_ge by (unfold channel_cap in Hcap; lia). rewrite Hall.
  assert (Hof : report_of s i = Some (VmTerminated id reason)) by (unfold report_of; by rewrite Hi).
  apply list_elem_of_omap. exists i. split; [|done]. apply Hsent. by rewrite Hof.
Qed.

(** C23: the end of every instance is reported exactly once and releases whoever stops it.
    While the receiver of the channel exists the reports that the event handler got, with
    those in the channel, are the reports that the tasks have sent, each once and in the
    order they were sent, and no task has ended without sending; once it was
    dropped the handler has got the first of them.  The channel never holds more than
    100, and while senders wait there is a report to take or a sender with a
    reserved place.  A task whose instance ended and that was polled once is never
    stuck: in any continuation, once the loop has taken as many reports as there
    were senders in the queue up to it, or the receiver was dropped, the next poll of
    the task ends it and the stop signal is there; and while the receiver
    exists the handler has the report, with the reason of the end, at most 100
    turns of the loop later. *)
Theorem reports_delivered evs : let s := foldl service_step service_new evs in
  (exists sent, NoDup sent /\ (forall i, i ∈ sent <-> is_Some (report_of s i)) /\
     if sr_open s then sr_handled s ++ report_channel s = omap (report_of s) sent
     else sr_handled s `prefix_of` omap (report_of s) sent) /\
  (sr_open s = true -> forall i id reason, sr_tasks s !! i <> Some (id, TEnded reason false)) /\
  (length (report_channel s) <= 100)%nat /\
  (sr_waiters s <> [] -> report_channel s <> [] \/ exists i, i ∈ sr_granted s /\ reporting s i) /\
  (forall i id r evs1 evs2, sr_tasks s !! i = Some (id, TWaiting) ->
     let s1 := foldl service_step s (SvInstanceEnds i r :: evs1 ++ [SvSend i]) in
     let s2 := foldl service_step s1 evs2 in
     sr_open s2 = false \/ (handled_count s1 + reports_ahead s1 i <= handled_count s2)%nat ->
     let s3 := service_step s2 (SvSend i) in
     await_signal i s3 = Some (Ok tt) /\
     (sr_open s3 = true -> VmTerminated id (join_reason r) ∈ sr_handled (foldl service_step s3 (replicate 100 SvRecv)))).
Proof.
  intros s. destruct (service_run_reported evs) as (sent & Hs). fold s in Hs.
  pose proof Hs as [Hall Honce Hsent Hlost Hcap Hfull [Hq Hr] Hfresh Hclosed].
  split_and!; [by exists sent|done|unfold channel_cap in Hcap; lia|..].
  - intros Hw%Hfull. destruct (report_channel s); [right|by left]. destruct (sr_granted s) as [|g gs]; [done|]. exists g.
    split; [by left|]. rewrite Forall_forall in Hr. apply Hr. apply elem_of_app. left. by left.
  - intros i id r evs1 evs2 Hi s1 s2 Hn s3.
    assert (Hlt : (i < sr_next s)%nat) by (destruct (decide (i < sr_next s)%nat); [done|by rewrite Hfresh in Hi by lia]).
    set (sa := service_step s (SvInstanceEnds i r)). set (sb := foldl service_step sa evs1).
    assert (Hsb : exists sent, reported sent sb) by exact (service_run_reported_from _ s (SvInstanceEnds i r :: evs1) Hs).
    destruct Hsb as [sentb Hsb].
    assert (Ha : owes i id (join_reason r) sa /\ (i < sr_next sa)%nat).
    { unfold sa. cbn [service_step]. rewrite Hi. split; [left; simpl; by rewrite lookup_insert_eq|done]. }
    assert (Hb : owes i id (join_reason r) sb /\ (i < sr_next sb)%nat).
    { split; [apply owes_run; apply Ha|]. eapply Nat.lt_le_trans; [apply Ha|apply next_mono_run]. }
    assert (Hs1 : s1 = service_step sb (SvSend i)) by (unfold s1; simpl; by rewrite foldl_app).
    destruct (service_step_reported sentb sb (SvSend i) Hsb) as [sent1 Hr1]. rewrite <- Hs1 in Hr1.
    assert (H1 : owes i id (join_reason r) s1 /\ (i < sr_next s1)%nat).
    { rewrite Hs1. split; [apply owes_step; apply Hb|]. eapply Nat.lt_le_trans; [apply Hb|apply next_mono]. }
    assert (Ht1 : turn_by (handled_count s1 + reports_ahead s1 i) i s1) by (rewrite Hs1; eapply polled_turn; [exact Hsb|apply Hb]).
    pose proof (turn_run _ i id (join_reason r) evs2 sent1 s1 Hr1 (proj2 H1) (proj1 H1) Ht1) as Ht2.
    pose proof (owes_run i id (join_reason r) evs2 s1 (proj2 H1) (proj1 H1)) as Ho2.
    destruct (turn_ends _ i id _ s2 Ho2 Ht2 Hn) as [b Hb3]. fold s3 in Hb3.
    split; [unfold await_signal; by rewrite Hb3|]. intros Ho3.
    destruct (service_run_reported_from _ s1 (evs2 ++ [SvSend i]) Hr1) as [sent3 Hr3].
    rewrite foldl_app in Hr3. change (reported sent3 s3) in Hr3. by eapply sent_handled.
Qed.

(** 102 instances end and report before the loop runs: the last two wait for a place. *)
Definition many_ends : list service_event :=
  map (fun i => SvStart [Z.of_nat i]) (seq 0 103) ++ map (fun i => SvInstanceEnds i (Ok (Exited 0))) (seq 0 102) ++ map SvSend (seq 0 102).
Lemma reports_delivered_witness :
  let s := foldl service_step service_new many_ends in
  let s1 := foldl service_step s (SvInstanceEnds 102 (Err true) :: [] ++ [SvSend 102]) in
  let s2 := foldl service_step s1 [SvRecv; SvRecv; SvRecv] in
  let s3 := service_step s2 (SvSend 102) in
  sr_waiters s1 = [100; 101; 102]%nat /\
  await_signal 102 (foldl service_step s1 [SvRecv; SvSend 102; SvRecv; SvSend 100; SvSend 102]) = None /\
  VmTerminated [102] Cancelled ∈ sr_handled (foldl service_step s3 (replicate 100 SvRecv)).
Proof.
  intros s s1 s2 s3. split; [vm_compute; reflexivity|]. split; [vm_compute; reflexivity|].
  pose proof (reports_delivered many_ends) as (_ & _ & _ & _ & Hd). fold s in Hd.
  specialize (Hd 102%nat [102] (Err true) [] [SvRecv; SvRecv; SvRecv]). fold s1 in Hd. fold s2 in Hd. fold s3 in Hd.
  apply Hd; [vm_compute; reflexivity|right; vm_compute; lia|vm_compute; reflexivity].
Defined.
