(* ===== verification/Worker.v ===== *)
(** * The worker (wapod/src/state.rs)

    The registry of deployed apps and their instances.  Every public method works
    under one mutex in sections without an await; the sections are the operations
    here, and a method is their composition. *)
From S2P Require Import Prelude OcallDef Meter Service.

(** wapod-types/src/ticket.rs. *)
Record AppManifest : Type := MkManifest {
  version : Z;
  code_hash : bytes;
  args : list bytes;
  env_vars : list (bytes * bytes);
  on_demand : bool;
  resizable : bool;
  max_query_size : Z;
  label : bytes;
  required_blobs : list (bytes * bytes)
}.

Record WorkerArgs : Type := MkArgs {
  instance_memory_size : Z;
  max_instances : Z;
  on_demand_connection_timeout : Z
}.

(** [Instance], with the meter of its [VmHandle] and its time limit. *)
Record Instance : Type := MkInst {
  sequence_number : Z;
  vm_meter : Meter;
  inst_time_limit : option Z
}.

Record AppState : Type := MkApp {
  app_sn : Z;
  app_session : bytes;
  manifest : AppManifest;
  hist_metrics : Metrics;
  instances : gmap Z Instance;
  on_going_queries : Z;
  last_query_done : Z;
  auto_restart : bool;
  reuse_instance : bool
}.

(** [WorkerState], and the two global counters. *)
Record WorkerState : Type := MkWorker {
  apps : gmap bytes AppState;
  w_args : WorkerArgs;
  session : option bytes;
  metrics_sn : Z;
  bench_app : option bytes;
  bench_instances : Z;
  next_app_sn : Z;
  next_run_sn : Z
}.

Definition worker_new (a : WorkerArgs) : WorkerState := MkWorker ∅ a None 0 None 0 0 0.

Definition set_apps (w : WorkerState) m := MkWorker m (w_args w) (session w) (metrics_sn w)
  (bench_app w) (bench_instances w) (next_app_sn w) (next_run_sn w).
Definition set_instances (a : AppState) i := MkApp (app_sn a) (app_session a) (manifest a)
  (hist_metrics a) i (on_going_queries a) (last_query_done a) (auto_restart a) (reuse_instance a).
Definition set_hist (a : AppState) h := MkApp (app_sn a) (app_session a) (manifest a)
  h (instances a) (on_going_queries a) (last_query_done a) (auto_restart a) (reuse_instance a).
Definition set_queries (a : AppState) q t := MkApp (app_sn a) (app_session a) (manifest a)
  (hist_metrics a) (instances a) q t (auto_restart a) (reuse_instance a).

Abbreviation WorkerM := (M WorkerState anyhow).

Definition n_instances (a : AppState) : Z := Z.of_nat (size (instances a)).

(** [AppState::metrics]: the history plus every running instance, at time [now];
    a [BTreeMap] is iterated in key order, which the result does not depend on. *)
Definition inst_metrics (now : Z) (i : Instance) : Metrics := to_metrics now (vm_meter i).
Definition app_metrics (now : Z) (a : AppState) : Metrics :=
  foldl merge (hist_metrics a) (inst_metrics now <$> (map_to_list (instances a)).*2).

Definition running_instances (w : WorkerState) : Z :=
  map_fold (fun _ a n => n_instances a + n) 0 (apps w).
Definition available_slots (w : WorkerState) : Z :=
  sat_sub (max_instances (w_args w)) (running_instances w).

Definition get_app (address : bytes) (err : string) : WorkerM AppState := fun w =>
  (ok_or (apps w !! address) (Msg err), w).
Definition put_app (address : bytes) (a : AppState) : WorkerM unit :=
  modify (fun w => set_apps w (<[address := a]> (apps w))).

Definition to_pages (size : Z) : Z :=
  let page_size := 1024 * 64 in wrap U64 (size + page_size - 1) `div` page_size.

(** [WorkerState::start_app]: [service.start] always returns a handle, whose
    meter starts at [now]. *)
Definition start_app (now : Z) (address : bytes) (time_limit : option Z) : WorkerM Z :=
  app ← get_app address "Instance not found";
  bail_if (negb (resizable (manifest app)) && negb (size (instances app) =? 0)%nat &&
           match time_limit with None => true | Some _ => false end)
    (Msg "Instance already started");;
  sn ← gets next_run_sn;
  modify (fun w => MkWorker (apps w) (w_args w) (session w) (metrics_sn w) (bench_app w)
                     (bench_instances w) (next_app_sn w) (wrap U64 (next_run_sn w + 1)));;
  put_app address (set_instances app (<[sn := MkInst sn (Meter_default now) time_limit]> (instances app)));;
  mret sn.

(** The task that cleans up when an instance stops. *)
Definition instance_stopped (now : Z) (address : bytes) (sn : Z) (w : WorkerState) : WorkerState :=
  match apps w !! address with
  | None => w
  | Some app =>
    match instances app !! sn with
    | None => w
    | Some i =>
      set_apps w (<[address := set_hist (set_instances app (delete sn (instances app)))
                                (merge (hist_metrics app) (inst_metrics now i))]> (apps w))
    end
  end.

(** [pop_last] on an app, its metrics moved to the history. *)
Definition pop_instance (now : Z) (app : AppState) : option (Instance * AppState) :=
  '(_, i, rest) ← pop_last (instances app);
  Some (i, set_hist (set_instances app rest) (merge (hist_metrics app) (inst_metrics now i))).

(** The search for an instance to evict, in the order in which the hash map is
    iterated. *)
Fixpoint evict (now : Z) (order : list bytes) : WorkerM Instance :=
  match order with
  | [] => throw (Msg "No available slots")
  | a :: order => fun w =>
    match apps w !! a with
    | Some app =>
      if resizable (manifest app) then
        match pop_instance now app with
        | Some (i, app) => (Ok i, set_apps w (<[a := app]> (apps w)))
        | None => evict now order w
        end
      else evict now order w
    | None => evict now order w
    end
  end.

Definition reserve_slot_if_needed (now : Z) (order : list bytes) (for_address : bytes)
  : WorkerM (option Instance) :=
  app ← get_app for_address "App not found";
  if negb (size (instances app) =? 0)%nat then mret None else
  available ← gets available_slots;
  if (0 <? available)%Z then mret None else
  Some <$> evict now order.

(** [for i in 0..creating { created.push(self.start_app(..)?) }]. *)
Fixpoint start_many (now : Z) (address : bytes) (limit : option Z) (n : nat) : WorkerM (list Z) :=
  match n with
  | O => mret []
  | S n =>
    sn ← start_app now address limit;
    rest ← start_many now address limit n;
    mret (sn :: rest)
  end.

(** [for i in 0..stop_count { app.instances.pop_last().expect(..) }]; [None] is the
    panic. *)
Fixpoint pop_many (now : Z) (n : nat) (app : AppState) : option (list Instance * AppState) :=
  match n with
  | O => Some ([], app)
  | S n =>
    '(i, app) ← pop_instance now app;
    '(rest, app) ← pop_many now n app;
    Some (i :: rest, app)
  end.

(** [WorkerState::resize_app_instances]: the created sequence numbers and the
    removed instances. *)
Definition resize_app_instances (now : Z) (order : list bytes) (address : bytes) (count : Z)
  (on_demand_timeout : option Z) : WorkerM (list Z * list Instance) :=
  reserved ← (match on_demand_timeout with
              | Some _ => reserve_slot_if_needed now order address
              | None => mret None
              end);
  let removed := option_list reserved in
  app ← get_app address "App not found";
  let current := n_instances app in
  match current ?= count with
  | Lt =>
    bail_if (on_demand (manifest app) &&
             match on_demand_timeout with None => true | Some _ => false end)
      (Msg "on-demand app cannot be started directly");;
    available ← gets available_slots;
    let creating := Z.min available (count - current) in
    created ← start_many now address on_demand_timeout (Z.to_nat creating);
    mret (created, removed)
  | Eq => mret ([], removed)
  | Gt =>
    '(popped, app) ← lift (ok_or (pop_many now (Z.to_nat (current - count)) app)
                             (Msg "BUG: instance not found"));
    put_app address app;;
    mret ([], removed ++ popped)
  end.

Definition try_inc_instances (now : Z) (order : list bytes) (address : bytes)
  : WorkerM (option Z) :=
  app ← get_app address "app not found";
  bail_if (int_max U64 <=? n_instances app) (Msg "too many instances");;
  limit ← gets (fun w => on_demand_connection_timeout (w_args w));
  '(new, _) ← resize_app_instances now order address (n_instances app + 1) (Some limit);
  mret (head new).

(** ** Queries *)

(** The locked section of [prepare_instance_for_query]: whether an instance must
    be started, and whether instances are reused. *)
Definition begin_query (address : bytes) (query_size : Z) : WorkerM (bool * bool) :=
  app ← get_app address "App not found";
  bail_if (max_query_size (manifest app) <? query_size) (Msg "query size exceeds the limit");;
  let start_needed := negb (reuse_instance app) ||
    ((size (instances app) =? 0)%nat && on_demand (manifest app)) in
  put_app address (set_queries app (wrap U64 (on_going_queries app + 1)) (last_query_done app));;
  mret (start_needed, reuse_instance app).

(** [QueryGuard]. *)
Record QueryGuard : Type := MkGuard {
  guard_address : bytes;
  guard_reuse : bool;
  instance_id : option Z
}.

(** [end_query], and the guard's destructor, which only logs its failure. *)
Definition end_query (now : Z) (address : bytes) (instance : option Z) : WorkerM unit :=
  app ← get_app address "App not found";
  match instance with
  | Some sn =>
    i ← lift (ok_or (instances app !! sn) (Msg "Instance not found"));
    put_app address (set_instances app (delete sn (instances app)))
  | None =>
    let rest := wrap U64 (on_going_queries app - 1) in
    let app := set_queries app rest now in
    put_app address (if (rest =? 0) && on_demand (manifest app)
                     then set_instances app ∅ else app)
  end.
Definition drop_guard (now : Z) (g : QueryGuard) : WorkerM unit :=
  ignore (end_query now (guard_address g) (instance_id g)).

Definition with_context {A} (s : string) (m : WorkerM A) : WorkerM A := fun w =>
  let '(r, w) := m w in (context s r, w).
Definition or_drop {A} (now : Z) (g : QueryGuard) (m : WorkerM A) : WorkerM A := fun w =>
  match m w with
  | (Ok a, w) => (Ok a, w)
  | (Err e, w) => (Err e, (drop_guard now g w).2)
  end.

(** [prepare_instance_for_query], its sections in sequence.  [started] is what
    awaiting the stopped and the new instances gave.  On an error the guard is
    dropped, which ends the query.  That a new instance listens for queries is
    awaited for a second, and then ignored. *)
Definition prepare_instance_for_query (now : Z) (order : list bytes) (address : bytes)
  (query_size : Z) (started : result anyhow unit) : WorkerM QueryGuard :=
  '(start_needed, reuse) ← begin_query address query_size;
  let guard := MkGuard address reuse None in
  if negb start_needed then mret guard
  else if (reuse : bool) then
    or_drop now guard (with_context "failed to start app on-demand" (
      limit ← gets (fun w => on_demand_connection_timeout (w_args w));
      resize_app_instances now order address 1 (Some limit);;
      lift started));;
    mret guard
  else
    sn ← or_drop now guard (try_inc_instances now order address);
    mret (MkGuard address reuse sn).

(** The instance a query is sent to: the guard's, or the app's first. *)
Definition query_target (g : QueryGuard) : WorkerM Z :=
  app ← get_app (guard_address g) "App not found";
  match instance_id g with
  | Some sn => lift (match instances app !! sn with
                     | Some _ => Ok sn | None => Err (Msg "Instance not found") end)
  | None => lift (match first_value (instances app) with
                  | Some (sn, _) => Ok sn | None => Err (Msg "instance not found") end)
  end.

(** ** Awaiting the status of new instances *)

(** The loop over [status.changed()]; the end of the list is a closed channel. *)
Fixpoint wait_running (l : list VmStatus) : result anyhow unit :=
  match l with
  | [] => Err (Msg "failed to start instance")
  | Running :: _ => Ok tt
  | Stopped reason error :: _ =>
    context "instance stopped unexpectedly" (Err (default (Msg reason) error))
  | _ :: l => wait_running l
  end.
Definition wait_all (ls : list (list VmStatus)) : result anyhow unit :=
  foldr (fun l r => wait_running l;; r) (Ok tt) ls.

(** ** Deployment *)
Record AppInfo : Type := MkAppInfo {
  ai_sn : Z;
  ai_address : bytes;
  ai_session : bytes;
  ai_running_instances : Z;
  ai_last_query_elapsed_secs : Z;
  ai_reuse_instances : bool;
  ai_manifest : AppManifest
}.
(** Times are in milliseconds. *)
Definition app_info (now : Z) (address : bytes) (a : AppState) : AppInfo :=
  MkAppInfo (app_sn a) address (app_session a) (n_instances a) ((now - last_query_done a) `div` 1000)
    (reuse_instance a) (manifest a).

Definition MAX_MANIFEST_SIZE : Z := 1024 * 16.
Definition check_manifest (size_hint : Z) (m : AppManifest) : result anyhow unit :=
  if negb (version m =? 1) then Err (Msg "unsupported manifest version")
  else if resizable m && on_demand m then Err (Msg "on-demand app can not be resizable")
  else if 64 <? zlen (label m) then Err (Msg "label too long")
  else if MAX_MANIFEST_SIZE <? size_hint then Err (Msg "manifest too large")
  else Ok tt.

Definition insert_app (now : Z) (address rnd : bytes) (m : AppManifest)
  (auto_restart reuse : bool) : WorkerM unit :=
  present ← gets (fun w => bool_decide (is_Some (apps w !! address)));
  bail_if present (Msg "app already exists");;
  sn ← gets next_app_sn;
  modify (fun w => MkWorker (<[address := MkApp sn rnd m Metrics_default ∅ 0 now auto_restart reuse]>
                               (apps w)) (w_args w) (session w) (metrics_sn w) (bench_app w)
                     (bench_instances w) (wrap U64 (next_app_sn w + 1)) (next_run_sn w)).

(** [deploy_app]: [address] is the hash of the encoded manifest, [rnd] the random
    app session, [started] what awaiting the first instance gave. *)
Definition deploy_app (now : Z) (order : list bytes) (size_hint : Z) (address rnd : bytes)
  (m : AppManifest) (auto_restart reuse : bool) (started : result anyhow unit) : WorkerM AppInfo :=
  lift (check_manifest size_hint m);;
  insert_app now address rnd m auto_restart reuse;;
  (if on_demand m then mret tt
   else resize_app_instances now order address 1 None;; lift started);;
  app ← get_app address "BUG: App not found after deployed";
  mret (app_info now address app).

Definition remove_app (address : bytes) : WorkerM (gmap Z Instance) :=
  app ← get_app address "app not found";
  modify (fun w => set_apps w (delete address (apps w)));;
  mret (instances app).

Definition clear : WorkerM unit := modify (fun w => set_apps w ∅).

(** ** Sessions *)
Definition bump_metrics_sn : WorkerM Z :=
  modify (fun w => MkWorker (apps w) (w_args w) (session w) (wrap U64 (metrics_sn w + 1))
                     (bench_app w) (bench_instances w) (next_app_sn w) (next_run_sn w));;
  gets metrics_sn.

Section Init.
(** [SpCoreHash::blake2b_256] *)
Context (blake2b_256 : bytes -> bytes).

(** wapod-types/src/session.rs. *)
Record SessionUpdate : Type := MkUpdate { su_session : bytes; su_nonce : bytes; su_recipient : bytes }.
Definition calc_session_id (nonce metrics_nonce : bytes) : bytes :=
  blake2b_256 (nonce ++ metrics_nonce).
Definition SessionUpdate_new (nonce metrics_nonce recipient : bytes) : SessionUpdate :=
  MkUpdate (calc_session_id nonce metrics_nonce) nonce recipient.

Definition init (cnonce pnonce recipient : bytes) : WorkerM SessionUpdate :=
  empty ← gets (fun w => (size (apps w) =? 0)%nat);
  bail_if (negb empty) (Msg "init session failed, apps already deployed");;
  let update := SessionUpdate_new cnonce pnonce recipient in
  modify (fun w => MkWorker (apps w) (w_args w) (Some (su_session update)) 0 (bench_app w)
                     (bench_instances w) (next_app_sn w) (next_run_sn w));;
  mret update.
End Init.

Definition set_bench_app (address : option bytes) (n : Z) : WorkerM unit :=
  modify (fun w => MkWorker (apps w) (w_args w) (session w) (metrics_sn w) address n
                     (next_app_sn w) (next_run_sn w)).

(** ** [AppRuntimeCalls]: the worker's side of the runtime calls *)

(** [app_metrics]: the app's metrics with a fresh token. *)
Definition app_metrics_call (now : Z) (address nonce : bytes) : WorkerM (Metrics * MetricsToken) :=
  m ← gets (fun w => match apps w !! address with
                     | Some app => app_metrics now app | None => Metrics_default end);
  s ← gets (fun w => default (replicate 32 0) (session w));
  sn ← bump_metrics_sn;
  mret (m, {| mt_sn := sn; mt_session := s; mt_nonce := nonce |}).

Definition wrap_message (address message : bytes) : bytes := address ++ message.

(** The locks of an instance: [SharedState]. *)
Definition try_lock (path : bytes) (locks : gset bytes) : bool * gset bytes :=
  if 64 <? zlen path then (false, locks)
  else if 64 <? Z.of_nat (size locks) then (false, locks)
  else if bool_decide (path ∈ locks) then (false, locks)
  else (true, {[ path ]} ∪ locks).
Definition unlock (path : bytes) (locks : gset bytes) : bool * gset bytes :=
  (bool_decide (path ∈ locks), locks ∖ {[ path ]}).

(** ** Read access *)
(** [Iterator::take], which a large count does not slow down. *)
Definition iter_take {A} (count : Z) (l : list A) : list A :=
  if zlen l <=? count then l else firstn (Z.to_nat count) l.
(** [list]; [order] is the order in which the hash map is iterated. *)
Definition list_apps (now : Z) (order : list bytes) (start count : Z) (w : WorkerState) : list AppInfo :=
  omap (fun address => app_info now address <$> apps w !! address)
    (iter_take count (skipn (Z.to_nat start) order)).

(** [for_each_app]: the apps visited, in order. *)
Definition for_each_app (order : list bytes) (addresses : option (list bytes)) (w : WorkerState)
  : list (bytes * AppState) :=
  omap (fun address => (fun a => (address, a)) <$> apps w !! address) (default order addresses).

Definition num_instances_of (address : bytes) (w : WorkerState) : option Z :=
  n_instances <$> apps w !! address.

(** [sender_for]: the sequence number of the instance the sender belongs to. *)
Definition sender_for (vmid : bytes) (index : Z) (w : WorkerState) : option Z :=
  app ← apps w !! vmid;
  sequence_number <$> instances app !! wrap U64 index.

(** ** Counting instances *)
Definition total (m : gmap bytes AppState) : Z := map_fold (fun _ a n => n_instances a + n) 0 m.

Lemma total_insert m k a : m !! k = None -> total (<[k := a]> m) = n_instances a + total m.
Proof. intros Hk. unfold total. rewrite map_fold_insert_L; [done|intros; lia|done]. Qed.
Lemma total_delete m k a : m !! k = Some a -> total m = n_instances a + total (delete k m).
Proof. intros Hk. unfold total. rewrite (map_fold_delete_L _ _ k a m); [done|intros; lia|done]. Qed.
Lemma total_update m k a b : m !! k = Some a ->
  total (<[k := b]> m) = total m - n_instances a + n_instances b.
Proof.
  intros Hk. rewrite (total_delete m k a Hk), <- insert_delete_eq, total_insert;
    [lia|apply lookup_delete_eq].
Qed.
Lemma total_nonneg m : 0 <= total m.
Proof.
  induction m as [|k a m Hk IH] using map_ind; [unfold total; by rewrite map_fold_empty|].
  rewrite total_insert by done. unfold n_instances. lia.
Qed.
Lemma running_total w : running_instances w = total (apps w).
Proof. done. Qed.

Lemma n_instances_insert a sn i : n_instances (set_instances a (<[sn := i]> (instances a))) =
  n_instances a + (if decide (instances a !! sn = None) then 1 else 0).
Proof.
  unfold n_instances. simpl. case_decide as Hd.
  - rewrite map_size_insert_None by done. lia.
  - rewrite map_size_insert_Some by (by apply not_eq_None_Some). lia.
Qed.

Lemma pop_instance_spec now a i a' : pop_instance now a = Some (i, a') ->
  exists sn, instances a !! sn = Some i /\ instances a' = delete sn (instances a) /\
    n_instances a' = n_instances a - 1 /\ manifest a' = manifest a /\
    hist_metrics a' = merge (hist_metrics a) (inst_metrics now i) /\
    on_going_queries a' = on_going_queries a.
Proof.
  unfold pop_instance. destruct (pop_last (instances a)) as [[[sn j] rest]|] eqn:Hp; simpl; [|done].
  intros [= <- <-]. apply pop_last_Some in Hp as (Hl & -> & _). exists sn. split_and!; try done.
  unfold n_instances. simpl. rewrite map_size_delete_Some by eauto.
  assert (size (instances a) <> 0%nat) by (apply map_size_ne_0_lookup; eauto). lia.
Qed.

Lemma pop_instance_None now a : pop_instance now a = None <-> n_instances a = 0.
Proof.
  unfold pop_instance, n_instances. destruct (pop_last (instances a)) as [[[sn j] rest]|] eqn:Hp; simpl.
  - split; [done|]. apply pop_last_Some in Hp as (Hl & _).
    assert (size (instances a) <> 0%nat) by (apply map_size_ne_0_lookup; eauto). lia.
  - apply pop_last_None in Hp. rewrite Hp. by rewrite map_size_empty.
Qed.

Lemma pop_many_spec now n : forall a, Z.of_nat n <= n_instances a ->
  exists l a', pop_many now n a = Some (l, a') /\ n_instances a' = n_instances a - Z.of_nat n /\
    manifest a' = manifest a /\ length l = n.
Proof.
  induction n as [|n IH]; intros a Hn; cbn [pop_many].
  - exists [], a. split; [done|]. split_and!; try done. lia.
  - destruct (pop_instance now a) as [[i a1]|] eqn:Hp.
    + destruct (pop_instance_spec _ _ _ _ Hp) as (sn & _ & _ & Hc & Hm & _).
      destruct (IH a1) as (l & a2 & Hpm & Hc2 & Hm2 & Hl); [lia|].
      simpl. rewrite Hpm. simpl. exists (i :: l), a2. split_and!; simpl; try congruence; lia.
    + apply pop_instance_None in Hp. lia.
Qed.

Lemma pop_many_inv now n : forall a l a', pop_many now n a = Some (l, a') ->
  n_instances a' = n_instances a - Z.of_nat n /\ manifest a' = manifest a.
Proof.
  induction n as [|n IH]; intros a l a'; cbn [pop_many].
  - intros [= <- <-]. split; [lia|done].
  - destruct (pop_instance now a) as [[i a1]|] eqn:Hp; simpl; [|done].
    destruct (pop_many now n a1) as [[l' a2]|] eqn:Hm; simpl; [|done]. intros [= <- <-].
    destruct (pop_instance_spec _ _ _ _ Hp) as (sn & _ & _ & Hc & Hman & _).
    apply IH in Hm as [Hc2 Hm2]. split; [lia|congruence].
Qed.

(** ** Effect of each operation on the number of instances *)
Definition same_args (w w' : WorkerState) : Prop := w_args w' = w_args w.

Lemma start_app_count now a lim w r w' : start_app now a lim w = (r, w') ->
  same_args w w' /\
  match r with
  | Ok sn => running_instances w <= running_instances w' <= running_instances w + 1 /\
      sn = next_run_sn w /\ (exists app, apps w !! a = Some app /\
        apps w' = <[a := set_instances app (<[sn := MkInst sn (Meter_default now) lim]>
          (instances app))]> (apps w))
  | Err _ => w' = w
  end.
Proof.
  unfold start_app, get_app, put_app. m_unfold.
  destruct (apps w !! a) as [app|] eqn:Ha; simpl; [|intros; by simplify_eq].
  destruct (_ && _); simpl; [intros; by simplify_eq|].
  intros [= <- <-]. simpl. split; [done|]. split; [|eauto].
  rewrite !running_total. simpl. rewrite (total_update _ _ app) by done.
  rewrite n_instances_insert. case_decide; lia.
Qed.

Lemma start_many_count now a lim n : forall w r w', start_many now a lim n w = (r, w') ->
  same_args w w' /\ running_instances w <= running_instances w' <= running_instances w + Z.of_nat n.
Proof.
  induction n as [|n IH]; intros w r w'; cbn [start_many].
  - intros [= <- <-]. split; [done|]. lia.
  - intros [(sn & w1 & H1 & H2)|(e & H1 & ->)]%bind_inv.
    + apply start_app_count in H1 as (Ha1 & Hc1 & _).
      apply bind_inv in H2 as [(l & w2 & H2 & [= <- <-])|(e & H2 & ->)];
        apply IH in H2 as [Ha2 Hc2]; unfold same_args in *; split; try congruence; lia.
    + apply start_app_count in H1 as [Ha1 ->]. split; [done|]. lia.
Qed.

Lemma evict_count now order : forall w r w', evict now order w = (r, w') ->
  same_args w w' /\
  match r with
  | Ok _ => running_instances w' = running_instances w - 1
  | Err _ => w' = w
  end.
Proof.
  induction order as [|a order IH]; intros w r w'; cbn [evict].
  - by intros [= <- <-].
  - destruct (apps w !! a) as [app|] eqn:Ha; [|apply IH].
    destruct (resizable (manifest app)); [|apply IH].
    destruct (pop_instance now app) as [[i app']|] eqn:Hp; [|apply IH].
    intros [= <- <-]. split; [done|]. rewrite !running_total. simpl.
    destruct (pop_instance_spec _ _ _ _ Hp) as (sn & _ & _ & Hc & _).
    rewrite (total_update _ _ app) by done. lia.
Qed.

Lemma reserve_count now order a w r w' : reserve_slot_if_needed now order a w = (r, w') ->
  same_args w w' /\ running_instances w' <= running_instances w /\
  (forall e, r = Err e -> w' = w).
Proof.
  unfold reserve_slot_if_needed, get_app. m_unfold.
  destruct (apps w !! a) as [app|]; simpl; [|intros; simplify_eq; split_and!; [done|lia|done]].
  destruct (negb _); [intros; simplify_eq; split_and!; [done|lia|done]|].
  destruct (0 <? available_slots w); [intros; simplify_eq; split_and!; [done|lia|done]|].
  destruct (evict now order w) as [[i|e] w1] eqn:He; intros; simplify_eq;
    apply evict_count in He as [Hargs Hc].
  - split_and!; [done|lia|done].
  - subst. split_and!; [done|lia|done].
Qed.

Lemma available_bound w : running_instances w <= max_instances (w_args w) ->
  running_instances w + available_slots w <= max_instances (w_args w).
Proof. unfold available_slots, sat_sub. lia. Qed.

(** The table never holds more instances than [max_instances]. *)
Definition cap_ok (w : WorkerState) : Prop := running_instances w <= max_instances (w_args w).

Lemma resize_cap now order a count tmo w :
  cap_ok w -> cap_ok (resize_app_instances now order a count tmo w).2 /\
  same_args w (resize_app_instances now order a count tmo w).2.
Proof.
  intros Hw. destruct (resize_app_instances now order a count tmo w) as [r w'] eqn:Hr. simpl.
  unfold resize_app_instances in Hr. apply bind_inv in Hr as [(res & w1 & H1 & Hr)|(e & H1 & ->)].
  2: { destruct tmo; [|done]. apply reserve_count in H1 as (_ & _ & H1). by rewrite (H1 e eq_refl). }
  assert (H1' : same_args w w1 /\ running_instances w1 <= running_instances w).
  { destruct tmo; [apply reserve_count in H1 as (? & ? & _); done|].
    injection H1 as <- <-. split; [done|lia]. }
  destruct H1' as [Hargs Hle]. clear H1.
  assert (Hw1 : cap_ok w1) by (unfold cap_ok, same_args in *; rewrite Hargs; lia).
  unfold get_app in Hr. revert Hr. m_unfold.
  destruct (apps w1 !! a) as [app|] eqn:Ha; simpl; [|intros; by simplify_eq].
  destruct (n_instances app ?= count) eqn:Hcmp; simpl.
  - intros; by simplify_eq.
  - destruct (_ && _); simpl; [intros; by simplify_eq|].
    destruct (start_many _ _ _ _ w1) as [r2 w2] eqn:Hs.
    apply start_many_count in Hs as [Ha2 Hc2].
    pose proof (available_bound w1 Hw1).
    assert (0 <= available_slots w1) by (unfold available_slots, sat_sub; lia).
    assert (Z.of_nat (Z.to_nat (Z.min (available_slots w1) (count - n_instances app)))
      <= available_slots w1).
    { apply Z.compare_lt_iff in Hcmp. lia. }
    destruct r2; intros; simplify_eq; (split; [|unfold same_args in *; congruence]);
      unfold cap_ok, same_args in *; rewrite Ha2; lia.
  - apply Z.compare_gt_iff in Hcmp.
    destruct (pop_many _ _ app) as [[popped app']|] eqn:Hp; simpl; [|intros; by simplify_eq].
    intros [= <- <-]. split; [|done]. unfold cap_ok. simpl. rewrite running_total. simpl.
    rewrite (total_update _ _ app) by done.
    apply pop_many_inv in Hp as [Hc _]. unfold cap_ok in Hw1. rewrite running_total in Hw1. lia.
Qed.

(** Every section that takes the worker's lock, and the progress of a meter. *)
Inductive worker_op : Type :=
| OpRegister (now size_hint : Z) (address rnd : bytes) (m : AppManifest) (auto_restart reuse : bool)
| OpDeploy (now : Z) (order : list bytes) (size_hint : Z) (address rnd : bytes) (m : AppManifest)
    (auto_restart reuse : bool) (started : result anyhow unit)
| OpResize (now : Z) (order : list bytes) (address : bytes) (count : Z) (timeout : option Z)
| OpTryInc (now : Z) (order : list bytes) (address : bytes)
| OpBeginQuery (address : bytes) (query_size : Z)
| OpEndQuery (now : Z) (address : bytes) (instance : option Z)
| OpStopped (now : Z) (address : bytes) (sn : Z)
| OpRemove (address : bytes)
| OpClear
| OpBumpSn
| OpInit (hash : bytes -> bytes) (cnonce pnonce recipient : bytes)
| OpBench (address : option bytes) (n : Z)
| OpMeter (address : bytes) (sn : Z) (m : Meter).

Definition set_vm_meter (address : bytes) (sn : Z) (m : Meter) (w : WorkerState) : WorkerState :=
  match apps w !! address with
  | None => w
  | Some app =>
    match instances app !! sn with
    | None => w
    | Some i => set_apps w (<[address := set_instances app
        (<[sn := MkInst (sequence_number i) m (inst_time_limit i)]> (instances app))]> (apps w))
    end
  end.

Definition worker_step (w : WorkerState) (op : worker_op) : WorkerState :=
  match op with
  | OpRegister now sz a rnd m ar re =>
    ((lift (check_manifest sz m);; insert_app now a rnd m ar re) w).2
  | OpDeploy now order sz a rnd m ar re st => (deploy_app now order sz a rnd m ar re st w).2
  | OpResize now order a count t => (resize_app_instances now order a count t w).2
  | OpTryInc now order a => (try_inc_instances now order a w).2
  | OpBeginQuery a sz => (begin_query a sz w).2
  | OpEndQuery now a i => (end_query now a i w).2
  | OpStopped now a sn => instance_stopped now a sn w
  | OpRemove a => (remove_app a w).2
  | OpClear => (clear w).2
  | OpBumpSn => (bump_metrics_sn w).2
  | OpInit hash c p r => (init hash c p r w).2
  | OpBench a n => (set_bench_app a n w).2
  | OpMeter a sn m => set_vm_meter a sn m w
  end.

(** Updating an app to one with no more instances keeps the capacity. *)
Lemma cap_update w a app app' : apps w !! a = Some app -> n_instances app' <= n_instances app ->
  cap_ok w -> cap_ok (set_apps w (<[a := app']> (apps w))).
Proof.
  unfold cap_ok. intros Ha Hn. rewrite !running_total. simpl. rewrite (total_update _ _ app) by done. lia.
Qed.

Definition cap_from (w0 w : WorkerState) : Prop := same_args w0 w /\ cap_ok w.

Lemma resize_cap_from now order a count tmo w0 :
  preserves (cap_from w0) (resize_app_instances now order a count tmo).
Proof.
  intros w [Ha Hc]. destruct (resize_cap now order a count tmo w Hc) as [Hc' Ha'].
  split; [|done]. unfold same_args in *. congruence.
Qed.

Lemma get_app_cap a err w0 : preserves (cap_from w0) (get_app a err).
Proof. by intros w. Qed.
#[local] Hint Resolve resize_cap_from get_app_cap : wapo.

Lemma insert_app_cap now a rnd m ar re w0 : preserves (cap_from w0) (insert_app now a rnd m ar re).
Proof.
  intros w Hw. unfold insert_app. m_unfold.
  destruct (bool_decide _) eqn:Hb; simpl; [done|]. prop_bools. destruct Hw as [Ha Hc].
  split; [done|]. unfold cap_ok in *. rewrite !running_total in *. simpl.
  rewrite total_insert by (by apply eq_None_not_Some). unfold n_instances. simpl.
  by rewrite map_size_empty.
Qed.
#[local] Hint Resolve insert_app_cap : wapo.

Lemma end_query_cap now a i w0 : preserves (cap_from w0) (end_query now a i).
Proof.
  intros w [Ha Hc]. unfold end_query, get_app, put_app. m_unfold.
  destruct (apps w !! a) as [app|] eqn:Hl; simpl; [|done]. destruct i as [sn|]; simpl.
  - destruct (instances app !! sn) as [i|] eqn:Hi; simpl; [|done].
    split; [done|]. eapply cap_update; [done| |done]. unfold n_instances. simpl.
    rewrite map_size_delete_Some by eauto. lia.
  - split; [done|]. eapply cap_update; [done| |done]. case_match; unfold n_instances; simpl;
      rewrite ?map_size_empty; lia.
Qed.

Lemma worker_step_cap w0 w op : cap_from w0 w -> 0 <= max_instances (w_args w0) ->
  cap_from w0 (worker_step w op).
Proof.
  intros Hw Hmax. destruct op; simpl.
  - revert w Hw. match goal with |- forall w, _ -> cap_from w0 (?m w).2 =>
      change (preserves (cap_from w0) m) end. preserve.
  - revert w Hw. match goal with |- forall w, _ -> cap_from w0 (?m w).2 =>
      change (preserves (cap_from w0) m) end. unfold deploy_app. preserve.
  - by apply resize_cap_from.
  - revert w Hw. fold (preserves (cap_from w0) (try_inc_instances now order address)).
    unfold try_inc_instances. preserve.
  - destruct Hw as [Ha Hc]. unfold begin_query, get_app, put_app. m_unfold.
    destruct (apps w !! address) as [app|] eqn:Hl; simpl; [|done].
    destruct (_ <? _); simpl; [done|]. split; [done|]. by eapply cap_update.
  - by apply end_query_cap.
  - unfold instance_stopped. destruct (apps w !! address) as [app|] eqn:Hl; [|done].
    destruct (instances app !! sn) as [i|] eqn:Hi; [|done]. destruct Hw as [Ha Hc].
    split; [done|]. eapply cap_update; [done| |done]. unfold n_instances. simpl.
    rewrite map_size_delete_Some by eauto. lia.
  - destruct Hw as [Ha Hc]. unfold remove_app, get_app. m_unfold.
    destruct (apps w !! address) as [app|] eqn:Hl; simpl; [|done]. split; [done|].
    unfold cap_ok in *. rewrite !running_total in *. simpl.
    rewrite (total_delete _ _ _ Hl) in Hc. unfold n_instances in Hc. lia.
  - destruct Hw as [Ha Hc]. split; [done|]. unfold cap_ok. rewrite running_total. simpl.
    unfold total. rewrite map_fold_empty. by rewrite Ha.
  - done.
  - unfold init. m_unfold. by destruct (negb _).
  - done.
  - unfold set_vm_meter. destruct (apps w !! address) as [app|] eqn:Hl; [|done].
    destruct (instances app !! sn) as [i|] eqn:Hi; [|done]. destruct Hw as [Ha Hc].
    split; [done|]. eapply cap_update; [done| |done]. rewrite n_instances_insert.
    rewrite decide_False by (by rewrite Hi). lia.
Qed.

(** The bound from the start, along any interleaving. *)
Lemma worker_run_cap a ops : 0 <= max_instances a ->
  cap_from (worker_new a) (foldl worker_step (worker_new a) ops).
Proof.
  intros Hmax. assert (H0 : cap_from (worker_new a) (worker_new a)).
  { split; [done|]. unfold cap_ok. simpl. rewrite running_total. simpl. unfold total.
    by rewrite map_fold_empty. }
  revert H0. generalize (worker_new a) at 2 4. induction ops as [|op ops IH]; intros w Hw; [done|].
  simpl. apply IH. by apply worker_step_cap.
Qed.

(** C9: capacity: in every state the worker can reach, by any interleaving of
    deployments, resizes, on-demand starts, queries, evictions, terminations and
    removals, at most [max_instances] instances are registered. *)
Theorem worker_capacity a ops : 0 <= max_instances a ->
  let w := foldl worker_step (worker_new a) ops in
  running_instances w <= max_instances a.
Proof.
  intros Hmax w. destruct (worker_run_cap a ops Hmax) as [Ha Hc]. unfold cap_ok in Hc. by rewrite Ha in Hc.
Qed.

Definition manifest0 (on_demand resizable : bool) : AppManifest :=
  MkManifest 1 [] [] [] on_demand resizable 1024 [] [].
Lemma worker_capacity_witness :
  let ops := [OpDeploy 0 [] 0 [1] [7] (manifest0 false true) false true (Ok tt);
              OpResize 1 [[1]] [1] 5 None;
              OpDeploy 2 [[1]; [2]] 0 [2] [8] (manifest0 true false) false true (Ok tt);
              OpResize 3 [[1]; [2]] [2] 1 (Some 10)] in
  let w := foldl worker_step (worker_new (MkArgs 0 3 10)) ops in
  running_instances w = 3 /\ running_instances w <= max_instances (MkArgs 0 3 10).
Proof.
  intros ops w. split; [vm_compute; reflexivity|].
  apply (worker_capacity (MkArgs 0 3 10) ops). simpl. lia.
Defined.
