(* ===== verification/WorkerFacts.v ===== *)
(** * Properties of the worker's accounting

    What is reported for an app across starts, evictions and stops; the result of
    a resize; the bookkeeping of queries, locks and metrics tokens. *)
From S2P Require Import Prelude OcallDef Meter Service Worker.

(** ** Metrics *)

(** What [app_metrics_call] reports for an app. *)
Definition usage (now : Z) (w : WorkerState) (address : bytes) : Metrics :=
  match apps w !! address with Some app => app_metrics now app | None => Metrics_default end.

Definition app_wf (now : Z) (a : AppState) : Prop :=
  metrics_wf (hist_metrics a) /\ map_Forall (fun _ i => metrics_wf (inst_metrics now i)) (instances a).

(** Counters are machine words, and every sequence number in use is below the
    next one. *)
Definition worker_wf (now : Z) (w : WorkerState) : Prop :=
  0 <= next_run_sn w /\
  forall address a, apps w !! address = Some a ->
    app_wf now a /\ forall sn, is_Some (instances a !! sn) -> sn < next_run_sn w.

Definition fresh_metrics (now : Z) : Metrics := to_metrics now (Meter_default now).
Lemma fresh_metrics_wf now : metrics_wf (fresh_metrics now).
Proof.
  split; [repeat constructor|]. unfold fresh_metrics, duration_max. simpl. lia.
Qed.
#[local] Hint Resolve fresh_metrics_wf : wapo.

Lemma instances_wf now (m : gmap Z Instance) :
  map_Forall (fun _ i => metrics_wf (inst_metrics now i)) m ->
  Forall metrics_wf (inst_metrics now <$> (map_to_list m).*2).
Proof.
  intros Hm. rewrite !Forall_fmap. apply map_Forall_to_list in Hm.
  eapply Forall_impl; [exact Hm|]. by intros [k i].
Qed.

Lemma app_metrics_wf now a : app_wf now a -> metrics_wf (app_metrics now a).
Proof.
  intros [Hh Hi]. unfold app_metrics. apply instances_wf in Hi. revert Hh.
  generalize (hist_metrics a). induction Hi; intros h Hh; simpl; auto with wapo.
Qed.

(** An instance is moved to the history. *)
Lemma app_metrics_retire now a sn i : app_wf now a -> instances a !! sn = Some i ->
  app_metrics now (set_hist (set_instances a (delete sn (instances a)))
                     (merge (hist_metrics a) (inst_metrics now i))) = app_metrics now a.
Proof.
  intros [Hh Hi] Hl. unfold app_metrics. simpl.
  change (foldl merge (hist_metrics a)
    (inst_metrics now <$> ((sn, i) :: map_to_list (delete sn (instances a))).*2) =
    foldl merge (hist_metrics a) (inst_metrics now <$> (map_to_list (instances a)).*2)).
  symmetry. apply fold_merge_perm; [done|by apply instances_wf|].
  by rewrite <- (map_to_list_delete (instances a) sn i Hl).
Qed.

Lemma app_metrics_add now a sn i : app_wf now a -> instances a !! sn = None ->
  metrics_wf (inst_metrics now i) ->
  app_metrics now (set_instances a (<[sn := i]> (instances a))) =
    merge (app_metrics now a) (inst_metrics now i).
Proof.
  intros [Hh Hi] Hl Hw. unfold app_metrics. simpl.
  rewrite <- fold_merge_swap by auto using instances_wf.
  change (foldl merge (merge (hist_metrics a) (inst_metrics now i)) ?l) with
    (foldl merge (hist_metrics a) (inst_metrics now i :: l)).
  apply fold_merge_perm; [done|by apply instances_wf, map_Forall_insert_2|].
  by rewrite (map_to_list_insert _ _ _ Hl).
Qed.

Lemma app_wf_retire now a sn i : app_wf now a -> instances a !! sn = Some i ->
  app_wf now (set_hist (set_instances a (delete sn (instances a)))
                (merge (hist_metrics a) (inst_metrics now i))).
Proof.
  intros [Hh Hi] Hl. split; simpl; [|by apply map_Forall_delete].
  specialize (Hi _ _ Hl). auto with wapo.
Qed.

Lemma pop_instance_retires now a i a' : app_wf now a -> pop_instance now a = Some (i, a') ->
  app_wf now a' /\ app_metrics now a' = app_metrics now a /\
  forall sn, is_Some (instances a' !! sn) -> is_Some (instances a !! sn).
Proof.
  intros Ha. unfold pop_instance.
  destruct (pop_last (instances a)) as [[[sn j] rest]|] eqn:Hp; simpl; [|done].
  intros [= <- <-]. apply pop_last_Some in Hp as (Hl & -> & _).
  split; [by apply app_wf_retire|]. split; [by apply app_metrics_retire|]. simpl. intros k.
  rewrite lookup_delete_is_Some. by intros [_ ?].
Qed.

Lemma pop_many_retires now n : forall a l a', app_wf now a -> pop_many now n a = Some (l, a') ->
  app_wf now a' /\ app_metrics now a' = app_metrics now a /\
  forall sn, is_Some (instances a' !! sn) -> is_Some (instances a !! sn).
Proof.
  induction n as [|n IH]; intros a l a' Ha; cbn [pop_many]; [by intros [= <- <-]|].
  destruct (pop_instance now a) as [[i a1]|] eqn:Hp; simpl; [|done].
  destruct (pop_many now n a1) as [[l1 a2]|] eqn:Hm; simpl; [|done]. intros [= <- <-].
  destruct (pop_instance_retires _ _ _ _ Ha Hp) as (Hw1 & Hu1 & Hs1).
  destruct (IH _ _ _ Hw1 Hm) as (Hw2 & Hu2 & Hs2). split_and!; [done|congruence|auto].
Qed.

(** An app is replaced by one with the same metrics. *)
Lemma update_app now w address a a' : worker_wf now w -> apps w !! address = Some a ->
  app_wf now a' -> (forall sn, is_Some (instances a' !! sn) -> is_Some (instances a !! sn)) ->
  app_metrics now a' = app_metrics now a ->
  let w' := set_apps w (<[address := a']> (apps w)) in
  worker_wf now w' /\ forall x, usage now w' x = usage now w x.
Proof.
  intros [Hn Hw] Ha Ha' Hs Hu w'. split.
  - split; [done|]. simpl. intros x b [[<- <-]|[Hx Hb]]%lookup_insert_Some; [|by eapply Hw].
    split; [done|]. intros sn Hsn. by apply (Hw _ _ Ha), Hs.
  - intros x. unfold usage. simpl. destruct (decide (address = x)) as [<- |Hx].
    + by rewrite lookup_insert_eq, Ha.
    + by rewrite lookup_insert_ne.
Qed.

Lemma instance_stopped_usage now address sn w : worker_wf now w ->
  let w' := instance_stopped now address sn w in
  worker_wf now w' /\ forall x, usage now w' x = usage now w x.
Proof.
  intros Hw. unfold instance_stopped.
  destruct (apps w !! address) as [a|] eqn:Ha; [|done].
  destruct (instances a !! sn) as [i|] eqn:Hi; [|done].
  destruct (proj2 Hw _ _ Ha) as [Hwa _].
  eapply update_app; eauto using app_wf_retire, app_metrics_retire.
  simpl. intros k. rewrite lookup_delete_is_Some. by intros [_ ?].
Qed.

Lemma evict_usage now order : forall w r w', worker_wf now w -> evict now order w = (r, w') ->
  worker_wf now w' /\ next_run_sn w' = next_run_sn w /\ forall x, usage now w' x = usage now w x.
Proof.
  induction order as [|a order IH]; intros w r w' Hw; cbn [evict]; [by intros [= <- <-]|].
  destruct (apps w !! a) as [app|] eqn:Ha; [|by apply IH].
  destruct (resizable (manifest app)); [|by apply IH].
  destruct (pop_instance now app) as [[i app']|] eqn:Hp; [|by apply IH].
  intros [= <- <-]. destruct (proj2 Hw _ _ Ha) as [Hwa _].
  destruct (pop_instance_retires _ _ _ _ Hwa Hp) as (Hw1 & Hu1 & Hs1).
  destruct (update_app now w a app app' Hw Ha Hw1 Hs1 Hu1) as [H1 H2]. done.
Qed.

Lemma reserve_usage now order a w r w' : worker_wf now w ->
  reserve_slot_if_needed now order a w = (r, w') ->
  worker_wf now w' /\ next_run_sn w' = next_run_sn w /\ forall x, usage now w' x = usage now w x.
Proof.
  intros Hw. unfold reserve_slot_if_needed, get_app. m_unfold.
  destruct (apps w !! a) as [app|]; simpl; [|intros; by simplify_eq].
  destruct (negb _); [intros; by simplify_eq|].
  destruct (0 <? available_slots w); [intros; by simplify_eq|].
  destruct (evict now order w) as [[i|e] w1] eqn:He; intros; simplify_eq; by eapply evict_usage.
Qed.

(** [k] fresh instances of [address] have been started. *)
Definition started (now : Z) (address : bytes) (k : nat) (w w' : WorkerState) : Prop :=
  worker_wf now w' /\ next_run_sn w' = next_run_sn w + Z.of_nat k /\
  forall x, usage now w' x =
    foldl merge (usage now w x) (if decide (x = address) then replicate k (fresh_metrics now) else []).

Lemma started_0 now address w w' : worker_wf now w' -> next_run_sn w' = next_run_sn w ->
  (forall x, usage now w' x = usage now w x) -> started now address 0 w w'.
Proof.
  intros Hw Hn Hu. split_and!; [done|lia|]. intros x. rewrite Hu. by destruct (decide _).
Qed.

Lemma start_app_usage now a lim w sn w' : worker_wf now w -> next_run_sn w < int_max U64 ->
  start_app now a lim w = (Ok sn, w') -> started now a 1 w w'.
Proof.
  intros [Hn Hw] Hmax. unfold start_app, get_app, put_app. m_unfold.
  destruct (apps w !! a) as [app|] eqn:Ha; simpl; [|done].
  destruct (_ && _); simpl; [done|]. intros [= <- <-].
  destruct (Hw _ _ Ha) as [Hwa Hs].
  assert (Hnone : instances app !! next_run_sn w = None).
  { apply eq_None_not_Some. intros Hs'. specialize (Hs _ Hs'). lia. }
  assert (Hwr : wrap U64 (next_run_sn w + 1) = next_run_sn w + 1).
  { apply wrap_id. apply in_range_spec. unfold int_min. simpl. lia. }
  unfold started, worker_wf. simpl. rewrite Hwr. split_and!; [lia| |done|].
  - intros x b [[<- <-]|[Hx Hb]]%lookup_insert_Some.
    + split; [|intros k]; simpl.
      * split; [apply Hwa|]. apply map_Forall_insert_2; [apply fresh_metrics_wf|apply Hwa].
      * rewrite lookup_insert_is_Some'. intros [<- |Hk]; [lia|]. specialize (Hs _ Hk). lia.
    + destruct (Hw _ _ Hb) as [Hwb Hb']. split; [done|]. intros k Hk. specialize (Hb' _ Hk). lia.
  - intros x. unfold usage. simpl. destruct (decide (x = a)) as [-> |Hx].
    + rewrite lookup_insert_eq, Ha. rewrite app_metrics_add; [done|done|done|apply fresh_metrics_wf].
    + by rewrite lookup_insert_ne.
Qed.

Lemma start_many_usage now a lim n : forall w r w', worker_wf now w ->
  next_run_sn w + Z.of_nat n <= int_max U64 ->
  start_many now a lim n w = (r, w') -> exists k, (k <= n)%nat /\ started now a k w w'.
Proof.
  induction n as [|n IH]; intros w r w' Hw Hmax; cbn [start_many].
  - intros [= <- <-]. exists 0%nat. split; [done|]. by apply started_0.
  - intros [(sn & w1 & H1 & H2)|(e & H1 & ->)]%bind_inv.
    + apply start_app_usage in H1 as (Hw1 & Hn1 & Hu1); [|done|lia].
      assert (exists r2, start_many now a lim n w1 = (r2, w')) as [r2 H2'].
      { apply bind_inv in H2 as [(l & w2 & H2 & [= <- <-])|(e & H2 & ->)]; eauto. }
      destruct (IH _ _ _ Hw1 ltac:(lia) H2') as (k & Hk & Hw2 & Hn2 & Hu2).
      exists (S k). split; [lia|]. split_and!; [done|lia|]. intros x. rewrite Hu2, Hu1.
      by destruct (decide (x = a)).
    + apply start_app_count in H1 as [_ ->]. exists 0%nat. split; [lia|]. by apply started_0.
Qed.

Lemma available_le_max w : 0 <= max_instances (w_args w) ->
  available_slots w <= max_instances (w_args w).
Proof.
  unfold available_slots, sat_sub. rewrite running_total. pose proof (total_nonneg (apps w)). lia.
Qed.

(** C10: no usage is lost or counted twice when the number of instances changes:
    whatever a resize does (evict an instance of another app, start new ones, stop
    running ones, fail halfway), the metrics of every app are afterwards what they
    were, plus one fresh start for each instance of the resized app that was
    created. *)
Theorem resize_conserves_metrics now order address count tmo w r w' :
  worker_wf now w -> 0 <= max_instances (w_args w) ->
  next_run_sn w + max_instances (w_args w) <= int_max U64 ->
  resize_app_instances now order address count tmo w = (r, w') ->
  exists k, started now address k w w' /\ Z.of_nat k <= max_instances (w_args w).
Proof.
  intros Hw Hmax Hsn Hr. unfold resize_app_instances in Hr.
  assert (Hzero : forall w1, worker_wf now w1 -> next_run_sn w1 = next_run_sn w ->
    (forall x, usage now w1 x = usage now w x) ->
    exists k, started now address k w w1 /\ Z.of_nat k <= max_instances (w_args w)).
  { intros w1 ? ? ?. exists 0%nat. split; [by apply started_0|lia]. }
  apply bind_inv in Hr as [(res & w1 & H1 & Hr)|(e & H1 & ->)].
  2: { destruct tmo; [|done]. apply reserve_usage in H1 as (? & ? & ?); auto. }
  assert (H1' : w_args w1 = w_args w /\ worker_wf now w1 /\ next_run_sn w1 = next_run_sn w /\
    forall x, usage now w1 x = usage now w x).
  { destruct tmo; [|by injection H1 as <- <-]. split; [by apply reserve_count in H1 as [? _]|].
    by eapply reserve_usage. }
  clear H1. destruct H1' as (Hargs & Hw1 & Hn1 & Hu1).
  unfold get_app in Hr. revert Hr. m_unfold.
  destruct (apps w1 !! address) as [app|] eqn:Ha; simpl; [|intros; simplify_eq; auto].
  destruct (n_instances app ?= count) eqn:Hcmp; simpl.
  - intros; simplify_eq; auto.
  - destruct (_ && _); simpl; [intros; simplify_eq; auto|].
    destruct (start_many _ _ _ _ w1) as [r2 w2] eqn:Hs.
    assert (Havail : 0 <= available_slots w1 <= max_instances (w_args w)).
    { rewrite <- Hargs. split; [unfold available_slots, sat_sub; lia|]. apply available_le_max. by rewrite Hargs. }
    apply start_many_usage in Hs as (k & Hk & Hw2 & Hn2 & Hu2); [|done|lia].
    intros Hr. assert (w2 = w') as -> by (destruct r2; by simplify_eq).
    exists k. split; [|lia]. split_and!; [done|lia|]. intros x. by rewrite Hu2, Hu1.
  - destruct (pop_many _ _ app) as [[popped app']|] eqn:Hp; simpl; [|intros; simplify_eq; auto].
    intros [= <- <-]. destruct (proj2 Hw1 _ _ Ha) as [Hwa _].
    destruct (pop_many_retires _ _ _ _ _ Hwa Hp) as (Hwa' & Hua & Hsa).
    destruct (update_app now w1 address app app' Hw1 Ha Hwa' Hsa Hua) as [Hw2 Hu2].
    apply Hzero; [done|done|]. intros x. by rewrite Hu2.
Qed.

(** One app with two instances that have burnt gas, one slot left. *)
Definition busy_app (resizable on_demand : bool) (queries : Z) : AppState :=
  MkApp 0 [] (manifest0 on_demand resizable) Metrics_default
    {[ 0 := MkInst 0 (record_gas 10 (Meter_default 0)) None;
       1 := MkInst 1 (record_gas 20 (Meter_default 0)) None ]} queries 0 false true.
Definition busy_worker (resizable on_demand : bool) (queries : Z) : WorkerState :=
  MkWorker {[ [1] := busy_app resizable on_demand queries ]} (MkArgs 0 3 10) None 0 None 0 1 2.
Lemma busy_worker_wf r d q : worker_wf 5 (busy_worker r d q).
Proof.
  split; [simpl; lia|]. simpl. intros a app [<- <-]%lookup_singleton_Some.
  split.
  - split; [apply metrics_wf_default|]. simpl.
    intros k i [[<- <-]|[_ [<- <-]%lookup_singleton_Some]]%lookup_insert_Some;
      (split; [repeat constructor|unfold duration_max; simpl; lia]).
  - simpl. intros sn [i [[<- <-]|[_ [<- <-]%lookup_singleton_Some]]%lookup_insert_Some]; lia.
Qed.
Lemma resize_conserves_metrics_witness :
  let w := busy_worker true false 0 in
  let w' := (resize_app_instances 5 [] [1] 1 None w).2 in
  gas_consumed (usage 5 w' [1]) = 30 /\ n_instances (busy_app true false 0) = 2 /\
  running_instances w' = 1 /\
  exists k, started 5 [1] k w w' /\ Z.of_nat k <= 3.
Proof.
  intros w w'. split_and!; [vm_compute; reflexivity..|].
  apply (resize_conserves_metrics 5 [] [1] 1 None w
    (resize_app_instances 5 [] [1] 1 None w).1 w').
  - apply busy_worker_wf.
  - simpl. lia.
  - vm_compute. discriminate.
  - subst w'. by destruct (resize_app_instances 5 [] [1] 1 None w).
Defined.

(** ** The end of a query *)
Lemma gone_stays address sn w :
  (forall app, apps w !! address = Some app -> instances app !! sn = None) ->
  forall t, instance_stopped t address sn w = w.
Proof.
  intros Hn t. unfold instance_stopped. destruct (apps w !! address) as [app|]; [|done].
  by rewrite Hn.
Qed.

(** An instance that is stopped when its task ends is accounted, one that is
    dropped at the end of a query is not: the metrics reported after
    [instance_stopped] are those before; but when the last query of an on-demand
    app ends, or a query on its own instance, what the dropped instances consumed
    is not moved to the history, and the later clean-up does not find them. *)
Theorem end_query_loses_metrics now t address w app :
  worker_wf t w -> apps w !! address = Some app ->
  (forall sn, usage t (instance_stopped t address sn w) address = usage t w address) /\
  (on_demand (manifest app) = true -> on_going_queries app = 1 ->
   let w' := (end_query now address None w).2 in
   usage t w' address = hist_metrics app /\
   forall t' sn, instance_stopped t' address sn w' = w') /\
  (forall sn i, instances app !! sn = Some i ->
   let w' := (end_query now address (Some sn) w).2 in
   usage t w address = merge (usage t w' address) (inst_metrics t i) /\
   forall t', instance_stopped t' address sn w' = w').
Proof.
  intros Hw Ha. split_and!.
  - intros sn. by apply instance_stopped_usage.
  - intros Hd Hq. unfold end_query, get_app, put_app. m_unfold. rewrite Ha. simpl. rewrite Hq.
    change (wrap U64 (1 - 1) =? 0) with true. rewrite Hd. simpl. split.
    + unfold usage. simpl. rewrite lookup_insert_eq. unfold app_metrics. simpl. by rewrite map_to_list_empty.
    + intros t' sn. apply gone_stays. simpl. intros a. rewrite lookup_insert_eq. by intros [= <-].
  - intros sn i Hi. unfold end_query, get_app, put_app. m_unfold. rewrite Ha. simpl. rewrite Hi. simpl.
    split.
    + unfold usage. simpl. rewrite lookup_insert_eq, Ha. destruct (proj2 Hw _ _ Ha) as [[Hh Hall] _].
      rewrite <- (app_metrics_add _ _ sn); [|split; [done|by apply map_Forall_delete]|apply lookup_delete_eq|exact (Hall _ _ Hi)].
      f_equal. simpl. rewrite insert_delete_id by done. by destruct app.
    + intros t'. apply gone_stays. simpl. intros a. rewrite lookup_insert_eq. intros [= <-].
      apply lookup_delete_eq.
Qed.
Lemma end_query_loses_metrics_witness :
  let w := busy_worker false true 1 in
  gas_consumed (usage 5 w [1]) = 30 /\
  usage 5 (end_query 5 [1] None w).2 [1] = Metrics_default.
Proof.
  intros w. split; [vm_compute; reflexivity|].
  apply (end_query_loses_metrics 5 5 [1] w (busy_app false true 1)); try reflexivity.
  apply busy_worker_wf.
Defined.

(** ** Counting queries *)
Definition queries (w : WorkerState) (x : bytes) : option Z := on_going_queries <$> apps w !! x.
Definition keeps_queries (f : bytes -> option Z) (w : WorkerState) : Prop := forall x, queries w x = f x.

Lemma queries_update w a app app' : apps w !! a = Some app ->
  on_going_queries app' = on_going_queries app ->
  forall x, on_going_queries <$> <[a := app']> (apps w) !! x = queries w x.
Proof.
  intros Ha Hq x. unfold queries. destruct (decide (a = x)) as [<- |Hx].
  - rewrite lookup_insert_eq, Ha. simpl. by f_equal.
  - by rewrite lookup_insert_ne.
Qed.

Lemma start_app_queries f now a lim : preserves (keeps_queries f) (start_app now a lim).
Proof.
  intros w Hw. unfold start_app, get_app, put_app. m_unfold.
  destruct (apps w !! a) as [app|] eqn:Ha; simpl; [|done]. destruct (_ && _); simpl; [done|].
  intros x. unfold queries at 1. simpl. by rewrite (queries_update w a app).
Qed.

Lemma start_many_queries f now a lim n : preserves (keeps_queries f) (start_many now a lim n).
Proof. pose proof start_app_queries. induction n; cbn [start_many]; preserve. Qed.

Lemma evict_queries f now order : preserves (keeps_queries f) (evict now order).
Proof.
  induction order as [|a order IH]; intros w Hw; cbn [evict]; [done|].
  destruct (apps w !! a) as [app|] eqn:Ha; [|by apply IH].
  destruct (resizable (manifest app)); [|by apply IH].
  destruct (pop_instance now app) as [[i app']|] eqn:Hp; [|by apply IH]. simpl.
  apply pop_instance_spec in Hp as (sn & _ & _ & _ & _ & _ & Hq). intros x. unfold queries at 1. simpl.
  by rewrite (queries_update w a app).
Qed.

Lemma pop_many_queries now n : forall a l a', pop_many now n a = Some (l, a') ->
  on_going_queries a' = on_going_queries a.
Proof.
  induction n as [|n IH]; intros a l a'; cbn [pop_many]; [by intros [= <- <-]|].
  destruct (pop_instance now a) as [[i a1]|] eqn:Hp; simpl; [|done].
  destruct (pop_many now n a1) as [[l' a2]|] eqn:Hm; simpl; [|done]. intros [= <- <-].
  apply pop_instance_spec in Hp as (sn & _ & _ & _ & _ & _ & Hq). by rewrite (IH _ _ _ Hm).
Qed.

Lemma get_app_keeps {P} a err : preserves P (get_app a err).
Proof. by intros w. Qed.
#[local] Hint Resolve get_app_keeps start_many_queries evict_queries : wapo.

Lemma resize_queries f now order a count tmo :
  preserves (keeps_queries f) (resize_app_instances now order a count tmo).
Proof.
  unfold resize_app_instances. apply preserves_bind.
  { destruct tmo; [|preserve]. unfold reserve_slot_if_needed. preserve. }
  intros res w Hw. unfold get_app, mbind at 1, M_bind at 1.
  destruct (apps w !! a) as [app|] eqn:Ha; [|done]. cbn [ok_or].
  destruct (n_instances app ?= count).
  - done.
  - revert w Hw Ha. generalize (n_instances app). intros n w Hw Ha.
    match goal with |- keeps_queries f (?m w).2 => cut (preserves (keeps_queries f) m); [auto|] end.
    preserve.
  - m_unfold. destruct (pop_many _ _ app) as [[popped app']|] eqn:Hp; simpl; [|done].
    intros x. unfold queries at 1. simpl. apply pop_many_queries in Hp.
    by rewrite (queries_update w a app).
Qed.

Lemma begin_query_queries a sz w r w' q : queries w a = Some q -> begin_query a sz w = (r, w') ->
  match r with
  | Ok _ => queries w' a = Some (wrap U64 (q + 1))
  | Err _ => w' = w
  end.
Proof.
  unfold queries. intros Hq. unfold begin_query, get_app, put_app. m_unfold.
  destruct (apps w !! a) as [app|]; simpl in *; [|done]. injection Hq as <-.
  destruct (_ <? _); simpl; intros [= <- <-]; [done|]. simpl. by rewrite lookup_insert_eq.
Qed.

Lemma drop_guard_queries now g w n : queries w (guard_address g) = Some n ->
  queries (drop_guard now g w).2 (guard_address g) =
    Some (match instance_id g with None => wrap U64 (n - 1) | Some _ => n end).
Proof.
  unfold drop_guard, ignore, end_query, get_app, put_app, queries. m_unfold. cbn [snd].
  destruct (apps w !! guard_address g) as [app|] eqn:Ha; simpl; [|done]. intros [= <-].
  destruct (instance_id g) as [sn|]; simpl.
  - destruct (instances app !! sn); simpl; [|by rewrite Ha]. by rewrite lookup_insert_eq.
  - rewrite lookup_insert_eq. simpl. by case_match.
Qed.

Lemma wrap_undo q : in_range U64 q = true -> wrap U64 (wrap U64 (q + 1) - 1) = q.
Proof.
  intros Hq. rewrite <- (wrap_id U64 q Hq) at 2. unfold wrap.
  change (int_min U64) with 0. rewrite !Z.add_0_r, !Z.sub_0_r, Zminus_mod_idemp_l.
  by replace (q + 1 - 1) with q by lia.
Qed.

Lemma or_drop_queries {A} now g (m : WorkerM A) w r w' n :
  (forall f, preserves (keeps_queries f) m) ->
  queries w (guard_address g) = Some n -> or_drop now g m w = (r, w') ->
  queries w' (guard_address g) = Some (match r, instance_id g with
                                       | Err _, None => wrap U64 (n - 1)
                                       | _, _ => n
                                       end).
Proof.
  intros Hm Hn. unfold or_drop. pose proof (Hm (queries w) w (fun _ => eq_refl)) as Hk.
  destruct (m w) as [[a|e] w1]; simpl in Hk.
  - intros [= <- <-]. by rewrite Hk.
  - intros [<- <-]%pair_equal_spec. rewrite (drop_guard_queries _ _ _ n); [done|]. by rewrite Hk.
Qed.

Lemma with_context_keeps {A} P s (m : WorkerM A) : preserves P m -> preserves P (with_context s m).
Proof. intros Hm w Hw. specialize (Hm w Hw). unfold with_context. by destruct (m w). Qed.
#[local] Hint Resolve with_context_keeps : wapo.

Lemma try_inc_queries f now order a : preserves (keeps_queries f) (try_inc_instances now order a).
Proof. pose proof resize_queries. unfold try_inc_instances. preserve. Qed.

(** The count of on-going queries: a query that fails to be prepared leaves
    it as it was; one that is prepared adds one, which the end of the query takes
    back when the app's instances are shared, but not when the query got an
    instance of its own: then the count stays one too high for ever. *)
Theorem query_accounting now now' order a sz st w r w1 q :
  queries w a = Some q -> in_range U64 q = true ->
  prepare_instance_for_query now order a sz st w = (r, w1) ->
  match r with
  | Err _ => queries w1 a = Some q
  | Ok g =>
    queries w1 a = Some (wrap U64 (q + 1)) /\
    queries (drop_guard now' g w1).2 a =
      Some (match instance_id g with None => q | Some _ => wrap U64 (q + 1) end)
  end.
Proof.
  intros Hq Hr. unfold prepare_instance_for_query.
  intros [([need reuse] & w0 & H1 & H2)|(e & H1 & ->)]%bind_inv;
    apply (begin_query_queries _ _ _ _ _ q Hq) in H1; [|simpl in *; by subst].
  assert (Hdrop : forall g w', guard_address g = a -> queries w' a = Some (wrap U64 (q + 1)) ->
    queries (drop_guard now' g w').2 a =
      Some (match instance_id g with None => q | Some _ => wrap U64 (q + 1) end)).
  { intros g w' <- Hw'. rewrite (drop_guard_queries _ _ _ _ Hw').
    destruct (instance_id g); [done|]. by rewrite wrap_undo. }
  destruct need; cbn [negb] in H2; [destruct reuse|].
  - apply bind_inv in H2 as [(x & w2 & H2 & [= <- <-])|(e & H2 & ->)].
    all: apply (or_drop_queries _ _ _ _ _ _ (wrap U64 (q + 1))) in H2;
      [|pose proof resize_queries; intros; apply with_context_keeps; preserve|done]; simpl in H2.
    + split; [done|]. by apply Hdrop.
    + by rewrite wrap_undo in H2.
  - apply bind_inv in H2 as [(x & w2 & H2 & [= <- <-])|(e & H2 & ->)].
    all: apply (or_drop_queries _ _ _ _ _ _ (wrap U64 (q + 1))) in H2;
      [|intros; apply try_inc_queries|done]; simpl in H2.
    + split; [done|]. by apply Hdrop.
    + by rewrite wrap_undo in H2.
  - injection H2 as <- <-. split; [done|]. by apply Hdrop.
Qed.

(** A worker with one on-demand app that does not share its instances. *)
Definition private_worker : WorkerState :=
  (insert_app 0 [1] [7] (manifest0 true false) false false (worker_new (MkArgs 0 3 10))).2.
Lemma query_accounting_witness :
  let r := prepare_instance_for_query 1 [[1]] [1] 100 (Ok tt) private_worker in
  r.1 = Ok (MkGuard [1] false (Some 0)) /\
  queries private_worker [1] = Some 0 /\
  queries (drop_guard 2 (MkGuard [1] false (Some 0)) r.2).2 [1] = Some 1.
Proof.
  intros r. assert (Hr : r.1 = Ok (MkGuard [1] false (Some 0))) by reflexivity.
  split; [exact Hr|]. split; [reflexivity|].
  refine (proj2 (query_accounting 1 2 [[1]] [1] 100 (Ok tt) private_worker
    (Ok (MkGuard [1] false (Some 0))) r.2 0 _ _ _)); [reflexivity..|].
  rewrite <- Hr. subst r. by destruct (prepare_instance_for_query _ _ _ _ _ _).
Defined.

(** ** The result of a resize *)
Definition count_of (w : WorkerState) (a : bytes) : Z := default 0 (n_instances <$> apps w !! a).

Lemma start_app_ok now a lim w app : worker_wf now w -> next_run_sn w < int_max U64 ->
  apps w !! a = Some app ->
  resizable (manifest app) = true \/ n_instances app = 0 \/ lim <> None ->
  exists sn w', start_app now a lim w = (Ok sn, w') /\ worker_wf now w' /\
    next_run_sn w' = next_run_sn w + 1 /\
    exists app', apps w' !! a = Some app' /\ manifest app' = manifest app /\
      n_instances app' = n_instances app + 1.
Proof.
  intros Hw Hmax Ha Hc.
  assert (exists sn w', start_app now a lim w = (Ok sn, w')) as (sn & w' & Hs).
  { unfold start_app, get_app, put_app. m_unfold. rewrite Ha. simpl.
    assert (negb (resizable (manifest app)) && negb (size (instances app) =? 0)%nat &&
      match lim with None => true | Some _ => false end = false) as ->; [|eauto].
    destruct Hc as [-> |[Hc|Hc]]; [done| |destruct lim; [apply andb_false_r|done]].
    unfold n_instances in Hc. assert (size (instances app) = 0%nat) as -> by lia.
    by rewrite andb_false_r. }
  exists sn, w'. split; [done|].
  destruct (start_app_usage now a lim w sn w' Hw Hmax Hs) as (Hw' & Hn & _).
  split; [done|]. split; [lia|].
  apply start_app_count in Hs as (_ & _ & Hsn & app0 & Ha0 & Happs). simplify_eq.
  rewrite Happs, lookup_insert_eq. eexists. split; [done|]. split; [done|].
  rewrite n_instances_insert, decide_True; [done|].
  apply eq_None_not_Some. intros Hf. destruct (proj2 Hw _ _ Ha) as [_ Hfresh].
  specialize (Hfresh _ Hf). lia.
Qed.

Lemma start_many_ok now a lim n : forall w app, worker_wf now w ->
  next_run_sn w + Z.of_nat n <= int_max U64 -> apps w !! a = Some app ->
  resizable (manifest app) = true \/ lim <> None ->
  is_ok (start_many now a lim n w).1 = true /\
  count_of (start_many now a lim n w).2 a = n_instances app + Z.of_nat n.
Proof.
  induction n as [|n IH]; intros w app Hw Hmax Ha Hc; cbn [start_many].
  - simpl. unfold count_of. rewrite Ha. simpl. split; [done|lia].
  - destruct (start_app_ok now a lim w app) as (sn & w1 & Hs & Hw1 & Hn1 & app1 & Ha1 & Hm1 & Hc1);
      [done|lia|done|tauto|].
    rewrite (bind_Ok _ _ _ _ _ Hs).
    destruct (IH w1 app1) as [Hok Hcnt]; [done|lia|done|by rewrite Hm1|].
    m_unfold. destruct (start_many now a lim n w1) as [[l|e] w2]; simpl in *; [|done].
    split; [done|]. lia.
Qed.

Lemma start_app_refused now a w app : apps w !! a = Some app ->
  resizable (manifest app) = false -> n_instances app <> 0 ->
  start_app now a None w = (Err (Msg "Instance already started"), w).
Proof.
  intros Ha Hr Hn. unfold start_app, get_app. m_unfold. rewrite Ha. simpl. rewrite Hr.
  unfold n_instances in Hn. destruct (size (instances app)); done.
Qed.

(** The number of instances a plain resize from [current] to [count] leaves when
    [available] slots are free, and whether it succeeds. *)
Definition resized (resizable : bool) (current count available : Z) : bool * Z :=
  if count <=? current then (true, count)
  else if resizable then (true, Z.min count (current + available))
  else if available =? 0 then (true, current)
  else if current =? 0 then ((count =? 1) || (available =? 1), 1)
  else (false, current).

Lemma shrink_result now order a count w app : apps w !! a = Some app -> 0 <= count <= n_instances app ->
  is_ok (resize_app_instances now order a count None w).1 = true /\
  count_of (resize_app_instances now order a count None w).2 a = count.
Proof.
  intros Ha Hc. unfold resize_app_instances, get_app, put_app. m_unfold. rewrite Ha. simpl.
  destruct (Z.compare_spec (n_instances app) count) as [He|Hlt|Hgt]; simpl; [|lia|].
  - unfold count_of. rewrite Ha. done.
  - destruct (pop_many_spec now (Z.to_nat (n_instances app - count)) app)
      as (l & app' & Hp & Hn & _); [lia|]. rewrite Hp. simpl. unfold count_of. simpl.
    rewrite lookup_insert_eq. simpl. split; [done|]. lia.
Qed.

Lemma grow_unfold now order a count w app : apps w !! a = Some app -> n_instances app < count ->
  on_demand (manifest app) = false ->
  resize_app_instances now order a count None w =
    (created ← start_many now a None (Z.to_nat (Z.min (available_slots w) (count - n_instances app)));
     mret (created, [])) w.
Proof.
  intros Ha Hlt Hd. unfold resize_app_instances, get_app. m_unfold. rewrite Ha. simpl.
  apply Z.compare_lt_iff in Hlt. rewrite Hlt. simpl. by rewrite Hd.
Qed.

Lemma create_many now a w n : is_ok ((created ← start_many now a None n;
    mret (created, @nil Instance)) w).1 = is_ok (start_many now a None n w).1 /\
  ((created ← start_many now a None n; mret (created, @nil Instance)) w).2 =
    (start_many now a None n w).2.
Proof. m_unfold. by destruct (start_many now a None n w) as [[]]. Qed.

Lemma start_fixed now a n w app : worker_wf now w -> next_run_sn w < int_max U64 ->
  apps w !! a = Some app -> resizable (manifest app) = false ->
  is_ok (start_many now a None n w).1 =
    ((n =? 0)%nat || ((n =? 1)%nat && (n_instances app =? 0))) /\
  count_of (start_many now a None n w).2 a =
    (if (n =? 0)%nat || negb (n_instances app =? 0) then n_instances app else 1).
Proof.
  intros Hw Hmax Ha Hr. destruct n as [|n]; cbn [start_many].
  { simpl. unfold count_of. by rewrite Ha. }
  destruct (Z.eqb_spec (n_instances app) 0) as [H0|H0]; simpl.
  - destruct (start_app_ok now a None w app) as (sn & w1 & Hs & _ & _ & app1 & Ha1 & Hm1 & Hc1);
      [done|done|done|tauto|].
    rewrite (bind_Ok _ _ _ _ _ Hs). destruct n as [|n]; cbn [start_many].
    + simpl. unfold count_of. rewrite Ha1. simpl. split; [done|]. lia.
    + m_unfold. rewrite (start_app_refused now a w1 app1) by (congruence || lia). simpl.
      unfold count_of. rewrite Ha1. simpl. split; [done|]. lia.
  - rewrite (bind_Err _ _ _ _ _ (start_app_refused now a w app Ha Hr H0)). simpl.
    unfold count_of. rewrite Ha. by rewrite andb_false_r.
Qed.

(** C11: what a resize does to an app that is not started on demand: it always
    leaves the number of instances the specification [resized] gives.  A smaller
    number is always reached; a resizable app grows as far as the free slots
    allow; an app that is not resizable never gets a second instance: a request
    for more than one fails, and leaves the first instance running. *)
Theorem resize_result now order a count w app :
  worker_wf now w -> 0 <= max_instances (w_args w) ->
  next_run_sn w + max_instances (w_args w) < int_max U64 ->
  apps w !! a = Some app -> on_demand (manifest app) = false -> 0 <= count ->
  let s := resize_app_instances now order a count None w in
  (is_ok s.1, count_of s.2 a) =
    resized (resizable (manifest app)) (n_instances app) count (available_slots w).
Proof.
  intros Hw Hm Hsn Ha Hd Hc s. unfold resized.
  assert (0 <= n_instances app) by (unfold n_instances; lia).
  pose proof (available_le_max w Hm) as Hav.
  assert (0 <= available_slots w) by (unfold available_slots, sat_sub; lia).
  destruct (Z.leb_spec count (n_instances app)) as [Hle|Hlt].
  { destruct (shrink_result now order a count w app Ha ltac:(lia)) as [H1 H2]. subst s. by rewrite H1, H2. }
  subst s. rewrite (grow_unfold now order a count w app Ha Hlt Hd).
  destruct (create_many now a w (Z.to_nat (Z.min (available_slots w) (count - n_instances app)))) as [-> ->].
  destruct (resizable (manifest app)) eqn:Hr.
  - destruct (start_many_ok now a None (Z.to_nat (Z.min (available_slots w) (count - n_instances app)))
      w app) as [-> ->]; [done|lia|done|by left|]. f_equal. lia.
  - destruct (start_fixed now a (Z.to_nat (Z.min (available_slots w) (count - n_instances app)))
      w app) as [-> ->]; [done|lia|done|done|].
    repeat match goal with
    | |- context [(?x =? ?y)%nat] => destruct (Nat.eqb_spec x y)
    | |- context [?x =? ?y] => destruct (Z.eqb_spec x y)
    end; simpl; try done; try lia; f_equal; lia.
Qed.
Lemma resize_result_witness :
  let w := busy_worker true false 0 in
  let s := resize_app_instances 5 [] [1] 7 None w in
  (is_ok s.1, count_of s.2 [1]) = (true, 3).
Proof.
  apply (resize_result 5 [] [1] 7 (busy_worker true false 0) (busy_app true false 0));
    [apply busy_worker_wf|simpl; lia|vm_compute; reflexivity|reflexivity|reflexivity|lia].
Defined.

(** ** Locks *)
Inductive lock_op : Type := TryLock (path : bytes) | Unlock (path : bytes).
Definition lock_step (op : lock_op) (locks : gset bytes) : bool * gset bytes :=
  match op with TryLock p => try_lock p locks | Unlock p => unlock p locks end.

(** The locks after some calls, and how many more times [p] was granted than
    released. *)
Fixpoint lock_run (p : bytes) (ops : list lock_op) (locks : gset bytes) : gset bytes * Z :=
  match ops with
  | [] => (locks, 0)
  | op :: ops =>
    let '(res, locks) := lock_step op locks in
    let '(locks, n) := lock_run p ops locks in
    (locks, n + match op with
                | TryLock q => if res && bool_decide (p = q) then 1 else 0
                | Unlock q => if res && bool_decide (p = q) then -1 else 0
                end)
  end.

Definition held (p : bytes) (locks : gset bytes) : Z := if decide (p ∈ locks) then 1 else 0.

Lemma lock_step_held p op locks :
  held p (lock_step op locks).2 = held p locks +
    match op with
    | TryLock q => if (lock_step op locks).1 && bool_decide (p = q) then 1 else 0
    | Unlock q => if (lock_step op locks).1 && bool_decide (p = q) then -1 else 0
    end.
Proof.
  unfold held. destruct op as [q|q]; simpl; unfold try_lock, unlock.
  - destruct (64 <? zlen q); simpl; [lia|]. destruct (64 <? _); simpl; [lia|].
    case_bool_decide as Hq; simpl; [lia|].
    case_bool_decide; subst; repeat case_decide; set_solver by lia.
  - simpl. repeat case_bool_decide; simpl; repeat case_decide; set_solver by lia.
Qed.

Lemma lock_step_size op locks : (size locks <= 65)%nat -> (size (lock_step op locks).2 <= 65)%nat.
Proof.
  intros Hs. destruct op as [q|q]; simpl.
  - unfold try_lock. destruct (64 <? zlen q); [done|].
    destruct (Z.ltb_spec 64 (Z.of_nat (size locks))); [done|].
    case_bool_decide; [done|]. simpl. rewrite size_union by set_solver. rewrite size_singleton. lia.
  - simpl. transitivity (size locks); [|done]. apply subseteq_size. set_solver.
Qed.

(** The named locks of an instance exclude each other: after any sequence of
    calls from the empty set, each path has been granted as often as released, or
    once more, which is when it is held, so that no path is granted twice without
    a release in between; and at most 65 are held. *)
Theorem locks_exclusive p ops :
  let '(locks, n) := lock_run p ops ∅ in
  n = held p locks /\ (size locks <= 65)%nat.
Proof.
  assert (H : forall locks, (size locks <= 65)%nat ->
    (lock_run p ops locks).2 = held p (lock_run p ops locks).1 - held p locks /\
    (size (lock_run p ops locks).1 <= 65)%nat).
  { induction ops as [|op ops IH]; intros locks Hs; cbn [lock_run]; [simpl; split; [lia|done]|].
    pose proof (lock_step_held p op locks) as Hh. pose proof (lock_step_size op locks Hs) as Hs'.
    destruct (lock_step op locks) as [res l1]; cbn [fst snd] in *.
    destruct (IH l1 Hs') as [Hn Hb]. destruct (lock_run p ops l1) as [l2 n]; cbn [fst snd] in *.
    split; [|done]. destruct op; lia. }
  specialize (H ∅). destruct (lock_run p ops ∅) as [l n]; cbn [fst snd] in *.
  destruct H as [Hn Hb]; [rewrite size_empty; lia|]. split; [|done].
  rewrite Hn. unfold held at 2. rewrite decide_False by set_solver. lia.
Qed.

(** ** Metrics tokens *)

(** Whatever happens to the worker between two reports, in the same session. *)
Definition is_init (op : worker_op) : bool := match op with OpInit _ _ _ _ => true | _ => false end.

Definition token_at (s : option bytes) (n : Z) (w : WorkerState) : Prop :=
  session w = s /\ metrics_sn w = n.

Lemma put_app_token s n a app : preserves (token_at s n) (put_app a app).
Proof. by intros w. Qed.
Lemma modify_apps_token s n f : preserves (token_at s n) (modify (E:=anyhow) (fun w => set_apps w (f w))).
Proof. by intros w. Qed.
#[local] Hint Resolve put_app_token modify_apps_token : wapo.

Lemma start_app_token s n now a lim : preserves (token_at s n) (start_app now a lim).
Proof. unfold start_app. preserve. by intros w. Qed.
#[local] Hint Resolve start_app_token : wapo.
Lemma start_many_token s n now a lim k : preserves (token_at s n) (start_many now a lim k).
Proof. induction k; cbn [start_many]; preserve. Qed.
Lemma evict_token s n now order : preserves (token_at s n) (evict now order).
Proof.
  induction order as [|a order IH]; intros w Hw; cbn [evict]; [done|]. repeat case_match; auto.
Qed.
#[local] Hint Resolve start_many_token evict_token : wapo.
Lemma resize_token s n now order a count tmo :
  preserves (token_at s n) (resize_app_instances now order a count tmo).
Proof. unfold resize_app_instances, reserve_slot_if_needed. preserve. Qed.
#[local] Hint Resolve resize_token : wapo.

Lemma worker_step_token s n w op : token_at s n w -> is_init op = false ->
  token_at s (match op with OpBumpSn => wrap U64 (n + 1) | _ => n end) (worker_step w op).
Proof.
  intros Hw Hi. destruct op; simpl; try done.
  - revert w Hw. change (preserves (token_at s n)
      (lift (check_manifest size_hint m);; insert_app now address rnd m auto_restart reuse)).
    unfold insert_app. preserve. by intros w.
  - revert w Hw. change (preserves (token_at s n)
      (deploy_app now order size_hint address rnd m auto_restart reuse started0)).
    unfold deploy_app, insert_app. preserve. by intros w.
  - by apply resize_token.
  - revert w Hw. change (preserves (token_at s n) (try_inc_instances now order address)).
    unfold try_inc_instances. preserve.
  - revert w Hw. change (preserves (token_at s n) (begin_query address query_size)).
    unfold begin_query. preserve.
  - revert w Hw. change (preserves (token_at s n) (end_query now address instance)).
    unfold end_query. preserve.
  - unfold instance_stopped. repeat case_match; done.
  - revert w Hw. change (preserves (token_at s n) (remove_app address)).
    unfold remove_app. preserve.
  - destruct Hw as [<- <-]. done.
  - unfold set_vm_meter. repeat case_match; done.
Qed.

Lemma worker_run_token ops : forall w, Forall (fun op => is_init op = false) ops ->
  0 <= metrics_sn w -> metrics_sn w + zlen ops <= int_max U64 ->
  let w' := foldl worker_step w ops in
  session w' = session w /\ metrics_sn w <= metrics_sn w' <= metrics_sn w + zlen ops.
Proof.
  induction ops as [|op ops IH]; intros w Hops H0 Hmax; cbn [foldl]; [rewrite zlen_nil; split; [done|lia]|].
  apply Forall_cons_1 in Hops as [Hop Hops]. rewrite zlen_cons in *. pose proof (zlen_nonneg ops).
  destruct (worker_step_token (session w) (metrics_sn w) w op) as [Hs Hn]; [done|done|].
  assert (Hw1 : metrics_sn w <= metrics_sn (worker_step w op) <= metrics_sn w + 1).
  { rewrite Hn. destruct op; try lia. rewrite wrap_id; [lia|]. apply in_range_spec.
    unfold int_min. simpl. lia. }
  destruct (IH (worker_step w op)) as [Hs' Hn']; [done|lia|lia|]. split; [congruence|lia].
Qed.

(** The tokens that accompany metrics are ordered: of two reports, for any
    two apps, with anything but a new session in between, the later one has the
    same session and a larger serial number, so a stale report is recognised. *)
Theorem tokens_increase t1 a1 n1 t2 a2 n2 ops w :
  Forall (fun op => is_init op = false) ops ->
  0 <= metrics_sn w -> metrics_sn w + zlen ops + 2 <= int_max U64 ->
  let '(r1, w1) := app_metrics_call t1 a1 n1 w in
  let '(r2, w2) := app_metrics_call t2 a2 n2 (foldl worker_step w1 ops) in
  exists m1 k1 m2 k2, r1 = Ok (m1, k1) /\ r2 = Ok (m2, k2) /\
    m1 = usage t1 w a1 /\ mt_session k1 = mt_session k2 /\ mt_sn k1 < mt_sn k2.
Proof.
  intros Hops H0 Hmax. pose proof (zlen_nonneg ops).
  assert (Hwrap : forall z, 0 <= z <= int_max U64 -> wrap U64 z = z).
  { intros z Hz. apply wrap_id, in_range_spec. unfold int_min. simpl. lia. }
  unfold app_metrics_call, bump_metrics_sn. m_unfold. cbn [metrics_sn session apps fst snd].
  set (w1 := MkWorker _ _ _ _ _ _ _ _).
  destruct (worker_run_token ops w1) as [Hs Hn]; [done| | |].
  { subst w1. cbn [metrics_sn]. rewrite Hwrap; lia. }
  { subst w1. cbn [metrics_sn]. rewrite Hwrap; lia. }
  do 4 eexists. split; [done|]. split; [done|]. split; [done|]. cbn [mt_session mt_sn].
  rewrite Hs. split; [done|]. subst w1. cbn [metrics_sn] in *. rewrite (Hwrap (metrics_sn w + 1)) in * by lia.
  rewrite Hwrap; lia.
Qed.
Lemma tokens_increase_witness :
  let '(r1, w1) := app_metrics_call 1 [1] [] private_worker in
  let '(r2, w2) := app_metrics_call 2 [1] [] (foldl worker_step w1 [OpBumpSn; OpClear]) in
  exists m1 k1 m2 k2, r1 = Ok (m1, k1) /\ r2 = Ok (m2, k2) /\
    m1 = usage 1 private_worker [1] /\ mt_session k1 = mt_session k2 /\ mt_sn k1 < mt_sn k2.
Proof.
  apply (tokens_increase 1 [1] [] 2 [1] [] [OpBumpSn; OpClear] private_worker);
    [|vm_compute; discriminate..].
  apply Forall_cons_2; [reflexivity|]. apply Forall_cons_2; [reflexivity|]. apply Forall_nil_2.
Defined.
