(* ===== verification/Launch.v ===== *)
(** * Starting a worker (wapod/src/bin/args/mod.rs, wapod.rs; wapod/src/state.rs, config.rs; wapo-host/src/service.rs)

    From the command line to a running worker: port ranges, the check of the
    number of instances against the size of the enclave, the creation of the
    directories, of the service with its engine and memory pool, and of the worker's
    state; and the report a running worker gives of itself. *)
From S2P Require Import Prelude Ordered ArgsStack Meter Blobs LinearMemory ModuleLoader Run TcpAcl Service Worker.

(** ** Numbers and ranges as text *)

(** [str::parse] of an unsigned integer: an optional plus sign, digits, and no
    overflow. *)
Definition parse_digits (t : int_ty) (s : bytes) : option Z :=
  match read_digits 10 s with
  | (d :: ds, []) => let v := foldl (fun n d => n * 10 + d) 0 (d :: ds) in if in_range t v then Some v else None
  | _ => None
  end.
Definition parse_uint (t : int_ty) (s : bytes) : option Z :=
  match s with
  | 43 :: s => parse_digits t s
  | _ => parse_digits t s
  end.

(** The text before a separator, and what follows it. *)
Fixpoint split_at (sep s : bytes) : bytes * option bytes :=
  match strip_prefix sep s with
  | Some rest => ([], Some rest)
  | None =>
    match s with
    | [] => ([], None)
    | c :: s => let '(a, r) := split_at sep s in (c :: a, r)
    end
  end.

(** The first two items of [input.split("..")]; more are ignored. *)
Definition parse_port_range (input : bytes) : result anyhow (Z * Z) :=
  if bool_decide (input = lit "none") then Ok (1, 0) else
  let '(first, rest) := split_at (lit "..") input in
  start ← ok_or (parse_uint U16 first) (Msg "invalid port range");
  rest ← ok_or rest (Msg "invalid port range");
  end_ ← ok_or (parse_uint U16 (split_at (lit "..") rest).1) (Msg "invalid port range");
  if end_ <? start then Err (Msg "invalid port range") else Ok (start, end_).

(** ** Arguments *)
Record Args : Type := MkCliArgs {
  a_instance_memory_size : Z;
  a_max_instances : Z;
  a_admin_port : option Z;
  a_admin_api_token : bytes;
  a_user_port : option Z;
  a_module_cache_size : Z;
  a_no_mem_pool : bool;
  a_tcp_listen_port_range : option (Z * Z);
  a_tls_port : option Z;
  a_do_not_verify_tls_server_cert : bool;
  a_on_demand_instance_time_secs : Z
}.
(** [WorkerArgs]; the part that the operations of the worker look at is a record of
    its own.  Times are in milliseconds. *)
Record StartArgs : Type := MkStartArgs {
  sa_worker : WorkerArgs;
  module_cache_size : Z;
  no_mem_pool : bool;
  use_winch : bool;
  listen_port_range : Z * Z;
  tls_port : option Z;
  verify_tls_server_cert : bool
}.
Definition WorkerArgs_from (a : Args) : StartArgs :=
  let empty := (1, 0) in
  MkStartArgs (MkArgs (a_instance_memory_size a) (a_max_instances a) (a_on_demand_instance_time_secs a * 1000))
    (a_module_cache_size a) (a_no_mem_pool a) false (default empty (a_tcp_listen_port_range a)) (a_tls_port a)
    (negb (a_do_not_verify_tls_server_cert a)).

Section Validate.
(** The environment, and the crate parse_size with binary units. *)
Context (env : bytes -> option bytes) (parse_size : bytes -> option Z).

(** An invalid value is a panic. *)
Definition enclave_size : result string (option Z) :=
  match env (lit "WAPOD_ENCLAVE_SIZE") with
  | None => Ok None
  | Some text => Some <$> ok_or (parse_size text) "invalid value of WAPOD_ENCLAVE_SIZE"
  end.

Definition est_sys_overhead : Z := 1024 * 1024 * 256.
Definition est_vm_overhead : Z := 1024 * 1024.
Definition max_allowed_instances (a : Args) : result string (option Z) :=
  enclave ← (enclave_size : result string (option Z));
  Ok ((fun size : Z =>
         let memory_per_vm := sat_add U64 (a_instance_memory_size a) est_vm_overhead in
         sat_sub size est_sys_overhead `div` memory_per_vm) <$> (enclave : option Z)).
(** [validate]: the outer result is a panic, the inner one the outcome. *)
Definition validate_args (a : Args) : result string (result anyhow unit) :=
  allowed ← (max_allowed_instances a : result string (option Z));
  Ok (match allowed with
      | None => Ok tt
      | Some allowed => if allowed <? a_max_instances a then Err (Msg "max_instances is too large") else Ok tt
      end).
End Validate.

(** ** The service (service.rs) *)
Record ServiceHandle (WasmModule : Type) : Type := MkHandle {
  worker_threads : Z;
  svc_pool : MemoryPool;
  svc_loader : Loader (WasmModule := WasmModule);
  winch : bool
}.
Arguments MkHandle {WasmModule} _ _ _ _.
Arguments worker_threads {WasmModule} _.
Arguments svc_pool {WasmModule} _.
Arguments svc_loader {WasmModule} _.
Arguments winch {WasmModule} _.

(** [service]: the outcomes of building the tokio runtime, the engine and its
    ticking thread are parameters. *)
Definition service {WasmModule : Type} (runtime created ticking : result anyhow unit)
  (threads module_cache mem_limit mem_pool_size : Z) (use_winch : bool) : result anyhow (ServiceHandle WasmModule) :=
  let worker_threads := Z.max threads 1 in
  context "failed to create tokio runtime" runtime;;
  pool ← context "failed to create Wasm engine" (engine_new created ticking 10 mem_limit mem_pool_size);
  Ok (MkHandle (wrap U64 (worker_threads + 2)) pool (loader_new (Z.to_nat module_cache)) use_winch).

(** ** The worker (state.rs) *)
Record Launched (WasmModule : Type) : Type := MkLaunched {
  l_state : WorkerState;
  l_service : ServiceHandle WasmModule;
  l_start : StartArgs;
  (** the port of the listener by server name *)
  l_sni_port : option Z;
  l_filter : list bytes
}.
Arguments MkLaunched {WasmModule} _ _ _ _ _.
Arguments l_state {WasmModule} _.
Arguments l_service {WasmModule} _.
Arguments l_start {WasmModule} _.
Arguments l_sni_port {WasmModule} _.
Arguments l_filter {WasmModule} _.

(** [Worker::create_running] and [Worker::new]; [bound] is the outcome of binding the
    listener, [blacklist] what the configuration has under tcp_connect_blacklist. *)
Definition create_running {WasmModule : Type} (bound runtime created ticking : result anyhow unit)
  (blacklist : option (list bytes)) (a : StartArgs) : result anyhow (Launched WasmModule) :=
  let n_threads := sat_add U64 (max_instances (sa_worker a)) 2 in
  max_memory ← (if in_range U64 (instance_memory_size (sa_worker a)) then Ok (instance_memory_size (sa_worker a))
                else Err (Msg "invalid memory size"));
  sni ← match tls_port a with
        | Some port => context "failed to bind sni tls listener" bound;; Ok (Some port)
        | None => Ok None
        end;
  svc ← context "failed to create service"
    (service runtime created ticking n_threads (module_cache_size a) max_memory
       (if no_mem_pool a then 0 else max_instances (sa_worker a)) (use_winch a));
  Ok (MkLaunched (worker_new (sa_worker a)) svc a sni (default [] blacklist)).

(** ** Directories (config.rs) *)
Definition join_path (base name : bytes) : bytes :=
  if bool_decide (last base = Some 47) then base ++ name else base ++ 47 :: name.
Section Paths.
Context (env : bytes -> option bytes).
Definition data_dir : bytes := default (lit "./data/") (env (lit "WAPOD_DATA_DIR")).
Definition storage_dir : bytes := join_path data_dir (lit "storage_files").
Definition blobs_dir : bytes := join_path storage_dir (lit "blobs").
Definition secret_data_dir : bytes := join_path data_dir (lit "protected_files").
(** The directories that exist, and the outcome of creating each. *)
Definition create_dirs_if_needed (create : bytes -> result anyhow unit) : M (list bytes) anyhow unit :=
  let make dir := lift (context "failed to create data directory" (create dir));; modify (cons dir) in
  make secret_data_dir;; make storage_dir;; make blobs_dir.
End Paths.

(** ** The start of the process (wapod.rs) *)

(** Up to the running worker; the servers are started after it.  A panic is an
    error of the outer result; [provider] and [key] are the outcomes of installing
    the crypto provider and of getting the worker's key. *)
Definition start {WasmModule : Type} (env : bytes -> option bytes) (parse_size : bytes -> option Z)
  (provider key : result string unit) (create : bytes -> result anyhow unit)
  (bound runtime created ticking : result anyhow unit)
  (blacklist : option (list bytes)) (a : Args) : result string (result anyhow (Launched WasmModule)) :=
  provider;;
  valid ← validate_args env parse_size a;
  match context "invalid args" valid;;
        context "failed to create directories" (create_dirs_if_needed env create []).1 with
  | Err e => Ok (Err e)
  | Ok _ =>
    key;;
    Ok (context "failed to create worker state"
          (create_running bound runtime created ticking blacklist (WorkerArgs_from a)))
  end.

(** ** The report of a worker (state.rs [info]) *)
Record ModuleLoaderInfo : Type := MkLoaderInfo {
  li_max_compilation_tasks : Z;
  li_queue_cap : Z;
  li_queue_used : Z;
  li_cache_cap : Z;
  li_cache_used : Z;
  li_compiling_handles_len : Z;
  li_compiling_tasks : Z
}.
(** [mem_usage] (allocator.rs): the allocator's figures, and those of the system; a
    line of a status file gives a number of KiB. *)
Record MemoryUsage : Type := MkMemory {
  mu_rust_used : Z; mu_rust_peak : Z; mu_rust_spike : Z; mu_peak : Z; mu_free : Z; mu_used : Z
}.
Definition is_ascii_whitespace (c : Z) : bool := (c =? 32) || (c =? 9) || (c =? 10) || (c =? 12) || (c =? 13).
Fixpoint split_ascii_whitespace (word s : bytes) : list bytes :=
  match s with
  | [] => match word with [] => [] | _ => [word] end
  | c :: s =>
    if is_ascii_whitespace c then match word with [] => [] | _ => [word] end ++ split_ascii_whitespace [] s
    else split_ascii_whitespace (word ++ [c]) s
  end.
(** [vm_peak] for "VmPeak:" and [mem_free] for "MemFree:", on the lines of the file, if
    it can be read; the product wraps around at 64 bits. *)
Fixpoint status_field (prefix : bytes) (lines : list bytes) : option Z :=
  match lines with
  | [] => None
  | line :: lines =>
    match strip_prefix prefix line with
    | Some _ => word ← split_ascii_whitespace [] line !! 1%nat; n ← parse_uint U64 word; Some (wrap U64 (n * 1024))
    | None => status_field prefix lines
    end
  end.
Definition mem_usage (stats : Z * Z * Z) (status meminfo : option (list bytes)) (physical : option Z) : MemoryUsage :=
  MkMemory stats.1.1 stats.1.2 stats.2 (default 0 (status ≫= status_field (lit "VmPeak:")))
    (default 0 (meminfo ≫= status_field (lit "MemFree:"))) (default 0 physical).
Record WorkerReport : Type := MkReport {
  wr_pubkey : bytes;
  wr_deployed_apps : Z;
  wr_running_instances : Z;
  wr_max_instances : Z;
  wr_instance_memory_size : Z;
  wr_session : bytes;
  wr_memory_usage : option MemoryUsage;
  wr_module_loader_info : option ModuleLoaderInfo;
  wr_vm_instances : Z;
  wr_tcp_listen_port_range : option (Z * Z);
  wr_bench_app_address : bytes;
  wr_bench_app_instances : Z
}.
(** [ModuleLoader::info]. *)
Definition loader_info {WasmModule : Type} (l : Loader (WasmModule := WasmModule)) : ModuleLoaderInfo :=
  MkLoaderInfo 2 128 (zlen (ml_queue l)) (Z.of_nat (cache_cap l)) (zlen (ml_cache l))
    (Z.of_nat (size (compiling l))) (compiling_tasks l).
(** [Worker::info]; [pubkey], [memory] and [vms], the number of contexts that are alive, come
    from elsewhere.  An empty port range is reported as no text, another one as
    "start-end". *)
Definition worker_info {WasmModule : Type} (admin : bool) (pubkey : bytes) (memory : MemoryUsage) (vms : Z)
  (l : Loader (WasmModule := WasmModule)) (range : Z * Z) (w : WorkerState) : WorkerReport :=
  MkReport pubkey (Z.of_nat (size (apps w))) (running_instances w) (wrap U64 (max_instances (w_args w)))
    (instance_memory_size (w_args w)) (default [] (session w))
    (Some memory) (if admin then Some (loader_info l) else None) vms
    (if range.2 <? range.1 then None else Some range)
    (default [] (bench_app w)) (bench_instances w).

(** ** Sanitized logs (logger/mod.rs) *)

(** With sanitized logs, whether an event of a target is written. *)
Inductive MatchMode : Type := Prefix | Eq.
Definition whitelist : list (bytes * MatchMode) :=
  [(lit "wapo", Prefix); (lit "rocket::launch", Prefix); (lit "rocket::server", Eq); (lit "prpc_measuring", Eq)].
Definition rule_matches (target : bytes) (rule : bytes * MatchMode) : bool :=
  match rule.2 with
  | Prefix => bool_decide (is_Some (strip_prefix rule.1 target))
  | Eq => bool_decide (rule.1 = target)
  end.
Definition target_allowed (target : bytes) : bool := existsb (rule_matches target) whitelist.
(** [SanitizedFilter] over the filter of the environment. *)
Definition sanitized_enabled (inner : bytes -> bool) (target : bytes) : bool :=
  if negb (target_allowed target) then false else inner target.
(** [init]: the filter in use. *)
Definition log_enabled (env : bytes -> option bytes) (inner : bytes -> bool) (target : bytes) : bool :=
  if bool_decide (env (lit "RUST_LOG_SANITIZED") = Some (lit "true")) then sanitized_enabled inner target else inner target.

(** ** What holds of a started worker *)

Lemma parse_digits_range t s v : parse_digits t s = Some v -> in_range t v = true.
Proof.
  unfold parse_digits. destruct (read_digits 10 s) as [[|d ds] [|]]; try done.
  cbv zeta. destruct (in_range t _) eqn:Hr; [|done]. by intros [= <-].
Qed.
Lemma parse_uint_range t s v : parse_uint t s = Some v -> in_range t v = true.
Proof. unfold parse_uint. destruct s as [|c s]; [|destruct (decide (c = 43)) as [-> |]]; try apply parse_digits_range.
  repeat (case_match; try apply parse_digits_range). Qed.

(** A port range from the command line is empty in one way only, and never
    inverted otherwise. *)
Lemma port_range_ok s a b : parse_port_range s = Ok (a, b) -> (a, b) = (1, 0) \/ 0 <= a <= b /\ b < 65536.
Proof.
  unfold parse_port_range. case_bool_decide; [intros [= <- <-]; by left|].
  destruct (split_at _ s) as [first rest]. destruct (parse_uint U16 first) as [x|] eqn:Hx; [|done].
  destruct rest as [rest|]; [|done]. simpl.
  destruct (parse_uint U16 (split_at _ rest).1) as [y|] eqn:Hy; [|done]. simpl.
  destruct (Z.ltb_spec y x); [done|]. intros [= <- <-]. right.
  apply parse_uint_range, in_range_spec in Hx. apply parse_uint_range, in_range_spec in Hy.
  const_bounds. lia.
Qed.

(** The number of allowed instances fits in the enclave. *)
Lemma allowed_fits size mem n : 0 <= mem -> n <= sat_sub size est_sys_overhead `div` sat_add U64 mem est_vm_overhead ->
  mem + est_vm_overhead <= int_max U64 -> n * (mem + est_vm_overhead) <= sat_sub size est_sys_overhead.
Proof.
  intros Hm Hn Hfit. unfold sat_add in Hn. rewrite Z.min_l in Hn by done.
  assert (0 < mem + est_vm_overhead) by (unfold est_vm_overhead; lia).
  pose proof (Z.mul_div_le (sat_sub size est_sys_overhead) (mem + est_vm_overhead)). nia.
Qed.

Lemma sum_lengths_replicate {A} n (x : list A) : sum_list_with length (replicate n x) = (n * length x)%nat.
Proof. induction n as [|n IH]; simpl; [done|]. by rewrite IH. Qed.

(** Creating a worker: its state, its pool and its limits. *)
Lemma create_running_ok {WasmModule} bound runtime created ticking bl a (l : Launched WasmModule) :
  create_running bound runtime created ticking bl a = Ok l ->
  l_state l = worker_new (sa_worker a) /\ instance_memory_size (sa_worker a) <= int_max U32 /\
  svc_pool (l_service l) = pool_new (instance_memory_size (sa_worker a))
    (if no_mem_pool a then 0 else max_instances (sa_worker a)).
Proof.
  unfold create_running. destruct (in_range U64 _); [|done]. simpl.
  destruct (tls_port a); simpl; [destruct bound; [|done]; simpl|].
  all: unfold service, engine_new; destruct runtime; [|done]; simpl.
  all: destruct (Z.ltb_spec (int_max U32) (instance_memory_size (sa_worker a))); [done|]; simpl.
  all: destruct created; [|done]; simpl; destruct ticking; [|done]; simpl; by intros [= <-].
Qed.

(** C28: the enclave is large enough.  When the size of the enclave is set and the
    start succeeds, then in every state that the worker reaches, by any
    interleaving of its operations, the memory limits of the registered instances
    with their overhead fit into the enclave beside the overhead of the system,
    and so do the buffers that the memory pool holds from the start. *)
Theorem enclave_not_exceeded {WasmModule} env parse_size provider key create bound runtime created ticking bl a text size
  (l : Launched WasmModule) ops :
  0 <= a_max_instances a -> 0 <= a_instance_memory_size a ->
  env (lit "WAPOD_ENCLAVE_SIZE") = Some text -> parse_size text = Some size ->
  start env parse_size provider key create bound runtime created ticking bl a = Ok (Ok l) ->
  let w := foldl worker_step (l_state l) ops in
  let p := svc_pool (l_service l) in
  running_instances w * (a_instance_memory_size a + est_vm_overhead) <= sat_sub size est_sys_overhead /\
  pool_limit p = a_instance_memory_size a /\
  Z.of_nat (sum_list_with length (default [] (pool p))) <= sat_sub size est_sys_overhead.
Proof.
  intros Hn Hm He Hs. unfold start, validate_args, max_allowed_instances, enclave_size. rewrite He.
  destruct provider; [|done]. simpl. rewrite Hs. simpl.
  destruct (Z.ltb_spec (sat_sub size est_sys_overhead `div` sat_add U64 (a_instance_memory_size a) est_vm_overhead)
    (a_max_instances a)) as [|Hle]; [done|]. simpl.
  destruct (context "failed to create directories" _); [|done]. simpl. destruct key; [|done]. simpl.
  destruct (create_running _ _ _ _ _ _) as [l'|] eqn:Hc; [|done]. simpl. intros [= ->].
  apply create_running_ok in Hc as (Hw & Hlim & Hp). simpl in Hlim, Hp.
  assert (Hfit : a_instance_memory_size a + est_vm_overhead <= int_max U64).
  { unfold est_vm_overhead. const_bounds. lia. }
  pose proof (allowed_fits _ _ _ Hm Hle Hfit) as Hall.
  rewrite Hw, Hp. cbv zeta. split; [|split; [done|]].
  - destruct (worker_run_cap (sa_worker (WorkerArgs_from a)) ops Hn) as [Ha Hcap].
    unfold cap_ok in Hcap. rewrite Ha in Hcap. simpl in Hcap |- *. unfold est_vm_overhead in *. nia.
  - unfold pool_new. simpl. destruct (a_no_mem_pool a); simpl; [unfold sat_sub; lia|].
    destruct (Z.ltb_spec 0 (a_max_instances a)); simpl; [|unfold sat_sub; lia].
    rewrite sum_lengths_replicate. unfold zeros. rewrite length_replicate, Nat2Z.inj_mul, !Z2Nat.id by lia.
    unfold est_vm_overhead in *. nia.
Qed.

(** A worker of three instances of 64 MiB in an enclave of 1 GiB, and one that
    would need more. *)
Definition toy_args (n : Z) : Args := MkCliArgs (64 * 1024 * 1024) n None [] None 16 true (Some (1000, 2000)) None false 60.
Definition toy_start (n : Z) : result string (result anyhow (Launched unit)) :=
  start (fun _ => Some [1]) (fun _ => Some (1024 * 1024 * 1024)) (Ok tt) (Ok tt) (fun _ => Ok tt) (Ok tt) (Ok tt) (Ok tt)
    (Ok tt) None (toy_args n).
Lemma enclave_not_exceeded_witness :
  toy_start 12 = Ok (Err (Ctx "invalid args" (Msg "max_instances is too large"))) /\
  match toy_start 3 with
  | Ok (Ok l) =>
    let w := foldl worker_step (l_state l)
      [OpDeploy 0 [] 0 [1] [7] (manifest0 false true) false true (Ok tt); OpResize 1 [[1]] [1] 9 None] in
    running_instances w = 3 /\ running_instances w * (64 * 1024 * 1024 + est_vm_overhead) <= 768 * 1024 * 1024
  | _ => False
  end.
Proof.
  split; [vm_compute; reflexivity|].
  destruct (toy_start 3) as [[l|]|] eqn:Hs; try (vm_compute in Hs; discriminate).
  pose proof (enclave_not_exceeded (fun _ => Some [1]) (fun _ => Some (1024 * 1024 * 1024)) (Ok tt) (Ok tt)
    (fun _ => Ok tt) (Ok tt) (Ok tt) (Ok tt) (Ok tt) None (toy_args 3) [1] (1024 * 1024 * 1024) l
    [OpDeploy 0 [] 0 [1] [7] (manifest0 false true) false true (Ok tt); OpResize 1 [[1]] [1] 9 None]
    ltac:(simpl; lia) ltac:(simpl; lia) eq_refl eq_refl Hs) as [Hb _].
  split; [|exact Hb]. assert (Hl : l_state l = worker_new (MkArgs (64 * 1024 * 1024) 3 60000)).
  { vm_compute in Hs. injection Hs as <-. reflexivity. }
  rewrite Hl. vm_compute. reflexivity.
Defined.
Example port_ranges :
  parse_port_range <$> [lit "none"; lit "1000..2000"; lit "+1..1..9"; lit "2..1"; lit "1...5"; lit "1..65536"] =
  [Ok (1, 0); Ok (1000, 2000); Ok (1, 1); Err (Msg "invalid port range"); Err (Msg "invalid port range");
   Err (Msg "invalid port range")].
Proof. vm_compute. reflexivity. Qed.
Example status_lines :
  status_field (lit "VmPeak:") [lit "Name: wapod"; lit "VmPeak:    2048 kB"; lit "VmPeak: 1"] = Some 2097152 /\
  status_field (lit "VmPeak:") [lit "VmPeak: x"; lit "VmPeak: 1"] = None.
Proof. vm_compute. by split. Qed.
Example sanitized_targets :
  target_allowed <$> [lit "wapod::state"; lit "rocket::launch_"; lit "rocket::server::x"; lit "hyper"] =
  [true; true; false; false].
Proof. vm_compute. reflexivity. Qed.
