(* ===== verification/Runner.v ===== *)
(** * The stand-alone runner (wapo-run/src/main.rs)

    One program run without a service: arguments and environment variables of the
    guest, engine, module and instance as Run models them, an optional kill timer
    that stops the meter, and what is printed in the end. *)
From S2P Require Import Prelude OcallError ArgsStack Ocall OcallDef Meter Resource HostTasks GuestTasks Blobs VmContext VmFacts LinearMemory Run TcpAcl Launch.

Inductive Compiler : Type := CompilerAuto | CompilerCranelift | CompilerWinch.
Inductive Strategy : Type := StrategyAuto | StrategyCranelift | StrategyWinch.
Definition Strategy_from (c : Compiler) : Strategy :=
  match c with
  | CompilerAuto => StrategyAuto
  | CompilerCranelift => StrategyCranelift
  | CompilerWinch => StrategyWinch
  end.

Record RunArgs : Type := MkRunArgs {
  ru_max_memory_pages : Z;
  ru_decode_js_value : bool;
  ru_kill_timeout : option Z;
  ru_tls_port : option Z;
  ru_tick_time_ms : Z;
  ru_epoch_deadline : Z;
  ru_verify_tls_server_cert : bool;
  ru_compiler : Compiler;
  ru_envs : list bytes;
  ru_program : bytes;
  ru_args : list bytes
}.

(** ** Arguments and environment of the guest *)

(** [s.splitn(2, '=')]. *)
Definition runner_env (s : bytes) : bytes * bytes := let '(key, value) := split_at (lit "=") s in (key, default [] value).
Section Files.
(** Reading a file as text. *)
Context (read_to_string : bytes -> result anyhow bytes).
(** An argument that starts with ['@'] is the contents of a file. *)
Definition runner_arg (s : bytes) : result anyhow bytes :=
  match s with
  | 64 :: file => context "failed to read file" (read_to_string file)
  | _ => Ok s
  end.
Definition runner_args (program : bytes) (args : list bytes) : result anyhow (list bytes) :=
  foldr (fun s r => a ← runner_arg s; l ← r; Ok (a :: l)) (Ok []) (program :: args).
(** The limit of the engine's memories, as a 32-bit product that saturates. *)
Definition runner_mem_limit (pages : Z) : Z := sat_mul U32 pages (64 * 1024).

Lemma split_at_cons c (s : bytes) : c <> 61 ->
  split_at (lit "=") (c :: s) = let '(a, r) := split_at (lit "=") s in (c :: a, r).
Proof.
  intros Hc. change (lit "=") with [61]. cbn [split_at strip_prefix]. destruct (Z.eqb_spec 61 c); [congruence|done].
Qed.
Lemma split_at_eq k v : 61 ∉ k -> split_at (lit "=") (k ++ 61 :: v) = (k, Some v).
Proof.
  induction k as [|c k IH]; intros Hk; [by destruct v|].
  apply not_elem_of_cons in Hk as [Hc Hk]. cbn [app]. by rewrite split_at_cons, IH.
Qed.
Lemma split_at_none k : 61 ∉ k -> split_at (lit "=") k = (k, None).
Proof.
  induction k as [|c k IH]; intros Hk; [done|].
  apply not_elem_of_cons in Hk as [Hc Hk]. by rewrite split_at_cons, IH.
Qed.
(** A variable is split at its first equals sign; one without a sign is empty. *)
Lemma runner_env_spec k v : 61 ∉ k -> runner_env (k ++ 61 :: v) = (k, v) /\ runner_env k = (k, []).
Proof. intros Hk. unfold runner_env. by rewrite split_at_eq, split_at_none. Qed.
End Files.

(** ** The run *)
Section Run.
Context {W R : Type} `{Tokio W, !Host W, RuntimeCalls R, !Wasm (W := W) (R := R)} {S : Type} `{Scheduler S}.
(** Files; the outcome of compiling, of binding the listener and of linking, and of
    handing arguments and variables to WASI; and the end of the program, by itself or
    stopped by the kill timer, with its meter. *)
Context (read_file read_to_string : bytes -> result anyhow bytes) (created ticking linked : result anyhow unit)
  (compile : Strategy -> bytes -> result anyhow unit) (bind : Z -> bool -> result anyhow unit)
  (set_args : list bytes -> result anyhow unit) (set_envs : list (bytes * bytes) -> result anyhow unit) (calls : R)
  (awaited : option Z -> WasmRun -> result anyhow unit * Meter).

(** [InstanceConfig::builder]: no scheduler, weight 1, every port, an id of zeros. *)
Definition runner_config (a : RunArgs) (vm_args : list bytes) (vm_envs : list (bytes * bytes)) (agent : bool) : InstanceConfig R :=
  MkInstance (Arr (replicate 32 0)) (ru_max_memory_pages a) false 1 (ru_epoch_deadline a) calls None
    (MkConfig (0, 65535) agent) (set_args vm_args) (set_envs vm_envs).

(** [run]: an error of the program is only logged, and the output is always empty. *)
Definition runner_run (now : Z) (fs : Fs) (w : W) (sch : S) (a : RunArgs) : result anyhow (bytes * Meter) :=
  code ← read_file (ru_program a);
  context "failed to create Wasm engine" (engine_new created ticking (ru_tick_time_ms a) (runner_mem_limit (ru_max_memory_pages a)) 0);;
  compile (Strategy_from (ru_compiler a)) code;;
  let vm_envs := runner_env <$> ru_envs a in
  vm_args ← runner_args read_to_string (ru_program a) (ru_args a);
  agent ← match ru_tls_port a with
          | Some port => context "failed to bind sni tls listener" (bind port (ru_verify_tls_server_cert a));; Ok true
          | None => Ok false
          end;
  run ← context "failed to start the instance" (module_run linked now fs w (runner_config a vm_args vm_envs agent) sch).1;
  Ok ([], (awaited (ru_kill_timeout a) run).2).

(** [main]; [decode_js] is the decoder of the output, [show] what is printed. *)
Definition runner_main {V} (decode_js : bytes -> option V) (now : Z) (fs : Fs) (w : W) (sch : S) (a : RunArgs)
  : result anyhow (option V * bytes * Meter) :=
  '(output, m) ← runner_run now fs w sch a;
  if ru_decode_js_value a then
    v ← context "failed to decode JsValue" (ok_or (decode_js output) (Msg "decode error"));
    Ok (Some v, output, m)
  else Ok (None, output, m).

(** The output is never the program's: without decoding an empty output is printed, and
    decoding it always fails, as no value is encoded in no bytes. *)
Lemma runner_output {V} (decode_js : bytes -> option V) now fs w sch a : decode_js [] = None ->
  match runner_main decode_js now fs w sch a with
  | Ok (v, output, _) => ru_decode_js_value a = false /\ v = None /\ output = []
  | Err _ => True
  end.
Proof.
  intros Hd. unfold runner_main. destruct (runner_run now fs w sch a) as [[output m]|] eqn:Hr; simpl; [|done].
  assert (Ho : output = []).
  { unfold runner_run in Hr. repeat (match type of Hr with context [?m ≫= _] => destruct m; simpl in Hr; [|done] end).
    by injection Hr. }
  subst output. destruct (ru_decode_js_value a); simpl; [by rewrite Hd|done].
Qed.
End Run.
