(* ===== verification/QuerySignature.v ===== *)
(** * Signed queries (wapod-crypto/src/query_signature.rs, query_signature/eip712.rs,
      wapod-types/src/crypto/query.rs)

    A query carries a signature by a root key or by the key of a certificate; the
    worker derives the caller's account from it. *)
From stdpp Require Import pretty.
From S2P Require Import Prelude Blobs.

(** ** The data of a signed query *)
Record Query : Type := MkQuery { q_address : bytes; q_path : bytes; q_payload : bytes }.

Inductive SignatureType : Type :=
| Ed25519 | Sr25519 | Ecdsa
| Ed25519WrapBytes | Sr25519WrapBytes | EcdsaWrapBytes
| Eip712
| EvmEcdsa | EvmEcdsaWrapBytes.

Record Signature (S : Type) : Type := MkSignature {
  signature_type : SignatureType;
  signature : bytes;
  signer : S
}.
Arguments MkSignature {S} _ _ _.
Arguments signature_type {S} _.
Arguments signature {S} _.
Arguments signer {S} _.

Record RootSigner : Type := MkRoot { root_pubkey : bytes }.
Record Scope : Type := MkScope { scope_app : bytes; resources : list bytes }.
Record CertificateBody : Type := MkBody {
  body_pubkey : bytes;
  expiration : Z;
  scopes : list Scope
}.
Record Certificate : Type := MkCert {
  cert_body : CertificateBody;
  cert_signature : Signature RootSigner
}.
Inductive RootOrCertificate : Type :=
| Root (r : RootSigner)
| Cert (c : Certificate).
Abbreviation QuerySignature := (Signature RootOrCertificate).

Inductive SignatureVerifyError : Type :=
| InvalidSignatureType
| InvalidSignature
| CertificateMissing
| CertificateExpired
| TooLongCertificateChain
| DecodeFailed (e : string)
| InvalidPublicKey
| Eip712EncodingError.

Abbreviation VResult := (result SignatureVerifyError).

(** The signature schemes of [sp_core], with the lengths its types check. *)
Inductive scheme : Type := SEd25519 | SSr25519 | SEcdsa.
Definition public_len (s : scheme) : Z := match s with SEcdsa => 33 | _ => 32 end.
Definition sig_len (s : scheme) : Z := match s with SEcdsa => 65 | _ => 64 end.

(** JSON, as far as the typed data of EIP-712 uses it.  The domain and the types
    of the structured data are constants. *)
Inductive json : Type :=
| JStr (s : bytes)
| JArr (l : list json)
| JObj (fields : list (string * json)).

(** The libraries: signature verification, hashing, secp256k1 keys, the SCALE
    encoding of the two signed types and the structured-data hash. *)
Class Libs : Type := {
  pair_verify : scheme -> bytes -> bytes -> bytes -> bool;
  blake2_256 : bytes -> bytes;
  keccak_256 : bytes -> bytes;
  (** a public key in uncompressed form, if it is one *)
  serialize_uncompressed : bytes -> option bytes;
  recover_prehashed : bytes -> bytes -> option bytes;
  encode_query : Query -> bytes;
  encode_body : CertificateBody -> bytes;
  hash_structured_data : string -> json -> option bytes
}.

Section Verify.
Context `{Libs}.

Definition verify (s : scheme) (pubkey sig msg : bytes) : bool :=
  if negb (zlen pubkey =? public_len s) then false
  else if negb (zlen sig =? sig_len s) then false
  else pair_verify s pubkey sig msg.

Definition sub_recover (s : scheme) (pubkey sig msg : bytes) : VResult bytes :=
  if negb (zlen pubkey =? public_len s) then Err InvalidPublicKey
  else if verify s pubkey sig msg then Ok pubkey else Err InvalidSignature.

Definition wrap_bytes (msg : bytes) : bytes := lit "<Bytes>" ++ msg ++ lit "</Bytes>".

(** [evm_ecdsa_recover]: the recovery id is brought to 0 or 1. *)
Definition evm_ecdsa_recover (sig message_hash : bytes) : VResult bytes :=
  let v := default 0 (sig !! 64%nat) in
  let sig := if 27 <=? v then <[64%nat := v - 27]> sig else sig in
  ok_or (recover_prehashed sig message_hash) InvalidSignature.

(** The last twenty bytes of the hash. *)
Definition evm_pubkey_to_adderss (pubkey : bytes) : VResult bytes :=
  u ← ok_or (serialize_uncompressed pubkey) InvalidPublicKey;
  Ok (skipn 12 (keccak_256 (skipn 1 u))).

Definition account_id_from_evm_pubkey (pubkey : bytes) : VResult bytes :=
  h20 ← evm_pubkey_to_adderss pubkey;
  Ok (h20 ++ lit "@evm_address").

(** ** eip712.rs *)
Definition hex0x (b : bytes) : bytes := lit "0x" ++ hex_encode b.

Definition hash_query (q : Query) (proxy : bool) : VResult bytes :=
  let description := if proxy then "Authorized query that would be sent to a Wapod App"
                     else "This is a query that would be sent to a Wapod App" in
  ok_or (hash_structured_data "WapodQuery" (JObj [
      ("description", JStr (lit description));
      ("address", JStr (hex0x (q_address q)));
      ("path", JStr (q_path q));
      ("payload", JStr (hex0x (q_payload q)))]))
    Eip712EncodingError.

Definition hash_cert (b : CertificateBody) : VResult bytes :=
  let scopes := (fun s => JObj [("address", JStr (hex0x (scope_app s)));
                                ("paths", JArr (JStr <$> resources s))]) <$> scopes b in
  ok_or (hash_structured_data "Certificate" (JObj [
      ("description", JStr (lit "This is a certificate that can be used to sign a query that would be sent to a Wapod App"));
      ("publicKey", JStr (hex0x (body_pubkey b)));
      ("expirationTime", JStr (lit (pretty (expiration b))));
      ("scopes", JArr scopes)]))
    Eip712EncodingError.

Definition eip721_verify (address sig message_hash : bytes) : VResult bytes :=
  if negb (zlen sig =? 65) then Err InvalidSignature else
  recovered_pubkey ← evm_ecdsa_recover sig message_hash;
  recovered_address ← evm_pubkey_to_adderss recovered_pubkey;
  if negb (bool_decide (recovered_address = address)) then Err InvalidSignature
  else Ok recovered_pubkey.

(** ** Verification *)
Definition eip712_verify_cert (pubkey : bytes) (b : CertificateBody) (sig : bytes) : VResult bytes :=
  address ← evm_pubkey_to_adderss pubkey;
  message_hash ← hash_cert b;
  recovered ← eip721_verify address sig message_hash;
  account_id_from_evm_pubkey recovered.

Definition eip712_verify_query (pubkey : bytes) (q : Query) (sig : bytes) (proxy : bool) : VResult bytes :=
  address ← evm_pubkey_to_adderss pubkey;
  message_hash ← hash_query q proxy;
  recovered ← eip721_verify address sig message_hash;
  account_id_from_evm_pubkey recovered.

Definition non_eip712_verify (pubkey msg sig : bytes) (ty : SignatureType) (content_type : Z) : VResult bytes :=
  let msg := content_type :: msg in
  match ty with
  | Ed25519 => sub_recover SEd25519 pubkey sig msg
  | Sr25519 => sub_recover SSr25519 pubkey sig msg
  | Ecdsa => blake2_256 <$> sub_recover SEcdsa pubkey sig msg
  | Ed25519WrapBytes => sub_recover SEd25519 pubkey sig (wrap_bytes msg)
  | Sr25519WrapBytes => sub_recover SSr25519 pubkey sig (wrap_bytes msg)
  | EcdsaWrapBytes => blake2_256 <$> sub_recover SEcdsa pubkey sig (wrap_bytes msg)
  | EvmEcdsa => p ← sub_recover SEcdsa pubkey sig msg; account_id_from_evm_pubkey p
  | EvmEcdsaWrapBytes =>
    p ← sub_recover SEcdsa pubkey sig (wrap_bytes msg); account_id_from_evm_pubkey p
  | Eip712 => Err InvalidSignatureType
  end.

Definition verify_cert (s : RootSigner) (b : CertificateBody) (sig : bytes) (ty : SignatureType) : VResult bytes :=
  match ty with
  | Eip712 => eip712_verify_cert (root_pubkey s) b sig
  | _ => non_eip712_verify (root_pubkey s) (encode_body b) sig ty 0
  end.

(** [verify_query] of a root signer, of a certificate, and of either. *)
Definition root_verify_query (r : RootSigner) (q : Query) (sig : bytes) (ty : SignatureType) : VResult bytes :=
  match ty with
  | Eip712 => eip712_verify_query (root_pubkey r) q sig false
  | _ => non_eip712_verify (root_pubkey r) (encode_query q) sig ty 1
  end.
Definition cert_verify_query (c : Certificate) (q : Query) (sig : bytes) (ty : SignatureType) : VResult bytes :=
  (match ty with
   | Eip712 => eip712_verify_query (body_pubkey (cert_body c)) q sig true
   | _ => non_eip712_verify (body_pubkey (cert_body c)) (encode_query q) sig ty 2
   end);;
  verify_cert (signer (cert_signature c)) (cert_body c) sig (signature_type (cert_signature c)).
Definition verify_query (s : RootOrCertificate) (q : Query) (sig : bytes) (ty : SignatureType) : VResult bytes :=
  match s with
  | Root r => root_verify_query r q sig ty
  | Cert c => cert_verify_query c q sig ty
  end.

(** ** Specification *)

(** The scheme of a signature type, whether the message is wrapped, and the
    account of a key. *)
Definition type_scheme (ty : SignatureType) : option scheme :=
  match ty with
  | Ed25519 | Ed25519WrapBytes => Some SEd25519
  | Sr25519 | Sr25519WrapBytes => Some SSr25519
  | Ecdsa | EcdsaWrapBytes | EvmEcdsa | EvmEcdsaWrapBytes => Some SEcdsa
  | Eip712 => None
  end.
Definition wraps (ty : SignatureType) : bool :=
  match ty with
  | Ed25519WrapBytes | Sr25519WrapBytes | EcdsaWrapBytes | EvmEcdsaWrapBytes => true
  | _ => false
  end.
Definition signed_message (ty : SignatureType) (content_type : Z) (msg : bytes) : bytes :=
  (if wraps ty then wrap_bytes else id) (content_type :: msg).
Definition account_of (ty : SignatureType) (pubkey : bytes) : VResult bytes :=
  match ty with
  | Ecdsa | EcdsaWrapBytes => Ok (blake2_256 pubkey)
  | EvmEcdsa | EvmEcdsaWrapBytes | Eip712 => account_id_from_evm_pubkey pubkey
  | _ => Ok pubkey
  end.

Lemma sub_recover_Ok s pk sig msg p : sub_recover s pk sig msg = Ok p ->
  p = pk /\ pair_verify s pk sig msg = true /\ zlen pk = public_len s /\ zlen sig = sig_len s.
Proof.
  unfold sub_recover, verify. repeat case_match; intros; simplify_eq; prop_bools. done.
Qed.

Lemma non_eip712_Ok pk msg sig ty k acc : non_eip712_verify pk msg sig ty k = Ok acc ->
  exists s, type_scheme ty = Some s /\ pair_verify s pk sig (signed_message ty k msg) = true /\
    account_of ty pk = Ok acc.
Proof.
  unfold non_eip712_verify, signed_message.
  destruct ty; simpl; try done; unfold mbind, fmap; simpl;
    match goal with |- context [sub_recover ?s ?pk ?sig ?m] =>
      destruct (sub_recover s pk sig m) as [p|e] eqn:Hs end; simpl; try done;
    apply sub_recover_Ok in Hs as (-> & Hv & _); intros Ha; try (injection Ha as <-); eauto.
Qed.

Lemma sub_recover_ok s pk sig msg : zlen pk = public_len s -> zlen sig = sig_len s ->
  pair_verify s pk sig msg = true -> sub_recover s pk sig msg = Ok pk.
Proof.
  intros Hp Hs Hv. unfold sub_recover, verify. rewrite Hp, Hs, !Z.eqb_refl. simpl. by rewrite Hv.
Qed.

(** A valid signature of [msg], of content type [k], by the key [pk]. *)
Definition signed_by (pk msg sig : bytes) (ty : SignatureType) (k : Z) : Prop :=
  exists s, type_scheme ty = Some s /\ zlen pk = public_len s /\ zlen sig = sig_len s /\
    pair_verify s pk sig (signed_message ty k msg) = true.

Lemma non_eip712_spec pk msg sig ty k acc :
  non_eip712_verify pk msg sig ty k = Ok acc <-> signed_by pk msg sig ty k /\ account_of ty pk = Ok acc.
Proof.
  split.
  - intros Hok. split; [|by destruct (non_eip712_Ok _ _ _ _ _ _ Hok) as (s & _ & _ & ?)].
    unfold signed_by. unfold non_eip712_verify in Hok. unfold signed_message.
    destruct ty; simpl in *; try done; unfold mbind, fmap in Hok; simpl in Hok;
      match goal with H : context [sub_recover ?s ?pk ?sig ?m] |- _ =>
        exists s; destruct (sub_recover s pk sig m) as [p|e] eqn:Hs end; try done;
      apply sub_recover_Ok in Hs as (_ & ? & ? & ?); done.
  - intros [(s & Hty & Hp & Hl & Hv) Ha]. unfold non_eip712_verify, signed_message, account_of in *.
    destruct ty; simpl in *; simplify_eq; rewrite (sub_recover_ok _ _ _ _ Hp Hl Hv); done.
Qed.

(** The same for a structured-data hash. *)
Definition eip712_signed_by (pk sig h : bytes) : Prop :=
  zlen sig = 65 /\ exists pk' addr, evm_ecdsa_recover sig h = Ok pk' /\
    evm_pubkey_to_adderss pk' = Ok addr /\ evm_pubkey_to_adderss pk = Ok addr.

Lemma eip721_spec pk addr sig h acc : evm_pubkey_to_adderss pk = Ok addr ->
  (recovered ← eip721_verify addr sig h; account_id_from_evm_pubkey recovered) = Ok acc <->
  eip712_signed_by pk sig h /\ account_of Eip712 pk = Ok acc.
Proof.
  intros Haddr. unfold eip712_signed_by, eip721_verify, account_of, account_id_from_evm_pubkey.
  rewrite Haddr. unfold mbind; simpl. destruct (Z.eqb_spec (zlen sig) 65); simpl; [|naive_solver].
  destruct (evm_ecdsa_recover sig h) as [pk'|err]; simpl; [|naive_solver].
  destruct (evm_pubkey_to_adderss pk') as [a|err] eqn:Ha; simpl.
  2: { split; [done|]. intros [(_ & ? & ? & [= <-] & ? & _) _]. congruence. }
  case_bool_decide; subst; simpl.
  - rewrite Ha. simpl. split; [|by intros [_ ?]]. intros Hacc. split; [|done]. split; [done|]. eauto.
  - split; [done|]. intros [(_ & ? & ? & [= <-] & ? & ?) _]. congruence.
Qed.

(** C26: a query by a root signer is accepted exactly when its signature is a
    valid signature, by the named key and of the named type, of this query with
    its content type, and the caller is then the account of that key: for the
    plain types the signed message is the content type and the encoded query,
    wrapped for wallets, for EIP-712 the structured-data hash of the query. *)
Theorem root_query_spec r q sig ty acc :
  verify_query (Root r) q sig ty = Ok acc <->
  match ty with
  | Eip712 => exists h, hash_query q false = Ok h /\ eip712_signed_by (root_pubkey r) sig h
  | _ => signed_by (root_pubkey r) (encode_query q) sig ty 1
  end /\ account_of ty (root_pubkey r) = Ok acc.
Proof.
  destruct ty; cbn [verify_query root_verify_query]; try exact (non_eip712_spec _ _ _ _ _ _).
  unfold eip712_verify_query. destruct (evm_pubkey_to_adderss (root_pubkey r)) as [addr|e] eqn:Ha.
  - destruct (hash_query q false) as [h|e].
    + pose proof (eip721_spec _ _ sig h acc Ha) as Hspec.
      split; [intros Hok; destruct (proj1 Hspec Hok); eauto|].
      intros [(h' & [= <-] & ?) ?]. apply (proj2 Hspec). done.
    + split; [done|]. by intros [(h & ? & _) _].
  - unfold account_of, account_id_from_evm_pubkey. rewrite Ha. split; [done|]. by intros [_ ?].
Qed.

Lemma signed_messages_differ ty ty' k k' m m' : k <> k' -> k <> 60 -> k' <> 60 ->
  signed_message ty k m <> signed_message ty' k' m'.
Proof.
  intros Hk Hk60 Hk60'. unfold signed_message, wrap_bytes, lit.
  destruct (wraps ty), (wraps ty'); simpl; unfold id; intros Heq; simplify_eq; done.
Qed.

Definition with_signature (c : Certificate) (sig : bytes) : Certificate :=
  MkCert (cert_body c) (MkSignature (signature_type (cert_signature c)) sig (signer (cert_signature c))).

(** The signature inside a certificate is never looked at: a query with a
    certificate is accepted or refused whatever that signature is; and when it is
    accepted (plain signature types), the one signature of the query is valid for
    two different messages, the query under the certified key and the certificate
    under the root key. *)
Theorem certificate_signature_unused c q sig ty acc :
  verify_query (Cert c) q sig ty = Ok acc -> ty <> Eip712 ->
  signature_type (cert_signature c) <> Eip712 ->
  (forall other, verify_query (Cert (with_signature c other)) q sig ty = Ok acc) /\
  let m1 := signed_message ty 2 (encode_query q) in
  let m2 := signed_message (signature_type (cert_signature c)) 0 (encode_body (cert_body c)) in
  m1 <> m2 /\ exists s1 s2,
    pair_verify s1 (body_pubkey (cert_body c)) sig m1 = true /\
    pair_verify s2 (root_pubkey (signer (cert_signature c))) sig m2 = true.
Proof.
  intros Hok Hty Hcty. split; [done|]. split; [by apply signed_messages_differ|].
  simpl in Hok. unfold cert_verify_query in Hok.
  destruct (match ty with Eip712 => _ | _ => _ end) as [a1|e] eqn:H1; [|done].
  change (verify_cert (signer (cert_signature c)) (cert_body c) sig (signature_type (cert_signature c)) = Ok acc) in Hok.
  assert (H1' : non_eip712_verify (body_pubkey (cert_body c)) (encode_query q) sig ty 2 = Ok a1)
    by (by destruct ty).
  assert (H2' : non_eip712_verify (root_pubkey (signer (cert_signature c))) (encode_body (cert_body c)) sig
    (signature_type (cert_signature c)) 0 = Ok acc)
    by (unfold verify_cert in Hok; by destruct (signature_type (cert_signature c))).
  apply non_eip712_Ok in H1' as (s1 & _ & Hv1 & _). apply non_eip712_Ok in H2' as (s2 & _ & Hv2 & _).
  eauto.
Qed.
End Verify.

(** Libraries in which every signature of the right length is valid. *)
#[local] Instance lax_libs : Libs := {|
  pair_verify := fun _ _ _ _ => true;
  blake2_256 := id;
  keccak_256 := id;
  serialize_uncompressed := Some;
  recover_prehashed := fun _ _ => None;
  encode_query := fun q => q_path q;
  encode_body := fun b => body_pubkey b;
  hash_structured_data := fun _ _ => None
|}.
Lemma certificate_signature_unused_witness :
  let c := MkCert (MkBody (replicate 32 1) 0 []) (MkSignature Sr25519 [] (MkRoot (replicate 32 2))) in
  let q := MkQuery [] (lit "/x") [] in
  let sig := replicate 64 0 in
  verify_query (Cert (with_signature c [5])) q sig Ed25519 = Ok (replicate 32 2).
Proof.
  intros c q sig.
  apply (certificate_signature_unused c q sig Ed25519 (replicate 32 2)); [reflexivity|discriminate..].
Defined.
