(* ===== verification/Types.v ===== *)
(** * Shared types of workers and clients (wapod-types)

    The content types that separate the worker's signed messages (lib.rs), what is
    signed for an app (crypto/verify.rs), vectors whose length is checked on
    decoding (primitives.rs), and the metrics report (metrics.rs). *)
From S2P Require Import Prelude Ocall OcallDef Meter.

(** ** Signed messages *)
Inductive ContentType : Type :=
| RpcResponse | EndpointInfo | CMetrics | AppData | WorkerAttestation | WorkerDescription | CSessionUpdate.
#[export] Instance ContentType_eq_dec : EqDecision ContentType.
Proof. solve_decision. Defined.

Definition content_code (c : ContentType) : Z :=
  match c with
  | RpcResponse => 1 | EndpointInfo => 2 | CMetrics => 100 | AppData => 101
  | WorkerAttestation => 102 | WorkerDescription => 103 | CSessionUpdate => 104
  end.
Definition content_wrap (c : ContentType) (message : bytes) : bytes := 255 :: content_code c :: message.

Definition wrap_app_data (address message : bytes) : bytes := content_wrap AppData (address ++ message).

Section Crypto.
(** [CryptoProvider] and the signing key. *)
Context (sr25519_verify : bytes -> bytes -> bytes -> bool) (sr25519_sign : bytes -> bytes -> bytes)
  (keccak_256 : bytes -> bytes).

(** [Pair::sign] with the secret key [sk]. *)
Definition pair_sign (sk : bytes) (c : ContentType) (message : bytes) : bytes :=
  sr25519_sign sk (content_wrap c message).

Definition verify_message (c : ContentType) (message signature public_key : bytes) : bool :=
  sr25519_verify public_key (content_wrap c message) signature.
Definition verify_app_data (address message signature public_key : bytes) : bool :=
  sr25519_verify public_key (wrap_app_data address message) signature.
Definition sgx_quote_app_data (address message : bytes) : bytes :=
  keccak_256 (wrap_app_data address message) ++ replicate 32 0.
End Crypto.

(** What the worker signs for one purpose is never valid for another: the
    signed bytes determine the content type, so that an app's signed data can
    never pass as metrics, a session update or any other worker message; and for
    app data they determine the app and its message. *)
Lemma signatures_separated :
  (forall c c' m m', content_wrap c m = content_wrap c' m' -> c = c' /\ m = m') /\
  (forall a a' m m', zlen a = 32 -> zlen a' = 32 ->
     wrap_app_data a m = wrap_app_data a' m' -> a = a' /\ m = m') /\
  (forall a m c m', c <> AppData -> wrap_app_data a m <> content_wrap c m').
Proof.
  assert (H : forall c c' m m', content_wrap c m = content_wrap c' m' -> c = c' /\ m = m').
  { intros c c' m m' [= Hc ->]. split; [|done]. by destruct c, c'. }
  split_and!; [done|..].
  - intros a a' m m' Ha Ha' Heq. apply H in Heq as [_ Heq].
    apply app_inj_1 in Heq; [done|]. unfold zlen in *. lia.
  - intros a m c m' Hc Heq. by apply H in Heq as [<- _].
Qed.

(** ** [BoundedVec] *)
Record BoundedVec (T : Type) (B : Z) : Type := MkBounded { bv : list T }.
Arguments MkBounded {T B} _.
Arguments bv {T B} _.

Section Bounded.
Context {T : Type} {B : Z}.
Definition bv_max_len (v : BoundedVec T B) : Z := B.
Definition bv_len (v : BoundedVec T B) : Z := zlen (bv v).
Definition bv_is_empty (v : BoundedVec T B) : bool := bv_len v =? 0.
Definition bv_push (value : T) (v : BoundedVec T B) : result T unit * BoundedVec T B :=
  if B <=? zlen (bv v) then (Err value, v) else (Ok tt, MkBounded (bv v ++ [value])).
Definition bv_pop (v : BoundedVec T B) : option T * BoundedVec T B :=
  match rev (bv v) with
  | [] => (None, v)
  | x :: r => (Some x, MkBounded (rev r))
  end.
Definition bv_clear (v : BoundedVec T B) : BoundedVec T B := MkBounded [].
Definition bv_default : BoundedVec T B := MkBounded [].
(** Conversions check nothing. *)
Definition bv_from (l : list T) : BoundedVec T B := MkBounded l.
Definition bv_into_inner (v : BoundedVec T B) : list T := bv v.

(** Encoded as the vector; the length is checked when decoding. *)
Context `{ScaleCodec (list T)}.
Definition bv_encode (v : BoundedVec T B) : bytes := scale_encode (bv v).
Definition bv_decode (b : bytes) : option (BoundedVec T B) :=
  l ← scale_decode b;
  if B <? zlen l then None else Some (MkBounded l).
(** [MaxEncodedLen], from the bound of an item. *)
Definition bv_max_encoded_len (item : Z) : Z := B * item.

Lemma bv_decode_encode `{!ScaleLawful (list T)} v :
  bv_decode (bv_encode v) = if B <? zlen (bv v) then None else Some v.
Proof.
  unfold bv_decode, bv_encode. rewrite scale_decode_encode. simpl. destruct v. simpl. done.
Qed.

(** The methods that a user of the type calls; [BvFrom] is a conversion. *)
Inductive bv_op : Type := BvPush (x : T) | BvPop | BvClear | BvFrom (l : list T).
Definition bv_step (v : BoundedVec T B) (op : bv_op) : BoundedVec T B :=
  match op with
  | BvPush x => (bv_push x v).2
  | BvPop => (bv_pop v).2
  | BvClear => bv_clear v
  | BvFrom l => bv_from l
  end.
Definition bv_ok (v : BoundedVec T B) : Prop := bv_len v <= B.
(** Conversions of too long vectors apart, the bound holds. *)
Definition bv_op_ok (op : bv_op) : Prop := match op with BvFrom l => zlen l <= B | _ => True end.
Lemma bv_step_ok v op : 0 <= B -> bv_ok v -> bv_op_ok op -> bv_ok (bv_step v op).
Proof.
  unfold bv_ok, bv_len. intros HB Hv Hop. destruct op as [x| | |l]; simpl; [..|done].
  - unfold bv_push. destruct (Z.leb_spec B (zlen (bv v))); simpl; [done|]. rewrite zlen_app, zlen_cons, zlen_nil. lia.
  - unfold bv_pop. destruct (rev (bv v)) as [|x r] eqn:Hr; simpl; [done|].
    assert (Hl : zlen (bv v) = 1 + zlen (rev r)).
    { unfold zlen. rewrite <- (length_rev (bv v)), Hr, length_rev. cbn [length]. lia. }
    lia.
  - by rewrite zlen_nil.
Qed.
End Bounded.
Arguments bv_op : clear implicits.

(** ** [BoundedString] *)
Record BoundedString (B : Z) : Type := MkBoundedString { bs : bytes }.
Arguments MkBoundedString {B} _.
Arguments bs {B} _.
Section BoundedStr.
Context {B : Z} `{ScaleCodec bytes}.
Definition bs_from (s : bytes) : BoundedString B := MkBoundedString s.
Definition bs_encode (s : BoundedString B) : bytes := scale_encode (bs s).
Definition bs_decode (b : bytes) : option (BoundedString B) :=
  s ← scale_decode b;
  if B <? zlen s then None else Some (MkBoundedString s).
Definition bs_max_encoded_len : Z := B.
End BoundedStr.

Section BoundedFacts.
Context {T : Type} `{ScaleCodec (list T), !ScaleLawful (list T), ScaleCodec bytes}.
(** The codec's vectors and strings: a compact length of at least one byte, then the
    items. *)
Context (compact : Z -> bytes) (item : T -> bytes).
Hypothesis compact_len : forall n, 1 <= zlen (compact n).
Hypothesis vec_encoding : forall l : list T, scale_encode l = compact (zlen l) ++ (l ≫= item).
Hypothesis str_encoding : forall s : bytes, scale_encode s = compact (zlen s) ++ s.

Lemma bind_len (m : Z) (l : list T) : Forall (fun x => zlen (item x) = m) l -> zlen (l ≫= item) = zlen l * m.
Proof.
  induction 1 as [|x l Hx Hl IH]; [done|]. rewrite bind_cons, zlen_app, zlen_cons, IH, Hx. lia.
Qed.

(** C40: bounded vectors: from the empty vector on, pushing, popping, clearing and
    converting from vectors within the bound keep the bound, and what keeps it
    survives encoding and decoding; a longer vector is accepted by the conversion
    and refused by the decoder.  But [max_encoded_len] forgets the length prefix:
    a full vector of items of the largest size is encoded in more bytes than it
    says, and so is a full string. *)
Theorem bounded_types (B : Z) : 0 <= B ->
  (forall ops, Forall (bv_op_ok (B := B)) ops ->
     let v := foldl bv_step (bv_default (T := T) (B := B)) ops in bv_len v <= B /\ bv_decode (bv_encode v) = Some v) /\
  (forall l : list T, B < zlen l -> bv_decode (T := T) (B := B) (bv_encode (bv_from (B := B) l)) = None) /\
  (forall (v : BoundedVec T B) m, bv_len v = B -> Forall (fun x => zlen (item x) = m) (bv v) ->
     bv_max_encoded_len (B := B) m < zlen (bv_encode v)) /\
  (forall s : BoundedString B, zlen (bs s) = B -> bs_max_encoded_len (B := B) < zlen (bs_encode s)).
Proof.
  intros HB. split_and!.
  - intros ops Hops v. assert (Hv : bv_ok v).
    { unfold v. assert (H0' : bv_ok (bv_default (T := T) (B := B))) by done. revert H0'. generalize (bv_default (T := T) (B := B)).
      induction Hops as [|op ops Hop Hops IH]; intros u Hu; [done|]. simpl. apply IH. by apply bv_step_ok. }
    split; [done|]. rewrite bv_decode_encode. unfold bv_ok, bv_len in Hv. destruct (Z.ltb_spec B (zlen (bv v))); [lia|done].
  - intros l Hl. rewrite bv_decode_encode. simpl. by rewrite (proj2 (Z.ltb_lt _ _)).
  - intros v m Hl Hm. unfold bv_encode, bv_max_encoded_len. rewrite vec_encoding, zlen_app, (bind_len m) by done.
    unfold bv_len in Hl. rewrite Hl. specialize (compact_len B). lia.
  - intros s Hs. unfold bs_encode, bs_max_encoded_len. rewrite str_encoding, zlen_app, Hs. specialize (compact_len B). lia.
Qed.
End BoundedFacts.

(** One byte for the length of the vectors of the witness. *)
Module ToyVec.
#[local] Instance vec_codec : ScaleCodec bytes := {|
  scale_encode l := zlen l :: l;
  scale_decode b := match b with n :: l => if n =? zlen l then Some l else None | [] => None end
|}.
#[local] Instance vec_lawful : ScaleLawful bytes.
Proof. intros l. simpl. by rewrite Z.eqb_refl. Qed.
Lemma bounded_types_witness :
  let v := foldl bv_step (bv_default (T := Z) (B := 3)) [BvPush 1; BvPush 2; BvPop; BvFrom [7; 8; 9]; BvPush 4] in
  (bv_len v <= 3 /\ bv_decode (bv_encode v) = Some v) /\ bv v = [7; 8; 9] /\
  bv_max_encoded_len (B := 3) 1 < zlen (bv_encode v).
Proof.
  intros v. pose proof (bounded_types (T := Z) (fun n => [n]) (fun x => [x])) as Hb.
  destruct (Hb ltac:(intros n; vm_compute; discriminate)
    ltac:(intros l; simpl; f_equal; clear; induction l as [|x l IH]; [done|by rewrite bind_cons, <- IH])
    ltac:(done) 3 ltac:(lia)) as (H1 & _ & H3 & _).
  split; [|split; [reflexivity|]].
  - apply H1. repeat constructor; vm_compute; discriminate.
  - apply (H3 v 1); [reflexivity|]. repeat constructor.
Defined.
End ToyVec.

(** ** Metrics reports *)
Record AppMetrics : Type := MkAppMetrics {
  am_address : bytes;
  am_session : bytes;
  running_time_ms : Z;
  am_gas_consumed : Z;
  network_ingress : Z;
  network_egress : Z;
  am_storage_read : Z;
  storage_write : Z;
  am_storage_used : Z;
  am_memory_used : Z;
  am_tip : Z;
  am_starts : Z
}.
Definition MAX_APPS_METRICS : Z := 64.
Record AppsMetrics : Type := MkAppsMetrics {
  asm_token : MetricsToken;
  asm_apps : BoundedVec AppMetrics MAX_APPS_METRICS
}.
(** [VersionedAppsMetrics]; [ClaimMap] names at most three tickets of each app. *)
Inductive VersionedAppsMetrics : Type := MetricsV0 (m : AppsMetrics).
Definition MAX_CLAIM_TICKETS_PER_APP : Z := 3.
Definition ClaimMap : Type := BoundedVec (bytes * BoundedVec Z MAX_CLAIM_TICKETS_PER_APP) MAX_APPS_METRICS.
Record SignedAppsMetrics : Type := MkSignedMetrics {
  sam_metrics : VersionedAppsMetrics;
  sam_signature : BoundedVec Z 128;
  sam_pubkey : bytes
}.
Section SignedMetrics.
Context (sr25519_verify : bytes -> bytes -> bytes -> bool) (encode_token : MetricsToken -> bytes)
  `{ScaleCodec (list AppMetrics)}.
(** The variant's index, then the fields. *)
Definition versioned_encode (m : VersionedAppsMetrics) : bytes :=
  match m with MetricsV0 m => 0 :: encode_token (asm_token m) ++ bv_encode (asm_apps m) end.
Definition verify_metrics (s : SignedAppsMetrics) : bool :=
  verify_message sr25519_verify CMetrics (versioned_encode (sam_metrics s)) (bv (sam_signature s)) (sam_pubkey s).
End SignedMetrics.
