(* ===== verification/Prices.v ===== *)
(** * Prices and costs (wapod-types/src/ticket.rs)

    What an app's usage costs; every step saturates at the largest balance. *)
From S2P Require Import Prelude Ocall OcallDef Meter Blobs Types.

Record Prices : Type := MkPrices {
  general_fee_per_second : option Z;
  gas_price : option Z;
  net_ingress_price : option Z;
  net_egress_price : option Z;
  storage_read_price : option Z;
  storage_write_price : option Z;
  storage_price : option Z;
  memory_price : option Z;
  tip_price : option Z
}.
Definition Prices_default : Prices := MkPrices None None None None None None None None None.
#[export] Instance Prices_eq_dec : EqDecision Prices.
Proof. solve_decision. Defined.
Definition prices_is_empty (p : Prices) : bool := bool_decide (p = Prices_default).

(** The macro [add_mul!]; the usage is cast to a balance. *)
Definition add_mul (price : option Z) (usage total : Z) : Z :=
  match price with
  | Some price => sat_add U128 total (sat_mul U128 price (wrap U128 usage))
  | None => total
  end.
Definition cost_of (p : Prices) (m : AppMetrics) : Z :=
  let running_time := running_time_ms m `div` 1000 in
  let total := add_mul (general_fee_per_second p) running_time 0 in
  let total := add_mul (gas_price p) (am_gas_consumed m) total in
  let total := add_mul (net_ingress_price p) (network_ingress m) total in
  let total := add_mul (net_egress_price p) (network_egress m) total in
  let total := add_mul (storage_read_price p) (am_storage_read m) total in
  let total := add_mul (storage_write_price p) (storage_write m) total in
  let total := add_mul (storage_price p) (am_storage_used m) total in
  let total := add_mul (memory_price p) (am_memory_used m) total in
  add_mul (tip_price p) (am_tip m) total.

(** [Option::or]. *)
Definition opt_or {A} (a b : option A) : option A := match a with Some _ => a | None => b end.
Definition merge_prices (p other : Prices) : Prices :=
  MkPrices (opt_or (general_fee_per_second p) (general_fee_per_second other)) (opt_or (gas_price p) (gas_price other))
    (opt_or (net_ingress_price p) (net_ingress_price other)) (opt_or (net_egress_price p) (net_egress_price other))
    (opt_or (storage_read_price p) (storage_read_price other)) (opt_or (storage_write_price p) (storage_write_price other))
    (opt_or (storage_price p) (storage_price other)) (opt_or (memory_price p) (memory_price other))
    (opt_or (tip_price p) (tip_price other)).

(** [ticket_account_address]: the account is decoded from the hash, followed by
    zeros. *)
Definition ticket_account_address {T} (decode_padded : bytes -> T) (blake2_256 : bytes -> bytes) (encode_u64 : Z -> bytes)
  (ticket_id : Z) : T := decode_padded (blake2_256 (lit "wapod/ticket/" ++ encode_u64 ticket_id)).

(** ** The exact cost *)

(** Prices with the usage they apply to. *)
Definition items (p : Prices) (m : AppMetrics) : list (option Z * Z) :=
  [(general_fee_per_second p, running_time_ms m `div` 1000); (gas_price p, am_gas_consumed m);
   (net_ingress_price p, network_ingress m); (net_egress_price p, network_egress m);
   (storage_read_price p, am_storage_read m); (storage_write_price p, storage_write m);
   (storage_price p, am_storage_used m); (memory_price p, am_memory_used m); (tip_price p, am_tip m)].
Definition item_cost (i : option Z * Z) : Z := match i.1 with Some price => price * i.2 | None => 0 end.
Definition exact_cost (l : list (option Z * Z)) : Z := foldr (fun i n => item_cost i + n) 0 l.
Definition item_ok (i : option Z * Z) : Prop :=
  (forall price, i.1 = Some price -> in_range U128 price = true) /\ in_range U128 i.2 = true.

Lemma cost_of_fold p m : cost_of p m = foldl (fun n i => add_mul i.1 i.2 n) 0 (items p m).
Proof. done. Qed.
Lemma add_mul_exact i n : item_ok i -> 0 <= n ->
  add_mul i.1 i.2 (Z.min n (int_max U128)) = Z.min (n + item_cost i) (int_max U128) /\ 0 <= item_cost i.
Proof.
  destruct i as [price usage]. intros [Hp Hu] Hn. simpl in *. unfold item_cost. simpl.
  destruct price as [price|]; simpl; [|split; [f_equal; lia|lia]].
  specialize (Hp price eq_refl). rewrite wrap_id by done. apply in_range_spec in Hp, Hu.
  assert (0 <= price * usage) by (const_bounds; nia). split; [|lia]. unfold sat_add, sat_mul. const_bounds. lia.
Qed.
Lemma fold_exact l : forall n, Forall item_ok l -> 0 <= n ->
  foldl (fun n i => add_mul i.1 i.2 n) (Z.min n (int_max U128)) l = Z.min (n + exact_cost l) (int_max U128).
Proof.
  induction l as [|i l IH]; intros n Hl Hn; cbn [foldl exact_cost foldr]; [f_equal; lia|].
  apply Forall_cons in Hl as [Hi Hl]. destruct (add_mul_exact i n Hi Hn) as [-> Hc].
  rewrite IH by (done || lia). f_equal. unfold exact_cost. lia.
Qed.
(** The bill: the cost of an app's usage is the sum of usage times price over
    the priced resources, saturated once at the largest 128-bit balance, although
    every product and every partial sum is saturated on the way; and with merged
    prices each resource is charged at the first price that is set. *)
Theorem cost_exact p q m : Forall item_ok (items p m) -> Forall item_ok (items q m) ->
  cost_of p m = Z.min (exact_cost (items p m)) (int_max U128) /\
  cost_of (merge_prices p q) m =
    Z.min (exact_cost (zip_with (fun a b => (opt_or a.1 b.1, a.2)) (items p m) (items q m))) (int_max U128).
Proof.
  intros Hp Hq. assert (H0 : 0 = Z.min 0 (int_max U128)) by done.
  split; rewrite cost_of_fold, H0, fold_exact; try done.
  change (items (merge_prices p q) m) with (zip_with (fun a b => (opt_or a.1 b.1, a.2)) (items p m) (items q m)).
  revert Hp Hq. generalize (items p m) as l, (items q m) as k. clear.
  induction l as [|[a u] l IH]; intros [|[b v] k]; simpl; try done. rewrite !Forall_cons.
  intros [[Ha Hu] Hl] [[Hb _] Hk]. split; [|by apply IH]. split; simpl in *; [|done]. by destruct a.
Qed.

Lemma cost_exact_witness :
  let p := MkPrices (Some 3) (Some (2 ^ 127)) None None None None None None None in
  let q := MkPrices (Some 4) None (Some 5) None None None None None None in
  let m := MkAppMetrics [] [] 2500 1 7 0 0 0 0 0 0 0 in
  cost_of p m = Z.min (exact_cost (items p m)) (int_max U128) /\ cost_of p m = 6 + 2 ^ 127 /\
  cost_of (merge_prices p q) m = 6 + 2 ^ 127 + 35.
Proof.
  intros p q m. split; [|by vm_compute].
  apply (cost_exact p q m); repeat constructor; simpl; intros; simplify_eq; done.
Defined.
