(* ===== verification/AppRuntime.v ===== *)
(** * The worker's runtime calls (wapod/src/state.rs [AppRuntimeCalls], wapod/src/sgx.rs)

    What a worker provides to the instances of an app: an implementation of the
    interface that the VM context asks for, made of the access list, the worker's
    metrics and the signing key.  All clones of one instance's runtime calls share
    the locks. *)
From S2P Require Import Prelude OcallError ArgsStack Ocall OcallDef Meter Resource HostTasks GuestTasks Blobs VmContext VmFacts LinearMemory Run TcpAcl Worker WorkerFacts Types.

(** The key, and what the crypto libraries and the enclave do with it. *)
Class Keys := {
  sr25519_sign : bytes -> bytes -> bytes;
  sr25519_verify : bytes -> bytes -> bytes -> bool;
  public_of : bytes -> bytes;
  derive_hard : bytes -> list bytes -> bytes;
  key_dump : bytes -> bytes;
  blake2_256 : bytes -> bytes;
  keccak_256 : bytes -> bytes;
  (** writing the report data, then reading the quote *)
  attest : bytes -> option bytes
}.
(** A signature verifies under the key's public half. *)
Class KeysLawful `{Keys} := {
  verify_sign : forall sk m, sr25519_verify (public_of sk) m (sr25519_sign sk m) = true
}.

Section Runtime.
Context `{IpNetsLawful, KeysLawful} (sk : bytes).

Record AppRuntimeCalls : Type := MkCalls {
  art_address : bytes;
  host_filter : HostFilter;
  (** the worker, unless it is gone *)
  art_worker : option WorkerState;
  locks : gset bytes;
  (** [QueryListened] events sent *)
  listened : nat;
  art_now : Z;
  (** the random nonces of the tokens still to be made *)
  nonces : list bytes
}.
Definition AppRuntimeCalls_new (address : bytes) (f : HostFilter) (w : WorkerState) (now : Z) (rnd : list bytes)
  : AppRuntimeCalls := MkCalls address f (Some w) ∅ 0 now rnd.

Definition set_worker (r : AppRuntimeCalls) w rnd : AppRuntimeCalls :=
  MkCalls (art_address r) (host_filter r) w (locks r) (listened r) (art_now r) rnd.
Definition set_locks (r : AppRuntimeCalls) l : AppRuntimeCalls :=
  MkCalls (art_address r) (host_filter r) (art_worker r) l (listened r) (art_now r) (nonces r).
Definition set_listened (r : AppRuntimeCalls) n : AppRuntimeCalls :=
  MkCalls (art_address r) (host_filter r) (art_worker r) (locks r) n (art_now r) (nonces r).

(** [sgx::quote]. *)
Definition sgx_report_data (c : ContentType) (data : bytes) : bytes :=
  let hash := match c with
              | WorkerAttestation => blake2_256 data
              | _ => keccak_256 (content_wrap c data)
              end in
  hash ++ replicate 32 0.
Definition sgx_quote (c : ContentType) (data : bytes) : option bytes := attest (sgx_report_data c data).

Definition default_token : MetricsToken :=
  {| mt_sn := 0; mt_session := replicate 32 0; mt_nonce := replicate 32 0 |}.
Definition runtime_metrics (r : AppRuntimeCalls) : (Metrics * MetricsToken) * AppRuntimeCalls :=
  match art_worker r with
  | None => ((Metrics_default, default_token), r)
  | Some w =>
    let '(res, w) := app_metrics_call (art_now r) (art_address r) (default (replicate 32 0) (head (nonces r))) w in
    (match res with Ok mt => mt | Err _ => (Metrics_default, default_token) end,
     set_worker r (Some w) (tail (nonces r)))
  end.

#[export] Instance app_runtime_calls : RuntimeCalls AppRuntimeCalls := {|
  rc_log := fun _ _ r => r;
  rc_worker_pubkey := fun _ => Arr (public_of sk);
  rc_sign_app_data := fun data r => pair_sign sr25519_sign sk AppData (wrap_message (art_address r) data);
  rc_sgx_quote_app_data := fun data r => sgx_quote AppData (wrap_message (art_address r) data);
  rc_emit_output := fun _ r => r;
  rc_tcp_connect_allowed := fun host r => is_host_allowed (host_filter r) (str_bytes host);
  rc_app_metrics := runtime_metrics;
  rc_derive_secret := fun path r => Arr (key_dump (derive_hard sk [art_address r; blake2_256 path]));
  rc_query_listened := fun r => set_listened r (S (listened r));
  rc_try_lock := fun path r => let '(b, l) := try_lock (str_bytes path) (locks r) in (b, set_locks r l);
  rc_unlock := fun path r => let '(b, l) := unlock (str_bytes path) (locks r) in (b, set_locks r l)
|}.

Context {W : Type} `{Tokio W, !Host W, Digest, Aead}.
Abbreviation ctx := (WapoCtx W AppRuntimeCalls).

(** ** Connections *)

(** What a connecting ocall does before and after the check of the host. *)
Definition charged (c : ctx) : ctx := set_meter c (record_gas 1000 (meter c)).
Definition start_tcp (host : str) (port : int U16) : M ctx OcallError (int I32) :=
  fut ← world_do (connect_tcp host (int_val port)); meter_do record_tcp_connect_start;; push_resource (RTcpConnect fut).
Definition start_tls (host : str) (port : int U16) : M ctx OcallError (int I32) :=
  bail_if (negb (server_name host)) InvalidParameter;;
  fut ← world_do (connect_tls host (int_val port)); meter_do record_tls_connect_start;; push_resource (RTlsConnect fut).
Lemma check_connect_run lines (m : M ctx OcallError (int I32)) host (c : ctx) :
  host_filter (runtime_calls c) = filter_from_iter lines ->
  (253 < zlen (str_bytes host) -> (check_connect host;; m) c = (Err InvalidParameter, c)) /\
  (zlen (str_bytes host) <= 253 -> refused lines (str_bytes host) -> (check_connect host;; m) c = (Err Forbiden, c)) /\
  (zlen (str_bytes host) <= 253 -> ~ refused lines (str_bytes host) -> (check_connect host;; m) c = m c).
Proof.
  intros Hf. unfold check_connect. m_unfold.
  destruct (Z.ltb_spec 253 (zlen (str_bytes host))); simpl; [split_and!; (done || lia)|]. rewrite Hf.
  split_and!; [lia|..]; intros _ Hr.
  - by rewrite (proj2 (is_host_allowed_iff lines _) Hr).
  - destruct (is_host_allowed (filter_from_iter lines) (str_bytes host)) eqn:Ha; [done|]. by apply is_host_allowed_iff in Ha.
Qed.

(** C20: what the worker's list refuses to an app is decided by the text of the host, and by
    nothing else.  With the filter made of [lines], an ocall that connects to a
    text that the list refuses ends with [Forbiden], having only been charged; any
    other text of at most 253 bytes is connected to, whatever it stands for.  A
    text is refused when a line names it, or when it is the text of an address that
    a network or an address of the same family in the list contains.  So a name
    that is not in the list is never refused, whatever addresses it resolves to,
    and an IPv4-mapped address is not refused by any line about IPv4. *)
Theorem app_network_policy lines (c : ctx) : host_filter (runtime_calls c) = filter_from_iter lines ->
  (forall host port, zlen (str_bytes host) <= 253 ->
     (refused lines (str_bytes host) -> tcp_connect host port c = (Err Forbiden, charged c)) /\
     (~ refused lines (str_bytes host) -> tcp_connect host port c = start_tcp host port (charged c))) /\
  (forall host port cfg, zlen (str_bytes host) <= 253 ->
     (refused lines (str_bytes host) -> tcp_connect_tls host port cfg c = (Err Forbiden, charged c)) /\
     (~ refused lines (str_bytes host) -> tcp_connect_tls host port cfg c = start_tls host port (charged c))) /\
  (forall host port cfg, 253 < zlen (str_bytes host) ->
     tcp_connect host port c = (Err InvalidParameter, charged c) /\ tcp_connect_tls host port cfg c = (Err InvalidParameter, charged c)) /\
  (forall host, parse_ip host = None -> (forall line, line ∈ lines -> entry line <> Some host) -> ~ refused lines host) /\
  (forall a b c d, is_octet a -> is_octet b -> is_octet c -> is_octet d ->
     (forall line l, line ∈ lines -> entry line = Some l ->
        (forall net, parse_net l <> Some (inr net)) /\ forall ip, parse_ip l <> Some (V6 ip)) ->
     ~ refused lines (mapped a b c d)).
Proof.
  intros Hf. assert (Hrun : forall m host, _) by (intros m host; exact (check_connect_run lines m host (charged c) Hf)).
  split_and!; [intros host port Hn|intros host port cfg Hn|intros host port cfg Hn|apply refused_only_named|intros; by apply mapped_not_refused].
  - destruct (Hrun (start_tcp host port) host) as (_ & Hr & Ha). split; [exact (Hr Hn)|exact (Ha Hn)].
  - destruct (Hrun (start_tls host port) host) as (_ & Hr & Ha). split; [exact (Hr Hn)|exact (Ha Hn)].
  - split; [exact (proj1 (Hrun (start_tcp host port) host) Hn)|exact (proj1 (Hrun (start_tls host port) host) Hn)].
Qed.

(** ** Signed data *)

(** C34: what an instance gets signed is bound to its app: the signature of the
    [sign] ocall is over the app's address and the data, and is accepted by a
    verifier of app data for that app; the signed bytes are those of no other
    kind of message of the worker, and of no other app or data. *)
Theorem app_signature_bound data (c : ctx) sig c' : sign data c = (Ok sig, c') ->
  let a := art_address (runtime_calls c) in
  sig = sr25519_sign sk (wrap_app_data a data) /\
  verify_app_data sr25519_verify a data sig (public_of sk) = true /\
  (forall kind m, kind <> AppData -> wrap_app_data a data <> content_wrap kind m) /\
  (forall a' data', zlen a = 32 -> zlen a' = 32 -> wrap_app_data a data = wrap_app_data a' data' -> a = a' /\ data = data').
Proof.
  intros Hs a. unfold sign, checked_payload, gas in Hs. revert Hs. m_unfold.
  destruct (MAX_SIGN_SIZE <? zlen data); [done|]. intros [[= <-] _]%pair_equal_spec.
  destruct signatures_separated as (_ & Ha & Hk). split; [done|]. split; [apply verify_sign|]. split; [intros; by apply Hk|].
  intros. by apply Ha.
Qed.

(** ** Locks *)
Lemma try_lock_ocall path (c : ctx) : app_try_lock path c =
  let '(b, l) := try_lock (str_bytes path) (locks (runtime_calls c)) in
  (if b then Ok tt else Err ConditionError, set_calls c (set_locks (runtime_calls c) l)).
Proof.
  unfold app_try_lock, calls_do. m_unfold. simpl. by destruct (try_lock _ _) as [[] l].
Qed.

(** Locks exclude within an instance and not within an app: after an instance
    got a lock, every later attempt of the same instance fails until it unlocks,
    also after the instance was restarted, since a restart reuses the
    configuration; a second instance of the same app gets the same lock. *)
Theorem app_locks path (c c1 : ctx) : app_try_lock path c = (Ok tt, c1) ->
  (forall c2, locks (runtime_calls c2) = locks (runtime_calls c1) -> (app_try_lock path c2).1 = Err ConditionError) /\
  (forall now fs w cfg, ic_calls cfg = runtime_calls c1 ->
     (app_try_lock path (instance_ctx now fs w cfg)).1 = Err ConditionError) /\
  (forall now fs w cfg wk t rnd,
     ic_calls cfg = AppRuntimeCalls_new (art_address (runtime_calls c)) (host_filter (runtime_calls c)) wk t rnd ->
     (app_try_lock path (instance_ctx now fs w cfg)).1 = Ok tt) /\
  (exists c2, app_unlock path c1 = (Ok tt, c2) /\ (app_try_lock path c2).1 = Ok tt).
Proof.
  rewrite try_lock_ocall. unfold try_lock at 1.
  destruct (64 <? zlen (str_bytes path)) eqn:Hp; [done|]. destruct (64 <? Z.of_nat (size (locks (runtime_calls c)))) eqn:Hn; [done|].
  case_bool_decide as Hin; [done|]. intros [_ <-]%pair_equal_spec.
  assert (Hheld : forall c2 : ctx, str_bytes path ∈ locks (runtime_calls c2) -> (app_try_lock path c2).1 = Err ConditionError).
  { intros c2 Hc2. rewrite try_lock_ocall. unfold try_lock. rewrite Hp. rewrite bool_decide_true by done.
    by destruct (64 <? Z.of_nat (size (locks (runtime_calls c2)))). }
  split; [intros c2 Hc2; apply Hheld; rewrite Hc2; simpl; set_solver|split].
  - intros now fs w cfg Hc. apply Hheld. simpl. rewrite Hc. simpl. set_solver.
  - split.
    + intros now fs w cfg wk t rnd Hc. rewrite try_lock_ocall. simpl. rewrite Hc. simpl. unfold try_lock. by rewrite Hp.
    + eexists. split.
      * unfold app_unlock, calls_do. m_unfold. simpl. by rewrite bool_decide_true by set_solver.
      * rewrite try_lock_ocall. simpl. replace (_ ∖ _) with (locks (runtime_calls c)) by set_solver.
        unfold try_lock. by rewrite Hp, Hn, bool_decide_false.
Qed.
End Runtime.

(** ** An app on a small worker *)
Module ToyApp.
Import ToyNets.
#[export] Existing Instances toy_tokio toy_host toy_digest toy_aead.
(** Keys whose signature is key and message. *)
#[export] Instance keys : Keys := {
  sr25519_sign sk m := sk ++ m;
  sr25519_verify pk m sig := bool_decide (sig = pk ++ m);
  public_of sk := sk;
  derive_hard sk path := sk ++ concat path;
  key_dump sk := sk;
  blake2_256 b := b;
  keccak_256 b := b;
  attest data := Some data
}.
#[export] Instance keys_lawful : KeysLawful.
Proof. split. intros sk m. by apply bool_decide_true. Qed.
Definition calls : AppRuntimeCalls :=
  AppRuntimeCalls_new (replicate 32 7) (filter_from_iter demo_lines) (worker_new (MkArgs 0 3 10)) 0 [].
#[export] Existing Instance app_runtime_calls.
Definition app_ctx : WapoCtx nat AppRuntimeCalls :=
  WapoCtx_new (Arr [1; 2]) calls (MkFs ∅ []) (Meter_default 0) (MkConfig (100, 200) false) 0%nat.
End ToyApp.
Import ToyNets ToyApp.

Lemma app_network_policy_witness :
  let refused_host := Str (lit "192.168.7.7") in
  let name := Str (lit "localhost.example") in
  tcp_connect (H0 := app_runtime_calls []) refused_host (Int 80) app_ctx = (Err Forbiden, charged app_ctx) /\
  tcp_connect (H0 := app_runtime_calls []) name (Int 80) app_ctx = start_tcp name (Int 80) (charged app_ctx) /\
  world (tcp_connect (H0 := app_runtime_calls []) name (Int 80) app_ctx).2 <> world app_ctx.
Proof.
  intros host name. destruct (app_network_policy [] demo_lines app_ctx eq_refl) as (Htcp & _ & _ & Hname & _).
  split_and!; [| |vm_compute; discriminate].
  - apply (Htcp host (Int 80)); [vm_compute; discriminate|]. apply is_host_allowed_iff. vm_compute. reflexivity.
  - apply (Htcp name (Int 80)); [vm_compute; discriminate|]. apply Hname; [vm_compute; reflexivity|].
    apply (proj1 (Forall_forall _ _)). apply (bool_decide_unpack (Forall (fun l => entry l <> Some (lit "localhost.example")) demo_lines)). vm_compute. reflexivity.
Defined.
Lemma app_signature_bound_witness :
  exists sig c', sign (H0 := app_runtime_calls [9]) [1; 2] app_ctx = (Ok sig, c') /\
    verify_app_data sr25519_verify (replicate 32 7) [1; 2] sig (public_of [9]) = true.
Proof.
  destruct (sign (H0 := app_runtime_calls [9]) [1; 2] app_ctx) as [r c'] eqn:Hs.
  destruct r as [sig|e]; [|apply (f_equal fst) in Hs; vm_compute in Hs; discriminate Hs].
  exists sig, c'. split; [reflexivity|].
  exact (proj1 (proj2 (app_signature_bound [9] [1; 2] app_ctx sig c' Hs))).
Defined.

(** The lock is held by the instance, by its restart, and by a second instance. *)
Definition second_instance : InstanceConfig AppRuntimeCalls :=
  MkInstance (Arr [1; 2]) 16 false 1 10 calls None (MkConfig (100, 200) false) (Ok tt) (Ok tt).
Lemma app_locks_witness :
  exists c1, app_try_lock (H0 := app_runtime_calls []) (Str [97]) app_ctx = (Ok tt, c1) /\
    (app_try_lock (H0 := app_runtime_calls []) (Str [97]) c1).1 = Err ConditionError /\
    (app_try_lock (H0 := app_runtime_calls []) (Str [97]) (instance_ctx 0 (MkFs ∅ []) 0%nat second_instance)).1 = Ok tt.
Proof.
  eexists. split; [reflexivity|].
  destruct (app_locks [] (Str [97]) app_ctx _ eq_refl) as (Hheld & _ & Hsecond & _).
  split; [apply Hheld; reflexivity|].
  apply (Hsecond 0 (MkFs ∅ []) 0%nat second_instance (worker_new (MkArgs 0 3 10)) 0 []). reflexivity.
Defined.
