(* ===== verification/Signing.v ===== *)
(** * Signed statements of a worker (wapod/src/prpc_service.rs; wapod-types/src/worker.rs, ticket.rs, bench_app.rs)

    What the worker signs or has attested on request of its operator, and how the
    chain and other clients verify it. *)
From S2P Require Import Prelude OcallError ArgsStack Ocall OcallDef Meter Resource HostTasks GuestTasks Blobs VmContext VmFacts LinearMemory Run TcpAcl Worker WorkerFacts Types Prices AppRuntime.

(** ** Data *)
Record WorkerRegistrationInfoV2 : Type := MkRegistration {
  reg_version : Z;
  machine_id : bytes;
  reg_pubkey : bytes;
  ecdh_pubkey : bytes;
  genesis_block_hash : bytes;
  features : list Z;
  reg_operator : option bytes;
  para_id : Z;
  max_consensus_version : Z
}.
Inductive AttestationReport : Type := SgxIas | SgxDcap (quote : bytes) (collateral : option unit).
Inductive VersionedWorkerEndpoints : Type := EndpointsV1 (endpoints : list bytes).
Record WorkerEndpointPayload : Type := MkEndpoints {
  ep_pubkey : bytes;
  versioned_endpoints : VersionedWorkerEndpoints;
  signing_time : Z
}.
(** [WorkerDescription], whose text is a [BoundedString<1024>]. *)
Record Description : Type := MkDescription { wd_prices : Prices; description : bytes }.
Record SignedWorkerDescription : Type := MkSigned {
  worker_description : Description;
  sd_signature : bytes;
  sd_pubkey : bytes
}.
(** [bench_app::SignedMessage]. *)
Record BenchScore : Type := MkScore {
  gas_per_second : Z;
  score_gas : Z;
  timestamp_secs : Z;
  score_token : MetricsToken
}.
Inductive SigningMessage : Type := SmBenchScore (score : BenchScore).
Record SignedMessage : Type := MkSignedMessage {
  sm_message : SigningMessage;
  sm_signature : bytes;
  sm_pubkey : bytes;
  sm_app_address : bytes
}.

Definition compat_app_version : Z :=
  let '(major, minor, patch) := (3, 0, 0) in
  wrap U32 (wrap U32 (Z.shiftl major 16) + wrap U32 (Z.shiftl minor 8) + patch).

Section Signing.
Context `{KeysLawful} (sk : bytes).
Context `{ScaleCodec WorkerRegistrationInfoV2, ScaleCodec WorkerEndpointPayload, ScaleCodec SigningMessage}.
(** A description is encoded as the pair of its fields. *)
Context `{ScaleCodec (Prices * bytes)}.
Definition description_encode (d : Description) : bytes := scale_encode (wd_prices d, description d).
(** [Decode for BoundedString]. *)
Definition description_decode (b : bytes) : option Description :=
  '(p, s) ← scale_decode b;
  if 1024 <? zlen s then None else Some (MkDescription p s).

(** ** The calls; the arguments have accessors that decode their fields. *)
Definition sign_register_info (decode_genesis_block_hash : result anyhow bytes)
  (decode_operator : result anyhow (option bytes)) (para_id : Z)
  : result anyhow (WorkerRegistrationInfoV2 * option AttestationReport) :=
  let pubkey := public_of sk in
  genesis ← decode_genesis_block_hash;
  operator ← decode_operator;
  let runtime_info := MkRegistration compat_app_version [] pubkey pubkey genesis [] operator para_id 0 in
  let report := (fun quote => SgxDcap quote None) <$> sgx_quote WorkerAttestation (scale_encode runtime_info) in
  Ok (runtime_info, report).

(** [now] is the time since the epoch, which fails before it. *)
Definition sign_endpoints (now : result anyhow Z) (endpoints : list bytes)
  : result anyhow (WorkerEndpointPayload * bytes) :=
  millis ← context "failed to get time" now;
  let payload := MkEndpoints (public_of sk) (EndpointsV1 endpoints) (wrap U64 millis) in
  Ok (payload, pair_sign sr25519_sign sk EndpointInfo (scale_encode payload)).

Definition sign_worker_description (decode_prices : result anyhow Prices) (text : bytes)
  : result anyhow SignedWorkerDescription :=
  prices ← decode_prices;
  let d := MkDescription prices text in
  Ok (MkSigned d (pair_sign sr25519_sign sk WorkerDescription (description_encode d)) (public_of sk)).

(** ** Verification *)
Definition verify_description (s : SignedWorkerDescription) : bool :=
  verify_message sr25519_verify WorkerDescription (description_encode (worker_description s)) (sd_signature s) (sd_pubkey s).
Definition verify_bench_message (s : SignedMessage) : bool :=
  verify_app_data sr25519_verify (sm_app_address s) (scale_encode (sm_message s)) (sm_signature s) (sm_pubkey s).
End Signing.

(** ** What the signatures say *)
Section Facts.
Context `{KeysLawful} (sk : bytes).
Context `{ScaleCodec WorkerRegistrationInfoV2, ScaleCodec WorkerEndpointPayload, ScaleCodec SigningMessage}.
Context `{ScaleCodec (Prices * bytes), !ScaleLawful (Prices * bytes)}.

Lemma verify_pair_sign c m :
  verify_message sr25519_verify c m (pair_sign sr25519_sign sk c m) (public_of sk) = true.
Proof. apply verify_sign. Qed.

(** What an operator has signed verifies as what it is: endpoints under the
    worker's key, with the time truncated to 64 bits; a description as signed by
    the worker, while it can be decoded by the receiver exactly when its text has
    at most 1024 bytes; an attestation that commits to the registration data. *)
Theorem statements_verify :
  (forall now eps p s, sign_endpoints sk now eps = Ok (p, s) ->
     verify_message sr25519_verify EndpointInfo (scale_encode p) s (public_of sk) = true /\
     versioned_endpoints p = EndpointsV1 eps /\ ep_pubkey p = public_of sk) /\
  (forall prices text, exists s, sign_worker_description sk (Ok prices) text = Ok s /\
     verify_description s = true /\
     description_decode (description_encode (worker_description s)) =
       if 1024 <? zlen text then None else Some (MkDescription prices text)) /\
  (forall g o para info report, sign_register_info sk g o para = Ok (info, report) ->
     report = (fun q => SgxDcap q None) <$> attest (blake2_256 (scale_encode info) ++ replicate 32 0) /\
     reg_pubkey info = public_of sk /\ reg_version info = 196608).
Proof.
  split_and!.
  - intros [now|] eps p s; [|done]. intros [= <- <-]. split; [|done]. apply verify_pair_sign.
  - intros prices text. eexists. split; [done|]. split; [apply verify_pair_sign|].
    unfold description_decode, description_encode. rewrite scale_decode_encode. simpl. done.
  - intros [g|] [o|] para info report; try done. by intros [= <- <-].
Qed.

(** The score that a benchmark app has signed through its runtime calls verifies
    as the bridge submits it. *)
Theorem bench_message_verifies `{IpNetsLawful} (r : AppRuntimeCalls) message :
  verify_bench_message
    (MkSignedMessage message (rc_sign_app_data (RuntimeCalls := app_runtime_calls sk) (scale_encode message) r)
       (public_of sk) (art_address r)) = true.
Proof. apply verify_sign. Qed.
End Facts.
