(* ===== verification/Bench.v ===== *)
(** * The benchmark app (examples/benchmark/src/query.rs, bench.rs, httptime/src/lib.rs)

    The app whose signed scores the chain accepts: every minute it measures how much
    gas the worker's app has consumed, checks the local clock against the time of
    web servers, and publishes the score to its queries. *)
From Stdlib Require Import SpecFloat.
From S2P Require Import Prelude OcallError ArgsStack Ocall OcallDef Meter Resource HostTasks GuestTasks Blobs VmContext VmFacts LinearMemory Run TcpAcl Worker WorkerFacts Types Prices AppRuntime Signing.

(** ** Floating point numbers: binary64 of IEEE 754 *)
Abbreviation prec := 53.
Abbreviation emax := 1024.
Definition f64_of_Z (z : Z) : spec_float := binary_normalize prec emax z 0 false.
Definition f64_add (a b : spec_float) : spec_float := SFadd prec emax a b.
Definition f64_sub (a b : spec_float) : spec_float := SFsub prec emax a b.
Definition f64_div (a b : spec_float) : spec_float := SFdiv prec emax a b.
Definition f64_gt (a b : spec_float) : bool := SFltb b a.

(** [Duration] in nanoseconds. *)
Definition NANOS : Z := 1000000000.
Definition as_secs (d : Z) : Z := d `div` NANOS.
Definition as_secs_f64 (d : Z) : spec_float :=
  f64_add (f64_of_Z (as_secs d)) (f64_div (f64_of_Z (d `mod` NANOS)) (f64_of_Z NANOS)).

(** ** The loop that consumes gas (bench.rs) *)
Section Burn.
Context (sha256 : bytes -> bytes).
Definition burn_init : bytes := sha256 (lit "init").
(** One poll of [benchmark]: a round of hashes, after which [breath] is pending once, so
    that the queries are served between two rounds. *)
Definition hashes_per_round : nat := Z.to_nat 10000.
Definition burn_poll (buffer : bytes) : bytes := Nat.iter hashes_per_round sha256 buffer.
Lemma burn_polls n : Nat.iter n burn_poll burn_init = Nat.iter (S (n * hashes_per_round)) sha256 (lit "init").
Proof.
  induction n as [|n IH]; [done|]. cbn [Nat.iter nat_rect]. change (nat_rect _ burn_init _ n) with (Nat.iter n burn_poll burn_init).
  rewrite IH. unfold burn_poll. rewrite <- Nat.iter_add. by rewrite Nat.add_succ_r.
Qed.
End Burn.

(** ** Time from the web (httptime) *)
Record HttpUri : Type := MkUri {
  u_scheme : option bytes;
  u_host : option bytes;
  u_port : option Z;
  u_authority : option bytes;
  u_path : bytes
}.
Record HeadRequest : Type := MkHeadRequest { rq_uri : bytes; rq_host : bytes }.

Section HttpTime.
(** hyper's URIs, connections and requests, and the crate httpdate; times are in
    nanoseconds from the epoch. *)
Context {Stream Sender : Type} (parse_uri : bytes -> result anyhow HttpUri)
  (connect : bytes -> Z -> bool -> result anyhow Stream) (handshake : Stream -> result anyhow Sender)
  (send_request : Sender -> HeadRequest -> result anyhow (Z * list (bytes * bytes)))
  (parse_http_date : bytes -> result anyhow Z).

(** [runtime::head] in the guest; the outer result is a panic. *)
Definition head_request (url : bytes) : result string (result anyhow (list (bytes * bytes))) :=
  match parse_uri url with
  | Err e => Ok (Err e)
  | Ok u =>
    match u_host u with
    | None => Err "uri has no host"
    | Some host =>
      let is_tls := default false ((fun s => bool_decide (s = lit "https")) <$> u_scheme u) in
      let port := default (if is_tls then 443 else 80) (u_port u) in
      Ok (stream ← connect host port is_tls;
          authority ← ok_or (u_authority u) (Msg "uri has no authority");
          sender ← handshake stream;
          '(status, headers) ← context "request failed" (send_request sender (MkHeadRequest (u_path u) authority));
          if (200 <=? status) && (status <? 300) then Ok headers else Err (Msg "Request failed"))
    end
  end.

(** [HeaderMap::get] of a lower case name, and [HeaderValue::to_str]. *)
Definition header_get (name : bytes) (headers : list (bytes * bytes)) : option bytes :=
  snd <$> find (fun h => bool_decide (h.1 = name)) headers.
Definition visible (c : Z) : bool := (32 <=? c) && (c <? 127) || (c =? 9).
Definition to_str (v : bytes) : option bytes := if forallb visible v then Some v else None.
(** [get_time]; [fetched] is what the request gave, unless the time ran out. *)
Definition get_time (fetched : option (result anyhow (list (bytes * bytes)))) : result anyhow Z :=
  headers ← ok_or fetched (Msg "request timeout");
  headers ← context "failed to fetch headers" headers;
  value ← ok_or (header_get (lit "date") headers) (Msg "no date header");
  value ← ok_or (to_str value) (Msg "invalid date header");
  context "failed to parse date" (parse_http_date value).
End HttpTime.

(** [net_now]: the first server that gives a time, in the order in which they answer. *)
Fixpoint net_now (answers : list (result anyhow Z)) : result anyhow Z :=
  match answers with
  | [] => Err (Msg "all servers failed")
  | Ok t :: _ => Ok t
  | Err _ :: answers => net_now answers
  end.

(** ** The score *)
Definition MAX_DIFF : spec_float := f64_of_Z 5.
Definition diff_too_large (local net : Z) : bool :=
  f64_gt (SFabs (f64_sub (as_secs_f64 local) (as_secs_f64 net))) MAX_DIFF.

Section App.
Context `{IpNetsLawful, KeysLawful} (sk : bytes).
Context {W : Type} `{Tokio W, !Host W, Digest, Aead}.
Context `{ScaleCodec SigningMessage, ScaleCodec SignedMessage}.
(** serde_json, and the version of the package. *)
Context (to_json : BenchScore -> result anyhow bytes) (version : bytes).
Abbreviation ctx := (WapoCtx W AppRuntimeCalls).

(** [expect] on an ocall. *)
Definition call_now {A} (msg : string) (m : M ctx OcallError A) (c : ctx) : result string A :=
  match (m c).1 with Ok a => Ok a | Err _ => Err msg end.

(** What happens around a round: the answers of the servers, the instance's context at
    the two calls, and the local clock. *)
Record Round : Type := MkRound {
  answers_start : list (result anyhow Z);
  ctx_start : ctx;
  local_elapsed : Z;
  ctx_end : ctx;
  answers_end : list (result anyhow Z)
}.
(** A round of [score_update]: a panic, or the score it sends, if any. *)
Definition score_round (r : Round) : result string (option BenchScore) :=
  let net_start_time := net_now (answers_start r) in
  '(gas_at_start, _) ← call_now "failed to get gas consumed" (app_gas_consumed (H0 := app_runtime_calls sk)) (ctx_start r);
  '(gas_at_end, token) ← call_now "failed to get gas consumed" (app_gas_consumed (H0 := app_runtime_calls sk)) (ctx_end r);
  let net_end_time := net_now (answers_end r) in
  match net_start_time, net_end_time with
  | Ok t0, Ok t1 =>
    if t1 <? t0 then Ok None
    else if diff_too_large (local_elapsed r) (t1 - t0) then Ok None
    else
      let gas_diff := sat_sub (int_val gas_at_end) (int_val gas_at_start) in
      if as_secs (local_elapsed r) =? 0 then Err "attempt to divide by zero" else
      let score := gas_diff `div` as_secs (local_elapsed r) in
      if t1 <? 0 then Err "failed to get timestamp" else
      Ok (Some (MkScore score (int_val gas_at_end) (as_secs t1) token))
  | _, _ => Ok None
  end.

Definition BenchScore_default : BenchScore := MkScore 0 0 0 default_token.

(** [handle_query]: the outer result is a panic. *)
Definition handle_query (score : BenchScore) (path : bytes) (c : ctx) : result string (result anyhow bytes) :=
  if bool_decide (path = lit "/version") then Ok (Ok version)
  else if bool_decide (path = lit "/score") then Ok (context "failed to serialize score" (to_json score))
  else if bool_decide (path = lit "/signedScore") then
    let message := SmBenchScore score in
    signature ← call_now "ocall::sign never fails" (sign (H0 := app_runtime_calls sk) (scale_encode message)) c;
    address ← call_now "failed to get app address" app_address c;
    pubkey ← call_now "failed to get worker pubkey" (worker_pubkey (H0 := app_runtime_calls sk)) c;
    Ok (Ok (scale_encode (MkSignedMessage message signature (arr_bytes pubkey) (arr_bytes address))))
  else Ok (Err (Msg "unknown path")).

(** ** The app *)
Inductive bench_phase : Type := Serving | Panicked | Finished.
(** The score that queries see, the channel of one score, a score that waits for room
    in it, and the replies given, with the context of each. *)
Record BenchApp : Type := MkBench {
  b_phase : bench_phase;
  b_score : BenchScore;
  b_chan : option BenchScore;
  b_waiting : option BenchScore;
  b_replies : list (ctx * bytes * result anyhow bytes)
}.
Definition bench_init : BenchApp := MkBench Serving BenchScore_default None None [].
Definition panicked (s : BenchApp) : BenchApp := MkBench Panicked (b_score s) (b_chan s) (b_waiting s) (b_replies s).
Definition finished (s : BenchApp) : BenchApp := MkBench Finished (b_score s) (b_chan s) (b_waiting s) (b_replies s).

Inductive bench_op : Type := BRound (r : Round) | BRecv | BQuery (path : bytes) (c : ctx) | BQueriesEnd.
(** The task [score_update] and the branches of [query_serve]'s loop. *)
Definition bench_step (s : BenchApp) (op : bench_op) : BenchApp :=
  match b_phase s with
  | Serving =>
    match op with
    | BRound r =>
      match b_waiting s with
      | Some _ => s
      | None =>
        match score_round r with
        | Err _ => panicked s
        | Ok None => s
        | Ok (Some sc) =>
          match b_chan s with
          | None => MkBench Serving (b_score s) (Some sc) None (b_replies s)
          | Some _ => MkBench Serving (b_score s) (b_chan s) (Some sc) (b_replies s)
          end
        end
      end
    | BRecv =>
      match b_chan s with
      | None => s
      | Some sc => MkBench Serving sc (b_waiting s) None (b_replies s)
      end
    | BQuery path c =>
      match handle_query (b_score s) path c with
      | Err _ => panicked s
      | Ok reply => MkBench Serving (b_score s) (b_chan s) (b_waiting s) (b_replies s ++ [(c, path, reply)])
      end
    | BQueriesEnd => finished s
    end
  | _ => s
  end.

(** ** What is published *)

(** A score of a round: both times are known and in order, the clocks agree, and the
    figures come from the worker's metrics at the two calls. *)
Definition score_of (r : Round) (sc : BenchScore) : Prop := exists t0 t1 g0 tok0 g1,
  net_now (answers_start r) = Ok t0 /\ net_now (answers_end r) = Ok t1 /\ t0 <= t1 /\
  diff_too_large (local_elapsed r) (t1 - t0) = false /\
  (app_gas_consumed (H0 := app_runtime_calls sk) (ctx_start r)).1 = Ok (Int g0, tok0) /\
  (app_gas_consumed (H0 := app_runtime_calls sk) (ctx_end r)).1 = Ok (Int g1, score_token sc) /\
  score_gas sc = g1 /\ timestamp_secs sc = as_secs t1 /\
  gas_per_second sc = Z.max 0 (g1 - g0) `div` as_secs (local_elapsed r).
Lemma score_round_sound r sc : score_round r = Ok (Some sc) -> score_of r sc.
Proof.
  unfold score_round, call_now.
  destruct (app_gas_consumed (ctx_start r)).1 as [[[g0] tok0]|] eqn:H0'; [|done].
  destruct (app_gas_consumed (ctx_end r)).1 as [[[g1] tok1]|] eqn:H1'; [|done]. simpl.
  destruct (net_now (answers_start r)) as [t0|] eqn:Ht0; [|done]. destruct (net_now (answers_end r)) as [t1|] eqn:Ht1; [|done].
  destruct (Z.ltb_spec t1 t0); [done|]. destruct (diff_too_large _ _) eqn:Hd; [done|].
  destruct (as_secs (local_elapsed r) =? 0); [done|]. destruct (t1 <? 0); [done|]. intros [= <-].
  exists t0, t1, g0, tok0, g1. simpl. split_and!; done.
Qed.

(** Scores are published in the order in which they are made: what a run makes, and
    what of it is waiting in the end. *)
Fixpoint made (s : BenchApp) (ops : list bench_op) : list BenchScore :=
  match ops with
  | [] => []
  | op :: ops =>
    match b_phase s, op, b_waiting s with
    | Serving, BRound r, None => match score_round r with Ok (Some sc) => [sc] | _ => [] end
    | _, _, _ => []
    end ++ made (bench_step s op) ops
  end.
Definition in_transit (s : BenchApp) : list BenchScore := option_list (b_chan s) ++ option_list (b_waiting s).
Definition chan_ok (s : BenchApp) : Prop := b_chan s = None -> b_waiting s = None.
Lemma bench_step_chan s op : chan_ok s -> chan_ok (bench_step s op).
Proof. unfold chan_ok, bench_step. intros Hs. repeat case_match; simpl; try done; naive_solver. Qed.
Lemma bench_run_order ops : forall s, chan_ok s ->
  let s' := foldl bench_step s ops in
  exists taken, in_transit s ++ made s ops = taken ++ in_transit s' /\ b_score s' = default (b_score s) (last taken).
Proof.
  induction ops as [|op ops IH]; intros s Hs; simpl; [exists []; by rewrite app_nil_r|].
  destruct (IH _ (bench_step_chan s op Hs)) as (taken & Heq & Hsc).
  assert (Hstep : exists now, in_transit s ++
    match b_phase s, op, b_waiting s with
    | Serving, BRound r, None => match score_round r with Ok (Some sc) => [sc] | _ => [] end
    | _, _, _ => []
    end = now ++ in_transit (bench_step s op) /\ b_score (bench_step s op) = default (b_score s) (last now)).
  { unfold chan_ok in Hs. destruct s as [ph sc ch wt rp]. unfold bench_step, in_transit. simpl in *.
    destruct ph; simpl; [|exists []; by rewrite app_nil_r..].
    destruct op as [r| |path c|].
    - destruct wt; simpl; [exists []; by rewrite app_nil_r|].
      destruct (score_round r) as [[x|]|]; simpl; [|exists []; by rewrite app_nil_r..].
      destruct ch; exists []; done.
    - destruct ch as [x|]; simpl; [exists [x]; by rewrite !app_nil_r|exists []; by rewrite app_nil_r].
    - destruct (handle_query sc path c); exists []; by rewrite app_nil_r.
    - exists []; by rewrite app_nil_r. }
  destruct Hstep as (now & Hnow & Hnsc). exists (now ++ taken). split.
  - rewrite app_assoc, Hnow, <- app_assoc, Heq. by rewrite app_assoc.
  - rewrite Hsc, Hnsc. rewrite last_app. by destruct (last taken).
Qed.

Definition published (rounds : list Round) (sc : BenchScore) : Prop :=
  sc = BenchScore_default \/ exists r, r ∈ rounds /\ score_of r sc.
Definition rounds_of (ops : list bench_op) : list Round := omap (fun op => match op with BRound r => Some r | _ => None end) ops.
(** A reply to a query for the signed score. *)
Definition signed_reply (sc : BenchScore) (c : ctx) (reply : result anyhow bytes) : Prop :=
  arr_bytes (id c) = art_address (runtime_calls c) ->
  exists m, reply = Ok (scale_encode m) /\ sm_message m = SmBenchScore sc /\
    verify_bench_message m = true /\ sm_pubkey m = public_of sk.
Lemma signed_score sc c reply : handle_query sc (lit "/signedScore") c = Ok reply -> signed_reply sc c reply.
Proof.
  unfold handle_query. rewrite !bool_decide_false by done. rewrite bool_decide_true by done. unfold call_now, sign, checked_payload, gas.
  m_unfold. destruct (MAX_SIGN_SIZE <? _); simpl; [done|]. intros [= <-] Hid. eexists. split; [done|]. simpl. split; [done|].
  split; [|done]. unfold verify_bench_message. simpl. rewrite Hid. apply verify_sign.
Qed.

Record bench_inv (rounds : list Round) (s : BenchApp) : Prop := {
  bi_score : published rounds (b_score s);
  bi_chan : forall sc, b_chan s = Some sc -> published rounds sc;
  bi_waiting : forall sc, b_waiting s = Some sc -> published rounds sc;
  bi_replies : forall c reply, (c, lit "/signedScore", reply) ∈ b_replies s ->
    exists sc, published rounds sc /\ signed_reply sc c reply
}.
Lemma published_more rounds more sc : published rounds sc -> published (rounds ++ more) sc.
Proof. intros [->|(r & Hr & Hs)]; [by left|right; exists r; split; [apply elem_of_app; auto|done]]. Qed.
Lemma bench_inv_more rounds more s : bench_inv rounds s -> bench_inv (rounds ++ more) s.
Proof.
  intros []. split; [by apply published_more|intros; apply published_more; auto..|].
  intros c reply Hin. destruct (bi_replies0 _ _ Hin) as (sc & ? & ?). exists sc. split; [by apply published_more|done].
Qed.
Lemma bench_step_inv rounds s op : bench_inv rounds s -> bench_inv (rounds ++ rounds_of [op]) (bench_step s op).
Proof.
  intros Hs. pose proof (bench_inv_more rounds (rounds_of [op]) s Hs) as Hm. unfold bench_step.
  destruct (b_phase s); [|done..]. destruct op as [r| |path c|].
  - destruct (b_waiting s); [done|].
    destruct (score_round r) as [[sc|]|] eqn:Hr; [|done|by destruct Hm].
    assert (Hp : published (rounds ++ rounds_of [BRound r]) sc).
    { right. exists r. split; [apply elem_of_app; right; by left|by apply score_round_sound]. }
    destruct Hm. destruct (b_chan s) eqn:Hc; split; simpl; try done; naive_solver.
  - destruct (b_chan s) as [sc|] eqn:Hc; [|done]. destruct Hm. split; simpl; try done; naive_solver.
  - destruct (handle_query (b_score s) path c) as [reply|] eqn:Hq; [|by destruct Hm]. destruct Hm. split; simpl; try done.
    intros c' reply' [Hin|Hin]%elem_of_app; [by apply bi_replies0|].
    apply list_elem_of_singleton in Hin as [= -> <- ->]. exists (b_score s). split; [done|by apply signed_score].
  - by destruct Hm.
Qed.
Lemma bench_run_inv ops : bench_inv (rounds_of ops) (foldl bench_step bench_init ops).
Proof.
  assert (Hr : forall rounds s, bench_inv rounds s -> bench_inv (rounds ++ rounds_of ops) (foldl bench_step s ops)).
  { induction ops as [|op ops IH]; intros rounds s Hs; simpl; [by rewrite app_nil_r|].
    apply (bench_step_inv _ _ op), IH in Hs. unfold rounds_of in *. by rewrite <- app_assoc, <- omap_app in Hs. }
  apply (Hr [] bench_init). split; simpl; try done; [by left|set_solver].
Qed.

(** C29: the scores that a benchmark app publishes.  In every run, whatever the
    servers, the clock and the queries do: scores reach the queries in the order in
    which they are made, none is skipped; and a reply to a query for the signed
    score has the initial zero score or one of a round in which web servers gave
    both times, in order, the local clock agreed with them up to five seconds in
    floating point arithmetic, and the figures are those of the worker's metrics at the two
    calls; and it is signed so that it verifies for this app and worker. *)
Theorem bench_scores_honest ops :
  let s := foldl bench_step bench_init ops in
  (exists taken, made bench_init ops = taken ++ in_transit s /\ b_score s = default BenchScore_default (last taken)) /\
  forall c reply, (c, lit "/signedScore", reply) ∈ b_replies s ->
    arr_bytes (id c) = art_address (runtime_calls c) ->
    exists m sc, reply = Ok (scale_encode m) /\ sm_message m = SmBenchScore sc /\ verify_bench_message m = true /\
      sm_pubkey m = public_of sk /\
      (sc = BenchScore_default \/ exists r, BRound r ∈ ops /\ score_of r sc).
Proof.
  intros s. split.
  - apply (bench_run_order ops bench_init). done.
  - intros c reply Hin Hid. destruct (bi_replies _ _ (bench_run_inv ops) c reply Hin) as (sc & Hp & Hs).
    destruct (Hs Hid) as (m & -> & Hm & Hv & Hk). exists m, sc. split_and!; try done.
    destruct Hp as [->|(r & Hr & Hsc)]; [by left|]. right. exists r. split; [|done].
    apply list_elem_of_omap in Hr as (op & Hop & Heq). by destruct op; simplify_eq.
Qed.
End App.

(** Five seconds more or less are accepted, a nanosecond more is not. *)
Example clock_differences :
  diff_too_large (65 * NANOS) (60 * NANOS) = false /\ diff_too_large (65 * NANOS + 1) (60 * NANOS) = true /\
  diff_too_large (60 * NANOS) (65 * NANOS) = false /\ diff_too_large (60 * NANOS - 1) (65 * NANOS) = true /\
  diff_too_large (60 * NANOS) (10 ^ 15 * NANOS) = true.
Proof. vm_compute. repeat split. Qed.
Example first_answer : net_now [Err (Msg "down"); Ok 7; Ok 9] = Ok 7.
Proof. reflexivity. Qed.

(** A round in which the clocks disagree, one of 61 seconds, and a query. *)
Module ToyBench.
Import ToyNets ToyApp.
#[export] Instance message_codec : ScaleCodec SigningMessage := {|
  scale_encode m := let '(SmBenchScore sc) := m in [gas_per_second sc; score_gas sc; timestamp_secs sc; mt_sn (score_token sc)];
  scale_decode _ := None
|}.
#[export] Instance signed_codec : ScaleCodec SignedMessage := {|
  scale_encode m := scale_encode (sm_message m) ++ sm_signature m;
  scale_decode _ := None
|}.
Definition ctx1 : WapoCtx nat AppRuntimeCalls :=
  WapoCtx_new (Arr (replicate 32 7)) calls (MkFs ∅ []) (Meter_default 0) (MkConfig (100, 200) false) 0%nat.
Definition round (t1 : Z) : Round := MkRound [Ok (1000 * NANOS)] ctx1 (61 * NANOS) ctx1 [Err (Msg "down"); Ok (t1 * NANOS)].
Definition ops : list bench_op := [BRound (round 1070); BRound (round 1060); BRecv].
Definition query : bench_op := BQuery (lit "/signedScore") ctx1.
End ToyBench.
Import ToyNets ToyApp ToyBench.
Lemma bench_scores_honest_witness :
  let step := bench_step [9] (fun _ => Ok []) [] in
  let s := foldl step bench_init (ToyBench.ops ++ [query]) in
  timestamp_secs (b_score s) = 1060 /\
  exists reply m sc, (ctx1, lit "/signedScore", reply) ∈ b_replies s /\ reply = Ok (scale_encode m) /\
    sm_message m = SmBenchScore sc /\ verify_bench_message m = true /\
    (sc = BenchScore_default \/ exists r, BRound r ∈ ToyBench.ops ++ [query] /\ score_of [9] r sc).
Proof.
  intros step s. split; [vm_compute; reflexivity|].
  destruct (bench_scores_honest [9] (fun _ => Ok []) [] (ToyBench.ops ++ [query])) as [_ Hr].
  set (s1 := foldl step bench_init ToyBench.ops).
  destruct (handle_query [9] (fun _ => Ok []) [] (b_score s1) (lit "/signedScore") ctx1) as [reply|] eqn:Hq;
    [|vm_compute in Hq; discriminate].
  assert (Hin : (ctx1, lit "/signedScore", reply) ∈ b_replies s).
  { unfold s. rewrite foldl_app. change (foldl step bench_init ToyBench.ops) with s1. cbn [foldl]. unfold step, bench_step, query.
    replace (b_phase s1) with Serving by (vm_compute; reflexivity). rewrite Hq. simpl. by left. }
  destruct (Hr ctx1 reply Hin eq_refl) as (m & sc & H1 & H2 & H3 & _ & H4). exists reply, m, sc. split_and!; done.
Defined.
