(* ===== verification/Rpc.v ===== *)
(** * The worker's RPC service (wapod/src/prpc_service.rs)

    Each remote call is a composition of the worker's operations; the messages'
    generated accessors and the libraries are parameters. *)
From S2P Require Import Prelude Ocall OcallDef Meter Service Worker WorkerFacts QuerySignature Types.

(** ** Queries *)
Section Query.
Context `{Libs}.

(** [f] runs, then the guard is dropped. *)
Definition with_guard {A} (now : Z) (g : QueryGuard) (m : WorkerM A) : WorkerM A := fun w =>
  let '(r, w) := m w in (r, (drop_guard now g w).2).

(** [Worker::query]; [reply] is what sending the query to an instance and waiting
    for its answer gives. *)
Definition query (now : Z) (order : list bytes) (address path payload : bytes)
  (started : result anyhow unit) (reply : Z -> result anyhow bytes) : WorkerM bytes :=
  guard ← with_context "failed to prepare query"
    (prepare_instance_for_query now order address (zlen payload + zlen path) started);
  with_guard now guard (sn ← query_target guard; lift (reply sn)).

(** [QueryArgs]; the signature is empty, or decodes to an optional signature. *)
Record QueryArgs : Type := MkQueryArgs {
  qa_address : bytes;
  qa_path : bytes;
  qa_payload : bytes;
  encoded_signature : bytes
}.
Context (decode_signature : bytes -> result anyhow (option QuerySignature))
  (decode_address : bytes -> result anyhow bytes).

(** The caller of a query. *)
Definition query_caller (request : QueryArgs) : result anyhow (option bytes) :=
  if bool_decide (encoded_signature request = []) then Ok None else
  sig ← decode_signature (encoded_signature request);
  match sig with
  | None => Ok None
  | Some sig =>
    let q := MkQuery (qa_address request) (qa_path request) (qa_payload request) in
    caller ← map_err (fun _ => Msg "failed to verify the signature")
      (verify_query (QuerySignature.signer sig) q (QuerySignature.signature sig)
         (QuerySignature.signature_type sig));
    Ok (Some caller)
  end.

(** [app_query]; the reply of an instance depends on the caller. *)
Definition app_query (now : Z) (order : list bytes) (request : QueryArgs)
  (started : result anyhow unit) (reply : option bytes -> Z -> result anyhow bytes) : WorkerM bytes :=
  caller ← lift (query_caller request);
  address ← lift (decode_address (qa_address request));
  query now order address (qa_path request) (qa_payload request) started (reply caller).
End Query.

(** ** Operations *)
Section Operations.
(** [AccountId32::from_string], the address accessor of a message, the hash of
    the session id, and the signing key. *)
Context (account_from_string : bytes -> result anyhow bytes)
  (decode_address : bytes -> result anyhow bytes)
  (blake2b_256 : bytes -> bytes) (key_sign : ContentType -> bytes -> bytes)
  (encode_update : SessionUpdate -> bytes).
Context `{ScaleCodec (list AppMetrics)} (encode_token : MetricsToken -> bytes).

Definition worker_init (cnonce pnonce recipient : bytes) : WorkerM (SessionUpdate * bytes) :=
  bail_if (64 <? zlen pnonce) (Msg "the salt is too long");;
  account ← lift (context "invalid account" (account_from_string recipient));
  update ← init blake2b_256 cnonce pnonce account;
  mret (update, key_sign CSessionUpdate (encode_update update)).

Definition app_deploy (now : Z) (order : list bytes) (size_hint : Z) (address rnd : bytes)
  (m : option AppManifest) (reuse_instances : bool) (started : result anyhow unit)
  : WorkerM (bytes * bytes) :=
  s ← gets session;
  bail_if (match s with None => true | Some _ => false end) (Msg "no worker session");;
  m ← lift (ok_or m (Msg "No manifest"));
  info ← with_context "failed to deploy app"
    (deploy_app now order size_hint address rnd m true reuse_instances started);
  mret (ai_address info, ai_session info).

Definition app_remove (address : bytes) : WorkerM unit :=
  address ← lift (decode_address address);
  remove_app address;;
  mret tt.

(** [resize_app_instances] of the worker without demand; [started] is what
    stopping and starting gave. *)
Definition resize_app (now : Z) (order : list bytes) (address : bytes) (count : Z)
  (started : result anyhow unit) : WorkerM unit :=
  resize_app_instances now order address count None;;
  lift started.
Definition app_start (now : Z) (order : list bytes) (address : bytes) (started : result anyhow unit) : WorkerM unit :=
  address ← lift (decode_address address);
  resize_app now order address 1 started.
Definition app_stop (now : Z) (order : list bytes) (address : bytes) (started : result anyhow unit) : WorkerM unit :=
  address ← lift (decode_address address);
  resize_app now order address 0 started.
Definition app_resize (now : Z) (order : list bytes) (address : bytes) (n : Z) (started : result anyhow unit) : WorkerM Z :=
  address ← lift (decode_address address);
  resize_app now order address n started;;
  number ← gets (num_instances_of address);
  lift (ok_or number (Msg "NotFound")).

(** The entry of an app in a report; a [Duration] is in nanoseconds. *)
Definition metrics_entry (now : Z) (e : bytes * AppState) : AppMetrics :=
  let '(address, app) := e in
  let m := app_metrics now app in
  MkAppMetrics address (app_session app) (wrap U64 (duration m `div` 1000000)) (gas_consumed m)
    (net_ingress m) (net_egress m) (Meter.storage_read m) (storage_written m) 0 0 (Meter.tip m)
    (Meter.starts m).

Definition decode_addresses (l : list bytes) : result anyhow (list bytes) :=
  foldr (fun a r => a ← decode_address a; l ← r; Ok (a :: l)) (Ok []) l.

(** [app_metrics]: the serial number is taken before the session is looked at. *)
Definition app_metrics_report (now : Z) (order addresses : list bytes) (nonce : bytes)
  : WorkerM (AppsMetrics * bytes) :=
  addresses ← lift (decode_addresses addresses);
  sn ← bump_metrics_sn;
  s ← gets session;
  s ← lift (ok_or s (Msg "no worker session"));
  apps ← gets (for_each_app order (if bool_decide (addresses = []) then None else Some addresses));
  let metrics := MkAppsMetrics {| mt_sn := sn; mt_session := s; mt_nonce := nonce |}
                   (MkBounded (metrics_entry now <$> apps)) in
  mret (metrics, key_sign CMetrics (0 :: encode_token (asm_token metrics) ++ bv_encode (asm_apps metrics))).

Definition app_list (now : Z) (order : list bytes) (start count : Z) : WorkerM (list AppInfo) :=
  gets (list_apps now order start (if 0 <? count then count else int_max U64)).

Definition rpc_set_bench_app (now : Z) (order : list bytes) (address : result anyhow (option bytes))
  (instances : Z) (started : result anyhow unit) : WorkerM unit :=
  let address := match address with Ok a => a | Err _ => None end in
  set_bench_app address instances;;
  match address with
  | Some address => resize_app now order address instances started
  | None => mret tt
  end.
End Operations.

Definition compat_app_version : Z := Z.shiftl 3 16 + Z.shiftl 0 8 + 0.

(** ** HTTP requests to an app *)
Inductive Status : Type := BadRequest | SNotFound | InternalServerError.
Abbreviation HttpM := (M WorkerState (Status * string)).

Definition anyhow_string (e : anyhow) : string := anyhow_display e.

(** [HexBytes::from_param] has decoded [id].  [stream] is what handing the request
    to an instance gives; the response keeps the guard. *)
Definition connect_vm {A} (now : Z) (order : list bytes) (id : bytes) (path : option bytes)
  (started : result anyhow unit) (stream : Z -> result anyhow A) : HttpM (A * QueryGuard) := fun w =>
  if negb (zlen id =? 32) then (Err (BadRequest, "invalid address"), w) else
  match prepare_instance_for_query now order id 0 started w with
  | (Err e, w) => (Err (SNotFound, anyhow_string e), w)
  | (Ok guard, w) =>
    let fail e := (Err e, (drop_guard now guard w).2) in
    match sender_for id 0 w with
    | None => fail (SNotFound, "")
    | Some sn =>
      match path with
      | None => fail (BadRequest, "invalid path")
      | Some _ =>
        match stream sn with
        | Ok r => (Ok (r, guard), w)
        | Err e => fail (InternalServerError, anyhow_string e)
        end
      end
    end
  end.

(** ** Which instance answers HTTP *)

(** Instances have been started, and number 0 is not running any more. *)
Definition first_gone (w : WorkerState) : Prop :=
  0 < next_run_sn w /\ forall a app, apps w !! a = Some app -> instances app !! 0 = None.

(** From [w] to [w'] the first instance stays gone, and at most [n] are started. *)
Definition stays_gone (n : Z) (w w' : WorkerState) : Prop :=
  first_gone w' /\ w_args w' = w_args w /\ next_run_sn w <= next_run_sn w' <= next_run_sn w + n.

Lemma stays_gone_refl n w : 0 <= n -> first_gone w -> stays_gone n w w.
Proof. intros ? ?. split_and!; try done; lia. Qed.
Lemma stays_gone_trans n m w w' w'' : stays_gone n w w' -> stays_gone m w' w'' -> stays_gone (n + m) w w''.
Proof. intros (_ & Ha & Hn) (Hg & Ha' & Hn'). split_and!; try congruence; try done; lia. Qed.

(** One app is replaced by one whose instances were there before. *)
Lemma gone_update n w a app app' : 0 <= n -> first_gone w -> apps w !! a = Some app ->
  (instances app !! 0 = None -> instances app' !! 0 = None) ->
  stays_gone n w (set_apps w (<[a := app']> (apps w))).
Proof.
  intros Hn0 [Hn Hg] Ha Hi. split_and!; try done; simpl; try lia. split; [done|]. simpl.
  intros b x [[<- <-]|[_ Hx]]%lookup_insert_Some; eauto.
Qed.

Lemma start_app_gone now a lim w : first_gone w -> next_run_sn w < int_max U64 ->
  stays_gone 1 w (start_app now a lim w).2.
Proof.
  intros [Hn Hg] Hmax. unfold start_app, get_app, put_app. m_unfold.
  destruct (apps w !! a) as [app|] eqn:Ha; simpl; [|apply stays_gone_refl; [lia|done]].
  destruct (_ && _); simpl; [apply stays_gone_refl; [lia|done]|].
  assert (Hw : wrap U64 (next_run_sn w + 1) = next_run_sn w + 1).
  { apply wrap_id, in_range_spec. unfold int_min. simpl. lia. }
  split_and!; simpl; rewrite ?Hw; try done; try lia. split; simpl; [lia|].
  intros b x [[<- <-]|[_ Hx]]%lookup_insert_Some; [|eauto]. simpl.
  rewrite lookup_insert_ne by lia. eauto.
Qed.

Lemma start_many_gone now a lim n : forall w, first_gone w -> next_run_sn w + Z.of_nat n <= int_max U64 ->
  stays_gone (Z.of_nat n) w (start_many now a lim n w).2.
Proof.
  induction n as [|n IH]; intros w Hw Hmax; cbn [start_many]; [by apply stays_gone_refl|].
  m_unfold. pose proof (start_app_gone now a lim w Hw ltac:(lia)) as H1.
  destruct (start_app now a lim w) as [[sn|e] w1]; cbn [snd] in *.
  - pose proof H1 as (Hg1 & _ & Hn1). specialize (IH w1 Hg1 ltac:(lia)).
    destruct (start_many now a lim n w1) as [[l|e] w2]; cbn [snd] in *;
      replace (Z.of_nat (S n)) with (1 + Z.of_nat n) by lia; by eapply stays_gone_trans.
  - destruct H1 as (? & ? & ?). split_and!; try done; lia.
Qed.

Lemma pop_instance_gone now app i app' : pop_instance now app = Some (i, app') ->
  instances app !! 0 = None -> instances app' !! 0 = None.
Proof.
  intros Hp H0. apply pop_instance_spec in Hp as (sn & _ & -> & _). by rewrite lookup_delete_None; right.
Qed.
Lemma pop_many_gone now n : forall app l app', pop_many now n app = Some (l, app') ->
  instances app !! 0 = None -> instances app' !! 0 = None.
Proof.
  induction n as [|n IH]; intros app l app'; cbn [pop_many]; [by intros [= <- <-]|].
  destruct (pop_instance now app) as [[i a1]|] eqn:Hp; simpl; [|done].
  destruct (pop_many now n a1) as [[l' a2]|] eqn:Hm; simpl; [|done]. intros [= <- <-] H0.
  eapply IH; [done|]. by eapply pop_instance_gone.
Qed.

Lemma evict_gone n now order : 0 <= n -> forall w, first_gone w -> stays_gone n w (evict now order w).2.
Proof.
  intros Hn. induction order as [|a order IH]; intros w Hw; cbn [evict]; [by apply stays_gone_refl|].
  destruct (apps w !! a) as [app|] eqn:Ha; [|by apply IH].
  destruct (resizable (manifest app)); [|by apply IH].
  destruct (pop_instance now app) as [[i app']|] eqn:Hp; [|by apply IH].
  eapply gone_update; eauto using pop_instance_gone.
Qed.

Lemma reserve_gone now order a w : first_gone w -> stays_gone 0 w (reserve_slot_if_needed now order a w).2.
Proof.
  intros Hw. unfold reserve_slot_if_needed, get_app. m_unfold.
  destruct (apps w !! a); simpl; [|by apply stays_gone_refl].
  destruct (negb _); simpl; [by apply stays_gone_refl|].
  destruct (0 <? _); simpl; [by apply stays_gone_refl|].
  pose proof (evict_gone 0 now order ltac:(lia) w Hw). by destruct (evict now order w) as [[]].
Qed.

Lemma resize_gone now order a count tmo w : first_gone w -> 0 <= max_instances (w_args w) ->
  next_run_sn w + max_instances (w_args w) <= int_max U64 ->
  stays_gone (max_instances (w_args w)) w (resize_app_instances now order a count tmo w).2.
Proof.
  intros Hw Hm Hmax. unfold resize_app_instances. set (K := max_instances (w_args w)) in *.
  match goal with |- stays_gone _ _ ((?m ≫= ?f) w).2 => set (pre := m); set (cont := f) end.
  assert (Hpre : stays_gone 0 w (pre w).2).
  { subst pre. destruct tmo; [by apply reserve_gone|by apply stays_gone_refl]. }
  unfold mbind, M_bind. destruct (pre w) as [[res|e] w1]; cbn [snd] in *.
  2: { destruct Hpre as (? & ? & ?). split_and!; try done; lia. }
  replace K with (0 + K) by lia. eapply stays_gone_trans; [exact Hpre|].
  destruct Hpre as (Hg1 & Ha1 & Hn1). subst cont. unfold get_app, put_app. m_unfold.
  destruct (apps w1 !! a) as [app|] eqn:Ha; cbn [ok_or]; [|by apply stays_gone_refl].
  destruct (n_instances app ?= count); [by apply stays_gone_refl|..].
  - destruct (_ && _); [by apply stays_gone_refl|].
    set (k := Z.to_nat (Z.min (available_slots w1) (count - n_instances app))).
    assert (Hk : Z.of_nat k <= K).
    { subst k K. pose proof (available_le_max w1). rewrite <- Ha1 in *. lia. }
    pose proof (start_many_gone now a tmo k w1 Hg1 ltac:(lia)) as (Hg2 & Ha2 & Hn2).
    destruct (start_many now a tmo k w1) as [[l|e] w2]; cbn [snd] in *; split_and!; try done; lia.
  - destruct (pop_many _ _ app) as [[l app']|] eqn:Hp; cbn [ok_or]; [|by apply stays_gone_refl].
    eapply gone_update; eauto using pop_many_gone.
Qed.

Lemma insert_app_gone n now a rnd m ar re w : 0 <= n -> first_gone w ->
  stays_gone n w (insert_app now a rnd m ar re w).2.
Proof.
  intros Hn0 [Hn Hg]. unfold insert_app. m_unfold.
  destruct (bool_decide _); simpl; [by apply stays_gone_refl|].
  split_and!; try done; simpl; try lia. split; [done|]. simpl.
  intros b x [[<- <-]|[_ Hx]]%lookup_insert_Some; [done|eauto].
Qed.

Lemma end_query_gone n now a i w : 0 <= n -> first_gone w -> stays_gone n w (end_query now a i w).2.
Proof.
  intros Hn Hw. unfold end_query, get_app, put_app. m_unfold.
  destruct (apps w !! a) as [app|] eqn:Ha; simpl; [|by apply stays_gone_refl]. destruct i as [sn|]; simpl.
  - destruct (instances app !! sn); simpl; [|by apply stays_gone_refl].
    eapply gone_update; eauto. simpl. intros H0. by rewrite lookup_delete_None; right.
  - eapply gone_update; eauto. case_match; done.
Qed.

Lemma begin_query_gone n a sz w : 0 <= n -> first_gone w -> stays_gone n w (begin_query a sz w).2.
Proof.
  intros Hn Hw. unfold begin_query, get_app, put_app. m_unfold.
  destruct (apps w !! a) as [app|] eqn:Ha; simpl; [|by apply stays_gone_refl].
  destruct (_ <? _); simpl; [by apply stays_gone_refl|]. by eapply gone_update.
Qed.

Lemma try_inc_gone now order a w : first_gone w -> 0 <= max_instances (w_args w) ->
  next_run_sn w + max_instances (w_args w) <= int_max U64 ->
  stays_gone (max_instances (w_args w)) w (try_inc_instances now order a w).2.
Proof.
  intros Hw Hm Hmax. unfold try_inc_instances, get_app. m_unfold.
  destruct (apps w !! a) as [app|]; simpl; [|by apply stays_gone_refl].
  destruct (_ <=? _); simpl; [by apply stays_gone_refl|].
  match goal with |- context [resize_app_instances ?n ?o ?b ?c ?t w] =>
    pose proof (resize_gone n o b c t w Hw Hm Hmax) as Hr;
    destruct (resize_app_instances n o b c t w) as [[[l1 l2]|e] w1] end; done.
Qed.

Lemma worker_step_gone w op : first_gone w -> 0 <= max_instances (w_args w) ->
  next_run_sn w + max_instances (w_args w) <= int_max U64 ->
  stays_gone (max_instances (w_args w)) w (worker_step w op).
Proof.
  intros Hw Hm Hmax. destruct op; simpl.
  - m_unfold. destruct (check_manifest size_hint m); [by apply insert_app_gone|by apply stays_gone_refl].
  - unfold deploy_app, get_app. m_unfold. destruct (check_manifest size_hint m); [|by apply stays_gone_refl].
    pose proof (insert_app_gone 0 now address rnd m auto_restart reuse w ltac:(lia) Hw) as H1.
    destruct (insert_app now address rnd m auto_restart reuse w) as [[[]|e] w1]; cbn [snd] in *.
    2: { destruct H1 as (? & ? & ?). split_and!; try done; lia. }
    replace (max_instances (w_args w)) with (0 + max_instances (w_args w)) by lia.
    eapply stays_gone_trans; [exact H1|]. destruct H1 as (Hg1 & Ha1 & Hn1). rewrite <- Ha1 in *.
    destruct (on_demand m); [case_match; by apply stays_gone_refl|].
    pose proof (resize_gone now order address 1 None w1 Hg1 Hm ltac:(lia)) as Hr.
    destruct (resize_app_instances now order address 1 None w1) as [[[l1 l2]|e] w2]; cbn [snd] in *; [|done].
    destruct started; [by case_match|done].
  - by apply resize_gone.
  - by apply try_inc_gone.
  - by apply begin_query_gone.
  - by apply end_query_gone.
  - unfold instance_stopped. destruct (apps w !! address) as [app|] eqn:Ha; [|by apply stays_gone_refl].
    destruct (instances app !! sn); [|by apply stays_gone_refl]. eapply gone_update; eauto.
    simpl. intros H0. by rewrite lookup_delete_None; right.
  - unfold remove_app, get_app. m_unfold. destruct (apps w !! address); simpl; [|by apply stays_gone_refl].
    destruct Hw as [Hn Hg]. split_and!; try done; simpl; try lia. split; [done|]. simpl.
    intros b app [_ Hb]%lookup_delete_Some. eauto.
  - destruct Hw as [Hn Hg]. split_and!; try done; simpl; lia.
  - destruct Hw as [Hn Hg]. split_and!; try done; simpl; lia.
  - destruct Hw as [Hn Hg]. unfold init. m_unfold. destruct (negb _); split_and!; try done; simpl; lia.
  - destruct Hw as [Hn Hg]. split_and!; try done; simpl; lia.
  - unfold set_vm_meter. destruct (apps w !! address) as [app|] eqn:Ha; [|by apply stays_gone_refl].
    destruct (instances app !! sn) as [i|] eqn:Hi; [|by apply stays_gone_refl]. eapply gone_update; eauto.
    simpl. intros H0. rewrite lookup_insert_ne; [done|]. intros ->. congruence.
Qed.

Lemma worker_run_gone ops : forall w, first_gone w -> 0 <= max_instances (w_args w) ->
  next_run_sn w + zlen ops * max_instances (w_args w) <= int_max U64 ->
  stays_gone (zlen ops * max_instances (w_args w)) w (foldl worker_step w ops).
Proof.
  induction ops as [|op ops IH]; intros w Hw Hm Hmax; cbn [foldl].
  - by apply stays_gone_refl.
  - rewrite zlen_cons in *. pose proof (zlen_nonneg ops).
    assert (0 <= zlen ops * max_instances (w_args w)) by nia.
    pose proof (worker_step_gone w op Hw Hm ltac:(lia)) as H1. pose proof H1 as (Hg1 & Ha1 & Hn1).
    replace ((1 + zlen ops) * max_instances (w_args w))
      with (max_instances (w_args w) + zlen ops * max_instances (w_args w)) by lia.
    eapply stays_gone_trans; [exact H1|]. rewrite <- Ha1. apply IH; [done|by rewrite Ha1|].
    rewrite Ha1. lia.
Qed.

Lemma prepare_gone now order a sz st w : first_gone w -> 0 <= max_instances (w_args w) ->
  next_run_sn w + max_instances (w_args w) <= int_max U64 ->
  first_gone (prepare_instance_for_query now order a sz st w).2.
Proof.
  intros Hw Hm Hmax. unfold prepare_instance_for_query.
  pose proof (begin_query_gone 0 a sz w ltac:(lia) Hw) as (Hg & Ha & Hn).
  unfold mbind at 1, M_bind at 1. destruct (begin_query a sz w) as [[[need reuse]|e] w1]; cbn [snd] in *; [|done].
  rewrite <- Ha in *. destruct need; cbn [negb]; [|done].
  assert (Hdrop : forall g w2, first_gone w2 -> first_gone (drop_guard now g w2).2).
  { intros g w2 H2. apply (end_query_gone 0 now (guard_address g) (instance_id g) w2 ltac:(lia) H2). }
  destruct reuse.
  - unfold or_drop, with_context. m_unfold.
    pose proof (resize_gone now order a 1 (Some (on_demand_connection_timeout (w_args w1))) w1 Hg Hm ltac:(lia)) as (Hr & _).
    destruct (resize_app_instances _ _ _ _ _ w1) as [[[l1 l2]|e] w2]; cbn [snd context map_err] in *; [|by apply Hdrop].
    destruct st; cbn [map_err snd]; [done|by apply Hdrop].
  - unfold or_drop. m_unfold. pose proof (try_inc_gone now order a w1 Hg Hm ltac:(lia)) as (Hr & _).
    destruct (try_inc_instances now order a w1) as [[sn|e] w2]; cbn [snd] in *; [done|by apply Hdrop].
Qed.

Lemma sender_for_gone a w : first_gone w -> sender_for a 0 w = None.
Proof.
  intros [_ Hg]. unfold sender_for. destruct (apps w !! a) as [app|] eqn:Ha; simpl; [|done].
  change (wrap U64 0) with 0. by rewrite (Hg _ _ Ha).
Qed.

(** Only the first instance a worker process ever starts can serve HTTP:
    once it has stopped, every HTTP request to any app, running or started for the
    request, is refused with "not found", whatever happens to the worker in
    between (as long as the 64-bit instance counter does not wrap around). *)
Theorem http_needs_first_instance {A} now order id path st (stream : Z -> result anyhow A) w ops :
  first_gone w -> 0 <= max_instances (w_args w) ->
  next_run_sn w + (zlen ops + 1) * max_instances (w_args w) <= int_max U64 -> zlen id = 32 ->
  exists text, (connect_vm now order id path st stream (foldl worker_step w ops)).1 = Err (SNotFound, text).
Proof.
  intros Hw Hm Hmax Hid. pose proof (zlen_nonneg ops).
  destruct (worker_run_gone ops w Hw Hm ltac:(nia)) as (Hg & Ha & Hn).
  set (w1 := foldl worker_step w ops) in *. unfold connect_vm. rewrite Hid. simpl.
  pose proof (prepare_gone now order id 0 st w1 Hg ltac:(by rewrite Ha) ltac:(rewrite Ha; lia)) as Hp.
  destruct (prepare_instance_for_query now order id 0 st w1) as [[g|e] w2]; cbn [snd] in Hp; [|by eexists].
  rewrite (sender_for_gone id w2 Hp). by eexists.
Qed.

(** Two apps with one instance each: the first has instance 0, the second 1. *)
Definition addr (b : Z) : bytes := replicate 32 b.
Definition two_apps : WorkerState := foldl worker_step (worker_new (MkArgs 0 3 10))
  [OpDeploy 0 [] 0 (addr 1) [] (manifest0 false false) false true (Ok tt);
   OpDeploy 0 [] 0 (addr 2) [] (manifest0 false false) false true (Ok tt);
   OpStopped 5 (addr 1) 0].
Lemma http_needs_first_instance_witness :
  running_instances two_apps = 1 /\ sender_for (addr 2) 1 two_apps = Some 1 /\
  exists text, (connect_vm 6 [] (addr 2) (Some []) (Ok tt) (fun sn => Ok sn)
    (foldl worker_step two_apps [OpRemove (addr 1)])).1 = Err (SNotFound, text).
Proof.
  split; [vm_compute; reflexivity|]. split; [vm_compute; reflexivity|].
  apply (http_needs_first_instance 6 [] (addr 2) (Some []) (Ok tt) (fun sn => Ok sn) two_apps
    [OpRemove (addr 1)]); [|vm_compute; discriminate..|vm_compute; reflexivity].
  split; [vm_compute; reflexivity|].
  change (map_Forall (fun _ app => instances app !! 0 = None) (apps two_apps)).
  apply (bool_decide_unpack _). vm_compute. exact I.
Defined.

(** ** The size of a metrics report *)
Section Report.
Context `{ScaleCodec (list AppMetrics), !ScaleLawful (list AppMetrics)}.
Context (decode_address : bytes -> result anyhow bytes) (key_sign : ContentType -> bytes -> bytes)
  (encode_token : MetricsToken -> bytes).

Lemma for_each_all order w : order ≡ₚ (map_to_list (apps w)).*1 ->
  zlen (for_each_app order None w) = Z.of_nat (size (apps w)).
Proof.
  intros Hp. unfold for_each_app. simpl. rewrite <- length_map_to_list. unfold zlen. f_equal.
  rewrite <- (length_fmap fst (map_to_list (apps w))), <- (Permutation_length Hp).
  assert (Hall : Forall (fun a => is_Some (apps w !! a)) order).
  { rewrite Hp. apply Forall_fmap, Forall_forall. intros [a app] Ha. simpl.
    apply elem_of_map_to_list in Ha. eauto. }
  clear Hp. induction Hall as [|a order [app Ha] Hall IH]; simpl; [done|]. rewrite Ha. simpl. f_equal. exact IH.
Qed.

(** A full metrics report has one entry per deployed app, whatever their
    number, while its receiver decodes at most 64: the report that the worker signs
    can be decoded exactly when no more than 64 apps are deployed. *)
Theorem metrics_report_decodable now order nonce w m sig w' :
  order ≡ₚ (map_to_list (apps w)).*1 ->
  app_metrics_report decode_address key_sign encode_token now order [] nonce w = (Ok (m, sig), w') ->
  zlen (bv (asm_apps m)) = Z.of_nat (size (apps w)) /\
  (bv_decode (bv_encode (asm_apps m)) = Some (asm_apps m) <->
   Z.of_nat (size (apps w)) <= MAX_APPS_METRICS).
Proof.
  intros Hp. unfold app_metrics_report, bump_metrics_sn. m_unfold. cbn -[for_each_app].
  destruct (session w) as [s|]; cbn -[for_each_app]; [|done]. intros Heq.
  apply pair_equal_spec in Heq as [Heq _]. injection Heq as <- _. cbn [asm_apps bv].
  match goal with |- context [for_each_app order None ?x] =>
    pose proof (for_each_all order x Hp) as Hlen; cbn [apps] in Hlen;
    assert (Hz : zlen (metrics_entry now <$> for_each_app order None x) = Z.of_nat (size (apps w)))
      by (rewrite <- Hlen; unfold zlen; by rewrite length_fmap) end.
  split; [exact Hz|]. rewrite bv_decode_encode.
  match goal with |- context [MAX_APPS_METRICS <? ?z] =>
    replace z with (Z.of_nat (size (apps w))) by (symmetry; exact Hz) end.
  destruct (Z.ltb_spec MAX_APPS_METRICS (Z.of_nat (size (apps w)))); split; try done; lia.
Qed.
End Report.

(** A codec for the witness: lengths, then contents. *)
Definition enc_bytes (b : bytes) : bytes := zlen b :: b.
Definition dec_bytes (b : bytes) : option (bytes * bytes) :=
  match b with
  | n :: r => Some (firstn (Z.to_nat n) r, skipn (Z.to_nat n) r)
  | [] => None
  end.
Definition enc_entry (e : AppMetrics) : bytes :=
  enc_bytes (am_address e) ++ enc_bytes (am_session e) ++
  [running_time_ms e; am_gas_consumed e; network_ingress e; network_egress e; am_storage_read e;
   storage_write e; am_storage_used e; am_memory_used e; am_tip e; am_starts e].
Definition dec_entry (b : bytes) : option (AppMetrics * bytes) :=
  '(a, b) ← dec_bytes b;
  '(s, b) ← dec_bytes b;
  match b with
  | x1 :: x2 :: x3 :: x4 :: x5 :: x6 :: x7 :: x8 :: x9 :: x10 :: b =>
    Some (MkAppMetrics a s x1 x2 x3 x4 x5 x6 x7 x8 x9 x10, b)
  | _ => None
  end.
Fixpoint dec_entries (n : nat) (b : bytes) : option (list AppMetrics) :=
  match n with
  | O => Some []
  | S n => '(e, b) ← dec_entry b; l ← dec_entries n b; Some (e :: l)
  end.
#[local] Instance metrics_codec : ScaleCodec (list AppMetrics) := {|
  scale_encode := fun l => zlen l :: (l ≫= enc_entry);
  scale_decode := fun b => match b with n :: b => dec_entries (Z.to_nat n) b | [] => None end
|}.
Lemma dec_bytes_enc b r : dec_bytes (enc_bytes b ++ r) = Some (b, r).
Proof.
  unfold dec_bytes, enc_bytes, zlen. simpl. rewrite Nat2Z.id. by rewrite take_app_length, drop_app_length.
Qed.
#[local] Instance metrics_lawful : ScaleLawful (list AppMetrics).
Proof.
  intros l. simpl. unfold zlen. rewrite Nat2Z.id.
  induction l as [|e l IH]; [done|]. cbn [length dec_entries]. unfold dec_entry.
  rewrite bind_cons. unfold enc_entry at 1. rewrite <- !(assoc_L (++)), !dec_bytes_enc. cbn [mbind option_bind].
  rewrite dec_bytes_enc. cbn [mbind option_bind app]. rewrite IH. cbn [mbind option_bind]. by destruct e.
Qed.

Lemma metrics_report_decodable_witness :
  let w := (init (fun b => b) [1] [2] [3] (worker_new (MkArgs 0 3 10))).2 in
  let w := (insert_app 0 (addr 1) [] (manifest0 true false) true true w).2 in
  let r := app_metrics_report (fun a => Ok a) (fun _ b => b) (fun _ => []) 7 [addr 1] [] [9] w in
  exists m sig, r.1 = Ok (m, sig) /\ zlen (bv (asm_apps m)) = 1.
Proof.
  intros w0 w r. destruct r as [[[m sig]|e] w'] eqn:Hr; [|vm_compute in Hr; discriminate Hr].
  exists m, sig. split; [reflexivity|].
  apply (metrics_report_decodable (fun a => Ok a) (fun _ b => b) (fun _ => []) 7 [addr 1] [9] w m sig w');
    [vm_compute; reflexivity|exact Hr].
Defined.
