(* ===== verification/Crypto.v ===== *)
(** * Encrypted queries (wapod-crypto/src/aead.rs, ecdh.rs; wapod/src/prpc_service.rs)

    Messages encrypted with a key that two parties agree on, and the remote call
    that accepts a query in this form. *)
From S2P Require Import Prelude Ocall OcallDef Meter Blobs Service Worker WorkerFacts QuerySignature Types Rpc.

Inductive CryptoErr : Type :=
  InvalidSecretKey | InvalidPublicKey | BadSignature | InvalidAeadKey | InvalidMessage | CryptoError.

(** ring's AES-256-GCM with empty associated data; the curve: the shared point of a
    secret scalar and a public key, and the public key of a secret. *)
Class Primitives := {
  seal : bytes -> bytes -> bytes -> option bytes;
  open_ : bytes -> bytes -> bytes -> option bytes;
  shared_point : bytes -> bytes -> option bytes;
  public_key : bytes -> bytes
}.
(** Opening undoes sealing; the shared point is the same on both sides, and is a key
    of 32 bytes. *)
Class PrimitivesLawful `{Primitives} := {
  open_seal : forall k iv m c, seal k iv m = Some c -> open_ k iv c = Some m;
  shared_sym : forall a b, shared_point a (public_key b) = shared_point b (public_key a);
  shared_len : forall a pk k, shared_point a pk = Some k -> zlen k = 32
}.

Section Ecdh.
Context `{Primitives}.

Definition IV_BYTES : Z := 12.
(** [load_key]: the key has 32 bytes. *)
Definition load_key (raw : bytes) : result CryptoErr bytes := if zlen raw =? 32 then Ok raw else Err InvalidAeadKey.
Definition aead_encrypt (iv secret data : bytes) : result CryptoErr bytes :=
  key ← load_key secret; ok_or (seal key iv data) CryptoError.
Definition aead_decrypt (iv secret data : bytes) : result CryptoErr bytes :=
  key ← load_key secret; ok_or (open_ key iv data) CryptoError.

Definition ecdh_agree (sk pk : bytes) : result CryptoErr bytes := ok_or (shared_point sk pk) InvalidPublicKey.
(** [iv] is random. *)
Definition encrypt_message (iv sk receiver message : bytes) : result CryptoErr bytes :=
  shared_secret ← ecdh_agree sk receiver;
  c ← aead_encrypt iv shared_secret message;
  Ok (iv ++ c).
Definition decrypt_message (sk sender message : bytes) : result CryptoErr bytes :=
  if zlen message <? IV_BYTES then Err InvalidMessage else
  shared_secret ← ecdh_agree sk sender;
  aead_decrypt (firstn (Z.to_nat IV_BYTES) message) shared_secret (skipn (Z.to_nat IV_BYTES) message).

Lemma decrypt_encrypt `{!PrimitivesLawful} iv a b message c : zlen iv = IV_BYTES ->
  encrypt_message iv a (public_key b) message = Ok c -> decrypt_message b (public_key a) c = Ok message.
Proof.
  intros Hiv. unfold encrypt_message, decrypt_message, ecdh_agree, aead_encrypt, aead_decrypt. rewrite shared_sym.
  destruct (shared_point b (public_key a)) as [k|] eqn:Hk; simpl; [|done]. unfold load_key.
  rewrite (shared_len _ _ _ Hk). simpl. destruct (seal k iv message) as [m|] eqn:Hs; simpl; [|done]. intros [= <-].
  rewrite zlen_app, Hiv. pose proof (zlen_nonneg m). destruct (Z.ltb_spec (IV_BYTES + zlen m) IV_BYTES); [lia|].
  assert (Hn : Z.to_nat IV_BYTES = length iv) by (unfold zlen in Hiv; lia).
  rewrite Hn, take_app_length, drop_app_length. simpl. by rewrite (open_seal _ _ _ _ Hs).
Qed.
End Ecdh.

(** ** Encrypted queries *)
Section Query.
Context `{Libs, PrimitivesLawful}.
Context (decode_signature : bytes -> result anyhow (option QuerySignature))
  (decode_address : bytes -> result anyhow bytes)
  (encode_args : QueryArgs -> bytes) (decode_args : bytes -> option QueryArgs)
  (worker_key : bytes).

Definition app_encrypted_query (now : Z) (order : list bytes) (pubkey encrypted_payload : bytes)
  (started : result anyhow unit) (reply : option bytes -> Z -> result anyhow bytes) : WorkerM bytes :=
  decrypted ← lift (map_err (fun _ => Ctx "failed to decrypt the payload" (Msg "crypto error"))
    (decrypt_message worker_key pubkey encrypted_payload));
  args ← lift (ok_or (decode_args decrypted) (Ctx "failed to decode the query args" (Msg "decode error")));
  app_query decode_signature decode_address now order args started reply.

Hypothesis decode_encode_args : forall a, decode_args (encode_args a) = Some a.

(** C35: encryption is transparent for queries: what a client encrypts for the
    worker's key is answered exactly as the same query sent in the clear, with the
    same effect on the worker; a payload too short to hold an initialisation
    vector is refused and changes nothing. *)
Theorem encrypted_query_transparent now order iv client args payload started reply w :
  zlen iv = IV_BYTES ->
  encrypt_message iv client (public_key worker_key) (encode_args args) = Ok payload ->
  app_encrypted_query now order (public_key client) payload started reply w =
    app_query decode_signature decode_address now order args started reply w /\
  forall short, zlen short < IV_BYTES ->
    exists e, app_encrypted_query now order (public_key client) short started reply w = (Err e, w).
Proof.
  intros Hiv He. unfold app_encrypted_query. split.
  - rewrite (decrypt_encrypt _ _ _ _ _ Hiv He). unfold lift, mbind, M_bind. simpl. by rewrite decode_encode_args.
  - intros short Hs. unfold decrypt_message. rewrite (proj2 (Z.ltb_lt _ _)) by done. by eexists.
Qed.
End Query.

(** ** An example *)
Module ToyCrypto.
(** A cipher that appends a tag; the shared point is a symmetric function. *)
#[export] Instance prims : Primitives := {
  seal _ _ m := Some (m ++ replicate 16 0);
  open_ _ _ c := Some (firstn (length c - 16) c);
  shared_point sk pk := Some (replicate 32 (foldr Z.add 0 sk + foldr Z.add 0 pk));
  public_key sk := sk
}.
#[export] Instance prims_lawful : PrimitivesLawful.
Proof.
  split; cbn [seal open_ shared_point public_key prims].
  - intros _ _ m c <-%(inj Some). rewrite length_app, length_replicate, Nat.add_sub. by rewrite take_app_length.
  - intros a b. by rewrite Z.add_comm.
  - by intros a pk k <-%(inj Some).
Qed.
Definition encode_args (a : QueryArgs) : bytes :=
  enc_bytes (qa_address a) ++ enc_bytes (qa_path a) ++ enc_bytes (qa_payload a) ++ enc_bytes (encoded_signature a).
Definition decode_args (b : bytes) : option QueryArgs :=
  '(a, b) ← dec_bytes b; '(p, b) ← dec_bytes b; '(d, b) ← dec_bytes b; '(s, b) ← dec_bytes b;
  Some (MkQueryArgs a p d s).
Lemma decode_encode a : decode_args (encode_args a) = Some a.
Proof.
  unfold decode_args, encode_args. do 3 (rewrite dec_bytes_enc; cbn [mbind option_bind]).
  rewrite <- (app_nil_r (enc_bytes (encoded_signature a))), dec_bytes_enc. by destruct a.
Qed.
(** A worker with one app that runs one instance. *)
Definition worker : WorkerState := (worker_step (worker_new (MkArgs 0 3 10))
  (OpDeploy 0 [] 0 (addr 1) [] (manifest0 false false) false true (Ok tt))).
Definition args : QueryArgs := MkQueryArgs (addr 1) [47] [5] [].
End ToyCrypto.
Import ToyCrypto.
#[local] Existing Instance lax_libs.
Lemma encrypted_query_transparent_witness :
  let run := app_encrypted_query (fun _ => Ok None) (fun a => Ok a) decode_args [7] 3 [] (public_key [8]) in
  let reply := fun _ sn => Ok [sn; 42] in
  exists payload, encrypt_message (replicate 12 3) [8] (public_key [7]) (encode_args args) = Ok payload /\
    run payload (Ok tt) reply worker = app_query (fun _ => Ok None) (fun a => Ok a) 3 [] args (Ok tt) reply worker /\
    (run payload (Ok tt) reply worker).1 = Ok [0; 42].
Proof.
  intros run reply. eexists. split; [reflexivity|]. split; [|vm_compute; reflexivity].
  refine (proj1 (encrypted_query_transparent (fun _ => Ok None) (fun a => Ok a) encode_args decode_args [7]
    decode_encode 3 [] (replicate 12 3) [8] args _ (Ok tt) reply worker _ _)); reflexivity.
Defined.
