(* ===== verification/KeyStore.v ===== *)
(** * The worker's key (wapod-crypto/src/sr25519.rs, wapod/src/config.rs)

    Key pairs with their encoding, and the provider that keeps the worker's key in
    a file: the first call of a process loads it, or makes and writes a new one.
    The signature scheme is a class with its laws. *)
From S2P Require Import Prelude Types Crypto.

(** sp_core's pairs. *)
Class Sr25519 := {
  RawPair : Type;
  from_seed : bytes -> RawPair;
  secret_to_bytes : RawPair -> bytes;
  from_seed_slice : bytes -> option RawPair;
  raw_public : RawPair -> bytes;
  raw_sign : RawPair -> bytes -> bytes;
  raw_verify : bytes -> bytes -> bytes -> bool;
  raw_derive : RawPair -> list bytes -> RawPair
}.
(** A secret is 64 bytes and determines the pair; a signature is 64 bytes and
    verifies. *)
Class Sr25519Lawful `{Sr25519} := {
  secret_length : forall p, length (secret_to_bytes p) = 64%nat;
  secret_loads : forall p, from_seed_slice (secret_to_bytes p) = Some p;
  signature_length : forall p m, length (raw_sign p m) = 64%nat;
  signature_verifies : forall p m, raw_verify (raw_sign p m) m (raw_public p) = true
}.

Section Pair.
Context `{Sr25519}.
Definition SECRET_KEY_LENGTH : nat := 64.

(** [Pair::new] from a random seed, [dump], [load], [public], [sign], [derive]. *)
Definition Pair_new (seed : bytes) : RawPair := from_seed seed.
Definition Pair_dump (p : RawPair) : bytes := secret_to_bytes p.
Definition Pair_load (secret : bytes) : option RawPair := from_seed_slice secret.
Definition Pair_public (p : RawPair) : bytes := raw_public p.
Definition Pair_sign (p : RawPair) (c : ContentType) (message : bytes) : bytes := raw_sign p (content_wrap c message).
Definition Pair_derive (p : RawPair) (path : list bytes) : RawPair := raw_derive p path.
(** [Encode] and [Decode]: the secret, without a length; what follows is left. *)
Definition Pair_encode (p : RawPair) : bytes := Pair_dump p.
Definition Pair_decode (input : bytes) : option (RawPair * bytes) :=
  if (length input <? SECRET_KEY_LENGTH)%nat then None
  else p ← Pair_load (firstn SECRET_KEY_LENGTH input); Some (p, skipn SECRET_KEY_LENGTH input).
(** [Public::verify]; a signature is 64 bytes. *)
Definition Public_verify (public : bytes) (c : ContentType) (message signature : bytes) : result CryptoErr unit :=
  if negb (length signature =? 64)%nat then Err BadSignature
  else if raw_verify signature (content_wrap c message) public then Ok tt else Err BadSignature.

(** ** The key file *)

(** The file, and the cell that keeps the pair for the life of the process. *)
Record KeyState : Type := MkKeyState { key_file : option bytes; key_cell : option RawPair }.

(** [KeyProvider::get_key]; a panic is an error.  The outcome of reading (other than
    that there is no file) and of writing are inputs: a write may fail after some
    bytes. *)
Definition get_key (seed : bytes) (read_ok : bool) (write_fails : option nat) : M KeyState string RawPair := fun s =>
  match key_cell s with
  | Some p => (Ok p, s)
  | None =>
    if negb read_ok then (Err "Failed to read keypair", s) else
    match key_file s with
    | Some secret =>
      match Pair_decode secret with
      | Some (p, _) => (Ok p, MkKeyState (key_file s) (Some p))
      | None => (Err "failed to load keypair", s)
      end
    | None =>
      let pair := Pair_new seed in
      match write_fails with
      | Some n => (Err "failed to write keypair", MkKeyState (Some (firstn n (Pair_encode pair))) None)
      | None => (Ok pair, MkKeyState (Some (Pair_encode pair)) (Some pair))
      end
    end
  end.

(** Calls, and restarts of the process. *)
Inductive key_op : Type := GetKey (seed : bytes) (read_ok : bool) (write_fails : option nat) | Restart.
Fixpoint key_run (ops : list key_op) (s : KeyState) : list (result string RawPair) * KeyState :=
  match ops with
  | [] => ([], s)
  | GetKey seed rd wr :: ops =>
    let '(r, s) := get_key seed rd wr s in
    let '(rs, s) := key_run ops s in (r :: rs, s)
  | Restart :: ops => key_run ops (MkKeyState (key_file s) None)
  end.
End Pair.

(** ** The key does not change *)
Section Facts.
Context `{Sr25519Lawful}.

Lemma pair_decode_encode p rest : Pair_decode (Pair_encode p ++ rest) = Some (p, rest).
Proof.
  unfold Pair_decode, Pair_encode, Pair_dump, SECRET_KEY_LENGTH.
  destruct (Nat.ltb_spec (length (secret_to_bytes p ++ rest)) 64).
  { rewrite length_app, secret_length in *. lia. }
  rewrite <- (secret_length p), take_app_length, drop_app_length. unfold Pair_load. by rewrite secret_loads.
Qed.
Lemma pair_decode_short b : (length b < 64)%nat -> Pair_decode b = None.
Proof. unfold Pair_decode, SECRET_KEY_LENGTH. by intros ->%Nat.ltb_lt. Qed.

(** What the state can be: no file, the key, or the rest of a failed write; with
    the key that is known. *)
Inductive key_shape : KeyState -> option RawPair -> Prop :=
| shape_fresh : key_shape (MkKeyState None None) None
| shape_key p c : c = None \/ c = Some p -> key_shape (MkKeyState (Some (Pair_encode p)) c) (Some p)
| shape_broken b : (length b < 64)%nat -> key_shape (MkKeyState (Some b) None) None.

Lemma shape_written n p : exists o, key_shape (MkKeyState (Some (firstn n (Pair_encode p))) None) o.
Proof.
  assert (Hl : length (Pair_encode p) = 64%nat) by apply secret_length.
  destruct (decide (n < 64)%nat); [exists None; constructor; rewrite length_take; lia|].
  exists (Some p). rewrite take_ge by lia. constructor. auto.
Qed.
(** A call keeps what is known, and returns it. *)
Lemma get_key_shape seed rd wr s o r s' : key_shape s o -> get_key seed rd wr s = (r, s') ->
  exists o', key_shape s' o' /\ (forall p, o = Some p -> o' = Some p) /\ (forall p, r = Ok p -> o' = Some p).
Proof.
  unfold get_key. intros Hs. inversion Hs as [|p c [-> | ->]|b Hb]; subst; simpl.
  - destruct rd; [|intros [= <- <-]; by exists None]. simpl. destruct wr as [n|]; intros [= <- <-].
    + destruct (shape_written n (Pair_new seed)) as [o Ho]. by exists o.
    + exists (Some (Pair_new seed)). split; [constructor; auto|naive_solver].
  - exists (Some p). revert H1. rewrite <- (app_nil_r (Pair_encode p)), pair_decode_encode, app_nil_r.
    destruct rd; intros [= <- <-]; (split; [constructor; auto|naive_solver]).
  - intros [= <- <-]. exists (Some p). split; [done|naive_solver].
  - rewrite pair_decode_short by done. destruct rd; intros [= <- <-]; by exists None.
Qed.
Lemma key_run_shape ops : forall s o rs s', key_shape s o -> key_run ops s = (rs, s') ->
  exists o', key_shape s' o' /\ (forall p, o = Some p -> o' = Some p) /\ (forall p, Ok p ∈ rs -> o' = Some p).
Proof.
  induction ops as [|[seed rd wr|] ops IH]; intros s o rs s' Hs; simpl.
  - intros [= <- <-]. exists o. split_and!; [done|done|]. by intros p ?%not_elem_of_nil.
  - destruct (get_key seed rd wr s) as [r s1] eqn:Hg. destruct (key_run ops s1) as [rs1 s2] eqn:Hr. intros [= <- <-].
    destruct (get_key_shape _ _ _ _ _ _ _ Hs Hg) as (o1 & Hs1 & Ho1 & Hr1).
    destruct (IH _ _ _ _ Hs1 Hr) as (o2 & Hs2 & Ho2 & Hr2). exists o2. split_and!; [done|auto|].
    intros p [<-|?]%elem_of_cons; auto.
  - apply IH. inversion Hs; subst; simpl; constructor; auto.
Qed.
(** After a failed write nothing succeeds any more. *)
Lemma key_run_broken ops b : (length b < 64)%nat -> forall rs s',
  key_run ops (MkKeyState (Some b) None) = (rs, s') -> forall q, Ok q ∉ rs.
Proof.
  intros Hb. induction ops as [|[seed rd wr|] ops IH]; intros rs s'; simpl.
  - intros [= <- <-] q. apply not_elem_of_nil.
  - unfold get_key. simpl. rewrite pair_decode_short by done. destruct rd; simpl;
      destruct (key_run ops _) as [rs1 s1] eqn:Hr; intros [= <- <-] q; rewrite not_elem_of_cons; (split; [done|]);
      by eapply IH.
  - apply IH.
Qed.

(** C30: one key for the life of the worker.  Whatever faults happen, and however
    often the process is restarted, all calls that succeed return the same pair,
    starting from no file; what it signs verifies under its public half.  But a
    write of the new key that fails after less than 64 bytes leaves a file that
    makes every later call fail, in this process and in all that follow. *)
Theorem key_is_stable ops rs s : key_run ops (MkKeyState None None) = (rs, s) ->
  (forall p q, Ok p ∈ rs -> Ok q ∈ rs -> p = q /\
     forall c m, Public_verify (Pair_public p) c m (Pair_sign q c m) = Ok tt) /\
  (forall seed n ops', key_file s = None -> (n < 64)%nat ->
     let '(rs', _) := key_run (GetKey seed true (Some n) :: ops') s in forall q, Ok q ∉ rs').
Proof.
  intros Hrun. destruct (key_run_shape ops _ _ _ _ shape_fresh Hrun) as (o & Hs & _ & Ho). split.
  - intros p q Hp%Ho Hq%Ho. assert (p = q) as -> by congruence. split; [done|]. intros c m.
    unfold Public_verify, Pair_sign, Pair_public. rewrite signature_length. simpl. by rewrite signature_verifies.
  - intros seed n ops' Hf Hn. inversion Hs; subst; try done. simpl. unfold get_key. simpl.
    destruct (key_run ops' _) as [rs1 s1] eqn:Hr. intros q. rewrite not_elem_of_cons. split; [done|].
    eapply key_run_broken; [|exact Hr]. rewrite length_take. lia.
Qed.
End Facts.

(** Pairs whose secret is a number, padded. *)
Module ToyPair.
#[export] Instance pairs : Sr25519 := {
  RawPair := Z;
  from_seed s := default 0 (head s);
  secret_to_bytes z := z :: replicate 63 0;
  from_seed_slice b := head b;
  raw_public z := [z];
  raw_sign z m := z :: zlen m :: replicate 62 0;
  raw_verify s m pk := bool_decide (head s = head pk) && bool_decide (s !! 1%nat = Some (zlen m));
  raw_derive z _ := z + 1
}.
#[export] Instance pairs_lawful : Sr25519Lawful.
Proof. split; intros; try done. simpl. by rewrite !bool_decide_true. Qed.
Definition ops : list key_op :=
  [GetKey [1] false None; GetKey [5] true None; GetKey [6] true None; Restart; GetKey [7] true (Some 3%nat)].
End ToyPair.
Import ToyPair.
Lemma key_is_stable_witness :
  (key_run ops (MkKeyState None None)).1 = [Err "Failed to read keypair"; Ok 5; Ok 5; Ok 5] /\
  Public_verify (Pair_public 5) RpcResponse [1; 2] (Pair_sign 5 RpcResponse [1; 2]) = Ok tt /\
  Ok 7 ∉ (key_run [GetKey [5] true (Some 3%nat); Restart; GetKey [7] true None] (MkKeyState None None)).1.
Proof.
  split; [vm_compute; reflexivity|].
  destruct (key_is_stable ops _ _ (surjective_pairing _)) as [Hs _]. split.
  - apply (Hs 5 5); vm_compute; right; left.
  - destruct (key_is_stable [] [] (MkKeyState None None) eq_refl) as [_ Hb].
    exact (Hb [5] 3%nat [Restart; GetKey [7] true None] eq_refl ltac:(lia) 7).
Defined.
