(* ===== verification/WebApi.v ===== *)
(** * The worker's HTTP interface (wapod/src/prpc_service.rs, wapod/src/bin/web_api, wapo-host/src/rocket_stream.rs)

    Requests to the RPC servers: reading the body, dispatching by method, and the
    status that an outcome becomes; the token that guards the administrative
    server; and the heads of HTTP requests to an app and of its responses.  Rocket
    and the generated RPC servers are parameters; text is UTF-8 bytes. *)
From S2P Require Import Prelude OcallError ArgsStack Ocall OcallDef Meter Resource Blobs VmContext TcpAcl Rpc.

(** [str::to_ascii_lowercase] on one byte, and comparison without case. *)
Definition ascii_lower (c : Z) : Z := if (65 <=? c) && (c <=? 90) then c + 32 else c.
Definition lower (s : bytes) : bytes := ascii_lower <$> s.
Definition header : Type := bytes * bytes.
(** [HeaderMap::get_one]. *)
Definition get_one (name : bytes) (hs : list header) : option bytes :=
  snd <$> head (filter (fun h => lower h.1 = lower name) hs).

(** ** Parameters and bodies (prpc_service.rs) *)
Fixpoint trim_start_matches (fuel : nat) (p s : bytes) : bytes :=
  match fuel with
  | O => s
  | S fuel => match strip_prefix p s with Some s => trim_start_matches fuel p s | None => s end
  end.
Definition HexBytes_from_param (param : bytes) : result string bytes :=
  ok_or (hex_decode (trim_start_matches (length param) (lit "0x") param)) "Invalid hex string".

Inductive ReadDataError : Type := RdIoError | RdPayloadTooLarge.
(** Status code and body of a refused request. *)
Definition ReadDataError_into (e : ReadDataError) : Z * bytes :=
  match e with
  | RdIoError => (503, lit "Read body failed")
  | RdPayloadTooLarge => (413, lit "Entity too large")
  end.
(** [read_data]; the body may fail to arrive. *)
Definition read_data (body : result unit bytes) (limit : Z) : result ReadDataError bytes :=
  data ← map_err (fun _ => RdIoError) body;
  if limit <? zlen data then Err RdPayloadTooLarge else Ok data.

Definition limit_for_method (method : bytes) (limits : list (bytes * Z)) : Z :=
  match head (filter (fun l => l.1 = method) limits) with
  | Some l => l.2
  | None => 10 * 1024 * 1024
  end.

Section Prpc.
(** The server generated from the protocol, over the worker's state; encodings of
    an error message. *)
Inductive RpcError : Type := RpcNotFound | RpcDecodeError (msg : bytes) | RpcBadRequest (msg : bytes).
Context {S : Type} (dispatch_request : bytes -> bytes -> bool -> S -> result RpcError bytes * S)
  (json_error proto_error : bytes -> bytes) (debug_decode : bytes -> bytes).

Definition dispatch_prpc (path data : bytes) (json : bool) (s : S) : Z * bytes * S :=
  match dispatch_request path data json s with
  | (Ok data, s) => (200, data, s)
  | (Err err, s) =>
    let '(code, error) := match err with
                          | RpcNotFound => (404, lit "method Not Found")
                          | RpcDecodeError err => (400, lit "DecodeError(" ++ debug_decode err ++ lit ")")
                          | RpcBadRequest msg => (400, msg)
                          end in
    (code, if json then json_error error else proto_error error, s)
  end.
(** [Status::from_code] knows the codes below 600. *)
Definition status_from_code (code : Z) : option Z := if (100 <=? code) && (code <? 600) then Some code else None.
(** [handle_prpc]: the answer, or a status with a body. *)
Definition handle_prpc (method : bytes) (data : option (result unit bytes)) (limits : list (bytes * Z))
  (content_type_json json : bool) (s : S) : result (Z * bytes) bytes * S :=
  match (match data with
         | Some data => read_data data (limit_for_method method limits)
         | None => Ok []
         end) with
  | Err e => (Err (ReadDataError_into e), s)
  | Ok data =>
    let '(status_code, output, s) := dispatch_prpc method data (json || content_type_json) s in
    (if status_code =? 200 then Ok output
     else Err (match status_from_code status_code with Some st => (st, output) | None => (503, []) end), s)
  end.

(** What a caller of a remote method is told: a body that cannot be read, or
    that exceeds the limit of the method (10 MiB unless configured), is refused
    and the server is not called; otherwise the server runs once and its outcome
    decides: its answer, 404 for an unknown method, 400 for anything else, with
    the message in the caller's format. *)
Theorem prpc_status method data limits ct json s :
  let r := handle_prpc method data limits ct json s in
  match (match data with Some d => read_data d (limit_for_method method limits) | None => Ok [] end) with
  | Err _ => (exists m, r = (Err (503, m), s) /\ data = Some (Err tt)) \/
             (exists m d, r = (Err (413, m), s) /\ data = Some (Ok d) /\ limit_for_method method limits < zlen d)
  | Ok d =>
    (data = None \/ data = Some (Ok d) /\ zlen d <= limit_for_method method limits) /\
    let encode := if json || ct then json_error else proto_error in
    match dispatch_request method d (json || ct) s with
    | (Ok out, s') => r = (Ok out, s')
    | (Err RpcNotFound, s') => r = (Err (404, encode (lit "method Not Found")), s')
    | (Err (RpcDecodeError m), s') => r = (Err (400, encode (lit "DecodeError(" ++ debug_decode m ++ lit ")")), s')
    | (Err (RpcBadRequest m), s') => r = (Err (400, encode m), s')
    end
  end.
Proof.
  cbv zeta. unfold handle_prpc. destruct data as [[d|[]]|]; unfold read_data; cbn [map_err mbind result_bind].
  - destruct (Z.ltb_spec (limit_for_method method limits) (zlen d)); [right; eauto|].
    split; [by right|]. unfold dispatch_prpc.
    destruct (dispatch_request method d (json || ct) s) as [[out|[]] s']; by destruct (json || ct).
  - left. eauto.
  - split; [by left|]. unfold dispatch_prpc.
    destruct (dispatch_request method [] (json || ct) s) as [[out|[]] s']; by destruct (json || ct).
Qed.
End Prpc.

(** ** The administrative server (web_api/auth.rs, web_api/mod.rs) *)
Definition ApiToken_new (token : bytes) : bytes := if bool_decide (token = []) then [] else lit "Bearer " ++ token.
Definition authorized (value : bytes) (hs : list header) : result (Z * bytes) unit :=
  if bool_decide (value = []) then Ok tt else
  match get_one (lit "Authorization") hs with
  | Some v => if bool_decide (v = value) then Ok tt else Err (401, lit "invalid token")
  | None => Err (401, lit "Authorization header not found")
  end.

Section Admin.
Context {S : Type} (admin_dispatch : bytes -> bytes -> bool -> S -> result RpcError bytes * S)
  (json_error proto_error : bytes -> bytes) (debug_decode : bytes -> bytes).
Context `{Digest} (chunk : nat -> nat).

(** The routes of the administrative server. *)
Inductive AdminRequest : Type :=
| PrpcPost (method : bytes) (body : result unit bytes) (content_type_json json : bool)
| PrpcGet (method : bytes) (content_type_json : bool)
| BlobPost (uuid hash : bytes) (body : bytes)
| BlobGet (id : bytes)
| Console.
(** Served from the worker's state and its blob store; the id of [BlobGet] has been
    decoded from its hexadecimal text. *)
Definition admin_serve (value : bytes) (limits : list (bytes * Z)) (hs : list header) (req : AdminRequest) (s : S * Fs)
  : result (Z * bytes) bytes * (S * Fs) :=
  match req with
  | Console => (Ok (lit "console.html"), s)
  | _ =>
    match authorized value hs with
    | Err e => (Err e, s)
    | Ok _ =>
      match req with
      | PrpcPost method body ct json =>
        let '(r, w) := handle_prpc admin_dispatch json_error proto_error debug_decode method (Some body) limits ct json s.1 in
        (r, (w, s.2))
      | PrpcGet method ct =>
        let '(r, w) := handle_prpc admin_dispatch json_error proto_error debug_decode method None limits ct true s.1 in
        (r, (w, s.2))
      | BlobPost uuid hash body =>
        let limit := limit_for_method (lit "Admin.PutObject") limits in
        let '(r, fs) := put_object chunk uuid hash (firstn (Z.to_nat limit) body) s.2 in
        (match r with
         | Ok h => Ok (default [] h)
         | Err e => Err (500, lit (anyhow_string e))
         end, (s.1, fs))
      | BlobGet id =>
        let '(r, fs) := fs_read (hex_encode id) s.2 in
        (match r with
         | Ok data => Ok data
         | Err _ => Err (404, lit "Object not found")
         end, (s.1, fs))
      | Console => (Ok [], s)
      end
    end
  end.

(** C36: the token guards every administrative operation: with a configured token a
    request to the administrative server, other than for the console page, that
    does not carry it as the first authorization header is refused with 401 and
    changes neither the worker nor the blob store; a request that carries it is
    served as if no token were configured. *)
Theorem admin_requires_token token limits hs req s : token <> [] -> req <> Console ->
  let value := ApiToken_new token in
  (get_one (lit "Authorization") hs <> Some (lit "Bearer " ++ token) ->
   exists m, admin_serve value limits hs req s = (Err (401, m), s)) /\
  (get_one (lit "Authorization") hs = Some (lit "Bearer " ++ token) ->
   admin_serve value limits hs req s = admin_serve (ApiToken_new []) limits hs req s).
Proof.
  intros Ht Hr value.
  assert (Hv : value = lit "Bearer " ++ token) by (unfold value, ApiToken_new; by rewrite bool_decide_false).
  split.
  - intros Hh. assert (Ha : exists m, authorized value hs = Err (401, m)).
    { unfold authorized. rewrite bool_decide_false by (by rewrite Hv). destruct (get_one _ _) as [v|]; [|eauto].
      rewrite bool_decide_false; [eauto|]. rewrite Hv. congruence. }
    destruct Ha as [m Ha]. exists m. unfold admin_serve. rewrite Ha. by destruct req.
  - intros Hh. assert (Ha : authorized value hs = Ok tt).
    { unfold authorized. rewrite Hh, Hv. rewrite bool_decide_false by done. by rewrite bool_decide_true. }
    unfold admin_serve. rewrite Ha. by destruct req.
Qed.
End Admin.

(** ** Heads of requests and responses (rocket_stream.rs) *)
Record RequestInfo : Type := MkInfo { ri_method : bytes; ri_host : bytes; ri_query : bytes; ri_headers : list header }.
(** [FromRequest for RequestInfo]; cookies are not passed on. *)
Definition RequestInfo_from_request (method : bytes) (host query : option bytes) (hs : list header) : RequestInfo :=
  MkInfo method (default [] host) (default [] query)
    (omap (fun h => if bool_decide (lower h.1 = lit "cookie") then None else Some h) hs).

Record Head : Type := MkHead { head_method : bytes; head_url : bytes; head_headers : list header }.
Definition into_head (path : bytes) (r : RequestInfo) : Head :=
  let url := lit "http://" ++ ri_host r ++ lit "/" ++ path in
  let url := if bool_decide (ri_query r = []) then url else url ++ 63 :: ri_query r in
  MkHead (ri_method r) url (ri_headers r).

Section Stream.
(** [str::to_lowercase], which agrees with the ASCII one on ASCII text. *)
Context (to_lowercase : bytes -> bytes).
Definition is_ascii (s : bytes) : Prop := Forall (fun c => 0 <= c < 128) s.

Definition is_upgrade_request (r : RequestInfo) : bool :=
  match head (omap (fun h => if bool_decide (to_lowercase h.1 = lit "connection")
                             then Some (bool_decide (to_lowercase h.2 = lit "upgrade")) else None) (ri_headers r)) with
  | Some b => b
  | None => false
  end.

Record ResponseHead : Type := MkResponse { rs_status : Z; rs_headers : list header }.
(** What rocket sends: a status and headers, or an upgrade to a protocol. *)
Record Response : Type := MkSent { sent_status : Z; sent_headers : list header; upgrade : option bytes }.
(** [Responder for StreamResponse]. *)
Definition respond_to (head : ResponseHead) : Response :=
  let headers := filter (fun h => to_lowercase h.1 <> lit "set-cookie") (rs_headers head) in
  if rs_status head =? 101 then
    let lowered := (fun h => (to_lowercase h.1, h.2)) <$> headers in
    MkSent 503 (filter (fun h => h.1 <> lit "connection" /\ h.1 <> lit "upgrade") lowered)
      (Some (default [] (snd <$> last (filter (fun h => h.1 = lit "upgrade") lowered))))
  else MkSent (rs_status head) headers None.

(** [connect]: the command is sent to the instance, then the body of a plain
    request (a failure is only logged), then the response is awaited; the outcomes
    are parameters.  The result tells whether the body was sent. *)
Definition stream_connect (r : RequestInfo) (path : bytes) (body : option bytes) (sent : Head -> bool)
  (response : result unit (result anyhow ResponseHead)) : result anyhow (ResponseHead * option bytes) :=
  let is_upgrade := is_upgrade_request r in
  if negb (sent (into_head path r)) then Err (Msg "Command channel closed") else
  let piped := if is_upgrade then None else body in
  match response with
  | Err _ => Err (Msg "Response channel closed")
  | Ok (Err e) => Err e
  | Ok (Ok head) => Ok (head, piped)
  end.

Hypothesis lowercase_ascii : forall s, is_ascii s -> to_lowercase s = lower s.
Hypothesis lowercase_idem : forall s, to_lowercase (to_lowercase s) = to_lowercase s.

Lemma lower_idem s : lower (lower s) = lower s.
Proof.
  unfold lower. rewrite <- list_fmap_compose. apply list_fmap_ext. intros _ c _. simpl. unfold ascii_lower.
  destruct ((65 <=? c) && (c <=? 90)) eqn:Hb; [|by rewrite Hb]. prop_bools.
  destruct (Z.leb_spec 65 (c + 32)), (Z.leb_spec (c + 32) 90); simpl; lia.
Qed.

(** Apps on one worker cannot read or set the browser's cookies of that origin:
    the head that an instance gets has no cookie header, and what is sent back has
    no header that sets one, whatever the case of the names. *)
Theorem cookies_stripped method host query hs path resp :
  (forall h, h ∈ head_headers (into_head path (RequestInfo_from_request method host query hs)) ->
     h ∈ hs /\ lower h.1 <> lit "cookie") /\
  (forall h, h ∈ sent_headers (respond_to resp) -> is_ascii h.1 -> lower h.1 <> lit "set-cookie").
Proof.
  split.
  - simpl. intros h (h' & Hin & Hh)%list_elem_of_omap. case_bool_decide; [done|]. by injection Hh as <-.
  - assert (Hkeep : forall h, h ∈ filter (fun h : header => to_lowercase h.1 <> lit "set-cookie") (rs_headers resp) ->
      to_lowercase h.1 <> lit "set-cookie") by (intros h [Hh _]%list_elem_of_filter; done).
    intros h Hin Ha. rewrite <- lowercase_ascii by done. unfold respond_to in Hin.
    destruct (rs_status resp =? 101); simpl in Hin; [|by apply Hkeep].
    apply list_elem_of_filter in Hin as [_ (h' & -> & Hin)%list_elem_of_fmap]. simpl. rewrite lowercase_idem. by apply Hkeep.
Qed.
End Stream.

(** [HttpHead::get_header] (wapo-env/src/messages.rs): how a guest looks at its request. *)
Fixpoint get_header (key : bytes) (hs : list header) : option bytes :=
  match hs with
  | [] => None
  | (k, v) :: hs => if bool_decide (lower k = lower key) then Some v else get_header key hs
  end.
(** It finds what rocket's own lookup would find, and never a cookie. *)
Lemma get_header_get_one key hs : get_header key hs = get_one key hs.
Proof.
  unfold get_one. induction hs as [|[k v] hs IH]; [done|]. cbn [get_header]. rewrite filter_cons. simpl.
  case_bool_decide; case_decide; done.
Qed.
Lemma get_header_no_cookie path method host query hs :
  get_header (lit "Cookie") (head_headers (into_head path (RequestInfo_from_request method host query hs))) = None.
Proof.
  simpl. induction hs as [|[k v] hs IH]; [done|]. csimpl. case_bool_decide as Hc; [exact IH|]. cbn [get_header].
  change (lower (lit "Cookie")) with (lit "cookie"). by rewrite bool_decide_false.
Qed.

(** ** Examples *)

(** A server that counts its calls and knows one method. *)
Definition toy_server (method data : bytes) (json : bool) (n : nat) : result RpcError bytes * nat :=
  (if bool_decide (method = lit "Ping") then Ok data else Err RpcNotFound, S n).
Definition toy_token_headers : list header := [(lit "authorization", lit "Bearer secret")].
#[local] Existing Instance toy_digest.

Lemma admin_requires_token_witness :
  let serve hs := admin_serve toy_server (fun b => b) (fun b => b) (fun b => b) (fun n => n) (ApiToken_new (lit "secret")) [] hs
    (PrpcPost (lit "Ping") (Ok [1]) false false) (0%nat, MkFs ∅ []) in
  (exists m, serve [] = (Err (401, m), (0%nat, MkFs ∅ []))) /\ serve toy_token_headers = (Ok [1], (1%nat, MkFs ∅ [])).
Proof.
  intros serve.
  pose proof (fun hs => admin_requires_token toy_server (fun b => b) (fun b => b) (fun b => b) (fun n => n) (lit "secret") [] hs
    (PrpcPost (lit "Ping") (Ok [1]) false false) (0%nat, MkFs ∅ []) ltac:(discriminate) ltac:(discriminate)) as Hs.
  split.
  - apply (proj1 (Hs [])). vm_compute. discriminate.
  - unfold serve. rewrite (proj2 (Hs toy_token_headers)) by (vm_compute; reflexivity). vm_compute. reflexivity.
Defined.

Lemma cookies_stripped_witness :
  let resp := MkResponse 200 [(lit "Set-Cookie", [1]); (lit "X-A", [2])] in
  (forall h, h ∈ sent_headers (respond_to lower resp) -> is_ascii h.1 -> lower h.1 <> lit "set-cookie") /\
  sent_headers (respond_to lower resp) = [(lit "X-A", [2])].
Proof.
  intros resp. split; [|vm_compute; reflexivity].
  apply (cookies_stripped lower ltac:(done) lower_idem [] None None [] [] resp).
Defined.

Example hex_params :
  HexBytes_from_param <$> [lit "0x0102"; lit "0x0x0102"; lit "0102"; lit "0x1"] =
  [Ok [1; 2]; Ok [1; 2]; Ok [1; 2]; Err "Invalid hex string"].
Proof. vm_compute. reflexivity. Qed.
