(* ===== verification/RpcServer.v ===== *)
(** * The RPC servers of a worker (wapod/src/prpc_service.rs, wapod/src/bin/web_api/mod.rs)

    All remote methods of the operator's and of the public server, on the state of
    a worker process: the registry of apps and the blob store.  The servers that
    are generated from the protocol decode a request, call one of the methods and
    encode its reply; their codecs are parameters.  Two facts are shown: for
    whatever is requested, the worker makes exactly the steps of [worker_step] that
    the method stands for, and the public server cannot change what the operator
    has set up. *)
From S2P Require Import Prelude Ocall OcallDef Meter Blobs ModuleLoader Service Worker WorkerFacts Launch QuerySignature Types Prices TcpAcl AppRuntime Signing Rpc Crypto WebApi.

(** ** Manifests in messages (wapod-rpc/src/prpc.rs) *)
Record StringPair : Type := MkPair { sp_key : bytes; sp_value : bytes }.
Record Manifest : Type := MkPbManifest {
  pb_version : Z;
  pb_code_hash : bytes;
  pb_args : list bytes;
  pb_env_vars : list StringPair;
  pb_on_demand : bool;
  pb_resizable : bool;
  pb_max_query_size : Z;
  pb_label : bytes;
  pb_required_blobs : list StringPair
}.
Definition pair_from (p : bytes * bytes) : StringPair := MkPair p.1 p.2.
Definition pair_into (p : StringPair) : bytes * bytes := (sp_key p, sp_value p).
Definition AppManifest_from (m : Manifest) : AppManifest :=
  MkManifest (pb_version m) (pb_code_hash m) (pb_args m) (pair_into <$> pb_env_vars m) (pb_on_demand m) (pb_resizable m)
    (pb_max_query_size m) (pb_label m) (pair_into <$> pb_required_blobs m).
Definition Manifest_from (m : AppManifest) : Manifest :=
  MkPbManifest (version m) (code_hash m) (args m) (pair_from <$> env_vars m) (on_demand m) (resizable m)
    (max_query_size m) (label m) (pair_from <$> required_blobs m).

Lemma pairs_roundtrip (l : list (bytes * bytes)) : pair_into <$> (pair_from <$> l) = l.
Proof. rewrite <- list_fmap_compose. rewrite <- (list_fmap_id l) at 2. apply list_fmap_ext. by intros _ [] _. Qed.
Lemma pairs_roundtrip' (l : list StringPair) : pair_from <$> (pair_into <$> l) = l.
Proof. rewrite <- list_fmap_compose. rewrite <- (list_fmap_id l) at 2. apply list_fmap_ext. by intros _ [] _. Qed.
(** A manifest keeps its contents, and so its address, on its way through messages. *)
Lemma manifest_roundtrip : (forall m, AppManifest_from (Manifest_from m) = m) /\ (forall m, Manifest_from (AppManifest_from m) = m).
Proof.
  split; intros []; unfold AppManifest_from, Manifest_from; simpl; by rewrite ?pairs_roundtrip, ?pairs_roundtrip'.
Qed.

(** ** Calls and replies *)
Inductive OperationCall : Type :=
| WorkerInit (pnonce recipient : bytes)
| SignRegisterInfo (genesis : result anyhow bytes) (operator : result anyhow (option bytes)) (para_id : Z)
| SignEndpoints (endpoints : list bytes)
| SignWorkerDescription (prices : result anyhow Prices) (text : bytes)
| WorkerExit
| BlobPut (hash body : bytes)
| BlobRemove (hash : bytes)
| BlobExists (hash : bytes)
| AppDeploy (manifest : option Manifest) (reuse_instances : bool)
| AppRemove (address : bytes)
| AppStart (address : bytes)
| AppStop (address : bytes)
| AppResize (address : bytes) (instances : Z)
| AppMetricsCall (addresses : list bytes)
| AppList (start count : Z)
| AppRemoveAll
| AppQuery (request : QueryArgs)
| AppEncryptedQuery (pubkey encrypted_payload : bytes)
| SetBenchApp (address : result anyhow (option bytes)) (instances : Z)
| OperationInfo.
Inductive UserCall : Type :=
| UserInfo
| UserQuery (request : QueryArgs)
| UserEncryptedQuery (pubkey encrypted_payload : bytes).

Inductive RpcReply : Type :=
| REmpty
| RInit (update : SessionUpdate) (signature pubkey : bytes)
| RRegister (info : WorkerRegistrationInfoV2) (report : option AttestationReport)
| REndpoints (payload : WorkerEndpointPayload) (signature : bytes)
| RDescription (signed : SignedWorkerDescription)
| RBlob (hash : bytes)
| RBoolean (value : bool)
| RDeploy (address session : bytes)
| RNumber (value : Z)
| RMetrics (metrics : AppsMetrics) (signature : bytes)
| RApps (l : list AppInfo)
| ROutput (output : bytes)
| RInfo (report : WorkerReport).

(** The process: the worker, its blob store, and whether it has exited. *)
Record Server : Type := MkServer { sv_worker : WorkerState; sv_fs : Fs; sv_exited : bool }.
Definition on_worker {A} : WorkerM A -> M Server anyhow A :=
  zoom sv_worker (fun s w => MkServer w (sv_fs s) (sv_exited s)).
Definition on_fs {A} : M Fs anyhow A -> M Server anyhow A :=
  zoom sv_fs (fun s f => MkServer (sv_worker s) f (sv_exited s)).

(** What a call meets outside of the worker: the time, the order in which the hash
    map is iterated, what starting instances gave, the answers of instances, random
    bytes, the clock since the epoch, the figures for the report. *)
Record CallEnv {WasmModule : Type} : Type := MkEnv {
  env_now : Z;
  env_order : list bytes;
  env_started : result anyhow unit;
  env_reply : option bytes -> Z -> result anyhow bytes;
  env_random : bytes;
  env_clock : result anyhow Z;
  env_memory : MemoryUsage;
  env_vms : Z;
  env_loader : Loader (WasmModule := WasmModule);
  env_ports : Z * Z
}.
Arguments CallEnv : clear implicits.

Section Server.
Context {WasmModule : Type} `{Libs, Primitives, Keys, Digest} (chunk : nat -> nat).
Context `{ScaleCodec (list AppMetrics), ScaleCodec WorkerRegistrationInfoV2, ScaleCodec WorkerEndpointPayload,
  ScaleCodec (Prices * bytes)}.
(** Accessors of messages, hashes and encodings of the data that is signed. *)
Context (decode_signature : bytes -> result anyhow (option QuerySignature))
  (decode_address : bytes -> result anyhow bytes) (decode_args : bytes -> option QueryArgs)
  (account_from_string : bytes -> result anyhow bytes) (blake2b_256 : bytes -> bytes)
  (encode_update : SessionUpdate -> bytes) (encode_token : MetricsToken -> bytes)
  (manifest_address : AppManifest -> bytes) (manifest_size : AppManifest -> Z).
(** The key of the worker. *)
Context (sk : bytes).
Abbreviation Env := (CallEnv WasmModule).
Definition key_sign (c : ContentType) (m : bytes) : bytes := pair_sign sr25519_sign sk c m.
Definition env_info (admin : bool) (e : Env) (w : WorkerState) : WorkerReport :=
  worker_info admin (public_of sk) (env_memory e) (env_vms e) (env_loader e) (env_ports e) w.

(** [blob_put], [blob_remove], [blob_exists]; the body of a message is complete. *)
Definition blob_put (e : Env) (hash body : bytes) : M Fs anyhow bytes := fun fs =>
  let '(r, fs) := put_object chunk (env_random e) hash body fs in
  (default [] <$> context "failed to put object" r, fs).
Definition blob_remove (hash : bytes) : M Fs anyhow unit := fun fs =>
  let '(r, fs) := Blobs.remove hash fs in (context "failed to remove object" r, fs).

(** [OperationRpc for Call].  [worker_exit] sends no reply. *)
Definition operation_call (e : Env) (c : OperationCall) : M Server anyhow RpcReply :=
  let now := env_now e in let order := env_order e in let started := env_started e in
  match c with
  | WorkerInit pnonce recipient =>
    '(update, sig) ← on_worker (worker_init account_from_string blake2b_256 key_sign encode_update (env_random e) pnonce recipient);
    mret (RInit update sig (public_of sk))
  | SignRegisterInfo genesis operator para_id =>
    '(info, report) ← lift (sign_register_info sk genesis operator para_id); mret (RRegister info report)
  | SignEndpoints endpoints =>
    '(payload, sig) ← lift (sign_endpoints sk (env_clock e) endpoints); mret (REndpoints payload sig)
  | SignWorkerDescription prices text =>
    signed ← lift (sign_worker_description sk prices text); mret (RDescription signed)
  | WorkerExit => modify (fun s => MkServer (sv_worker s) (sv_fs s) true);; mret REmpty
  | BlobPut hash body => h ← on_fs (blob_put e hash body); mret (RBlob h)
  | BlobRemove hash => on_fs (blob_remove hash);; mret REmpty
  | BlobExists hash => b ← gets (fun s => blob_exists hash (sv_fs s)); mret (RBoolean b)
  | AppDeploy m reuse =>
    let m := AppManifest_from <$> m in
    '(address, session) ← on_worker (app_deploy now order (default 0 (manifest_size <$> m))
       (default [] (manifest_address <$> m)) (env_random e) m reuse started);
    mret (RDeploy address session)
  | AppRemove address => on_worker (app_remove decode_address address);; mret REmpty
  | AppStart address => on_worker (app_start decode_address now order address started);; mret REmpty
  | AppStop address => on_worker (app_stop decode_address now order address started);; mret REmpty
  | AppResize address n => k ← on_worker (app_resize decode_address now order address n started); mret (RNumber k)
  | AppMetricsCall addresses =>
    '(m, sig) ← on_worker (app_metrics_report decode_address key_sign encode_token now order addresses (env_random e));
    mret (RMetrics m sig)
  | AppList start count => l ← on_worker (app_list now order start count); mret (RApps l)
  | AppRemoveAll => on_worker clear;; mret REmpty
  | AppQuery request =>
    out ← on_worker (app_query decode_signature decode_address now order request started (env_reply e));
    mret (ROutput out)
  | AppEncryptedQuery pubkey payload =>
    out ← on_worker (app_encrypted_query decode_signature decode_address decode_args sk now order pubkey payload started (env_reply e));
    mret (ROutput out)
  | SetBenchApp address n => on_worker (rpc_set_bench_app now order address n started);; mret REmpty
  | OperationInfo => r ← on_worker (gets (env_info true e)); mret (RInfo r)
  end.

(** [UserRpc for Call]. *)
Definition user_call (e : Env) (c : UserCall) : M Server anyhow RpcReply :=
  match c with
  | UserInfo => r ← on_worker (gets (env_info false e)); mret (RInfo r)
  | UserQuery request => operation_call e (AppQuery request)
  | UserEncryptedQuery pubkey payload => operation_call e (AppEncryptedQuery pubkey payload)
  end.

(** ** The servers *)

(** A generated server: [decode] finds the method and its arguments, [encode] writes
    the reply in the format asked for, [rpc_error] is what an error becomes. *)
Definition generated {C : Type} (decode : bytes -> bytes -> bool -> result RpcError C) (encode : bool -> RpcReply -> bytes)
  (rpc_error : anyhow -> RpcError) (run : C -> M Server anyhow RpcReply)
  (path data : bytes) (json : bool) (s : Server) : result RpcError bytes * Server :=
  match decode path data json with
  | Err err => (Err err, s)
  | Ok c => let '(r, s) := run c s in
            (match r with Ok reply => Ok (encode json reply) | Err err => Err (rpc_error err) end, s)
  end.

Context (decode_operation : bytes -> bytes -> bool -> result RpcError OperationCall)
  (decode_user : bytes -> bytes -> bool -> result RpcError UserCall)
  (encode : bool -> RpcReply -> bytes) (rpc_error : anyhow -> RpcError)
  (json_error proto_error debug_decode : bytes -> bytes).

Definition admin_dispatch (e : Env) := generated decode_operation encode rpc_error (operation_call e).
Definition user_dispatch (e : Env) := generated decode_user encode rpc_error (user_call e).

(** The public server: remote calls by [prpc_post] and [prpc_get], HTTP requests to an
    app by [connect_vm_post] and [connect_vm_get] whose instance gives [stream], and
    the end of the [i]-th response that is being streamed, which drops its guard. *)
Inductive UserRequest : Type :=
| UserPost (e : Env) (method : bytes) (data : result unit bytes) (limits : list (bytes * Z)) (content_type_json json : bool)
| UserGet (e : Env) (method : bytes) (limits : list (bytes * Z)) (content_type_json : bool)
| UserConnect (e : Env) (id : bytes) (path : option bytes) (stream : Z -> result anyhow unit)
| UserDone (now : Z) (i : nat).

(** The process with the guards of the responses being streamed. *)
Record Node : Type := MkNode { node_server : Server; node_guards : list QueryGuard }.
Definition user_prpc (e : Env) (method : bytes) (data : option (result unit bytes)) (limits : list (bytes * Z))
  (ct json : bool) (n : Node) : Node :=
  MkNode (handle_prpc (user_dispatch e) json_error proto_error debug_decode method data limits ct json (node_server n)).2
    (node_guards n).
Definition user_request (n : Node) (r : UserRequest) : Node :=
  if sv_exited (node_server n) then n else
  let set w := MkServer w (sv_fs (node_server n)) (sv_exited (node_server n)) in
  match r with
  | UserPost e method data limits ct json => user_prpc e method (Some data) limits ct json n
  | UserGet e method limits ct => user_prpc e method None limits ct true n
  | UserConnect e id path stream =>
    match connect_vm (env_now e) (env_order e) id path (env_started e) stream (sv_worker (node_server n)) with
    | (Ok (_, g), w) => MkNode (set w) (g :: node_guards n)
    | (Err _, w) => MkNode (set w) (node_guards n)
    end
  | UserDone now i =>
    match node_guards n !! i with
    | Some g => MkNode (set (drop_guard now g (sv_worker (node_server n))).2) (delete i (node_guards n))
    | None => n
    end
  end.

(** A request to the administrative server; the routes for blobs and the remote
    calls use the same store. *)
Definition admin_request (value : bytes) (limits : list (bytes * Z)) (hs : list header) (e : Env) (req : AdminRequest)
  (n : Node) : Node :=
  if sv_exited (node_server n) then n else
  let '(_, (s, fs)) := admin_serve (admin_dispatch e) json_error proto_error debug_decode chunk value limits hs req
                         (node_server n, sv_fs (node_server n)) in
  MkNode (match req with BlobPost _ _ _ | BlobGet _ => MkServer (sv_worker s) fs (sv_exited s) | _ => s end) (node_guards n).

(** What happens to a worker process: requests to its two servers, the end of an
    instance and the progress of a meter. *)
Inductive NodeEvent : Type :=
| EvUser (r : UserRequest)
| EvAdmin (limits : list (bytes * Z)) (hs : list header) (e : Env) (req : AdminRequest)
| EvStopped (now : Z) (address : bytes) (sn : Z)
| EvMeter (address : bytes) (sn : Z) (m : Meter).
Definition node_step (value : bytes) (n : Node) (ev : NodeEvent) : Node :=
  let set f := MkNode (MkServer (f (sv_worker (node_server n))) (sv_fs (node_server n)) (sv_exited (node_server n)))
                 (node_guards n) in
  match ev with
  | EvUser r => user_request n r
  | EvAdmin limits hs e req => admin_request value limits hs e req n
  | EvStopped now address sn => set (instance_stopped now address sn)
  | EvMeter address sn m => set (set_vm_meter address sn m)
  end.
End Server.

(** ** From the methods to the servers *)

(** What the decoding of a request finds: the method to run, if the body can be read within the
    limit of the method and is understood. *)
Definition requested {C} (decode : bytes -> bytes -> bool -> result RpcError C) (method : bytes) (data : option (result unit bytes))
  (limits : list (bytes * Z)) (ct json : bool) : option C :=
  d ← match data with
      | None => Some []
      | Some (Err _) => None
      | Some (Ok d) => if zlen d <=? limit_for_method method limits then Some d else None
      end;
  match decode method d (json || ct) with Ok c => Some c | Err _ => None end.
Lemma served_run {C} (decode : bytes -> bytes -> bool -> result RpcError C) enc err run je pe dd method data limits ct json s :
  (handle_prpc (generated decode enc err run) je pe dd method data limits ct json s).2 =
  match requested decode method data limits ct json with Some c => (run c s).2 | None => s end.
Proof.
  assert (Hgo : forall d, (dispatch_prpc (generated decode enc err run) je pe dd method d (json || ct) s).2 =
    match (match decode method d (json || ct) with Ok c => Some c | Err _ => None end) with Some c => (run c s).2 | None => s end).
  { intros d. unfold dispatch_prpc, generated. destruct (decode method d (json || ct)) as [c|[]]; try done. destruct (run c s) as [[r|e] s']; [done|].
    by destruct (err e). }
  unfold handle_prpc, requested, read_data. destruct data as [[d|[]]|]; cbn [map_err mbind result_bind option_bind].
  - rewrite Z.leb_antisym. destruct (limit_for_method method limits <? zlen d); simpl; [done|]. specialize (Hgo d).
    by destruct (dispatch_prpc _ _ _ _ _ d _ s) as [[code out] s'].
  - done.
  - specialize (Hgo []). by destruct (dispatch_prpc _ _ _ _ _ [] _ s) as [[code out] s'].
Qed.
(** What every method keeps, the handling of a request keeps. *)
Lemma served_keeps {C} (P : Server -> Prop) (decode : bytes -> bytes -> bool -> result RpcError C) enc err run je pe dd
  method data limits ct json s : (forall c, P (run c s).2) -> P s ->
  P (handle_prpc (generated decode enc err run) je pe dd method data limits ct json s).2.
Proof. intros Hr Hs. rewrite served_run. by destruct (requested decode method data limits ct json). Qed.

(** ** The worker's steps behind a request *)

(** A query or HTTP request to an app begins: the steps, and, unless it is refused, the instance
    that was started for it alone. *)
Definition demand (now : Z) (order : list bytes) (a : bytes) (query_size : Z) (started : result anyhow unit) (w : WorkerState)
  : list worker_op * option (option Z) :=
  match apps w !! a with
  | None => ([], None)
  | Some app =>
    let begin := OpBeginQuery a query_size in
    let w1 := worker_step w begin in
    let refused op := ([begin; op; OpEndQuery now a None], None) in
    if max_query_size (manifest app) <? query_size then ([], None)
    else if reuse_instance app then
      if (size (instances app) =? 0)%nat && on_demand (manifest app) then
        let t := Some (on_demand_connection_timeout (w_args w)) in
        if is_ok (resize_app_instances now order a 1 t w1).1 && is_ok started
        then ([begin; OpResize now order a 1 t], Some None)
        else refused (OpResize now order a 1 t)
      else ([begin], Some None)
    else
      match (try_inc_instances now order a w1).1 with
      | Ok sn => ([begin; OpTryInc now order a], Some sn)
      | Err _ => refused (OpTryInc now order a)
      end
  end.
Lemma prepare_demand now order a sz st w :
  let '(ops, inst) := demand now order a sz st w in
  let r := prepare_instance_for_query now order a sz st w in
  r.2 = foldl worker_step w ops /\
  match inst with
  | Some i => exists g, r.1 = Ok g /\ guard_address g = a /\ instance_id g = i
  | None => exists e, r.1 = Err e
  end.
Proof.
  unfold demand, prepare_instance_for_query. destruct (apps w !! a) as [app|] eqn:Ha.
  2: { unfold begin_query, get_app. m_unfold. rewrite Ha. simpl. eauto. }
  assert (Hb : begin_query a sz w = if max_query_size (manifest app) <? sz then (Err (Msg "query size exceeds the limit"), w)
    else (Ok (negb (reuse_instance app) || ((size (instances app) =? 0)%nat && on_demand (manifest app)), reuse_instance app),
          worker_step w (OpBeginQuery a sz))).
  { cbn [worker_step]. unfold begin_query, get_app, put_app. m_unfold. rewrite Ha. simpl. by destruct (max_query_size (manifest app) <? sz). }
  assert (Hargs : w_args (worker_step w (OpBeginQuery a sz)) = w_args w).
  { cbn [worker_step]. unfold begin_query, get_app, put_app. m_unfold. rewrite Ha. simpl. by destruct (_ <? _). }
  unfold or_drop, with_context, drop_guard, ignore. m_unfold. rewrite Hb. clear Hb. destruct (max_query_size (manifest app) <? sz); [simpl; eauto|].
  remember (worker_step w (OpBeginQuery a sz)) as w1 eqn:Hw1.
  destruct (reuse_instance app); cbn [negb orb andb fst snd foldl is_ok context map_err].
  - destruct ((size (instances app) =? 0)%nat && on_demand (manifest app)); cbn [negb orb andb fst snd foldl is_ok context map_err]; [|rewrite <- Hw1; split; [done|]; by eexists].
    rewrite Hargs. destruct (resize_app_instances _ _ _ _ _ _) as [[[l rm]|e] w2] eqn:Hr; [destruct st|]; cbn [negb orb andb fst snd foldl is_ok context map_err]; rewrite <- Hw1;
      cbn [worker_step]; rewrite Hr; (split; [done|by eexists]).
  - destruct (try_inc_instances _ _ _ _) as [[sn|e] w2] eqn:Hr; cbn [negb orb andb fst snd foldl is_ok context map_err]; rewrite <- Hw1; cbn [worker_step]; rewrite Hr; (split; [done|by eexists]).
Qed.

Section Refinement.
Context {WasmModule : Type} `{Libs, Primitives, Keys, Digest} (chunk : nat -> nat).
Context `{ScaleCodec (list AppMetrics), ScaleCodec WorkerRegistrationInfoV2, ScaleCodec WorkerEndpointPayload,
  ScaleCodec (Prices * bytes)}.
Context (ds : bytes -> result anyhow (option QuerySignature)) (da : bytes -> result anyhow bytes)
  (dargs : bytes -> option QueryArgs) (afs : bytes -> result anyhow bytes) (blake : bytes -> bytes)
  (eu : SessionUpdate -> bytes) (et : MetricsToken -> bytes) (maddr : AppManifest -> bytes) (msize : AppManifest -> Z)
  (sk : bytes) (dop : bytes -> bytes -> bool -> result RpcError OperationCall)
  (dus : bytes -> bytes -> bool -> result RpcError UserCall) (encode : bool -> RpcReply -> bytes)
  (rpc_error : anyhow -> RpcError) (je pe dd : bytes -> bytes).
Abbreviation op_call := (operation_call (WasmModule := WasmModule) chunk ds da dargs afs blake eu et maddr msize sk).
Abbreviation us_call := (user_call (WasmModule := WasmModule) chunk ds da dargs afs blake eu et maddr msize sk).
Abbreviation step := (node_step (WasmModule := WasmModule) chunk ds da dargs afs blake eu et maddr msize sk dop dus encode
  rpc_error je pe dd).
Abbreviation Env := (CallEnv WasmModule).

(** The steps of a query: it begins and ends. *)
Definition query_ops (e : Env) (req : QueryArgs) (w : WorkerState) : list worker_op :=
  match query_caller ds req, da (qa_address req) with
  | Ok _, Ok a =>
    let '(ops, inst) := demand (env_now e) (env_order e) a (zlen (qa_payload req) + zlen (qa_path req)) (env_started e) w in
    ops ++ match inst with Some i => [OpEndQuery (env_now e) a i] | None => [] end
  | _, _ => []
  end.
(** A resize of the app that a message names. *)
Definition resize_ops (e : Env) (address : bytes) (n : Z) : list worker_op :=
  match da address with Ok a => [OpResize (env_now e) (env_order e) a n None] | Err _ => [] end.
(** The steps that a method of the operator's server asks for. *)
Definition call_ops (e : Env) (c : OperationCall) (w : WorkerState) : list worker_op :=
  match c with
  | WorkerInit pnonce recipient =>
    match afs recipient with
    | Ok account => if zlen pnonce <=? 64 then [OpInit blake (env_random e) pnonce account] else []
    | Err _ => []
    end
  | AppDeploy (Some m) reuse =>
    let m := AppManifest_from m in
    match session w with
    | Some _ => [OpDeploy (env_now e) (env_order e) (msize m) (maddr m) (env_random e) m true reuse (env_started e)]
    | None => []
    end
  | AppRemove address => match da address with Ok a => [OpRemove a] | Err _ => [] end
  | AppStart address => resize_ops e address 1
  | AppStop address => resize_ops e address 0
  | AppResize address n => resize_ops e address n
  | AppMetricsCall addresses => if is_ok (decode_addresses da addresses) then [OpBumpSn] else []
  | AppRemoveAll => [OpClear]
  | AppQuery req => query_ops e req w
  | AppEncryptedQuery pubkey payload =>
    match decrypt_message sk pubkey payload with
    | Ok d => match dargs d with Some req => query_ops e req w | None => [] end
    | Err _ => []
    end
  | SetBenchApp (Ok (Some a)) n => [OpBench (Some a) n; OpResize (env_now e) (env_order e) a n None]
  | SetBenchApp _ n => [OpBench None n]
  | _ => []
  end.
Definition user_ops (e : Env) (c : UserCall) (w : WorkerState) : list worker_op :=
  match c with
  | UserInfo => []
  | UserQuery req => call_ops e (AppQuery req) w
  | UserEncryptedQuery pubkey payload => call_ops e (AppEncryptedQuery pubkey payload) w
  end.

(** The abstract process: the worker, the queries of responses being streamed, each an
    app and the instance started for it alone, and whether it has exited.  A process that
    has exited serves nothing; without the token the operator's server does nothing. *)
Record Serving : Type := MkServing { sg_worker : WorkerState; sg_queries : list (bytes * option Z); sg_exited : bool }.
Definition perform (ops : list worker_op) (s : Serving) : Serving :=
  MkServing (foldl worker_step (sg_worker s) ops) (sg_queries s) (sg_exited s).
Definition connect_spec (e : Env) (id : bytes) (path : option bytes) (stream : Z -> result anyhow unit) (s : Serving) : Serving :=
  if negb (zlen id =? 32) then s else
  let '(ops, inst) := demand (env_now e) (env_order e) id 0 (env_started e) (sg_worker s) in
  match inst with
  | None => perform ops s
  | Some i =>
    let s1 := perform ops s in
    let ok := match sender_for id 0 (sg_worker s1), path with Some sn, Some _ => is_ok (stream sn) | _, _ => false end in
    if ok then MkServing (sg_worker s1) ((id, i) :: sg_queries s1) (sg_exited s1) else perform [OpEndQuery (env_now e) id i] s1
  end.
Definition admin_spec (e : Env) (c : option OperationCall) (s : Serving) : Serving :=
  match c with
  | Some WorkerExit => MkServing (sg_worker s) (sg_queries s) true
  | Some c => perform (call_ops e c (sg_worker s)) s
  | None => s
  end.
Definition user_spec (e : Env) (c : option UserCall) (s : Serving) : Serving :=
  match c with Some c => perform (user_ops e c (sg_worker s)) s | None => s end.
Definition serving_step (value : bytes) (s : Serving) (ev : NodeEvent) : Serving :=
  match ev with
  | EvStopped now address sn => perform [OpStopped now address sn] s
  | EvMeter address sn m => perform [OpMeter address sn m] s
  | EvUser r =>
    if sg_exited s then s else
    match r with
    | UserPost e method data limits ct json => user_spec e (requested dus method (Some data) limits ct json) s
    | UserGet e method limits ct => user_spec e (requested dus method None limits ct true) s
    | UserConnect e id path stream => connect_spec e id path stream s
    | UserDone now i =>
      match sg_queries s !! i with
      | Some (a, inst) => let s1 := perform [OpEndQuery now a inst] s in MkServing (sg_worker s1) (delete i (sg_queries s1)) (sg_exited s1)
      | None => s
      end
    end
  | EvAdmin limits hs e req =>
    if sg_exited s || negb (bool_decide (value = [] \/ get_one (lit "Authorization") hs = Some value)) then s else
    match req with
    | PrpcPost method body ct json => admin_spec e (requested dop method (Some body) limits ct json) s
    | PrpcGet method ct => admin_spec e (requested dop method None limits ct true) s
    | _ => s
    end
  end.
(** The abstract state of a process. *)
Definition serving (n : Node) : Serving :=
  MkServing (sv_worker (node_server n)) ((fun g => (guard_address g, instance_id g)) <$> node_guards n) (sv_exited (node_server n)).

Lemma on_worker_bind {A B} (m : WorkerM A) (k : A -> M Server anyhow B) s : (forall x s, (k x s).2 = s) ->
  let s' := ((on_worker m ≫= k) s).2 in sv_worker s' = (m (sv_worker s)).2 /\ sv_exited s' = sv_exited s.
Proof.
  intros Hk. unfold on_worker, zoom, mbind, M_bind. destruct (m (sv_worker s)) as [[x|err] w]; simpl; [|done]. by rewrite Hk.
Qed.
Lemma app_query_run e req w : (app_query ds da (env_now e) (env_order e) req (env_started e) (env_reply e) w).2 =
  foldl worker_step w (query_ops e req w).
Proof.
  unfold app_query, query_ops. m_unfold. destruct (query_caller ds req) as [caller|]; [|done]. destruct (da (qa_address req)) as [a|]; [|done].
  unfold query, with_context, with_guard, drop_guard, ignore. m_unfold.
  pose proof (prepare_demand (env_now e) (env_order e) a (zlen (qa_payload req) + zlen (qa_path req)) (env_started e) w) as Hp.
  destruct (demand _ _ _ _ _ w) as [ops inst]. rewrite foldl_app. destruct Hp as [Hw Hi].
  destruct (prepare_instance_for_query _ _ _ _ _ w) as [r w1]. simpl in *. subst w1. destruct inst as [i|].
  - destruct Hi as (g & -> & <- & <-). simpl.
    assert (Hq : forall g w, (query_target g w).2 = w) by (intros g' w'; unfold query_target, get_app; m_unfold; by repeat case_match).
    specialize (Hq g (foldl worker_step w ops)). destruct (query_target g _) as [[sn|err] w2]; simpl in *; subst w2;
      by destruct (end_query _ _ _ _) as [[]].
  - by destruct Hi as [err ->].
Qed.

Lemma resize_run now order a n st w : (resize_app now order a n st w).2 = worker_step w (OpResize now order a n None).
Proof. unfold resize_app. m_unfold. simpl. destruct (resize_app_instances now order a n None w) as [[[]|]]; done. Qed.
(** A method that names its app decodes the address first. *)
Lemma named_run {A} address (f : bytes -> WorkerM A) op w : (forall a, (f a w).2 = worker_step w (op a)) ->
  ((lift (da address) ≫= f) w).2 = foldl worker_step w (match da address with Ok a => [op a] | Err _ => [] end).
Proof. intros Hf. m_unfold. destruct (da address) as [a|]; simpl; [apply Hf|done]. Qed.
Lemma encrypted_run e pk payload w :
  (app_encrypted_query ds da dargs sk (env_now e) (env_order e) pk payload (env_started e) (env_reply e) w).2 =
  foldl worker_step w (call_ops e (AppEncryptedQuery pk payload) w).
Proof.
  unfold app_encrypted_query. cbn [call_ops]. m_unfold. destruct (decrypt_message sk pk payload) as [d|]; simpl; [|done].
  destruct (dargs d) as [req|]; simpl; [apply app_query_run|done].
Qed.
Lemma init_run e pnonce recipient w :
  (worker_init afs blake (key_sign sk) eu (env_random e) pnonce recipient w).2 = foldl worker_step w (call_ops e (WorkerInit pnonce recipient) w).
Proof.
  unfold worker_init. cbn [call_ops]. m_unfold. rewrite Z.leb_antisym. destruct (64 <? zlen pnonce); simpl; [by destruct (afs recipient)|].
  destruct (afs recipient) as [account|]; simpl; [|done]. by destruct (init _ _ _ _ _) as [[]].
Qed.
Lemma deploy_run e m reuse w :
  (app_deploy (env_now e) (env_order e) (default 0 (msize <$> (AppManifest_from <$> m))) (default [] (maddr <$> (AppManifest_from <$> m)))
     (env_random e) (AppManifest_from <$> m) reuse (env_started e) w).2 = foldl worker_step w (call_ops e (AppDeploy m reuse) w).
Proof.
  unfold app_deploy, with_context. cbn [call_ops]. m_unfold. destruct (session w), m as [m|]; simpl; try done.
  by destruct (deploy_app _ _ _ _ _ _ _ _ _ w) as [[]].
Qed.
Lemma bench_run e address n w :
  (rpc_set_bench_app (env_now e) (env_order e) address n (env_started e) w).2 = foldl worker_step w (call_ops e (SetBenchApp address n) w).
Proof.
  unfold rpc_set_bench_app. cbn [call_ops]. m_unfold. destruct address as [[a|]|]; simpl; [|done..]. apply resize_run.
Qed.
Lemma metrics_run e addresses w :
  (app_metrics_report da (key_sign sk) et (env_now e) (env_order e) addresses (env_random e) w).2 = foldl worker_step w (call_ops e (AppMetricsCall addresses) w).
Proof.
  unfold app_metrics_report. cbn [call_ops]. m_unfold. destruct (decode_addresses da addresses); simpl; [|done]. by destruct (session w).
Qed.

(** Every method makes exactly its steps. *)
Lemma operation_run e c s : c <> WorkerExit -> let s' := (op_call e c s).2 in
  sv_worker s' = foldl worker_step (sv_worker s) (call_ops e c (sv_worker s)) /\ sv_exited s' = sv_exited s.
Proof.
  intros Hne s'. subst s'.
  assert (Hgo : forall A B (m : WorkerM A) (k : A -> M Server anyhow B), (forall x s, (k x s).2 = s) ->
    (m (sv_worker s)).2 = foldl worker_step (sv_worker s) (call_ops e c (sv_worker s)) ->
    sv_worker ((on_worker m ≫= k) s).2 = foldl worker_step (sv_worker s) (call_ops e c (sv_worker s)) /\
    sv_exited ((on_worker m ≫= k) s).2 = sv_exited s).
  { intros A B m k Hk Hm. destruct (on_worker_bind m k s Hk) as [Hw Hx]. by rewrite <- Hm. }
  destruct c; cbn [operation_call]; try done.
  - apply Hgo; [by intros [] ?|apply init_run].
  - by destruct (sign_register_info _ _ _ _) as [[]|].
  - by destruct (sign_endpoints _ _ _) as [[]|].
  - by destruct (sign_worker_description _ _ _).
  - unfold on_fs, zoom. m_unfold. by destruct (blob_put _ _ _ _ _) as [[]].
  - unfold on_fs, zoom. m_unfold. by destruct (blob_remove _ _) as [[]].
  - apply Hgo; [by intros [] ?|apply deploy_run].
  - apply Hgo; [done|]. unfold app_remove. cbn [call_ops]. apply named_run. intros a. m_unfold. simpl. by destruct (remove_app a _) as [[]].
  - apply Hgo; [done|]. apply named_run. intros a. apply resize_run.
  - apply Hgo; [done|]. apply named_run. intros a. apply resize_run.
  - apply Hgo; [done|]. unfold app_resize. cbn [call_ops]. apply named_run. intros a. unfold mbind at 1, M_bind at 1.
    rewrite <- (resize_run _ _ _ _ (env_started e)). destruct (resize_app _ _ _ _ _ _) as [[]]; [|done]. m_unfold. by destruct (num_instances_of a _).
  - apply Hgo; [by intros [] ?|apply metrics_run].
  - apply Hgo; [done|apply app_query_run].
  - apply Hgo; [done|apply encrypted_run].
  - apply Hgo; [done|apply bench_run].
Qed.
Lemma user_run e c s : let s' := (us_call e c s).2 in
  sv_worker s' = foldl worker_step (sv_worker s) (user_ops e c (sv_worker s)) /\ sv_exited s' = sv_exited s.
Proof. destruct c; cbn [user_call user_ops]; [by apply on_worker_bind|by apply operation_run..]. Qed.

(** Each kind of event makes the abstract step. *)
Lemma user_prpc_spec e method data limits ct json n :
  serving (user_prpc (WasmModule := WasmModule) chunk ds da dargs afs blake eu et maddr msize sk dus encode rpc_error je pe dd e method data limits ct json n) =
  user_spec e (requested dus method data limits ct json) (serving n).
Proof.
  unfold user_prpc, user_dispatch. unfold serving at 1. cbn [node_server node_guards]. rewrite served_run.
  destruct (requested dus method data limits ct json) as [c|]; [|done]. destruct (user_run e c (node_server n)) as [Hw Hx]. simpl. by rewrite Hw, Hx.
Qed.
Lemma admin_prpc_spec e method data limits ct json n :
  let s := (handle_prpc (admin_dispatch (WasmModule := WasmModule) chunk ds da dargs afs blake eu et maddr msize sk dop encode rpc_error e) je pe dd
    method data limits ct json (node_server n)).2 in
  serving (MkNode s (node_guards n)) = admin_spec e (requested dop method data limits ct json) (serving n).
Proof.
  unfold admin_dispatch. cbv zeta. rewrite served_run. destruct (requested dop method data limits ct json) as [c|]; [|by destruct n].
  assert (Hc : {c = WorkerExit} + {c <> WorkerExit}) by (destruct c; (by left) || by right). destruct Hc as [->|Hne]; [done|].
  destruct (operation_run e c (node_server n) Hne) as [Hw Hx]. unfold serving. cbn [node_server node_guards]. rewrite Hw, Hx. by destruct c.
Qed.
Lemma connect_run e id path stream n : sv_exited (node_server n) = false ->
  serving (user_request (WasmModule := WasmModule) chunk ds da dargs afs blake eu et maddr msize sk dus encode rpc_error je pe dd n (UserConnect e id path stream)) =
  connect_spec e id path stream (serving n).
Proof.
  intros Hx. unfold user_request, connect_spec, connect_vm. rewrite Hx. destruct (negb (zlen id =? 32)); [by destruct n as [[] ?]; simpl in *; subst|].
  pose proof (prepare_demand (env_now e) (env_order e) id 0 (env_started e) (sv_worker (node_server n))) as Hp.
  cbn [sg_worker serving]. destruct (demand _ _ _ _ _ _) as [ops inst]. destruct Hp as [Hw Hi].
  destruct (prepare_instance_for_query _ _ _ _ _ _) as [r w1]. simpl in *. subst w1. destruct inst as [i|]; [|destruct Hi as [err ->]; by unfold serving, perform; simpl; rewrite Hx].
  destruct Hi as (g & -> & Hga & Hgi). unfold perform, serving. cbn [sg_worker sg_queries sg_exited foldl].
  assert (Hd : forall w, (drop_guard (env_now e) g w).2 = worker_step w (OpEndQuery (env_now e) id i)).
  { intros w. unfold drop_guard, ignore. rewrite Hga, Hgi. simpl. by destruct (end_query _ _ _ _) as [[]]. }
  rewrite <- Hd. destruct (sender_for id 0 _) as [sn|]; [destruct path as [p|]; [destruct (stream sn) as [[]|]|]|];
    cbn [is_ok]; simpl; by rewrite ?Hga, ?Hgi, Hx.
Qed.
Lemma authorized_spec value hs : is_ok (authorized value hs) = bool_decide (value = [] \/ get_one (lit "Authorization") hs = Some value).
Proof.
  unfold authorized. case_bool_decide as Hv; [by rewrite bool_decide_true by auto|]. destruct (get_one (lit "Authorization") hs) as [v|];
    [case_bool_decide as Hw|]; simpl; symmetry; [apply bool_decide_true|apply bool_decide_false..]; naive_solver.
Qed.
Lemma admin_run value limits hs e req n : serving (step value n (EvAdmin limits hs e req)) = serving_step value (serving n) (EvAdmin limits hs e req).
Proof.
  cbn [node_step serving_step]. unfold admin_request. change (sg_exited (serving n)) with (sv_exited (node_server n)).
  destruct (sv_exited (node_server n)) eqn:Hx; [done|]. rewrite <- authorized_spec. unfold admin_serve.
  pose proof (admin_prpc_spec e) as Hp.
  destruct req as [method body ct json|method ct|uuid hash body|id|]; destruct (authorized value hs); simpl; try (by destruct n).
  - specialize (Hp method (Some body) limits ct json n). by destruct (handle_prpc _ _ _ _ method _ limits ct json (node_server n)).
  - specialize (Hp method None limits ct true n). by destruct (handle_prpc _ _ _ _ method _ limits ct true (node_server n)).
  - by destruct (put_object _ _ _ _ _).
  - by destruct (fs_read _ _).
Qed.
Lemma serving_simulates value n ev : serving (step value n ev) = serving_step value (serving n) ev.
Proof.
  destruct ev as [r|limits hs e req|now address sn|address sn m]; [|apply admin_run|done|done].
  cbn [node_step serving_step]. change (sg_exited (serving n)) with (sv_exited (node_server n)).
  destruct (sv_exited (node_server n)) eqn:Hx; [unfold user_request; by rewrite Hx|].
  destruct r as [e method data limits ct json|e method limits ct|e id path stream|now i].
  - unfold user_request. rewrite Hx. apply user_prpc_spec.
  - unfold user_request. rewrite Hx. apply user_prpc_spec.
  - by apply connect_run.
  - unfold user_request. rewrite Hx. unfold serving at 2. cbn [sg_queries]. rewrite list_lookup_fmap.
    destruct (node_guards n !! i) as [g|] eqn:Hg; simpl; [|done]. unfold perform, serving. simpl. by rewrite list_fmap_delete, Hx.
Qed.

End Refinement.

(** ** What the public server cannot do *)

(** The parts of an app that only its deployment sets. *)
Definition identity (a : AppState) := (app_sn a, app_session a, manifest a, auto_restart a, reuse_instance a).
(** Started by the operator: neither on demand, nor of a size that the worker may reduce. *)
Definition pinned (a : AppState) : Prop := on_demand (manifest a) = false /\ resizable (manifest a) = false.
(** Settings of the worker. *)
Definition settings (w : WorkerState) :=
  (w_args w, session w, metrics_sn w, bench_app w, bench_instances w, next_app_sn w).

(** An app and what it may become; instances numbered from [n0] on are new. *)
Definition app_confined (n0 : Z) (o o' : option AppState) : Prop :=
  match o, o' with
  | Some a, Some a' => identity a' = identity a /\
      (pinned a -> forall sn i, sn < n0 -> instances a !! sn = Some i -> instances a' !! sn = Some i)
  | None, None => True
  | _, _ => False
  end.

Section Confined.
(** From [w0], at most [k] instances have been started. *)
Context (w0 : WorkerState) (sn_nonneg : 0 <= next_run_sn w0).
Definition confined (k : Z) (w : WorkerState) : Prop :=
  settings w = settings w0 /\ next_run_sn w0 <= next_run_sn w <= next_run_sn w0 + k /\
  forall a, app_confined (next_run_sn w0) (apps w0 !! a) (apps w !! a).

Lemma confined_refl : confined 0 w0.
Proof. split_and!; [done|lia..|]. intros a. unfold app_confined. by destruct (apps w0 !! a). Qed.
Lemma confined_weaken k k' w : k <= k' -> confined k w -> confined k' w.
Proof. intros ? (? & ? & ?). split_and!; try done; lia. Qed.
Lemma confined_args k w : confined k w -> w_args w = w_args w0.
Proof. by intros ([=] & _). Qed.

(** One app is replaced. *)
Lemma confined_update k w a app app' : confined k w -> apps w !! a = Some app -> identity app' = identity app ->
  (pinned app -> forall sn i, sn < next_run_sn w0 -> instances app !! sn = Some i -> instances app' !! sn = Some i) ->
  confined k (set_apps w (<[a := app']> (apps w))).
Proof.
  intros (Hs & Hn & Ha) Happ Hid Hi. split; [done|]. split; [done|]. intros b. simpl. specialize (Ha b).
  destruct (decide (a = b)) as [<-|Hne]; [|by rewrite lookup_insert_ne].
  rewrite lookup_insert_eq. rewrite Happ in Ha. unfold app_confined in *. destruct (apps w0 !! a) as [x|]; [|done].
  destruct Ha as [Hx Hxi]. split; [congruence|]. intros Hp sn i Hsn Hl. apply Hi; [|done|by apply Hxi].
  assert (Hm : manifest app = manifest x) by (unfold identity in Hx; congruence). unfold pinned in *. by rewrite Hm.
Qed.

Lemma confined_start k now a lim w : confined k w -> next_run_sn w0 + k < int_max U64 ->
  confined (k + 1) (start_app now a lim w).2 /\
  (forall sn, (start_app now a lim w).1 = Ok sn -> next_run_sn w0 <= sn).
Proof.
  intros Hw Hmax. unfold start_app, get_app, put_app. m_unfold.
  destruct (apps w !! a) as [app|] eqn:Ha; simpl; [|split; [by eapply confined_weaken; [|done]; lia|done]].
  destruct (_ && _); simpl; [split; [by eapply confined_weaken; [|done]; lia|done]|].
  pose proof Hw as (Hs & Hn & Happ).
  assert (Hwrap : wrap U64 (next_run_sn w + 1) = next_run_sn w + 1).
  { apply wrap_id, in_range_spec. const_bounds. lia. }
  split; [|intros sn [= <-]; lia]. split; [done|]. split; [simpl; rewrite Hwrap; lia|].
  assert (Hu := confined_update k w a app
    (set_instances app (<[next_run_sn w := MkInst (next_run_sn w) (Meter_default now) lim]> (instances app))) Hw Ha eq_refl).
  destruct Hu as (_ & _ & Hu); [|exact Hu]. intros _ sn i Hlt Hl. simpl. by rewrite lookup_insert_ne by lia.
Qed.

Lemma confined_start_many now a lim n : forall k w, confined k w -> next_run_sn w0 + k + Z.of_nat n <= int_max U64 ->
  confined (k + Z.of_nat n) (start_many now a lim n w).2 /\
  (forall l, (start_many now a lim n w).1 = Ok l -> Forall (fun sn => next_run_sn w0 <= sn) l).
Proof.
  induction n as [|n IH]; intros k w Hw Hmax; cbn [start_many].
  - split; [by eapply confined_weaken; [|done]; lia|]. intros l [= <-]. constructor.
  - m_unfold. destruct (confined_start k now a lim w Hw ltac:(lia)) as [H1 Hsn].
    destruct (start_app now a lim w) as [[sn|e] w1]; cbn [fst snd] in *.
    + destruct (IH (k + 1) w1 H1 ltac:(lia)) as [H2 Hl].
      destruct (start_many now a lim n w1) as [[l|e] w2]; cbn [fst snd] in *;
        (split; [by eapply confined_weaken; [|done]; lia|]); [|done].
      intros l' [= <-]. constructor; eauto.
    + split; [by eapply confined_weaken; [|done]; lia|done].
Qed.

Lemma confined_evict k now order : forall w, confined k w -> confined k (evict now order w).2 /\
  (forall b app, apps w !! b = Some app -> pinned app -> apps (evict now order w).2 !! b = Some app).
Proof.
  induction order as [|a order IH]; intros w Hw; cbn [evict]; [done|].
  destruct (apps w !! a) as [app|] eqn:Ha; [|by apply IH].
  destruct (resizable (manifest app)) eqn:Hr; [|by apply IH].
  destruct (pop_instance now app) as [[i app']|] eqn:Hp; [|by apply IH]. simpl.
  assert (Hnot : ~ pinned app) by (intros [_ Hx]; congruence). split.
  - eapply confined_update; [done..| |by intros ?]. unfold pop_instance in Hp.
    destruct (pop_last (instances app)) as [[[sn j] rest]|]; simpl in Hp; [|done]. by injection Hp as <- <-.
  - intros b x Hb Hx. rewrite lookup_insert_ne; [done|]. intros <-. congruence.
Qed.

Lemma confined_reserve k now order a w : confined k w -> confined k (reserve_slot_if_needed now order a w).2 /\
  (forall b app, apps w !! b = Some app -> pinned app -> apps (reserve_slot_if_needed now order a w).2 !! b = Some app).
Proof.
  intros Hw. unfold reserve_slot_if_needed, get_app. m_unfold. destruct (apps w !! a); simpl; [|done].
  destruct (negb _); [done|]. destruct (0 <? _); [done|]. pose proof (confined_evict k now order w Hw) as Hv.
  by destruct (evict now order w) as [[]].
Qed.

Lemma pinned_identity a a' : identity a' = identity a -> pinned a -> pinned a'.
Proof. unfold identity, pinned. intros [= _ _ -> _ _]. done. Qed.
Lemma pop_many_identity now n : forall app l app', pop_many now n app = Some (l, app') -> identity app' = identity app.
Proof.
  induction n as [|n IH]; intros app l app'; cbn [pop_many]; [by intros [= _ <-]|].
  destruct (pop_instance now app) as [[i a1]|] eqn:Hp; simpl; [|done].
  destruct (pop_many now n a1) as [[l' a2]|] eqn:Hm; simpl; [|done]. intros [= _ <-]. rewrite (IH _ _ _ Hm).
  revert Hp. unfold pop_instance. destruct (pop_last (instances app)) as [[[sn j] rest]|]; simpl; [|done].
  by intros [= _ <-].
Qed.
(** Two states after [w0] have the same apps. *)
Lemma confined_same k k' w w' a app : confined k w -> confined k' w' -> apps w' !! a = Some app ->
  exists app0, apps w !! a = Some app0 /\ identity app0 = identity app.
Proof.
  intros (_ & _ & Ha) (_ & _ & Ha') Happ. specialize (Ha a). specialize (Ha' a). rewrite Happ in Ha'.
  unfold app_confined in *. destruct (apps w0 !! a) as [x|]; [|done]. destruct (apps w !! a) as [y|]; [|done].
  exists y. split; [done|]. destruct Ha as [-> _]. by destruct Ha' as [-> _].
Qed.

(** What an operation on demand leaves: at most [max_instances] more are started, and
    the numbers it returns are new. *)
Abbreviation K := (max_instances (w_args w0)).
Lemma confined_resize k now order a count t w : confined k w -> 0 <= K -> next_run_sn w0 + k + K <= int_max U64 ->
  (forall app, apps w !! a = Some app -> pinned app -> n_instances app <= count) ->
  let r := resize_app_instances now order a count (Some t) w in
  confined (k + K) r.2 /\ (forall l rm, r.1 = Ok (l, rm) -> Forall (fun sn => next_run_sn w0 <= sn) l).
Proof.
  intros Hw HK Hmax Hcount r. subst r. unfold resize_app_instances.
  destruct (confined_reserve k now order a w Hw) as [H1 Hpin]. unfold get_app, put_app. m_unfold.
  destruct (reserve_slot_if_needed now order a w) as [[res|e] w1]; cbn [fst snd] in *.
  2: { split; [by eapply confined_weaken; [|done]; lia|done]. }
  assert (Hsame : confined (k + K) w1) by (eapply confined_weaken; [|done]; lia).
  destruct (apps w1 !! a) as [app|] eqn:Ha; cbn [ok_or]; [|done].
  destruct (n_instances app ?= count) eqn:Hc; cbn [fst snd].
  - split; [done|]. by intros l rm [= <- <-].
  - rewrite andb_false_r. set (n := Z.to_nat (Z.min (available_slots w1) (count - n_instances app))).
    assert (Hn : Z.of_nat n <= K).
    { subst n. pose proof (available_le_max w1) as Hav. rewrite (confined_args _ _ H1) in Hav. lia. }
    destruct (confined_start_many now a (Some t) n k w1 H1 ltac:(lia)) as [H2 Hl].
    destruct (start_many now a (Some t) n w1) as [[l|e] w2]; cbn [fst snd] in *;
      (split; [by eapply confined_weaken; [|done]; lia|]); [|done]. intros l' rm [= <- <-]. eauto.
  - apply Z.compare_gt_iff in Hc. destruct (pop_many _ _ app) as [[l app']|] eqn:Hp; cbn [ok_or fst snd]; [|done].
    split; [|by intros l' rm [= <- <-]]. eapply confined_update; [done..|by eapply pop_many_identity|].
    intros Hpin'. exfalso. destruct (confined_same _ _ _ _ _ _ Hw H1 Ha) as (app0 & Ha0 & Hid).
    apply (pinned_identity app app0) in Hpin'; [|done]. rewrite (Hpin _ _ Ha0 Hpin') in Ha. injection Ha as <-.
    specialize (Hcount _ Ha0 Hpin'). lia.
Qed.

Lemma confined_end k now a i w : confined k w -> (forall sn, i = Some sn -> next_run_sn w0 <= sn) ->
  confined k (end_query now a i w).2.
Proof.
  intros Hw Hi. unfold end_query, get_app, put_app. m_unfold.
  destruct (apps w !! a) as [app|] eqn:Ha; simpl; [|done]. destruct i as [sn|]; simpl.
  - destruct (instances app !! sn); simpl; [|done]. eapply confined_update; [done..|]. intros _ sn' j Hlt Hl. simpl.
    specialize (Hi sn eq_refl). by rewrite lookup_delete_ne by lia.
  - eapply confined_update; [done..| |].
    + case_match; done.
    + intros [Hd _] sn j _ Hl. simpl. rewrite Hd, andb_false_r. done.
Qed.

(** A guard that ends no instance of before. *)
Definition guard_new (g : QueryGuard) : Prop := forall sn, instance_id g = Some sn -> next_run_sn w0 <= sn.
Lemma confined_drop k now g w : guard_new g -> confined k w -> confined k (drop_guard now g w).2.
Proof. intros Hg Hw. by apply confined_end. Qed.

Lemma confined_begin k a n w : confined k w -> confined k (begin_query a n w).2 /\
  (forall need reuse app, (begin_query a n w).1 = Ok (need, reuse) -> apps (begin_query a n w).2 !! a = Some app ->
     reuse = reuse_instance app /\ (reuse = true -> need = true -> on_demand (manifest app) = true)).
Proof.
  intros Hw. unfold begin_query, get_app, put_app. m_unfold. destruct (apps w !! a) as [app|] eqn:Ha; simpl; [|done].
  destruct (_ <? _); simpl; [done|]. split; [by eapply confined_update|].
  intros need reuse x [= <- <-] Hx. rewrite lookup_insert_eq in Hx. injection Hx as <-. simpl. split; [done|].
  intros ->. simpl. by intros [_ ?]%andb_true_iff.
Qed.

Lemma confined_prepare k now order a n st w : confined k w -> 0 <= K -> next_run_sn w0 + k + K <= int_max U64 ->
  let r := prepare_instance_for_query now order a n st w in
  confined (k + K) r.2 /\ (forall g, r.1 = Ok g -> guard_new g).
Proof.
  intros Hw HK Hmax r. subst r. unfold prepare_instance_for_query. destruct (confined_begin k a n w Hw) as [H1 Hb].
  unfold or_drop, with_context, try_inc_instances, get_app. m_unfold. destruct (begin_query a n w) as [[[need reuse]|e] w1]; cbn [fst snd] in *.
  2: { split; [by eapply confined_weaken; [|done]; lia|done]. }
  assert (Hsame : confined (k + K) w1) by (eapply confined_weaken; [|done]; lia).
  set (g := MkGuard a reuse None). assert (Hg : guard_new g) by done.
  destruct need; cbn [negb]; [|split; [done|by intros ? [= <-]]]. destruct reuse.
  - destruct (confined_resize k now order a 1 (on_demand_connection_timeout (w_args w1)) w1 H1 HK Hmax) as [H2 _].
    { intros app Ha [Hd _]. destruct (Hb _ _ app eq_refl Ha) as [_ Hx]. specialize (Hx eq_refl eq_refl). congruence. }
    destruct (resize_app_instances _ _ _ _ _ w1) as [[[l rm]|e] w2]; cbn [context map_err fst snd] in *.
    + destruct st; cbn [map_err fst snd]; [split; [done|by intros ? [= <-]]|]. split; [|done]. by apply confined_drop.
    + split; [|done]. by apply confined_drop.
  - destruct (apps w1 !! a) as [app|] eqn:Ha; cbn [ok_or fst snd]; [|split; [by apply confined_drop|done]].
    destruct (int_max U64 <=? n_instances app); cbn [fst snd]; [split; [by apply confined_drop|done]|].
    destruct (confined_resize k now order a (n_instances app + 1) (on_demand_connection_timeout (w_args w1)) w1 H1 HK Hmax)
      as [H2 Hl]. { intros x Hx _. rewrite Ha in Hx. injection Hx as <-. lia. }
    destruct (resize_app_instances _ _ _ _ _ w1) as [[[l rm]|e] w2]; cbn [fst snd] in *.
    + split; [done|]. intros g' [= <-] sn Hsn. specialize (Hl _ _ eq_refl). simpl in Hsn.
      destruct l as [|x l]; [done|]. injection Hsn as ->. by inversion Hl.
    + split; [|done]. by apply confined_drop.
Qed.

Lemma confined_query k now order a p d st reply w : confined k w -> 0 <= K -> next_run_sn w0 + k + K <= int_max U64 ->
  confined (k + K) (query now order a p d st reply w).2.
Proof.
  intros Hw HK Hmax. unfold query, with_context, with_guard, query_target, get_app. m_unfold.
  destruct (confined_prepare k now order a (zlen d + zlen p) st w Hw HK Hmax) as [H1 Hg].
  destruct (prepare_instance_for_query _ _ _ _ _ w) as [[g|e] w1]; cbn [context map_err fst snd] in *; [|done].
  assert (Hd : confined (k + K) (drop_guard now g w1).2) by (apply confined_drop; eauto).
  repeat case_match; simplify_eq/=; exact Hd.
Qed.
Lemma confined_app_query `{Libs} k ds da now order req st reply w : confined k w -> 0 <= K ->
  next_run_sn w0 + k + K <= int_max U64 -> confined (k + K) (app_query ds da now order req st reply w).2.
Proof.
  intros Hw HK Hmax. assert (Hsame : confined (k + K) w) by (eapply confined_weaken; [|done]; lia).
  unfold app_query. m_unfold. destruct (query_caller ds req) as [caller|]; [|done].
  destruct (da (qa_address req)) as [a|]; [|done]. by apply confined_query.
Qed.
Lemma confined_encrypted `{Libs, Primitives} k ds da dec sk now order pk c st reply w : confined k w -> 0 <= K ->
  next_run_sn w0 + k + K <= int_max U64 ->
  confined (k + K) (app_encrypted_query ds da dec sk now order pk c st reply w).2.
Proof.
  intros Hw HK Hmax. assert (Hsame : confined (k + K) w) by (eapply confined_weaken; [|done]; lia).
  unfold app_encrypted_query. m_unfold. destruct (map_err _ _) as [b|]; [|done].
  destruct (ok_or _ _) as [args|]; [|done]. by apply confined_app_query.
Qed.
Lemma confined_connect {A} k now order id path st (stream : Z -> result anyhow A) w : confined k w -> 0 <= K ->
  next_run_sn w0 + k + K <= int_max U64 ->
  let r := connect_vm now order id path st stream w in
  confined (k + K) r.2 /\ (forall x g, r.1 = Ok (x, g) -> guard_new g).
Proof.
  intros Hw HK Hmax r. subst r. assert (Hsame : confined (k + K) w) by (eapply confined_weaken; [|done]; lia).
  unfold connect_vm. destruct (negb _); [done|]. destruct (confined_prepare k now order id 0 st w Hw HK Hmax) as [H1 Hg].
  destruct (prepare_instance_for_query _ _ _ _ _ w) as [[g|e] w1]; cbn [fst snd] in *; [|done].
  specialize (Hg g eq_refl). assert (Hd := confined_drop _ now g w1 Hg H1).
  repeat case_match; simplify_eq/=; split; try done. by intros x g' [= _ <-].
Qed.

End Confined.

Section Confinement.
Context {WasmModule : Type} `{Libs, Primitives, Keys, Digest} (chunk : nat -> nat).
Context `{ScaleCodec (list AppMetrics), ScaleCodec WorkerRegistrationInfoV2, ScaleCodec WorkerEndpointPayload,
  ScaleCodec (Prices * bytes)}.
Context (ds : bytes -> result anyhow (option QuerySignature)) (da : bytes -> result anyhow bytes)
  (dargs : bytes -> option QueryArgs) (afs : bytes -> result anyhow bytes) (blake : bytes -> bytes)
  (eu : SessionUpdate -> bytes) (et : MetricsToken -> bytes) (maddr : AppManifest -> bytes) (msize : AppManifest -> Z)
  (sk : bytes) (dus : bytes -> bytes -> bool -> result RpcError UserCall) (encode : bool -> RpcReply -> bytes)
  (rpc_error : anyhow -> RpcError) (je pe dd : bytes -> bytes).
Abbreviation us_call := (user_call (WasmModule := WasmModule) chunk ds da dargs afs blake eu et maddr msize sk).
Abbreviation request := (user_request (WasmModule := WasmModule) chunk ds da dargs afs blake eu et maddr msize sk dus encode
  rpc_error je pe dd).
Abbreviation max_of w := (max_instances (w_args w)).

Definition server_confined (w0 : WorkerState) (s0 : Server) (k : Z) (s : Server) : Prop :=
  confined w0 k (sv_worker s) /\ sv_fs s = sv_fs s0 /\ sv_exited s = sv_exited s0.

(** A call through the server runs at most one method. *)
Lemma user_call_confined w0 s0 k e c s : 0 <= next_run_sn w0 -> server_confined w0 s0 k s -> 0 <= max_of w0 ->
  next_run_sn w0 + k + max_of w0 <= int_max U64 -> server_confined w0 s0 (k + max_of w0) (us_call e c s).2.
Proof.
  intros Hnn (Hw & Hf & He) HK Hmax. destruct c as [|req|pk payload]; cbn [user_call operation_call]; unfold on_worker, zoom; m_unfold.
  - split_and!; try done. by eapply confined_weaken; [|done]; lia.
  - pose proof (confined_app_query w0 Hnn k ds da (env_now e) (env_order e) req (env_started e) (env_reply e) _ Hw HK Hmax) as Hq.
    by destruct (app_query _ _ _ _ _ _ _ _) as [[]].
  - pose proof (confined_encrypted w0 Hnn k ds da dargs sk (env_now e) (env_order e) pk payload (env_started e)
      (env_reply e) _ Hw HK Hmax) as Hq. by destruct (app_encrypted_query _ _ _ _ _ _ _ _ _ _ _) as [[]].
Qed.

(** The process after requests to the public server. *)
Definition node_confined (s0 : Server) (k : Z) (n : Node) : Prop :=
  server_confined (sv_worker s0) s0 k (node_server n) /\ Forall (guard_new (sv_worker s0)) (node_guards n).

Lemma user_request_confined s0 k n r : let w0 := sv_worker s0 in
  0 <= next_run_sn w0 -> node_confined s0 k n -> 0 <= max_of w0 ->
  next_run_sn w0 + k + max_of w0 <= int_max U64 -> node_confined s0 (k + max_of w0) (request n r).
Proof.
  intros w0 Hnn [Hs Hg] HK Hmax.
  assert (Hweak : forall s, server_confined w0 s0 k s -> server_confined w0 s0 (k + max_of w0) s).
  { intros s (? & ? & ?). split_and!; try done. by eapply confined_weaken; [|done]; lia. }
  unfold user_request. destruct (sv_exited (node_server n)) eqn:Hx; [by split; auto|]. destruct r; simpl.
  - split; [|done]. apply (served_keeps (server_confined w0 s0 (k + max_of w0))); [|by apply Hweak]. intros c. by apply user_call_confined.
  - split; [|done]. apply (served_keeps (server_confined w0 s0 (k + max_of w0))); [|by apply Hweak]. intros c. by apply user_call_confined.
  - pose proof Hs as (Hw & Hf & He).
    destruct (confined_connect w0 Hnn k (env_now e) (env_order e) id path (env_started e) stream _ Hw HK Hmax) as [Hc Hgn].
    destruct (connect_vm _ _ _ _ _ _ _) as [[[[] g]|e'] w]; (split; [by split_and!; rewrite ?Hx in *|]); [|done].
    constructor; eauto.
  - destruct (node_guards n !! i) as [g|] eqn:Hi; [|by split; auto]. pose proof Hs as (Hw & Hf & He). split.
    + apply Hweak. split_and!; [|done|by rewrite ?Hx in *]. apply confined_drop; [|done]. by eapply Forall_lookup_1.
    + by apply Forall_delete.
Qed.

(** C13: the public server cannot change what the operator set up: after any sequence of
    requests to it (queries, plain or encrypted, reports, HTTP requests to apps and
    the ends of their responses) the same apps are deployed with the same
    manifests, the session, the serial number of metrics reports, the benchmark
    app, the arguments and the blob store are the same, and every app that is
    neither on demand nor resizable still has all the instances it had. *)
Theorem user_calls_confined s0 reqs : let w0 := sv_worker s0 in
  0 <= next_run_sn w0 -> 0 <= max_of w0 -> next_run_sn w0 + zlen reqs * max_of w0 <= int_max U64 ->
  (forall a x sn, apps w0 !! a = Some x -> is_Some (instances x !! sn) -> sn < next_run_sn w0) ->
  let s := node_server (foldl request (MkNode s0 []) reqs) in
  sv_fs s = sv_fs s0 /\ sv_exited s = sv_exited s0 /\ settings (sv_worker s) = settings w0 /\
  dom (apps (sv_worker s)) = dom (apps w0) /\
  (forall a x x', apps w0 !! a = Some x -> apps (sv_worker s) !! a = Some x' ->
     identity x' = identity x /\ (pinned x -> instances x ⊆ instances x')).
Proof.
  intros w0 Hnn HK Hmax Hbelow s.
  assert (Hn : forall reqs k n, node_confined s0 k n -> next_run_sn w0 + k + zlen reqs * max_of w0 <= int_max U64 ->
    node_confined s0 (k + zlen reqs * max_of w0) (foldl request n reqs)).
  { clear reqs Hmax s. intros reqs. induction reqs as [|r reqs IH]; intros k n Hn Hmax; simpl; [by rewrite (zlen_nil (A := UserRequest (WasmModule := WasmModule))), Z.add_0_r|].
    rewrite zlen_cons in *. pose proof (zlen_nonneg reqs). assert (0 <= zlen reqs * max_of w0) by nia.
    replace (k + (1 + zlen reqs) * max_of w0) with (k + max_of w0 + zlen reqs * max_of w0) by lia.
    apply IH; [|lia]. apply user_request_confined; try done. fold w0. lia. }
  assert (Hinit : node_confined s0 0 (MkNode s0 [])).
  { split; [|constructor]. split_and!; try done. apply confined_refl. }
  destruct (Hn reqs 0 _ Hinit ltac:(lia)) as [((Hs & Hsn & Ha) & Hf & He) _]. fold s w0 in Hs, Ha, Hf, He.
  split; [done|]. split; [done|]. split; [done|]. split; [|intros a x x' Hx Hx'; specialize (Ha a); rewrite Hx, Hx' in Ha;
    destruct Ha as [Hid Hi]; split; [done|]].
  - apply set_eq. intros a. rewrite !elem_of_dom. specialize (Ha a). unfold app_confined in Ha.
    by destruct (apps w0 !! a), (apps (sv_worker s) !! a); split; intros []; eauto.
  - intros Hp. apply map_subseteq_spec. intros sn i Hl. apply Hi; eauto.
Qed.
End Confinement.

(** Metrics that a worker reports verify under its key, as the chain checks them. *)
Section MetricsVerify.
Context `{KeysLawful} (sk : bytes) `{ScaleCodec (list AppMetrics)}.
Context (decode_address : bytes -> result anyhow bytes) (encode_token : MetricsToken -> bytes).
Lemma reported_metrics_verify now order addresses nonce w m sig w' :
  app_metrics_report decode_address (pair_sign sr25519_sign sk) encode_token now order addresses nonce w = (Ok (m, sig), w') ->
  verify_metrics sr25519_verify encode_token (MkSignedMetrics (MetricsV0 m) (bv_from sig) (public_of sk)) = true.
Proof.
  unfold app_metrics_report, bump_metrics_sn. m_unfold. destruct (decode_addresses decode_address addresses); [|done].
  cbn -[for_each_app]. destruct (session w); cbn -[for_each_app]; [|done].
  intros [[= <- <-] _]%pair_equal_spec. apply verify_sign.
Qed.
End MetricsVerify.

(** ** An example: a worker with one app, and one method that queries it *)
Module ToyServer.
#[export] Existing Instances lax_libs ToyCrypto.prims toy_digest ToyApp.keys.
#[export] Instance no_codec {A} : ScaleCodec A := {| scale_encode _ := []; scale_decode _ := None |}.
Definition env : CallEnv unit :=
  MkEnv _ 3 [] (Ok tt) (fun _ sn => Ok [sn; 42]) [] (Ok 0) (MkMemory 0 0 0 0 0 0) 1 (loader_new 4) (1, 0).
Definition decode_user (path data : bytes) (json : bool) : result RpcError UserCall :=
  if bool_decide (path = lit "Query") then Ok (UserQuery (MkQueryArgs (addr 1) [47] data [])) else Err RpcNotFound.
Definition decode_operation (path data : bytes) (json : bool) : result RpcError OperationCall :=
  if bool_decide (path = lit "Init") then Ok (WorkerInit [1] [2])
  else if bool_decide (path = lit "Deploy") then Ok (AppDeploy (Some (Manifest_from (manifest0 false false))) true) else Err RpcNotFound.
Definition server : Server := MkServer ToyCrypto.worker (MkFs ∅ []) false.
Definition requests : list UserRequest :=
  [UserPost env (lit "Query") (Ok [5]) [] false false; UserGet env (lit "Deploy") [] false;
   UserConnect env (addr 1) (Some []) (fun _ => Ok tt); UserDone 4 0].
Definition events : list NodeEvent :=
  [EvAdmin [] [] env (PrpcPost (lit "Init") (Ok []) false false); EvAdmin [] [] env (PrpcPost (lit "Deploy") (Ok []) false false);
   EvUser (UserConnect env (addr 9) (Some []) (fun _ => Ok tt)); EvUser (UserDone 4 0)].
End ToyServer.
Import ToyServer.

Lemma user_calls_confined_witness :
  let run := foldl (user_request (fun n => n) (fun _ => Ok None) (fun a => Ok a) (fun _ => None) (fun a => Ok a) (fun b => b)
    (fun _ => []) (fun _ => []) (fun _ => addr 9) (fun _ => 0) [7] decode_user (fun _ _ => []) (fun _ => RpcNotFound)
    (fun b => b) (fun b => b) (fun b => b)) (MkNode server []) requests in
  (forall x x', apps ToyCrypto.worker !! addr 1 = Some x -> apps (sv_worker (node_server run)) !! addr 1 = Some x' ->
     identity x' = identity x /\ (pinned x -> instances x ⊆ instances x')) /\
  on_going_queries <$> apps (sv_worker (node_server run)) !! addr 1 = Some 0 /\ running_instances (sv_worker (node_server run)) = 1.
Proof.
  intros run. split; [|vm_compute; split; reflexivity]. intros x x'.
  refine (proj2 (proj2 (proj2 (proj2 (user_calls_confined (fun n => n) (fun _ => Ok None) (fun a => Ok a) (fun _ => None)
    (fun a => Ok a) (fun b => b) (fun _ => []) (fun _ => []) (fun _ => addr 9) (fun _ => 0) [7] decode_user (fun _ _ => [])
    (fun _ => RpcNotFound) (fun b => b) (fun b => b) (fun b => b) server requests _ _ _ _)))) (addr 1) x x');
    [vm_compute; discriminate..|].
  assert (Hb : map_Forall (fun _ y => map_Forall (fun sn _ => sn < 1) (instances y)) (apps (sv_worker server)))
    by (apply (bool_decide_unpack _); vm_compute; exact I).
  intros a y sn Hy [i Hi]. exact (Hb a y Hy sn i Hi).
Defined.

