(* ===== verification/HttpStream.v ===== *)
(** * The stream of an HTTP request to an app (wapo-host/src/rocket_stream.rs)

    [connect] hands a request to an instance together with one end of an in-memory
    duplex stream, sends the body through it, waits for the response's head and
    returns it with the other end of the stream.  Here it runs against a guest: the
    two are polled in turns, over pipes of bounded size.  The end of an upgraded
    connection copies in both directions and keeps the worker's guard. *)
From S2P Require Import Prelude Ocall Blobs Worker Rpc WebApi.

(** ** Pipes

    One direction of [tokio::io::duplex]: a write takes what fits and waits when
    nothing does; a read takes what is there, and is the end when the writer has shut
    down.  [None] is a poll that is pending. *)
Class Pipe (P : Type) := {
  pipe_new : nat -> P;
  pipe_write : bytes -> P -> option (result unit nat) * P;
  pipe_read : nat -> P -> option bytes * P;
  pipe_shutdown : P -> P;
  pipe_drop_reader : P -> P;
  (** what was written and not read, the size, and who is gone *)
  buffered : P -> bytes;
  capacity : P -> nat;
  writer_done : P -> bool;
  reader_gone : P -> bool
}.
Definition room `{Pipe P} (p : P) : nat := (capacity p - length (buffered p))%nat.
Class PipeLawful (P : Type) `{Pipe P} := {
  new_spec : forall n, buffered (pipe_new n) = [] /\ capacity (pipe_new n) = n /\ writer_done (pipe_new n) = false /\
    reader_gone (pipe_new n) = false;
  write_gone : forall d p, reader_gone p = true -> pipe_write d p = (Some (Err tt), p);
  write_full : forall d p, reader_gone p = false -> d <> [] -> room p = 0%nat -> pipe_write d p = (None, p);
  write_some : forall d p, reader_gone p = false -> d <> [] -> room p <> 0%nat -> exists p',
    pipe_write d p = (Some (Ok (Nat.min (length d) (room p))), p') /\
    buffered p' = buffered p ++ take (Nat.min (length d) (room p)) d /\ capacity p' = capacity p /\
    writer_done p' = writer_done p /\ reader_gone p' = false;
  read_empty : forall n p, (0 < n)%nat -> buffered p = [] -> pipe_read n p = ((if writer_done p then Some [] else None), p);
  read_some : forall n p, (0 < n)%nat -> buffered p <> [] -> exists p',
    pipe_read n p = (Some (take n (buffered p)), p') /\ buffered p' = drop n (buffered p) /\ capacity p' = capacity p /\
    writer_done p' = writer_done p /\ reader_gone p' = reader_gone p;
  shutdown_spec : forall p, buffered (pipe_shutdown p) = buffered p /\ capacity (pipe_shutdown p) = capacity p /\
    writer_done (pipe_shutdown p) = true /\ reader_gone (pipe_shutdown p) = reader_gone p;
  drop_gone : forall p, reader_gone (pipe_drop_reader p) = true
}.

Section Stream.
Context {P : Type} `{Pipe P} `{ScaleCodec ResponseHead} (to_lowercase : bytes -> bytes).

(** [StreamResponse]: the head, our end of the stream (what we read and what we write),
    and the guard. *)
Record StreamResponse {G : Type} : Type := MkStream { st_head : ResponseHead; st_in : P; st_out : P; st_guard : option G }.
Arguments StreamResponse : clear implicits.
Definition StreamResponse_new {G} (head : ResponseHead) (i o : P) : StreamResponse G := MkStream G head i o None.
Definition new_with_guard {G} (head : ResponseHead) (i o : P) (guard : G) : StreamResponse G := MkStream G head i o (Some guard).
(** [AsyncRead for StreamResponse]: the body of a plain response. *)
Definition stream_poll_read {G} (n : nat) (s : StreamResponse G) : option bytes * StreamResponse G :=
  let '(r, i) := pipe_read n (st_in s) in (r, MkStream G (st_head s) i (st_out s) (st_guard s)).

(** ** The request *)

(** Where [connect] is: sending the rest of the body, waiting for the head, done. *)
Inductive phase : Type :=
| Piping (rest : bytes)
| Waiting
| Connected (r : result anyhow ResponseHead).

(** A guest program on its end of the stream: reading until the end, reading once,
    writing, answering, dropping the stream.  An answer is an encoded head or an error;
    [None] is dropping the sender.  [GRefuse] is an instance without a channel for
    HTTP requests: the request is dropped with its stream and its response channel. *)
Inductive guest_act : Type :=
| GReadAll
| GRead (n : nat)
| GWrite (data : bytes)
| GRespond (reply : option (result string bytes))
| GDrop
| GRefuse.

Record Exchange : Type := MkExchange {
  ex_phase : phase;
  to_guest : P;
  from_guest : P;
  (** the response channel: nothing yet, closed, or what was sent *)
  ex_response : option (option (result anyhow ResponseHead));
  ex_guest : list guest_act;
  (** what the guest has read *)
  ex_got : bytes
}.

(** [connect] up to its first wait: the duplex stream of 1024 bytes is created; the body
    of an upgrade request, or of a request without one, is not sent, and the stream
    stays open. *)
Definition connect_start (r : RequestInfo) (body : option bytes) (guest : list guest_act) : Exchange :=
  MkExchange (if is_upgrade_request to_lowercase r then Waiting
              else match body with Some body => Piping body | None => Waiting end)
    (pipe_new 1024) (pipe_new 1024) None guest [].

(** [stream_to]: the rest of the body is written as far as it goes; then the stream is
    shut down.  An error is only logged.  [fuel] bounds the number of writes. *)
Fixpoint pump (fuel : nat) (rest : bytes) (p : P) : phase * P :=
  match rest, fuel with
  | [], _ => (Waiting, pipe_shutdown p)
  | _, O => (Piping rest, p)
  | _, S fuel =>
    match pipe_write rest p with
    | (None, p) => (Piping rest, p)
    | (Some (Err _), p) => (Waiting, p)
    | (Some (Ok n), p) => pump fuel (drop n rest) p
    end
  end.
(** One poll of [connect]. *)
Definition await_response (s : Exchange) : Exchange :=
  match ex_response s with
  | None => s
  | Some r => MkExchange (Connected (r ← ok_or r (Msg "Response channel closed"); r)) (to_guest s) (from_guest s) (ex_response s)
                (ex_guest s) (ex_got s)
  end.
Definition host_poll (s : Exchange) : Exchange :=
  match ex_phase s with
  | Piping rest =>
    let '(ph, p) := pump (length rest) rest (to_guest s) in
    let s := MkExchange ph p (from_guest s) (ex_response s) (ex_guest s) (ex_got s) in
    match ph with Waiting => await_response s | _ => s end
  | Waiting => await_response s
  | Connected _ => s
  end.

(** The task of [push_http_request] (vm_context.rs) that waits for the guest's reply and
    passes the decoded head on. *)
Definition forward_response (reply : option (result string bytes)) : result anyhow ResponseHead :=
  reply ← context "failed to receive http response" (ok_or reply (Msg "channel closed"));
  bytes ← map_err Msg reply;
  ok_or (scale_decode bytes) (Msg "decode error").

(** One poll of the guest: one read (of at least one byte) or write, if it is not pending.
    Without the stream it can still answer. *)
Definition is_respond (a : guest_act) : bool := match a with GRespond _ => true | _ => false end.
Definition guest_poll (s : Exchange) : Exchange :=
  let go p q r g got := MkExchange (ex_phase s) p q r g got in
  match ex_guest s with
  | [] => s
  | GReadAll :: g =>
    match pipe_read 4096 (to_guest s) with
    | (None, p) => go p (from_guest s) (ex_response s) (ex_guest s) (ex_got s)
    | (Some [], p) => go p (from_guest s) (ex_response s) g (ex_got s)
    | (Some d, p) => go p (from_guest s) (ex_response s) (ex_guest s) (ex_got s ++ d)
    end
  | GRead n :: g =>
    match pipe_read (S n) (to_guest s) with
    | (None, p) => go p (from_guest s) (ex_response s) (ex_guest s) (ex_got s)
    | (Some d, p) => go p (from_guest s) (ex_response s) g (ex_got s ++ d)
    end
  | GWrite [] :: g => go (to_guest s) (from_guest s) (ex_response s) g (ex_got s)
  | GWrite data :: g =>
    match pipe_write data (from_guest s) with
    | (None, q) => go (to_guest s) q (ex_response s) (ex_guest s) (ex_got s)
    | (Some (Err _), q) => go (to_guest s) q (ex_response s) g (ex_got s)
    | (Some (Ok n), q) => go (to_guest s) q (ex_response s) (GWrite (drop n data) :: g) (ex_got s)
    end
  | GRespond reply :: g => go (to_guest s) (from_guest s) (Some (Some (forward_response reply))) g (ex_got s)
  | GDrop :: g =>
    go (pipe_drop_reader (to_guest s)) (pipe_shutdown (from_guest s)) (ex_response s) (filter (fun a => is_respond a = true) g) (ex_got s)
  | GRefuse :: g => go (pipe_drop_reader (to_guest s)) (pipe_shutdown (from_guest s)) (Some None) [] (ex_got s)
  end.

(** The two sides are polled in any order. *)
Definition exchange_step (s : Exchange) (host : bool) : Exchange := if host then host_poll s else guest_poll s.
End Stream.

Section Facts.
Context {P : Type} `{PipeLawful P} `{ScaleCodec ResponseHead} (to_lowercase : bytes -> bytes).
Implicit Types (p : P) (s : Exchange (P := P)).

(** ** What a poll sends *)
Lemma pump_gone fuel rest p : reader_gone p = true -> rest <> [] -> fuel <> 0%nat -> pump fuel rest p = (Waiting, p).
Proof. intros Hg Hr Hf. destruct fuel; [done|]. destruct rest; [done|]. cbn [pump]. by rewrite write_gone. Qed.

Lemma pump_phase fuel : forall rest p, (exists rest', (pump fuel rest p).1 = Piping rest') \/ (pump fuel rest p).1 = Waiting.
Proof.
  induction fuel as [|fuel IH]; intros [|x rest] p; simpl; eauto. destruct (pipe_write (x :: rest) p) as [[[n|]|] p']; simpl; eauto.
Qed.

(** As much as fits: all of it, and the end; or the pipe is full. *)
Definition pumped (rest : bytes) (p : P) (r : phase * P) : Prop :=
  exists k, buffered r.2 = buffered p ++ take k rest /\ capacity r.2 = capacity p /\ reader_gone r.2 = false /\
    ((length (buffered p) <= capacity p)%nat -> (length (buffered r.2) <= capacity p)%nat) /\
    ((r.1 = Waiting /\ (length rest <= k)%nat /\ writer_done r.2 = true) \/
     (r.1 = Piping (drop k rest) /\ drop k rest <> [] /\ room r.2 = 0%nat /\ writer_done r.2 = writer_done p)).
Lemma pump_spec fuel : forall rest p, (length rest <= fuel)%nat -> reader_gone p = false -> pumped rest p (pump fuel rest p).
Proof.
  induction fuel as [|fuel IH]; intros rest p Hf Hg.
  - destruct rest; [|simpl in Hf; lia]. cbn [pump]. exists 0%nat. destruct (shutdown_spec p) as (Hb & Hc & Hw & Hr).
    simpl. rewrite Hb, Hc, Hr, app_nil_r. split_and!; try done. left. split_and!; try done.
  - destruct rest as [|x rest]; cbn [pump].
    { exists 0%nat. destruct (shutdown_spec p) as (Hb & Hc & Hw & Hr). simpl. rewrite Hb, Hc, Hr, app_nil_r.
      split_and!; try done. left. split_and!; try done. }
    destruct (decide (room p = 0%nat)) as [H0'|H0'].
    { rewrite write_full by done. exists 0%nat. simpl. rewrite app_nil_r. split_and!; try done. right. by split_and!. }
    destruct (write_some (x :: rest) p Hg ltac:(done) H0') as (p' & -> & Hb & Hc & Hw & Hr).
    set (n := Nat.min (length (x :: rest)) (room p)) in *. assert (Hn : (1 <= n)%nat) by (unfold n; cbn [length]; lia).
    destruct (IH (drop n (x :: rest)) p') as (k & Hb' & Hc' & Hr' & Hl' & Hcase); [rewrite length_drop; lia|done|].
    exists (n + k)%nat. rewrite Hb', Hb, Hc', Hc, <- app_assoc.
    assert (Ht : take n (x :: rest) ++ take k (drop n (x :: rest)) = take (n + k) (x :: rest)).
    { by rewrite take_take_drop. }
    rewrite Ht in *. split_and!; try done.
    { intros Hcap. rewrite Hb', Hb, <- app_assoc, Ht, Hc in Hl'. apply Hl'. rewrite length_app, length_take. unfold room in *. lia. }
    destruct Hcase as [(-> & Hk & Hd)|(-> & Hne & Hroom & Hd)].
    + left. split_and!; try done. rewrite length_drop in Hk. lia.
    + right. rewrite drop_drop in *. split_and!; try done. congruence.
Qed.

(** ** The bytes of the body *)

(** A plain request with the body [body]: what the guest has read, what is under way
    and what is still to be sent; only the end of the body ends the stream. *)
Definition delivering (body : bytes) s : Prop :=
  (exists rest, body = ex_got s ++ rest) /\
  (if reader_gone (to_guest s) then Forall (fun a => is_respond a = true) (ex_guest s) else
   match ex_phase s with
   | Piping rest => body = ex_got s ++ buffered (to_guest s) ++ rest /\ writer_done (to_guest s) = false
   | _ => body = ex_got s ++ buffered (to_guest s) /\ writer_done (to_guest s) = true
   end).

Lemma await_delivering body s : ex_phase s = Waiting -> delivering body s -> delivering body (await_response s).
Proof.
  intros Hw [Hp Hd]. unfold await_response. destruct (ex_response s); [|done]. split; simpl; [done|].
  rewrite Hw in Hd. by destruct (reader_gone _).
Qed.
Lemma host_delivering body s : delivering body s -> delivering body (host_poll s).
Proof.
  intros Hs. unfold host_poll. destruct (ex_phase s) as [rest| |r] eqn:Hph; [|by apply await_delivering|done].
  destruct Hs as [Hp Hd]. rewrite Hph in Hd. destruct (reader_gone (to_guest s)) eqn:Hg.
  - destruct rest as [|x rest].
    + cbn [pump length]. apply await_delivering; [done|]. split; simpl; [done|].
      destruct (shutdown_spec (to_guest s)) as (_ & _ & _ & ->). by rewrite Hg.
    + rewrite pump_gone by done. apply await_delivering; [done|]. split; simpl; [done|]. by rewrite Hg.
  - destruct Hd as [Hb Hw]. destruct (pump_spec (length rest) rest (to_guest s) ltac:(done) Hg) as (k & Hb' & _ & Hg' & _ & Hcase).
    destruct (pump (length rest) rest (to_guest s)) as [ph p]; simpl in *.
    destruct Hcase as [(-> & Hk & Hd)|(-> & Hne & _ & Hd)].
    + apply await_delivering; [done|]. split; simpl; [done|]. rewrite Hg', Hb'. rewrite take_ge in * by done. by split.
    + split; simpl; [done|]. rewrite Hg', Hb', <- app_assoc, take_drop. rewrite Hd. by split.
Qed.

(** Reading takes from the front. *)
Lemma read_cases n p : (0 < n)%nat ->
  (pipe_read n p = ((if writer_done p then Some [] else None), p) /\ buffered p = []) \/
  exists d p', pipe_read n p = (Some d, p') /\ d <> [] /\ buffered p = d ++ buffered p' /\ capacity p' = capacity p /\
    writer_done p' = writer_done p /\ reader_gone p' = reader_gone p.
Proof.
  intros Hn. destruct (decide (buffered p = [])) as [He|He]; [left; by rewrite read_empty|].
  right. destruct (read_some n p Hn He) as (p' & Hr & Hb & Hc & Hw & Hg). exists (take n (buffered p)), p'.
  rewrite Hb, take_drop. split_and!; try done. destruct (buffered p), n; simpl; done || lia.
Qed.
Lemma read_delivering body s d p g : delivering body s -> reader_gone (to_guest s) = false ->
  buffered (to_guest s) = d ++ buffered p -> writer_done p = writer_done (to_guest s) -> reader_gone p = false ->
  delivering body (MkExchange (ex_phase s) p (from_guest s) (ex_response s) g (ex_got s ++ d)).
Proof.
  intros [Hp Hd] Hg Hb Hw Hg'. rewrite Hg, Hb in Hd. unfold delivering. simpl. rewrite Hg', Hw.
  destruct (ex_phase s) as [rest| |]; destruct Hd as [-> ?]; (split; [eexists; rewrite <- !(assoc_L (++)); reflexivity|]);
    by rewrite <- !(assoc_L (++)).
Qed.
(** A guest that keeps its stream goes on, or answers. *)
Lemma keep_delivering body s q r g : delivering body s ->
  (reader_gone (to_guest s) = true -> Forall (fun a => is_respond a = true) g) ->
  delivering body (MkExchange (ex_phase s) (to_guest s) q r g (ex_got s)).
Proof. intros [Hp Hd] Hg. split; simpl; [done|]. destruct (reader_gone _); [by apply Hg|done]. Qed.

Lemma guest_delivering body s : delivering body s -> delivering body (guest_poll s).
Proof.
  intros Hs. unfold guest_poll. destruct (ex_guest s) as [|a g] eqn:Hgs; [done|].
  assert (Hkeep : reader_gone (to_guest s) = true -> is_respond a = true /\ Forall (fun a => is_respond a = true) g).
  { intros Hg. destruct Hs as [_ Hd]. rewrite Hg, Hgs in Hd. by apply Forall_cons in Hd. }
  destruct (reader_gone (to_guest s)) eqn:Hg.
  { destruct (Hkeep eq_refl) as [Ha Hg']. destruct a; try done. by apply keep_delivering. }
  assert (Hk : forall q r g', delivering body (MkExchange (ex_phase s) (to_guest s) q r g' (ex_got s))).
  { intros q r g'. apply keep_delivering; [done|]. congruence. }
  destruct a as [|n|[|x data]|head| |].
  - destruct (read_cases 4096 (to_guest s) ltac:(lia)) as [[-> He]|(d & p' & -> & Hd & Hb & _ & Hw & Hg')].
    + destruct (writer_done (to_guest s)); apply Hk.
    + destruct d as [|y d]; [done|]. by apply read_delivering; rewrite ?Hg'.
  - destruct (read_cases (S n) (to_guest s) ltac:(lia)) as [[-> He]|(d & p' & -> & Hd & Hb & _ & Hw & Hg')].
    + destruct (writer_done (to_guest s)); [rewrite app_nil_r|]; apply Hk.
    + by apply read_delivering; rewrite ?Hg'.
  - apply Hk.
  - destruct (pipe_write (x :: data) (from_guest s)) as [[[n|]|] q]; apply Hk.
  - apply Hk.
  - split; simpl; [apply Hs|]. rewrite drop_gone. apply Forall_forall. by intros a [Ha _]%list_elem_of_filter.
  - split; simpl; [apply Hs|]. by rewrite drop_gone.
Qed.

Lemma exchange_delivering body sched : forall s, delivering body s -> delivering body (foldl exchange_step s sched).
Proof.
  induction sched as [|[] sched IH]; intros s Hs; [done|apply IH; by apply host_delivering|apply IH; by apply guest_delivering].
Qed.
Lemma start_delivering r body guest : is_upgrade_request to_lowercase r = false ->
  delivering body (connect_start to_lowercase r (Some body) guest).
Proof.
  intros Hu. unfold connect_start. rewrite Hu. destruct (new_spec 1024) as (Hb & _ & Hw & Hg).
  split; simpl; [by exists body|]. by rewrite Hg, Hb, Hw.
Qed.

(** ** A guest that reads the body and then answers *)
Definition round s : Exchange := guest_poll (host_poll s).
Definition connected (h : ResponseHead) s : Prop := ex_phase s = Connected (Ok h).

Lemma connected_round h s : connected h s -> connected h (round s).
Proof.
  unfold connected, round. intros Hc. unfold host_poll. rewrite Hc. unfold guest_poll. rewrite Hc.
  destruct (ex_guest s) as [|[|n|[|x d]|r| |] g]; repeat case_match; done.
Qed.
Lemma connected_rounds h n s : connected h s -> connected h (Nat.iter n round s).
Proof. intros Hc. induction n as [|n IH]; [done|]. by apply connected_round. Qed.

(** Connected from [n] rounds on. *)
Definition reaches (h : ResponseHead) (n : nat) s : Prop := forall m, (n <= m)%nat -> connected h (Nat.iter m round s).
Lemma reaches_round h n s : reaches h n (round s) -> reaches h (S n) s.
Proof. intros Hr [|m] Hm; [lia|]. rewrite Nat.iter_succ_r. apply Hr. lia. Qed.
Lemma reaches_le h n m s : (n <= m)%nat -> reaches h n s -> reaches h m s.
Proof. intros Hnm Hr k Hk. apply Hr. lia. Qed.

(** The last rounds: the head has been sent; is to be sent; the end of the body is to be
    read. *)
Lemma reaches_sent h s : ex_phase s = Waiting -> ex_response s = Some (Some (Ok h)) -> reaches h 1 s.
Proof.
  intros Hw Hr [|m] Hm; [lia|]. rewrite Nat.iter_succ_r. apply connected_rounds. unfold round, host_poll. rewrite Hw.
  unfold await_response. rewrite Hr. unfold connected, guest_poll. simpl.
  destruct (ex_guest s) as [|[|n|[|x d]|r| |] g]; repeat case_match; done.
Qed.
Lemma host_waits s : ex_phase s = Waiting -> ex_response s = None -> host_poll s = s.
Proof. intros Hw Hr. unfold host_poll. rewrite Hw. unfold await_response. by rewrite Hr. Qed.
Lemma reaches_respond e h g s : scale_decode e = Some h -> ex_phase s = Waiting -> ex_response s = None -> ex_guest s = GRespond (Some (Ok e)) :: g -> reaches h 2 s.
Proof.
  intros He Hw Hr Hg. apply reaches_round. unfold round. rewrite host_waits by done. unfold guest_poll. rewrite Hg.
  apply reaches_sent; [done|]. simpl. unfold forward_response. simpl. by rewrite He.
Qed.
(** The guest reads all there is. *)
Lemma read_all s g : ex_guest s = GReadAll :: g -> (length (buffered (to_guest s)) <= 1024)%nat -> buffered (to_guest s) <> [] ->
  exists p, guest_poll s = MkExchange (ex_phase s) p (from_guest s) (ex_response s) (GReadAll :: g) (ex_got s ++ buffered (to_guest s)) /\
    buffered p = [] /\ capacity p = capacity (to_guest s) /\ writer_done p = writer_done (to_guest s) /\
    reader_gone p = reader_gone (to_guest s).
Proof.
  intros Hg Hl Hne. unfold guest_poll. rewrite Hg.
  destruct (read_some 4096 (to_guest s) ltac:(lia) Hne) as (p & -> & Hb & Hc & Hw & Hr). rewrite take_ge in * by lia.
  rewrite drop_ge in Hb by lia. exists p. by destruct (buffered (to_guest s)).
Qed.
Lemma reaches_end e h g s : scale_decode e = Some h -> ex_phase s = Waiting -> ex_response s = None -> ex_guest s = GReadAll :: GRespond (Some (Ok e)) :: g ->
  buffered (to_guest s) = [] -> writer_done (to_guest s) = true -> reaches h 3 s.
Proof.
  intros He Hw Hr Hg Hb Hd. apply reaches_round. unfold round. rewrite host_waits by done. unfold guest_poll.
  rewrite Hg, read_empty by (lia || done). rewrite Hd. by eapply reaches_respond.
Qed.

Lemma reaches_piping e h g n : scale_decode e = Some h -> forall s rest, (length rest <= n)%nat -> ex_phase s = Piping rest -> ex_response s = None ->
  ex_guest s = GReadAll :: GRespond (Some (Ok e)) :: g -> buffered (to_guest s) = [] -> capacity (to_guest s) = 1024%nat ->
  reader_gone (to_guest s) = false -> writer_done (to_guest s) = false -> reaches h (n + 4) s.
Proof.
  intros Hdec. induction n as [n IH] using lt_wf_ind. intros s rest Hn Hph Hr Hg Hb Hc Hgone Hd.
  assert (Hhost : exists k p ph, host_poll s = MkExchange ph p (from_guest s) None (ex_guest s) (ex_got s) /\
    buffered p = take k rest /\ capacity p = 1024%nat /\ reader_gone p = false /\ (length (buffered p) <= 1024)%nat /\
    ((ph = Waiting /\ writer_done p = true) \/ (ph = Piping (drop k rest) /\ room p = 0%nat /\ writer_done p = false))).
  { unfold host_poll. rewrite Hph.
    destruct (pump_spec (length rest) rest (to_guest s) ltac:(done) Hgone) as (k & Hb' & Hc' & Hg' & Hl & Hcase).
    destruct (pump (length rest) rest (to_guest s)) as [ph p]; simpl in *. exists k, p, ph. rewrite Hb in Hb', Hl. rewrite Hc in Hc', Hl.
    rewrite Hd in Hcase. specialize (Hl ltac:(simpl; lia)). unfold await_response. simpl. rewrite Hr.
    destruct Hcase as [(-> & ? & ?)|(-> & ? & ? & ?)]; split_and!; auto. }
  destruct Hhost as (k & p & ph & Hhost & Hbp & Hcp & Hgp & Hlen & Hcase).
  replace (n + 4)%nat with (S (n + 3)) by lia. apply reaches_round. unfold round. rewrite Hhost.
  destruct (decide (buffered p = [])) as [He|He].
  - (* nothing was left to send *)
    destruct Hcase as [(-> & Hdone)|(_ & Hroom & _)]; [|unfold room in Hroom; rewrite He, Hcp in Hroom; simpl in Hroom; lia].
    unfold guest_poll. simpl. rewrite Hg, read_empty by (lia || done). rewrite Hdone.
    eapply (reaches_le h 2); [lia|]. by eapply reaches_respond.
  - destruct (read_all (MkExchange ph p (from_guest s) None (ex_guest s) (ex_got s)) (GRespond (Some (Ok e)) :: g) Hg Hlen He)
      as (p' & -> & Hb' & Hc' & Hd' & Hg'). simpl in *. destruct Hcase as [(-> & Hdone)|(-> & Hroom & Hdone)].
    + eapply (reaches_le h 3); [lia|]. eapply reaches_end; simpl; try done. congruence.
    + assert (Hk : (0 < k)%nat /\ (0 < length rest)%nat).
      { destruct k, rest; rewrite Hbp in He; simpl in He; try done. simpl. lia. }
      eapply (reaches_le h (length (drop k rest) + 4)); [rewrite length_drop; lia|].
      apply (IH (length (drop k rest)) ltac:(rewrite length_drop; lia) _ (drop k rest)); simpl; try done; congruence.
Qed.

(** Until the guest has read everything it has not gone on, and [connect] waits. *)
Definition reading (body : bytes) (g : list guest_act) s : Prop :=
  delivering body s /\
  ((ex_guest s = GReadAll :: g /\ ex_response s = None /\ forall r, ex_phase s <> Connected r) \/ ex_got s = body).
Lemma host_unchanged s : ex_guest (host_poll s) = ex_guest s /\ ex_got (host_poll s) = ex_got s /\ ex_response (host_poll s) = ex_response s.
Proof.
  unfold host_poll, await_response. destruct (ex_phase s); [destruct (pump _ _ _) as [[] p]|..]; simpl; by destruct (ex_response s) eqn:Hr.
Qed.
Lemma host_not_connected s : ex_response s = None -> (forall r, ex_phase s <> Connected r) -> forall r, ex_phase (host_poll s) <> Connected r.
Proof.
  intros Hr Hn r. unfold host_poll, await_response. pose proof (Hn r) as Hnr. destruct (ex_phase s) as [rest| |r'] eqn:Hph.
  - destruct (pump_phase (length rest) rest (to_guest s)) as [[rest' Hp]|Hp]; destruct (pump _ _ _) as [ph p]; simpl in *; subst ph; simpl; [done|].
    by rewrite Hr.
  - by rewrite Hr, Hph.
  - by specialize (Hn r').
Qed.
Lemma guest_got s : exists d, ex_got (guest_poll s) = ex_got s ++ d.
Proof.
  unfold guest_poll. destruct (ex_guest s) as [|[|n|[|x data]|head| |] g]; try (exists []; by rewrite app_nil_r).
  - destruct (pipe_read 4096 (to_guest s)) as [[[|x d]|] p]; try (exists []; by rewrite app_nil_r). by exists (x :: d).
  - destruct (pipe_read (S n) (to_guest s)) as [[d|] p]; [by exists d|exists []; by rewrite app_nil_r].
  - destruct (pipe_write (x :: data) (from_guest s)) as [[[n|]|] q]; exists []; by rewrite app_nil_r.
Qed.
Lemma host_reading body g s : reading body g s -> reading body g (host_poll s).
Proof.
  intros [Hd Hc]. split; [by apply host_delivering|]. destruct (host_unchanged s) as (-> & -> & ->).
  destruct Hc as [(Hg & Hr & Hn)|Hb]; [left|by right]. split_and!; try done. by apply host_not_connected.
Qed.
Lemma guest_reading body g s : reading body g s -> reading body g (guest_poll s).
Proof.
  intros [Hd Hc]. pose proof (guest_delivering body s Hd) as Hd'. split; [done|]. destruct Hc as [(Hg & Hr & Hn)|Hb].
  - destruct Hd as [_ Hd]. destruct (reader_gone (to_guest s)) eqn:Hgone.
    { rewrite Hg in Hd. by apply Forall_cons in Hd as [? _]. }
    unfold guest_poll. rewrite Hg. destruct (read_cases 4096 (to_guest s) ltac:(lia)) as [[-> He]|(d & p' & -> & Hne & _)].
    + destruct (writer_done (to_guest s)) eqn:Hw; [right|by left]. rewrite He in Hd.
      destruct (ex_phase s); destruct Hd as [Hd Hw']; [congruence|..]; simpl; by rewrite app_nil_r in Hd.
    + destruct d as [|x d]; [done|]. by left.
  - right. destruct (guest_got s) as [d Hg]. destruct Hd' as [[rest Hrest] _]. rewrite Hg, Hb in *.
    apply (f_equal length) in Hrest. rewrite !length_app in Hrest. destruct d; [by rewrite app_nil_r|simpl in Hrest; lia].
Qed.
Lemma start_reading r body g : is_upgrade_request to_lowercase r = false ->
  reading body g (connect_start to_lowercase r (Some body) (GReadAll :: g)).
Proof.
  intros Hu. split; [by apply start_delivering|]. left. unfold connect_start. by rewrite Hu.
Qed.
Lemma rounds_reading body g n s : reading body g s -> reading body g (Nat.iter n round s).
Proof. intros Hs. induction n as [|n IH]; [done|]. by apply guest_reading, host_reading. Qed.

(** C24: the body of a request reaches the app as it was sent: whatever the guest does
    and in whatever order the two sides run, what it has read is a beginning of the
    body, and if it keeps the stream it reads the end only after all of it.  A
    guest that reads the body and then answers gets it, whatever its size, and the
    caller gets the answer: [connect] returns after at most as many rounds as the
    body has bytes, and four. *)
Theorem http_body_delivered r body guest : is_upgrade_request to_lowercase r = false ->
  (forall sched, let s := foldl exchange_step (connect_start to_lowercase r (Some body) guest) sched in
     (exists rest, body = ex_got s ++ rest) /\
     (reader_gone (to_guest s) = false -> buffered (to_guest s) = [] -> writer_done (to_guest s) = true -> ex_got s = body)) /\
  (forall e h g n, scale_decode e = Some h -> guest = GReadAll :: GRespond (Some (Ok e)) :: g -> (length body + 4 <= n)%nat ->
     let s := Nat.iter n round (connect_start to_lowercase r (Some body) guest) in
     ex_phase s = Connected (Ok h) /\ ex_got s = body).
Proof.
  intros Hu. split.
  - intros sched s. destruct (exchange_delivering body sched _ (start_delivering r body guest Hu)) as [Hp Hd]. fold s in Hp, Hd.
    split; [done|]. intros Hg Hb Hw. rewrite Hg in Hd. destruct (ex_phase s); destruct Hd as [Hd Hw']; [congruence|..];
      by rewrite Hb, app_nil_r in Hd.
  - intros e h g n He -> Hn s. destruct (new_spec 1024) as (Hb & Hc & Hw & Hg).
    assert (Hph : ex_phase s = Connected (Ok h)).
    { apply (reaches_piping e h g (length body) He (connect_start to_lowercase r (Some body) _) body); try done; try lia;
        unfold connect_start; rewrite Hu; done. }
    split; [done|]. destruct (rounds_reading body (GRespond (Some (Ok e)) :: g) n _ (start_reading r body _ Hu)) as [_ [(_ & _ & Hno)|]]; [|done].
    by destruct (Hno _ Hph).
Qed.

(** ** Guests that are not served *)

(** The guest answers early: it writes [big] while the body is being sent. *)
Record early (body big : bytes) (h : option (result string bytes)) (g : list guest_act) s : Prop := MkEarly {
  ea_phase : exists rest, ex_phase s = Piping rest /\ body = buffered (to_guest s) ++ rest;
  ea_to : capacity (to_guest s) = 1024%nat /\ reader_gone (to_guest s) = false /\ (length (buffered (to_guest s)) <= 1024)%nat;
  ea_from : capacity (from_guest s) = 1024%nat /\ reader_gone (from_guest s) = false /\ (length (buffered (from_guest s)) <= 1024)%nat;
  ea_guest : ex_guest s = GRespond h :: GWrite big :: g /\ buffered (from_guest s) = [] \/
    exists d, ex_guest s = GWrite d :: g /\ (length d + length (buffered (from_guest s)) = length big)%nat
}.
Lemma early_host body big h g s : (1024 < length body)%nat -> early body big h g s -> early body big h g (host_poll s).
Proof.
  intros Hlen [(rest & Hph & Hb) (Hc & Hg & Hl) Hf Hgs]. unfold host_poll. rewrite Hph.
  destruct (pump_spec (length rest) rest (to_guest s) ltac:(done) Hg) as (k & Hb' & Hc' & Hg' & Hl' & Hcase).
  destruct (pump (length rest) rest (to_guest s)) as [ph p]; simpl in *. rewrite Hc in Hl'. specialize (Hl' Hl).
  destruct Hcase as [(-> & Hk & _)|(-> & Hne & _)].
  - exfalso. rewrite Hb', take_ge, <- Hb in Hl' by done. lia.
  - split; simpl; try done; [|by split_and!; congruence].
    exists (drop k rest). split; [done|]. by rewrite Hb', <- app_assoc, take_drop.
Qed.
Lemma early_guest body big h g s : (1024 < length big)%nat -> early body big h g s -> early body big h g (guest_poll s).
Proof.
  intros Hlen [Hph Hto (Hc & Hg & Hl) [[Hgs Hb]|(d & Hgs & Hd)]]; unfold guest_poll; rewrite Hgs.
  - split; simpl; try done. right. exists big. rewrite Hb. split; [done|]. simpl. lia.
  - destruct d as [|x d]; [simpl in Hd; lia|]. destruct (decide (room (from_guest s) = 0%nat)) as [Hr|Hr].
    + rewrite write_full by done. split; simpl; try done. right. eauto.
    + destruct (write_some (x :: d) (from_guest s) Hg ltac:(done) Hr) as (q & -> & Hb' & Hc' & _ & Hg').
      set (n := Nat.min (length (x :: d)) (room (from_guest s))) in *.
      assert (Hn : (n <= length (x :: d))%nat /\ (n <= room (from_guest s))%nat) by (unfold n; lia).
      assert (Hlb : length (buffered q) = (length (buffered (from_guest s)) + n)%nat).
      { rewrite Hb', length_app, length_take. lia. }
      unfold room in *. split; simpl; try done.
      * split_and!; try congruence. lia.
      * right. exists (drop n (x :: d)). split; [done|]. rewrite length_drop. lia.
Qed.

(** A guest is not served when it answers before it has read: with a body and an answer of
    more than 1024 bytes each, the caller never gets the answer, although its head
    was sent: [connect] waits for the guest to read, and the guest for the caller.
    And a guest that reads the body of a request without one to its end waits for
    good, as the stream is not shut down.  Nothing limits these waits. *)
Theorem http_exchange_stuck r h big g sched : is_upgrade_request to_lowercase r = false ->
  (forall body, (1024 < length body)%nat -> (1024 < length big)%nat ->
     let s := foldl exchange_step (connect_start to_lowercase r (Some body) (GRespond h :: GWrite big :: g)) sched in
     exists rest, ex_phase s = Piping rest) /\
  (let s := foldl exchange_step (connect_start to_lowercase r None (GReadAll :: g)) sched in
   ex_phase s = Waiting /\ ex_guest s = GReadAll :: g).
Proof.
  intros Hu. destruct (new_spec 1024) as (Hb & Hc & Hw & Hg). split.
  - intros body Hbody Hbig s. assert (He : early body big h g s).
    { subst s. assert (H0' : early body big h g (connect_start to_lowercase r (Some body) (GRespond h :: GWrite big :: g))).
      { unfold connect_start. rewrite Hu. split; simpl; rewrite ?Hb, ?Hc, ?Hg; simpl; try (split_and!; done || lia); [by exists body|by left]. }
      revert H0'. generalize (connect_start to_lowercase r (Some body) (GRespond h :: GWrite big :: g)).
      induction sched as [|[] sched IH]; intros s Hs; [done|apply IH; by apply early_host|apply IH; by apply early_guest]. }
    destruct He as [(rest & Hph & _) _ _ _]. eauto.
  - intros s. assert (Hs : ex_phase s = Waiting /\ ex_response s = None /\ ex_guest s = GReadAll :: g /\
      buffered (to_guest s) = [] /\ writer_done (to_guest s) = false); [|by split_and!; apply Hs].
    subst s. assert (H0' : forall s : Exchange (P := P), s = connect_start to_lowercase r None (GReadAll :: g) ->
      ex_phase s = Waiting /\ ex_response s = None /\ ex_guest s = GReadAll :: g /\ buffered (to_guest s) = [] /\
      writer_done (to_guest s) = false).
    { intros s ->. unfold connect_start. rewrite Hu. by split_and!. }
    specialize (H0' _ eq_refl). revert H0'. generalize (connect_start to_lowercase r None (GReadAll :: g)).
    induction sched as [|[] sched IH]; intros s (Hs1 & Hs2 & Hs3 & Hs4 & Hs5); [done|apply IH..]; simpl.
    + by rewrite host_waits.
    + unfold guest_poll. rewrite Hs3, read_empty by (lia || done). rewrite Hs5. by split_and!.
Qed.
End Facts.

(** ** Upgraded connections *)
Section Io.
Context {E : Type}.
(** [StreamResponse::io]: each direction copies until its end or an error, then shuts
    down its writer, whose result is ignored. *)
Inductive direction : Type := CopyRunning | CopyEnded (r : result E Z) | DirectionDone (r : result E Z).
Record Io : Type := MkIo { c2s : direction; s2c : direction; io_guard : option QueryGuard; io_worker : WorkerState }.
Inductive io_event : Type := C2sEnds (r : result E Z) | ServerShutdown | S2cEnds (r : result E Z) | ClientShutdown.
Definition ended (r : result E Z) (d : direction) : direction := match d with CopyRunning => CopyEnded r | _ => d end.
Definition shut (d : direction) : direction := match d with CopyEnded r => DirectionDone r | _ => d end.
(** The result, once both directions are done: the client's error comes first. *)
Definition io_result (s : Io) : option (result E unit) :=
  match c2s s, s2c s with
  | DirectionDone (Err err), DirectionDone _ => Some (Err err)
  | DirectionDone (Ok _), DirectionDone (Err err) => Some (Err err)
  | DirectionDone (Ok _), DirectionDone (Ok _) => Some (Ok tt)
  | _, _ => None
  end.
(** The guard is dropped when [io] returns. *)
Definition io_step (now : Z) (s : Io) (ev : io_event) : Io :=
  let s := match ev with
           | C2sEnds r => MkIo (ended r (c2s s)) (s2c s) (io_guard s) (io_worker s)
           | ServerShutdown => MkIo (shut (c2s s)) (s2c s) (io_guard s) (io_worker s)
           | S2cEnds r => MkIo (c2s s) (ended r (s2c s)) (io_guard s) (io_worker s)
           | ClientShutdown => MkIo (c2s s) (shut (s2c s)) (io_guard s) (io_worker s)
           end in
  match io_result s, io_guard s with
  | Some _, Some g => MkIo (c2s s) (s2c s) None (drop_guard now g (io_worker s)).2
  | _, _ => s
  end.

(** The instance of an upgraded connection is held while it is in use: the query counts
    as running until both directions have ended and both writers are shut down,
    also when one of them fails early, and it is ended exactly once. *)
Lemma upgrade_holds_guard now evs g w :
  let s := foldl (io_step now) (MkIo CopyRunning CopyRunning (Some g) w) evs in
  match io_result s with
  | None => io_guard s = Some g /\ io_worker s = w
  | Some _ => io_guard s = None /\ io_worker s = (drop_guard now g w).2
  end.
Proof.
  intros s. subst s.
  assert (Hgen : forall s, match io_result s with
    | None => io_guard s = Some g /\ io_worker s = w
    | Some _ => io_guard s = None /\ io_worker s = (drop_guard now g w).2 end ->
    let s' := foldl (io_step now) s evs in
    match io_result s' with
    | None => io_guard s' = Some g /\ io_worker s' = w
    | Some _ => io_guard s' = None /\ io_worker s' = (drop_guard now g w).2 end).
  { induction evs as [|ev evs IH]; intros s Hs; [done|]. simpl. apply IH. clear IH. destruct s as [d1 d2 gd w'].
    destruct ev, d1 as [|[]|[]], d2 as [|[]|[]]; destruct Hs as [Hg Hw]; simpl in Hg, Hw; by rewrite Hg, Hw. }
  by apply Hgen.
Qed.
End Io.

(** ** An example *)
Module ToyPipe.
Record pipe : Type := MkPipe { pb : bytes; pc : nat; pd : bool; pg : bool }.
#[export] Instance pipes : Pipe pipe := {
  pipe_new n := MkPipe [] n false false;
  pipe_write d p :=
    let n := Nat.min (length d) (pc p - length (pb p)) in
    if pg p then (Some (Err tt), p)
    else if (n =? 0)%nat then (None, p) else (Some (Ok n), MkPipe (pb p ++ take n d) (pc p) (pd p) (pg p));
  pipe_read n p := match pb p with
                   | [] => (if pd p then Some [] else None, p)
                   | b => (Some (take n b), MkPipe (drop n b) (pc p) (pd p) (pg p))
                   end;
  pipe_shutdown p := MkPipe (pb p) (pc p) true (pg p);
  pipe_drop_reader p := MkPipe (pb p) (pc p) (pd p) true;
  buffered := pb; capacity := pc; writer_done := pd; reader_gone := pg
}.
#[export] Instance pipes_lawful : PipeLawful pipe.
Proof.
  split; unfold room; cbn -[take drop Nat.min Nat.sub].
  - done.
  - by intros d p ->.
  - intros d p Hg Hd Hr. rewrite Hg, Hr, Nat.min_0_r. done.
  - intros d p Hg Hd Hr. rewrite Hg. destruct (Nat.eqb_spec (Nat.min (length d) (pc p - length (pb p))) 0) as [He|He].
    + destruct d; [done|]. cbn [length] in He. lia.
    + eexists. split; [reflexivity|]. done.
  - by intros n p Hn ->.
  - intros n p Hn Hb. destruct (pb p) eqn:Hp; [done|]. eexists. split; [reflexivity|]. done.
  - done.
  - done.
Qed.
Definition request : RequestInfo := MkInfo (lit "POST") [] [] [].
Definition head200 : ResponseHead := MkResponse 200 [].
#[export] Instance heads : ScaleCodec ResponseHead := {| scale_encode := fun _ => [0]; scale_decode := fun _ => Some head200 |}.
End ToyPipe.
Import ToyPipe.
Lemma http_body_delivered_witness :
  let body := replicate 2000 5 in
  let s n := Nat.iter n round (connect_start (P := pipe) lower request (Some body) [GReadAll; GRespond (Some (Ok [0]))]) in
  ex_phase (s 2004%nat) = Connected (Ok head200) /\ ex_got (s 5%nat) = body.
Proof.
  intros body s. split; [|vm_compute; reflexivity].
  refine (proj1 (proj2 (http_body_delivered (P := pipe) lower request body [GReadAll; GRespond (Some (Ok [0]))] _) [0] head200 [] 2004%nat _ _ _));
    reflexivity || (apply Nat.leb_le; vm_compute; reflexivity).
Defined.
