(* ===== verification/WebServer.v ===== *)
(** * The HTTP servers of a worker (wapod/src/bin/web_api/mod.rs, wapod/src/bin/wapod.rs)

    The routes of the public server with their ranks and guards, the redirect to an
    app's root, signed responses, the configuration of the two servers and the end
    of the process.  Rocket's matching of paths, its response signer and its layered
    configuration are parameters. *)
From S2P Require Import Prelude Blobs Types AppRuntime WebApi.

(** ** The end of a path *)
Inductive guard_outcome : Type := GuardSuccess | GuardForward (status : Z).
Definition ends_with_slash (path : bytes) : bool := bool_decide (last path = Some 47).
Definition NoEndSlash (path : bytes) : guard_outcome :=
  if ends_with_slash path then GuardForward 404 else GuardSuccess.
(** [format!("/app/{}/", id)]; the query of the request is not part of it. *)
Definition redirect_connect_vm (id : bytes) : bytes := lit "/app/" ++ id ++ lit "/".

(** ** Routes of the public server *)

(** Rocket serves HEAD with the routes of GET. *)
Inductive http_method : Type := MGet | MPost | MOther.
Inductive UserRoute : Type :=
| ToRedirect (location : bytes)
| ToApp (post : bool) (id path : bytes)
| ToPrpc (post : bool) (method : bytes)
| ToNone (status : Z).

(** Rocket: the value of ["/app/<id>"] on a path, of ["/app/<id>/<path..>"], whose
    rest may be no path, and of ["/prpc/<method>"]. *)
Class Router := {
  match_app : bytes -> option bytes;
  match_app_path : bytes -> option (bytes * option bytes);
  match_prpc : bytes -> option bytes
}.
(** A segment of a path. *)
Definition segment (s : bytes) : Prop := s <> [] /\ 47 ∉ s.
(** What the documentation of routes says: a dynamic segment matches exactly one, and
    the segments after it may be none.  Whether a path with a slash at its end matches
    the first route is left open. *)
Class RouterLawful `{Router} := {
  app_matches : forall id, segment id -> match_app (lit "/app/" ++ id) = Some id;
  app_root_matches : forall id, segment id -> match_app_path (lit "/app/" ++ id ++ lit "/") = Some (id, Some [])
}.

Section Routes.
Context `{Router}.
(** A parameter that does not parse forwards the request. *)
Definition app_route (post : bool) (path : bytes) : UserRoute :=
  match match_app_path path with
  | Some (id, Some rest) =>
    match HexBytes_from_param id with Ok id => ToApp post id rest | Err _ => ToNone 422 end
  | Some (_, None) => ToNone 422
  | None => match match_prpc path with Some m => ToPrpc post m | None => ToNone 404 end
  end.
(** Rank 1 before rank 2: the redirect, unless the guard forwards. *)
Definition user_route (m : http_method) (path : bytes) : UserRoute :=
  match m with
  | MOther => ToNone 404
  | MGet | MPost =>
    let post := match m with MPost => true | _ => false end in
    match match_app path with
    | Some id =>
      match NoEndSlash path with
      | GuardSuccess => ToRedirect (redirect_connect_vm id)
      | GuardForward _ => app_route post path
      end
    | None => app_route post path
    end
  end.

Lemma redirect_slash id : ends_with_slash (redirect_connect_vm id) = true.
Proof.
  apply bool_decide_eq_true_2. unfold redirect_connect_vm. rewrite (assoc_L (++)), last_app. done.
Qed.
Lemma app_no_slash id : segment id -> ends_with_slash (lit "/app/" ++ id) = false.
Proof.
  intros [Hn Hs]. apply bool_decide_eq_false_2. rewrite last_app. destruct (last id) as [c|] eqn:Hl.
  - intros [= ->]. apply Hs. by apply last_Some_elem_of.
  - by apply last_None in Hl.
Qed.
(** An app's URL without the slash is redirected once, with the method kept, and then
    reaches the app with the same id and no path, whether or not the first route also
    matches paths that end with a slash. *)
Theorem redirect_once `{!RouterLawful} m id bytes : m <> MOther -> segment id -> HexBytes_from_param id = Ok bytes ->
  user_route m (lit "/app/" ++ id) = ToRedirect (redirect_connect_vm id) /\
  user_route m (redirect_connect_vm id) = ToApp (match m with MPost => true | _ => false end) bytes [].
Proof.
  intros Hm Hid Hb. pose proof (app_no_slash id Hid) as Hs. pose proof (redirect_slash id) as Hr.
  assert (Ha : forall post, app_route post (redirect_connect_vm id) = ToApp post bytes []).
  { intros post. unfold app_route, redirect_connect_vm. by rewrite app_root_matches, Hb by done. }
  unfold user_route, NoEndSlash. rewrite Hs, Hr, app_matches by done.
  destruct m; [| |done]; (split; [done|]); destruct (match_app (redirect_connect_vm id)); by rewrite Ha.
Qed.
End Routes.

(** ** Signed responses *)
Section Signer.
Context `{KeysLawful} (sk : bytes).
Definition sign_http_response (data : bytes) : option bytes :=
  Some (hex_encode (pair_sign sr25519_sign sk RpcResponse data)).
(** The header of a response is a valid signature of its body, as a response. *)
Lemma response_verifies data : (forall m, Forall (fun b => byte_ok b = true) (sr25519_sign sk m)) ->
  exists h s, sign_http_response data = Some h /\ hex_decode h = Some s /\
    verify_message sr25519_verify RpcResponse data s (public_of sk) = true.
Proof.
  intros Hok. eexists _, _. split; [done|]. split; [apply hex_decode_encode, Hok|]. apply verify_sign.
Qed.
End Signer.

(** ** Configuration of the servers *)
Record CorsOptions : Type := MkCors { any_origin : bool; allowed_methods : list http_method; any_header : bool; allow_credentials : bool }.
Definition cors_options : CorsOptions := MkCors true [MGet; MPost] true true.

(** A layer of the configuration. *)
Inductive Provider : Type :=
| RocketDefault
| DefaultConfig
| ConfigFile (name : string)
| EnvPrefixed (prefix : string)
| Port (port : Z).
(** Layers in the order in which they are merged, the profile, whether responses are
    signed and up to which size, and where the routes are mounted. *)
Record ServerConfig : Type := MkServerConfig {
  sc_layers : list Provider;
  sc_profile : string;
  sc_cors : CorsOptions;
  sc_signed : option Z;
  sc_mounts : list (string * list string)
}.
Definition load_config_file : list Provider := [DefaultConfig; ConfigFile "Wapod.toml"].
Definition port_layer (port : option Z) : list Provider := match port with Some p => [Port p] | None => [] end.
Definition serve_user (user_port : option Z) : ServerConfig :=
  MkServerConfig (RocketDefault :: load_config_file ++ [EnvPrefixed "WAPOD_USER_"] ++ port_layer user_port) "user" cors_options
    (Some (1024 * 1024 * 10))
    [("/", ["connect_vm_get"; "connect_vm_post"; "redirect_connect_vm_get"; "redirect_connect_vm_post"]);
     ("/prpc", ["prpc_post"; "prpc_get"])].
Definition serve_admin (admin_port : option Z) : ServerConfig :=
  MkServerConfig (RocketDefault :: load_config_file ++ [EnvPrefixed "WAPOD_ADMIN_"] ++ port_layer admin_port) "admin" cors_options
    None
    [("/", ["blob_post"; "blob_get"; "console"]); ("/prpc", ["prpc_admin_post"; "prpc_admin_get"])].
Definition print_rpc_methods (prefix : bytes) (methods : list bytes) : list bytes :=
  (lit "methods under " ++ prefix ++ lit ":") :: ((fun m => lit "    " ++ prefix ++ lit "/" ++ m) <$> methods).

(** [main] after the start: the server that ends first ends the process; the public one
    is started one second after the administrative one.  Times of the ends, [None] for
    never; if both have ended, [select!] looks at either. *)
Definition user_delay_ms : Z := 1000.
Definition main_result (user_first : bool) (user admin : option (Z * result anyhow unit)) : option (result anyhow unit) :=
  let user := prod_map (fun t => user_delay_ms + t) (context "user service terminated") <$> user in
  let admin := prod_map id (context "admin service terminated") <$> admin in
  match user, admin with
  | Some (tu, u), Some (ta, a) => Some (if (tu <? ta) || (tu =? ta) && user_first then u else a)
  | Some (_, u), None => Some u
  | None, Some (_, a) => Some a
  | None, None => None
  end.
(** A server that cannot be started ends the process with its error, unless the other one
    ended before it. *)
Lemma main_ends_with_error first tu e ta a : tu + user_delay_ms < ta ->
  main_result first (Some (tu, Err e)) (Some (ta, a)) = Some (context "user service terminated" (Err e)).
Proof. intros Hle. unfold main_result, prod_map. simpl. destruct (Z.ltb_spec (user_delay_ms + tu) ta); [done|lia]. Qed.
