(* ===== verification/RpcClient.v ===== *)
(** * The client of a worker (wapod-pherry/src/rpc_client.rs)

    How the bridge calls a worker: one POST request per call, whose status and body
    become the result.  Together with the administrative server the client gives
    its caller exactly what the worker's method gave. *)
From S2P Require Import Prelude OcallError ArgsStack Ocall OcallDef Meter Resource Blobs VmContext TcpAcl Rpc WebApi.

Record WorkerClient : Type := MkClient { base_url : bytes; token : bytes }.
(** [prpc::client::Error]; a server error carries the decoded message. *)
Inductive ClientError : Type := RpcFailure (msg : bytes) | ServerError (msg : bytes).

(** [str::trim_end_matches('/')]. *)
Definition trim_end_slashes (s : bytes) : bytes :=
  let fix go (s : bytes) := match s with 47 :: s => go s | _ => s end in rev (go (rev s)).

Section Client.
(** The text of a status, the decoder of the error message, and the transport: the
    status with the body, each of which may fail to arrive. *)
Context {S : Type} (status_text : Z -> bytes) (decode_proto : bytes -> option bytes)
  (send : bytes -> list header -> bytes -> S -> result bytes (Z * result bytes bytes) * S).

Definition request_url (c : WorkerClient) (path : bytes) : bytes :=
  trim_end_slashes (base_url c) ++ lit "/prpc/" ++ path.
Definition request_headers (c : WorkerClient) : list header :=
  if bool_decide (token c = []) then [] else [(lit "authorization", lit "Bearer " ++ token c)].
Definition is_success (status : Z) : bool := (200 <=? status) && (status <? 300).

(** [RequestClient::request]. *)
Definition request (c : WorkerClient) (path body : bytes) (s : S) : result ClientError bytes * S :=
  match send (request_url c path) (request_headers c) body s with
  | (Err err, s) => (Err (RpcFailure err), s)
  | (Ok (status, response), s) =>
    (if negb (is_success status) then
       let error := RpcFailure (lit "HTTP error: " ++ status_text status) in
       if status =? 400 then
         match response with
         | Err _ => Err error
         | Ok body => match decode_proto body with
                      | Some proto_error => Err (ServerError proto_error)
                      | None => Err error
                      end
         end
       else Err error
     else map_err RpcFailure response, s)
  end.
End Client.

(** ** A call from end to end *)
Section EndToEnd.
Context {S : Type} (admin_dispatch : bytes -> bytes -> bool -> S -> result RpcError bytes * S)
  (json_error proto_error : bytes -> bytes) (debug_decode : bytes -> bytes).
Context `{Digest} (chunk : nat -> nat).
Context (status_text : Z -> bytes) (decode_proto : bytes -> option bytes).

(** Requests delivered to the administrative server of [url]; its configured token
    and limits. *)
Definition deliver (url server_token : bytes) (limits : list (bytes * Z)) (target : bytes) (hs : list header)
  (body : bytes) (s : S * Fs) : result bytes (Z * result bytes bytes) * (S * Fs) :=
  match strip_prefix (url ++ lit "/prpc/") target with
  | None => (Ok (404, Ok []), s)
  | Some method =>
    let '(r, s) := admin_serve admin_dispatch json_error proto_error debug_decode chunk (ApiToken_new server_token)
                     limits hs (PrpcPost method (Ok body) false false) s in
    (Ok (match r with Ok out => (200, Ok out) | Err (status, out) => (status, Ok out) end), s)
  end.

(** What the caller of a method sees of its outcome. *)
Definition seen (r : result RpcError bytes) : result ClientError bytes :=
  match r with
  | Ok out => Ok out
  | Err RpcNotFound => Err (RpcFailure (lit "HTTP error: " ++ status_text 404))
  | Err (RpcDecodeError m) => Err (ServerError (lit "DecodeError(" ++ debug_decode m ++ lit ")"))
  | Err (RpcBadRequest m) => Err (ServerError m)
  end.

Lemma strip_prefix_app p s : strip_prefix p (p ++ s) = Some s.
Proof. induction p as [|x p IH]; simpl; [by destruct s|]. by rewrite Z.eqb_refl. Qed.

Hypothesis proto_roundtrip : forall m, decode_proto (proto_error m) = Some m.

(** C37: a call through client and server: with the server's token and a body within
    the limit, the worker's method runs once and the caller gets its answer, or
    the message of its error; with another token the call fails and the worker is
    not reached. *)
Theorem rpc_transparent c server_token limits method body s :
  zlen body <= limit_for_method method limits ->
  let call := request status_text decode_proto
                (deliver (trim_end_slashes (base_url c)) server_token limits) c method body s in
  (token c = server_token ->
     let '(r, w) := admin_dispatch method body false s.1 in call = (seen r, (w, s.2))) /\
  (server_token <> [] -> token c <> server_token ->
     call = (Err (RpcFailure (lit "HTTP error: " ++ status_text 401)), s)).
Proof.
  intros Hlen call. unfold call, request, request_url, deliver.
  rewrite (assoc_L (++)), strip_prefix_app.
  assert (Hauth : authorized (ApiToken_new server_token) (request_headers c) =
    if bool_decide (server_token = [] \/ token c = server_token) then Ok tt
    else Err (401, if bool_decide (token c = []) then lit "Authorization header not found" else lit "invalid token")).
  { unfold authorized, ApiToken_new, request_headers. destruct (decide (server_token = [])) as [-> |Hs].
    { by rewrite !bool_decide_true by auto. }
    rewrite (bool_decide_false (server_token = [])) by done. rewrite (bool_decide_false (_ ++ _ = [])) by done.
    destruct (decide (token c = [])) as [Ht|Ht].
    { rewrite Ht, (bool_decide_true ([] = [])), bool_decide_false by naive_solver. done. }
    rewrite (bool_decide_false (token c = [])) by done. unfold get_one. simpl.
    destruct (decide (token c = server_token)) as [-> |Hne]; [by rewrite !bool_decide_true by auto|].
    rewrite !bool_decide_false; [done|naive_solver|]. intros Hc. by apply (inj (lit "Bearer " ++.)) in Hc. }
  split.
  - intros Ht. unfold admin_serve. rewrite Hauth, bool_decide_true by auto.
    pose proof (prpc_status admin_dispatch json_error proto_error debug_decode method (Some (Ok body)) limits false false s.1)
      as Hp. cbv zeta in Hp. unfold read_data in Hp. cbn [map_err mbind result_bind] in Hp.
    rewrite (proj2 (Z.ltb_ge _ _)) in Hp by done. destruct Hp as [_ Hp]. simpl in Hp.
    destruct (admin_dispatch method body false s.1) as [[out|[]] w]; rewrite Hp; simpl; rewrite ?proto_roundtrip; done.
  - intros Hs Ht. unfold admin_serve. rewrite Hauth, bool_decide_false by naive_solver. by destruct s.
Qed.
End EndToEnd.

(** ** An example: the server that knows one method *)
#[local] Existing Instance Blobs.toy_digest.
Definition toy_client (token : bytes) : WorkerClient := MkClient (lit "http://worker//") token.
Definition toy_call (token method : bytes) : result ClientError bytes * (nat * Fs) :=
  request (fun _ => lit "status") Some
    (deliver toy_server (fun b => b) (fun b => b) (fun b => b) (fun n => n) (lit "http://worker") (lit "secret") [])
    (toy_client token) method [1; 2] (0%nat, MkFs ∅ []).
Lemma rpc_transparent_witness :
  toy_call (lit "secret") (lit "Ping") = (Ok [1; 2], (1%nat, MkFs ∅ [])) /\
  toy_call (lit "secret") (lit "Pong") = (Err (RpcFailure (lit "HTTP error: status")), (1%nat, MkFs ∅ [])) /\
  toy_call (lit "guess") (lit "Ping") = (Err (RpcFailure (lit "HTTP error: status")), (0%nat, MkFs ∅ [])).
Proof.
  pose proof (fun token method => rpc_transparent toy_server (fun b => b) (fun b => b) (fun b => b) (fun n => n)
    (fun _ => lit "status") Some (fun m => eq_refl) (toy_client token) (lit "secret") [] method [1; 2] (0%nat, MkFs ∅ [])
    ltac:(vm_compute; discriminate)) as Hc.
  split_and!.
  - exact (proj1 (Hc (lit "secret") (lit "Ping")) eq_refl).
  - exact (proj1 (Hc (lit "secret") (lit "Pong")) eq_refl).
  - exact (proj2 (Hc (lit "guess") (lit "Ping")) ltac:(discriminate) ltac:(discriminate)).
Defined.
