(* ===== verification/Downloader.v ===== *)
(** * The downloader of the chain bridge (wapod-pherry/src/ipfs_downloader.rs)

    Files are fetched from a gateway by at most ten tasks; further requests wait in
    an ordered set, and a task that finishes takes the first of them.  The tasks
    and the calls interleave at the lock of the downloader: a transfer with its
    rename, and the locked section after it, are one step each.  The writes of
    tokio's files may return before they are done, and [download_task] does not
    flush: a part of a file may be written after the rename, or never. *)
From S2P Require Import Prelude Ordered.

Inductive Event : Type :=
| Downloaded (cid : bytes)
| DownloadFailure (cid : bytes) (error : string).
Definition event_cid (e : Event) : bytes :=
  match e with Downloaded c => c | DownloadFailure c _ => c end.

Inductive ResState : Type := RDownloading | RDownloaded | RNotFound.

(** What [new] fixes. *)
Definition max_downloading : Z := 10.
Definition max_pending : Z := 10000.
Definition max_file_size : Z := 1024 * 1024 * 20.

(** A download task between its steps: fetching a file, or about to take the lock
    with an event to report. *)
Inductive Task : Type := Fetching (cid : bytes) | Reporting (e : Event).
Definition task_cid (t : Task) : bytes := match t with Fetching c => c | Reporting e => event_cid e end.

(** [IpfsDownloaderState], the data directory (a file's path is its cid, and cid
    with the suffix ".tmp" while it is fetched), the spawned tasks, and the events
    sent so far.  [unwritten] is what was received of a file that has its name and is
    still to be written to it (a file that keeps its temporary name is read by
    nobody, and the rest of it not followed).  [accepted] is a history of the
    downloads that were started or queued. *)
Record Downloader : Type := MkDownloader {
  pending : list bytes;
  downloading : list bytes;
  files : gmap bytes bytes;
  tmp_files : gmap bytes bytes;
  unwritten : gmap bytes bytes;
  tasks : gmap nat Task;
  next_task : nat;
  notified : list Event;
  accepted : list bytes
}.
Definition downloader_new (data_dir : gmap bytes bytes) : Downloader :=
  MkDownloader [] [] data_dir ∅ ∅ ∅ 0 [] [].

Definition set_sets (p d : list bytes) (s : Downloader) : Downloader :=
  MkDownloader p d (files s) (tmp_files s) (unwritten s) (tasks s) (next_task s) (notified s) (accepted s).
Definition set_files (f t u : gmap bytes bytes) (s : Downloader) : Downloader :=
  MkDownloader (pending s) (downloading s) f t u (tasks s) (next_task s) (notified s) (accepted s).
Definition set_tasks (t : gmap nat Task) (s : Downloader) : Downloader :=
  MkDownloader (pending s) (downloading s) (files s) (tmp_files s) (unwritten s) t (next_task s) (notified s) (accepted s).
Definition spawn (t : Task) (s : Downloader) : Downloader :=
  MkDownloader (pending s) (downloading s) (files s) (tmp_files s) (unwritten s) (<[next_task s := t]> (tasks s))
    (S (next_task s)) (notified s) (accepted s).
Definition accept (cid : bytes) (s : Downloader) : Downloader :=
  MkDownloader (pending s) (downloading s) (files s) (tmp_files s) (unwritten s) (tasks s) (next_task s) (notified s)
    (accepted s ++ [cid]).
Definition notify (e : Event) (s : Downloader) : Downloader :=
  MkDownloader (pending s) (downloading s) (files s) (tmp_files s) (unwritten s) (tasks s) (next_task s)
    (notified s ++ [e]) (accepted s).

Definition exists_file (cid : bytes) (s : Downloader) : bool := bool_decide (is_Some (files s !! cid)).
Definition in_progress (cid : bytes) (s : Downloader) : bool :=
  bool_decide (cid ∈ downloading s) || bool_decide (cid ∈ pending s).

Definition state_of (cid : bytes) (s : Downloader) : ResState :=
  if in_progress cid s then RDownloading
  else if exists_file cid s then RDownloaded
  else RNotFound.

Abbreviation DlM := (M Downloader anyhow).

Definition download (cid : bytes) (force : bool) : DlM bool := fun s =>
  if negb force && exists_file cid s then (Ok true, s)
  else if in_progress cid s then (Ok false, s)
  else if zlen (downloading s) <? max_downloading then
    (Ok false, accept cid (spawn (Fetching cid)
                 (set_sets (pending s) (bset_insert cid (downloading s)) s)))
  else if zlen (pending s) <? max_pending then
    (Ok false, accept cid (set_sets (bset_insert cid (pending s)) (downloading s) s))
  else (Err (Msg "download queue full, failed to download"), s).

(** [read]; [disk] is the result of reading a file that exists, whose failures are
    those of the disk. *)
Definition read_file (disk : bytes -> result anyhow bytes) (cid : bytes) (s : Downloader)
  : result anyhow (option bytes) :=
  match files s !! cid with
  | None => Ok None
  | Some data => Some <$> disk data
  end.

(** ** A transfer *)

(** How a response ends after its chunks: complete, with an error of the network,
    the server or the disk, or because [max_download_time] is over. *)
Inductive Ending : Type := Complete | Failed (e : string) | TimedOut.

(** The body of the task up to the end of the response: the outcome and what was
    given to the writes.  [None] is the timeout, which drops the inner future. *)
Fixpoint receive (size : Z) (out : bytes) (chunks : list bytes) (e : Ending)
  : option (result string unit) * bytes :=
  match chunks with
  | [] => (match e with Complete => Some (Ok tt) | Failed err => Some (Err err) | TimedOut => None end, out)
  | chunk :: chunks =>
    let size := size + zlen chunk in
    if max_file_size <? size then (Some (Err "file too large"), out)
    else receive size (out ++ chunk) chunks e
  end.

(** The part of [download_task]'s loop before the lock; [rename_ok] is whether the
    rename of the finished file works, [lag] how many of the last bytes are not in the
    file yet by then.  A file that is replaced loses what was to be written to it. *)
Definition transfer (cid : bytes) (chunks : list bytes) (e : Ending) (rename_ok : bool) (lag : nat)
  (s : Downloader) : Event * Downloader :=
  let '(r, out) := receive 0 [] chunks e in
  match r with
  | Some (Ok _) =>
    let n := (length out - lag)%nat in
    (Downloaded cid,
     if rename_ok
     then set_files (<[cid := take n out]> (files s)) (delete cid (tmp_files s)) (<[cid := drop n out]> (unwritten s)) s
     else set_files (files s) (<[cid := take n out]> (tmp_files s)) (unwritten s) s)
  | Some (Err err) => (DownloadFailure cid err, set_files (files s) (delete cid (tmp_files s)) (unwritten s) s)
  | None => (DownloadFailure cid "timeout", set_files (files s) (delete cid (tmp_files s)) (unwritten s) s)
  end.

(** The write that a finished transfer left: [n] more bytes are written, and if it fails
    then the others never are. *)
Definition disk_step (cid : bytes) (n : nat) (ok : bool) (s : Downloader) : Downloader :=
  match files s !! cid, unwritten s !! cid with
  | Some data, Some rest =>
    set_files (<[cid := data ++ take n rest]> (files s)) (tmp_files s)
      (if ok then <[cid := drop n rest]> (unwritten s) else delete cid (unwritten s)) s
  | _, _ => s
  end.

(** The locked section at the end of the loop of task [i]. *)
Definition report (i : nat) (e : Event) (s : Downloader) : Downloader :=
  let s := set_sets (pending s) (filter (fun c => c <> event_cid e) (downloading s)) s in
  let s := notify e s in
  match pending s with
  | next :: rest =>
    set_tasks (<[i := Fetching next]> (tasks s)) (set_sets rest (bset_insert next (downloading s)) s)
  | [] => set_tasks (delete i (tasks s)) s
  end.

(** A step of task [i], if it runs. *)
Definition task_step (i : nat) (chunks : list bytes) (e : Ending) (rename_ok : bool) (lag : nat)
  (s : Downloader) : Downloader :=
  match tasks s !! i with
  | None => s
  | Some (Fetching cid) =>
    let '(ev, s) := transfer cid chunks e rename_ok lag s in
    set_tasks (<[i := Reporting ev]> (tasks s)) s
  | Some (Reporting ev) => report i ev s
  end.

(** [read_or_download] after its subscription: [events] are the events it
    receives, an error being a closed or lagging channel; the files may change
    with every event. *)
Fixpoint await_event (disk : bytes -> result anyhow bytes) (cid : bytes)
  (events : list (result anyhow Event * Downloader)) : result anyhow bytes :=
  match events with
  | [] => Err (Msg "channel closed")
  | (Err e, _) :: _ => Err e
  | (Ok (Downloaded c), s) :: events =>
    if bool_decide (c = cid)
    then data ← read_file disk cid s; ok_or data (Msg "downloaded file not found")
    else await_event disk cid events
  | (Ok (DownloadFailure c error), _) :: events =>
    if bool_decide (c = cid) then Err (Ctx "download failed" (Msg error))
    else await_event disk cid events
  end.
Definition read_or_download (disk : bytes -> result anyhow bytes) (cid : bytes)
  (events : list (result anyhow Event * Downloader)) : DlM bytes := fun s =>
  match read_file disk cid s with
  | Ok (Some data) => (Ok data, s)
  | Err e => (Err e, s)
  | Ok None =>
    match download cid true s with
    | (Err e, s) => (Err e, s)
    | (Ok _, s) => (await_event disk cid events, s)
    end
  end.

(** ** Interleavings *)
Inductive dl_op : Type :=
| OpDownload (cid : bytes) (force : bool)
| OpTask (i : nat) (chunks : list bytes) (e : Ending) (rename_ok : bool) (lag : nat)
| OpDisk (cid : bytes) (n : nat) (ok : bool).
Definition dl_step (s : Downloader) (op : dl_op) : Downloader :=
  match op with
  | OpDownload cid force => (download cid force s).2
  | OpTask i chunks e ok lag => task_step i chunks e ok lag s
  | OpDisk cid n ok => disk_step cid n ok s
  end.
Definition dl_run (s : Downloader) (ops : list dl_op) : Downloader := foldl dl_step s ops.

(** ** Invariant *)
Abbreviation task_cids t := (task_cid <$> (map_to_list t).*2).

Record dl_inv (s : Downloader) : Prop := MkDlInv {
  di_pending : bset_wf (pending s);
  di_downloading : bset_wf (downloading s);
  di_max : zlen (downloading s) <= max_downloading;
  di_max_pending : zlen (pending s) <= max_pending;
  di_busy : pending s <> [] -> zlen (downloading s) = max_downloading;
  di_disjoint : forall c, c ∈ pending s -> c ∉ downloading s;
  di_tasks : task_cids (tasks s) ≡ₚ downloading s;
  di_fresh : forall i, (next_task s <= i)%nat -> tasks s !! i = None;
  di_accepted : accepted s ≡ₚ (event_cid <$> notified s) ++ downloading s ++ pending s
}.

Lemma zlen_perm {A} (l k : list A) : l ≡ₚ k -> zlen l = zlen k.
Proof. unfold zlen. by intros ->. Qed.

Lemma in_progress_false c s : in_progress c s = false -> (c ∉ downloading s) /\ (c ∉ pending s).
Proof. unfold in_progress. rewrite orb_false_iff, !bool_decide_eq_false. done. Qed.

Lemma task_cids_insert (t : gmap nat Task) i x : t !! i = None ->
  task_cids (<[i := x]> t) ≡ₚ task_cid x :: task_cids t.
Proof. intros Hi. by rewrite (map_to_list_insert _ _ _ Hi). Qed.
Lemma task_cids_delete (t : gmap nat Task) i x : t !! i = Some x ->
  task_cids t ≡ₚ task_cid x :: task_cids (delete i t).
Proof. intros Hi. by rewrite <- (map_to_list_delete t i x Hi). Qed.
Lemma task_cids_update (t : gmap nat Task) i x y : t !! i = Some x -> task_cid y = task_cid x ->
  task_cids (<[i := y]> t) ≡ₚ task_cids t.
Proof.
  intros Hi Hy. rewrite (task_cids_delete t i x Hi), <- insert_delete_eq.
  by rewrite task_cids_insert, Hy by apply lookup_delete_eq.
Qed.

Lemma downloader_new_inv dir : dl_inv (downloader_new dir).
Proof. split; simpl; rewrite ?map_to_list_empty; try done; [constructor..|]. set_solver. Qed.

Lemma download_inv c force s : dl_inv s -> dl_inv (download c force s).2.
Proof.
  intros [Hp Hd Hm Hmp Hb Hdis Ht Hf Ha]. unfold download.
  destruct (_ && _); [done|]. destruct (in_progress c s) eqn:Hc; [done|].
  apply in_progress_false in Hc as [Hcd Hcp].
  destruct (Z.ltb_spec (zlen (downloading s)) max_downloading) as [Hlt|Hge].
  - pose proof (bset_insert_perm c _ Hcd) as Hins.
    assert (pending s = []) as Hemp.
    { destruct (pending s); [done|]. rewrite Hb in Hlt by done. lia. }
    split; simpl; rewrite ?Hins, ?Hemp; try done.
    + constructor.
    + by apply bset_insert_wf.
    + rewrite (zlen_perm _ _ Hins), zlen_cons. lia.
    + set_solver.
    + rewrite task_cids_insert, Ht by (by apply Hf). done.
    + intros i Hi. rewrite lookup_insert_ne by lia. apply Hf. lia.
    + rewrite Ha, Hemp, !app_nil_r. rewrite <- app_assoc. f_equiv.
      by rewrite Permutation_app_comm.
  - destruct (Z.ltb_spec (zlen (pending s)) max_pending) as [Hlt|Hge2]; [|done].
    pose proof (bset_insert_perm c _ Hcp) as Hins.
    split; simpl; rewrite ?Hins; try done.
    + by apply bset_insert_wf.
    + rewrite (zlen_perm _ _ Hins), zlen_cons. lia.
    + intros _. lia.
    + intros x. rewrite elem_of_bset_insert. intros [-> |Hx]; [done|by apply Hdis].
    + rewrite Ha, <- !app_assoc. do 2 f_equiv. by rewrite Permutation_app_comm.
Qed.

Lemma transfer_sets c chunks e ok lag s : exists f t u,
  (transfer c chunks e ok lag s).2 = set_files f t u s /\ event_cid (transfer c chunks e ok lag s).1 = c.
Proof.
  unfold transfer. destruct (receive 0 [] chunks e) as [[[[]|err]|] out]; simpl; eauto.
  destruct ok; eauto.
Qed.
Lemma disk_sets c n ok s : exists f t u, disk_step c n ok s = set_files f t u s.
Proof.
  unfold disk_step. destruct (files s !! c), (unwritten s !! c); eauto; exists (files s), (tmp_files s), (unwritten s); by destruct s.
Qed.
Lemma set_files_inv f t u s : dl_inv s -> dl_inv (set_files f t u s).
Proof. by intros [? ? ? ? ? ? ? ? ?]. Qed.

Lemma filter_ne_perm c (l : list bytes) : NoDup l -> c ∈ l -> l ≡ₚ c :: filter (fun x => x <> c) l.
Proof.
  intros Hn Hc. apply NoDup_Permutation; [done| |].
  - constructor; [|by apply NoDup_filter]. rewrite list_elem_of_filter. naive_solver.
  - intros x. rewrite elem_of_cons, list_elem_of_filter. destruct (decide (x = c)); naive_solver.
Qed.
Lemma filter_sorted {A} (R : A -> A -> Prop) P `{forall x : A, Decision (P x)} l :
  StronglySorted R l -> StronglySorted R (filter P l).
Proof.
  induction 1 as [|x l _ IH Hx]; [constructor|]. rewrite filter_cons. case_decide; [|done].
  constructor; [done|]. rewrite Forall_forall in Hx |- *.
  intros y [_ Hy]%list_elem_of_filter. auto.
Qed.

Lemma report_inv i e s : dl_inv s -> tasks s !! i = Some (Reporting e) -> dl_inv (report i e s).
Proof.
  intros [Hp Hd Hm Hmp Hb Hdis Ht Hf Ha] Hi.
  pose proof (task_cids_delete _ _ _ Hi) as Hdel. simpl in Hdel.
  assert (Hc : event_cid e ∈ downloading s) by (rewrite <- Ht, Hdel; set_solver).
  pose proof (filter_ne_perm _ _ (bset_wf_NoDup _ Hd) Hc) as Hfil.
  set (rest := filter _ _) in Hfil.
  assert (Hrest : bset_wf rest) by (by apply filter_sorted).
  assert (Hlen : zlen (downloading s) = 1 + zlen rest) by (by rewrite (zlen_perm _ _ Hfil), zlen_cons).
  assert (Htr : task_cids (delete i (tasks s)) ≡ₚ rest).
  { rewrite Hdel, Hfil in Ht. by apply (inj (cons (event_cid e))) in Ht. }
  assert (Hacc : accepted s ≡ₚ (event_cid <$> notified s ++ [e]) ++ rest ++ pending s).
  { rewrite Ha, Hfil, fmap_app, <- !app_assoc. done. }
  unfold report. cbn [pending set_sets notify]. fold rest.
  destruct (pending s) as [|next p] eqn:Hpe.
  - split; simpl; fold rest; rewrite ?Hpe; try done; try lia.
    + set_solver.
    + intros j Hj. apply lookup_delete_None. auto.
  - assert (Hn : next ∉ rest).
    { subst rest. rewrite list_elem_of_filter. intros [_ Hn]. by apply (Hdis next); [left|]. }
    pose proof (bset_insert_perm next rest Hn) as Hins.
    apply StronglySorted_cons in Hp as [Hnp Hp].
    split; simpl; fold rest; try done.
    + by apply bset_insert_wf.
    + rewrite (zlen_perm _ _ Hins), zlen_cons. lia.
    + rewrite zlen_cons in Hmp. lia.
    + intros _. rewrite (zlen_perm _ _ Hins), zlen_cons, <- Hlen. by apply Hb.
    + intros x Hx. rewrite elem_of_bset_insert. intros [-> |Hx'].
      * rewrite Forall_forall in Hnp. by apply (irreflexivity str_lt next), Hnp.
      * subst rest. apply list_elem_of_filter in Hx' as [_ Hx']. by apply (Hdis x); [right|].
    + rewrite <- insert_delete_eq, task_cids_insert, Htr, Hins by apply lookup_delete_eq. done.
    + intros j Hj. rewrite lookup_insert_ne; [by apply Hf|]. intros ->. by rewrite Hf in Hi.
    + rewrite Hacc, Hins. f_equiv. simpl. by rewrite Permutation_middle.
Qed.

Lemma task_step_inv i chunks e ok lag s : dl_inv s -> dl_inv (task_step i chunks e ok lag s).
Proof.
  intros Hs. unfold task_step. destruct (tasks s !! i) as [[c|ev]|] eqn:Hi; [|by apply report_inv|done].
  destruct (transfer_sets c chunks e ok lag s) as (f & t & u & Hset & Hev).
  destruct (transfer c chunks e ok lag s) as [ev s']. simpl in *. subst s'.
  destruct Hs as [Hp Hd Hm Hmp Hb Hdis Ht Hf Ha]. split; simpl; try done.
  - by rewrite (task_cids_update _ _ (Fetching c)).
  - intros j Hj. rewrite lookup_insert_ne; [by apply Hf|]. intros ->. by rewrite Hf in Hi.
Qed.

Lemma dl_step_inv s op : dl_inv s -> dl_inv (dl_step s op).
Proof.
  destruct op as [c force|i chunks e ok lag|c n ok]; simpl; auto using download_inv, task_step_inv.
  destruct (disk_sets c n ok s) as (f & t & u & ->). auto using set_files_inv.
Qed.
Lemma dl_run_inv ops : forall s, dl_inv s -> dl_inv (dl_run s ops).
Proof. induction ops as [|op ops IH]; intros s Hs; simpl; auto using dl_step_inv. Qed.

(** ** Contents of the data directory *)

Lemma receive_ok chunks e : forall size out out', receive size out chunks e = (Some (Ok tt), out') ->
  zlen out = size -> size <= max_file_size ->
  e = Complete /\ out' = out ++ concat chunks /\ zlen out' <= max_file_size.
Proof.
  induction chunks as [|c chunks IH]; intros size out out'; simpl.
  - destruct e; intros [= <-] <- ?. by rewrite app_nil_r.
  - destruct (Z.ltb_spec max_file_size (size + zlen c)); [done|]. intros Hr Hs Hm.
    apply IH in Hr as (-> & -> & ?); [|rewrite zlen_app; lia|lia].
    by rewrite <- app_assoc in *.
Qed.

(** The rest of a file that is still to be written. *)
Definition rest_of (c : bytes) (s : Downloader) : bytes := default [] (unwritten s !! c).
(** A file that was there, or what the disk has of the whole body of a completed transfer of
    this file; the rest is lost only if a write after the transfer fails. *)
Definition origin_of (dir : gmap bytes bytes) (ops : list dl_op) (s : Downloader) (c d : bytes) : Prop :=
  dir !! c = Some d /\ unwritten s !! c = None \/
  exists ops1 i chunks lag ops2, ops = ops1 ++ OpTask i chunks Complete true lag :: ops2 /\
    tasks (dl_run (downloader_new dir) ops1) !! i = Some (Fetching c) /\
    zlen (concat chunks) <= max_file_size /\ d ++ rest_of c s `prefix_of` concat chunks /\
    ((forall n, OpDisk c n false ∉ ops2) -> d ++ rest_of c s = concat chunks).
Definition file_origin (dir : gmap bytes bytes) (ops : list dl_op) (s : Downloader) : Prop :=
  forall c d, files s !! c = Some d -> origin_of dir ops s c d.

(** A step that leaves a file as it is leaves its origin. *)
Lemma origin_kept dir ops s s' op c d : file_origin dir ops s -> files s !! c = Some d -> unwritten s' !! c = unwritten s !! c ->
  origin_of dir (ops ++ [op]) s' c d.
Proof.
  intros Ho Hd Hu. unfold origin_of, rest_of. rewrite Hu. destruct (Ho c d Hd) as [?|(ops1 & i & chunks & lag & ops2 & -> & Ht & Hlen & Hpre & Hall)]; [by left|right].
  exists ops1, i, chunks, lag, (ops2 ++ [op]). split_and!; try done; [by rewrite <- app_assoc|].
  intros Hn. apply Hall. intros n Hin. apply (Hn n). set_solver.
Qed.
Lemma transfer_origin dir ops i c chunks e ok lag : let s := dl_run (downloader_new dir) ops in
  file_origin dir ops s -> tasks s !! i = Some (Fetching c) ->
  file_origin dir (ops ++ [OpTask i chunks e ok lag]) (task_step i chunks e ok lag s).
Proof.
  intros s Ho Hi. unfold task_step, transfer. rewrite Hi. destruct (receive 0 [] chunks e) as [[[[]|err]|] out] eqn:Hr;
    [destruct ok|..]; intros c' d; simpl; try (by intros ?; eapply origin_kept).
  intros [[<- <-]|[Hne Hd]]%lookup_insert_Some; [|eapply origin_kept; [done..|]; simpl; by rewrite lookup_insert_ne].
  apply receive_ok in Hr as (-> & -> & Hlen); [|done|vm_compute; discriminate].
  right. exists ops, i, chunks, lag, []. unfold rest_of. simpl in *. rewrite lookup_insert_eq. simpl. by rewrite take_drop.
Qed.
Lemma disk_origin dir ops s c n ok : file_origin dir ops s -> file_origin dir (ops ++ [OpDisk c n ok]) (disk_step c n ok s).
Proof.
  intros Ho. unfold disk_step. destruct (files s !! c) as [d|] eqn:Hd; [destruct (unwritten s !! c) as [rest|] eqn:Hu|];
    try (by intros c' d' ?; eapply origin_kept).
  intros c' d'. simpl. intros [[<- <-]|[Hne Hd']]%lookup_insert_Some.
  - right. destruct (Ho c d Hd) as [[_ Hx]|(ops1 & i & chunks & lag & ops2 & -> & Ht & Hlen & Hpre & Hall)]; [by rewrite Hu in Hx|].
    exists ops1, i, chunks, lag, (ops2 ++ [OpDisk c n ok]). unfold rest_of in *. rewrite Hu in Hpre, Hall. simpl in *.
    split_and!; try done; [by rewrite <- app_assoc| |].
    + destruct ok; [rewrite lookup_insert_eq; simpl; by rewrite <- app_assoc, take_drop|rewrite lookup_delete_eq; simpl].
      rewrite app_nil_r. etrans; [|exact Hpre]. apply prefix_app. eexists. symmetry. apply take_drop.
    + intros Hn. destruct ok; [|destruct (Hn n); set_solver]. rewrite lookup_insert_eq. simpl. rewrite <- app_assoc, take_drop.
      apply Hall. intros m Hin. apply (Hn m). set_solver.
  - eapply origin_kept; [done..|]. simpl. destruct ok; [by rewrite lookup_insert_ne|by rewrite lookup_delete_ne].
Qed.
Lemma dl_step_origin dir ops op : let s := dl_run (downloader_new dir) ops in
  file_origin dir ops s -> file_origin dir (ops ++ [op]) (dl_step s op).
Proof.
  intros s Ho. destruct op as [cid force|i chunks e ok lag|c n ok]; cbn [dl_step].
  - intros c d Hd. assert (Hsame : files (download cid force s).2 = files s /\ unwritten (download cid force s).2 = unwritten s)
      by (unfold download; by repeat case_match). destruct Hsame as [Hf Hu]. rewrite Hf in Hd. eapply origin_kept; [done..|]. by rewrite Hu.
  - destruct (tasks s !! i) as [[c|ev]|] eqn:Hi; [by eapply transfer_origin|..]; unfold task_step; rewrite Hi;
      intros c d Hd; eapply origin_kept; try done; revert Hd; unfold report; by case_match.
  - by apply disk_origin.
Qed.

Lemma dl_run_origin dir ops : file_origin dir ops (dl_run (downloader_new dir) ops).
Proof.
  induction ops as [|op ops IH] using rev_ind; [by left|].
  unfold dl_run. rewrite foldl_app. by apply dl_step_origin.
Qed.

(** C31: the downloader under every interleaving of calls, tasks and writes: at most ten
    transfers and ten thousand waiting requests; nothing is fetched by two tasks
    or waits while it is fetched; a request waits only while all ten transfers are
    busy; and a file in the cache is one that was there at the start, or holds the
    beginning of the whole body, of at most 20 MB, that a task received which fetched
    this file.  With what is still to be written it is the whole body, unless a
    write failed after the transfer: [download_task] reports the file without
    waiting for the last write. *)
Theorem downloader_invariant dir ops :
  let s := dl_run (downloader_new dir) ops in
  zlen (downloading s) <= 10 /\ zlen (pending s) <= 10000 /\
  NoDup (downloading s ++ pending s) /\
  task_cid <$> (map_to_list (tasks s)).*2 ≡ₚ downloading s /\
  (pending s <> [] -> zlen (downloading s) = 10) /\
  (forall c d, files s !! c = Some d ->
     dir !! c = Some d /\ unwritten s !! c = None \/
     exists ops1 i chunks lag ops2, ops = ops1 ++ OpTask i chunks Complete true lag :: ops2 /\
       tasks (dl_run (downloader_new dir) ops1) !! i = Some (Fetching c) /\
       zlen (concat chunks) <= 20 * 1024 * 1024 /\ d ++ rest_of c s `prefix_of` concat chunks /\
       ((forall n, OpDisk c n false ∉ ops2) -> d ++ rest_of c s = concat chunks)).
Proof.
  intros s. destruct (dl_run_inv ops _ (downloader_new_inv dir)) as [Hp Hd Hm Hmp Hb Hdis Ht _ _].
  fold s in Hp, Hd, Hm, Hmp, Hb, Hdis, Ht. split_and!; try done; [|exact (dl_run_origin dir ops)].
  apply NoDup_app. split_and!; eauto using bset_wf_NoDup. intros c Hc Hc'. by apply (Hdis c).
Qed.

(** A file whose last write failed after the rename is reported and counts as downloaded, also
    for the next process: a part of it is served from then on. *)
Lemma truncated_file_reported :
  let ops := [OpDownload [1] false; OpTask 0 [[7]; [8]] Complete true 1; OpTask 0 [] Complete true 0; OpDisk [1] 0 false] in
  let s := dl_run (downloader_new ∅) ops in
  notified s = [Downloaded [1]] /\ state_of [1] s = RDownloaded /\ files s !! [1] = Some [7] /\
  (download [1] false (downloader_new (files s))).1 = Ok true.
Proof. vm_compute. done. Qed.

(** ** Every accepted download is reported *)
Definition task_weight (t : Task) : Z := match t with Fetching _ => 2 | Reporting _ => 1 end.
Definition work (s : Downloader) : Z :=
  2 * zlen (pending s) + map_fold (fun _ t n => task_weight t + n) 0 (tasks s).
(** The steps of a run that are steps of a running task. *)
Fixpoint task_steps (s : Downloader) (ops : list dl_op) : Z :=
  match ops with
  | [] => 0
  | op :: ops =>
    (match op with
     | OpTask i _ _ _ _ => if decide (is_Some (tasks s !! i)) then 1 else 0
     | _ => 0
     end) + task_steps (dl_step s op) ops
  end.

Abbreviation weight_of := (map_fold (fun (_ : nat) t n => task_weight t + n) 0).
Lemma weight_insert (t : gmap nat Task) i x : t !! i = None ->
  weight_of (<[i := x]> t) = task_weight x + weight_of t.
Proof.
  intros Hi. rewrite (map_fold_insert_L (fun (_ : nat) t n => task_weight t + n)); [done|intros; lia|done].
Qed.
Lemma weight_delete (t : gmap nat Task) i x : t !! i = Some x ->
  weight_of t = task_weight x + weight_of (delete i t).
Proof.
  intros Hi. rewrite <- (insert_delete_id t i x Hi) at 1. by rewrite weight_insert by apply lookup_delete_eq.
Qed.
Lemma weight_update (t : gmap nat Task) i x y : t !! i = Some x ->
  weight_of (<[i := y]> t) = task_weight y - task_weight x + weight_of t.
Proof.
  intros Hi. rewrite (weight_delete t i x Hi), <- insert_delete_eq.
  rewrite weight_insert by apply lookup_delete_eq. lia.
Qed.
Lemma weight_nonneg (t : gmap nat Task) : 0 <= weight_of t.
Proof.
  apply (map_fold_weak_ind (fun n _ => 0 <= n)); [done|]. intros i [] ???; simpl; lia.
Qed.

Lemma download_work c force s : dl_inv s ->
  work (download c force s).2 = work s + 2 * (zlen (accepted (download c force s).2) - zlen (accepted s)).
Proof.
  intros Hs. unfold download, work. destruct (_ && _); simpl; [lia|].
  destruct (in_progress c s) eqn:Hc; simpl; [lia|]. apply in_progress_false in Hc as [Hcd Hcp].
  destruct (_ <? _); simpl.
  - rewrite weight_insert by (by apply (di_fresh _ Hs)). autorewrite with wapo. simpl. lia.
  - destruct (_ <? _); simpl; [|lia]. rewrite (zlen_perm _ _ (bset_insert_perm c _ Hcp)).
    autorewrite with wapo. lia.
Qed.

Lemma task_step_work i chunks e ok lag s :
  accepted (task_step i chunks e ok lag s) = accepted s /\
  work (task_step i chunks e ok lag s) = work s - (if decide (is_Some (tasks s !! i)) then 1 else 0).
Proof.
  unfold task_step. destruct (tasks s !! i) as [[c|ev]|] eqn:Hi.
  - rewrite decide_True by eauto. destruct (transfer_sets c chunks e ok lag s) as (f & t & u & Hset & _).
    destruct (transfer c chunks e ok lag s) as [ev s']. simpl in *. subst s'. split; [done|].
    unfold work. simpl. rewrite (weight_update _ _ _ _ Hi). simpl. lia.
  - rewrite decide_True by eauto. unfold report, work. simpl.
    destruct (pending s) as [|next p] eqn:Hp; simpl; (split; [done|]).
    + rewrite (weight_delete _ _ _ Hi). simpl. lia.
    + rewrite (weight_update _ _ _ _ Hi). rewrite zlen_cons. simpl. lia.
  - rewrite decide_False by (by intros [??]). split; [done|lia].
Qed.

Lemma run_work ops : forall s, dl_inv s ->
  task_steps s ops + work (dl_run s ops) =
    work s + 2 * (zlen (accepted (dl_run s ops)) - zlen (accepted s)).
Proof.
  induction ops as [|op ops IH]; intros s Hs; [simpl; lia|].
  change (dl_run s (op :: ops)) with (dl_run (dl_step s op) ops). cbn [task_steps].
  specialize (IH _ (dl_step_inv s op Hs)).
  destruct op as [c force|i chunks e ok lag|c n ok]; simpl in *.
  - pose proof (download_work c force s Hs). lia.
  - destruct (task_step_work i chunks e ok lag s) as [Ha Hw]. rewrite Ha in IH. lia.
  - destruct (disk_sets c n ok s) as (f & t & u & Hset). rewrite Hset in IH |- *. unfold work in *. simpl in *. lia.
Qed.

(** With no task left, nothing is fetched or waits. *)
Lemma idle_queues s : dl_inv s -> tasks s = ∅ -> downloading s = [] /\ pending s = [].
Proof.
  intros Hs He. pose proof (di_tasks _ Hs) as Ht. rewrite He, map_to_list_empty in Ht. simpl in Ht.
  symmetry in Ht. apply Permutation_nil_r in Ht. split; [done|].
  destruct (pending s) eqn:Hp; [done|]. pose proof (di_busy _ Hs ltac:(by rewrite Hp)) as Hb. by rewrite Ht in Hb.
Qed.
(** Every download is reported: in every run, the running tasks take at most two
    steps per accepted request (so they cannot run forever), and when none runs any
    more nothing waits and every accepted request has been reported exactly once,
    as downloaded or failed. *)
Theorem downloads_reported dir ops :
  let s := dl_run (downloader_new dir) ops in
  task_steps (downloader_new dir) ops <= 2 * zlen (accepted s) /\
  (tasks s = ∅ -> pending s = [] /\ event_cid <$> notified s ≡ₚ accepted s /\
    task_steps (downloader_new dir) ops = 2 * zlen (accepted s)).
Proof.
  intros s. pose proof (run_work ops _ (downloader_new_inv dir)) as Hw. fold s in Hw.
  pose proof (dl_run_inv ops _ (downloader_new_inv dir)) as Hs. fold s in Hs.
  assert (Hn : work (downloader_new dir) = 0) by done. change (zlen (accepted (downloader_new dir))) with 0 in Hw. rewrite Hn in Hw.
  split.
  - unfold work in Hw. pose proof (zlen_nonneg (pending s)). pose proof (weight_nonneg (tasks s)). lia.
  - intros He. destruct (idle_queues s Hs He) as [Ht Hp].
    split; [done|]. pose proof (di_accepted _ Hs) as Ha. rewrite Ht, Hp, !app_nil_r in Ha.
    split; [by symmetry|]. unfold work in Hw. rewrite Hp, He, map_fold_empty, (zlen_nil (A:=bytes)) in Hw. lia.
Qed.
Lemma downloads_reported_witness :
  let ops := [OpDownload [1] false; OpDownload [2] false; OpDownload [1] false;
              OpTask 0 [[7]; [8]] Complete true 1; OpTask 1 [] TimedOut true 0; OpTask 1 [] Complete true 0;
              OpTask 0 [] Complete true 0; OpDisk [1] 5 true] in
  let s := dl_run (downloader_new ∅) ops in
  notified s = [DownloadFailure [2] "timeout"; Downloaded [1]] /\ files s !! [1] = Some [7; 8] /\
  pending s = [] /\ event_cid <$> notified s ≡ₚ accepted s.
Proof.
  intros ops s. split; [vm_compute; reflexivity|]. split; [vm_compute; reflexivity|].
  destruct (downloads_reported ∅ ops) as [_ H].
  destruct (H ltac:(vm_compute; reflexivity)) as (H1 & H2 & _). split; [exact H1|exact H2].
Defined.

(** ** A gateway that serves files *)

(** A run in which every transfer of a file of [g] delivers it, in whatever chunks, and it is
    written. *)
Fixpoint serves (g : gmap bytes bytes) (s : Downloader) (ops : list dl_op) : Prop :=
  match ops with
  | [] => True
  | op :: ops =>
    match op with
    | OpTask i chunks e ok lag => forall c d, tasks s !! i = Some (Fetching c) -> g !! c = Some d ->
        e = Complete /\ ok = true /\ lag = 0%nat /\ concat chunks = d
    | _ => True
    end /\ serves g (dl_step s op) ops
  end.
(** The cache has no file [c], or has it as [d]; it has it when this is about to be reported. *)
Definition held (c d : bytes) (s : Downloader) : Prop :=
  (files s !! c = None \/ files s !! c = Some d /\ rest_of c s = []) /\
  forall i e, tasks s !! i = Some (Reporting e) -> event_cid e = c -> files s !! c <> None.
(** It was asked for, or is there. *)
Definition coming (c : bytes) (s : Downloader) : Prop := c ∈ downloading s \/ c ∈ pending s \/ files s !! c <> None.

Lemma receive_all chunks : forall size out, size + zlen (concat chunks) <= max_file_size ->
  receive size out chunks Complete = (Some (Ok tt), out ++ concat chunks).
Proof.
  induction chunks as [|x chunks IH]; intros size out Hs; simpl in *; [by rewrite app_nil_r|]. rewrite zlen_app in Hs.
  pose proof (zlen_nonneg (concat chunks)). destruct (Z.ltb_spec max_file_size (size + zlen x)); [lia|].
  rewrite IH by lia. by rewrite <- app_assoc.
Qed.
(** The steps of a task that fetches: another file is left alone, and a served one arrives. *)
Lemma transfer_held c d i b chunks e ok lag s : tasks s !! i = Some (Fetching b) -> zlen d <= max_file_size ->
  (b = c -> e = Complete /\ ok = true /\ lag = 0%nat /\ concat chunks = d) -> held c d s ->
  held c d (task_step i chunks e ok lag s) /\ (files s !! c <> None -> files (task_step i chunks e ok lag s) !! c <> None).
Proof.
  intros Hi Hd Hserve [Hfile Hdone]. unfold task_step. rewrite Hi. destruct (decide (b = c)) as [->|Hne].
  - destruct (Hserve eq_refl) as (-> & -> & -> & Hc). unfold transfer. rewrite receive_all by (rewrite Hc; lia). rewrite Hc. simpl.
    unfold held, rest_of. simpl. rewrite !lookup_insert_eq, Nat.sub_0_r, take_ge, drop_ge by lia. split_and!; [by right|done..].
  - assert (Hsame : files (transfer b chunks e ok lag s).2 !! c = files s !! c /\ unwritten (transfer b chunks e ok lag s).2 !! c = unwritten s !! c).
    { unfold transfer. destruct (receive 0 [] chunks e) as [[[[]|err]|] out]; [destruct ok|..]; simpl; try done.
      by rewrite !lookup_insert_ne. }
    destruct (transfer_sets b chunks e ok lag s) as (f & t & u & Hset & Hev).
    destruct (transfer b chunks e ok lag s) as [ev s']. simpl in *. subst s'. simpl in *. destruct Hsame as [Hf Hu].
    unfold held, rest_of in *. simpl. rewrite Hf, Hu. split_and!; try done.
    intros j e' [[<- [= <-]]|[_ Hj]]%lookup_insert_Some; [by rewrite Hev|by eapply Hdone].
Qed.
Lemma transfer_way i b chunks e ok lag s : tasks s !! i = Some (Fetching b) ->
  downloading (task_step i chunks e ok lag s) = downloading s /\ pending (task_step i chunks e ok lag s) = pending s.
Proof.
  intros Hi. unfold task_step. rewrite Hi. destruct (transfer_sets b chunks e ok lag s) as (f & t & u & Hset & _).
  destruct (transfer b chunks e ok lag s) as [ev s']. simpl in *. by subst s'.
Qed.
Lemma report_held c d i ev s : tasks s !! i = Some (Reporting ev) -> held c d s -> held c d (report i ev s) /\ (coming c s -> coming c (report i ev s)).
Proof.
  intros Hi [Hfile Hdone].
  assert (Hsame : files (report i ev s) = files s /\ unwritten (report i ev s) = unwritten s) by (unfold report; by case_match).
  assert (Ht : forall j e, tasks (report i ev s) !! j = Some (Reporting e) -> tasks s !! j = Some (Reporting e)).
  { intros j e. unfold report. simpl. destruct (pending s); simpl; [by intros [_ ?]%lookup_delete_Some|by intros [[_ ?]|[_ ?]]%lookup_insert_Some]. }
  destruct Hsame as [Hf Hu]. unfold held, rest_of, coming in *. rewrite Hf, Hu. split; [split; [done|]; eauto|].
  intros Hc. destruct (decide (files s !! c = None)) as [Hn|]; [|by right; right].
  assert (Hne : c <> event_cid ev) by (intros ->; by destruct (Hdone i ev Hi eq_refl)).
  destruct Hc as [Hc|[Hc|?]]; [| |done]; unfold report; simpl.
  - left. destruct (pending s); simpl; rewrite ?elem_of_bset_insert, list_elem_of_filter; auto.
  - destruct (pending s) as [|next rest]; simpl; [by apply not_elem_of_nil in Hc|]. rewrite elem_of_bset_insert. apply elem_of_cons in Hc. naive_solver.
Qed.
Lemma serves_step g op c d s : serves g s [op] -> g !! c = Some d -> zlen d <= max_file_size -> held c d s ->
  held c d (dl_step s op) /\ (coming c s -> coming c (dl_step s op)).
Proof.
  intros [Hserve _] Hg Hd Hs. destruct op as [b force|i chunks e ok lag|b n ok]; cbn [dl_step].
  - unfold download. repeat case_match; try done; destruct Hs as [Hfile Hdone]; unfold held, coming, rest_of in *; simpl;
      (split; [split; [done|]|rewrite elem_of_bset_insert; naive_solver]); [|done].
    intros j e' [[_ ?]|[_ ?]]%lookup_insert_Some; [done|eauto].
  - destruct (tasks s !! i) as [[b|ev]|] eqn:Hi; [| |unfold task_step; by rewrite Hi].
    + destruct (transfer_held c d i b chunks e ok lag s Hi Hd) as [Hh Hf]; [by intros ->; apply (Hserve c d)|done|].
      split; [done|]. destruct (transfer_way i b chunks e ok lag s Hi) as [Hdl Hp]. unfold coming. rewrite Hdl, Hp. tauto.
    + unfold task_step. rewrite Hi. by apply report_held.
  - unfold disk_step. destruct (files s !! b) as [data|] eqn:Hb; [|done]. destruct (unwritten s !! b) as [rest|] eqn:Hu; [|done].
    destruct Hs as [Hfile Hdone]. unfold held, coming, rest_of in *. simpl. destruct (decide (b = c)) as [->|Hne].
    + rewrite Hb, Hu in *. destruct Hfile as [|[[= ->] Hrest]]; [done|]. simpl in Hrest. subst rest. rewrite !lookup_insert_eq, take_nil, app_nil_r.
      split; [split; [right; split; [done|]; by destruct ok; [rewrite lookup_insert_eq, drop_nil|rewrite lookup_delete_eq]|by eauto]|by right; right].
    + rewrite !lookup_insert_ne by done. by destruct ok; [rewrite lookup_insert_ne|rewrite lookup_delete_ne].
Qed.
Lemma serves_run g ops c d : g !! c = Some d -> zlen d <= max_file_size -> forall s, serves g s ops -> held c d s ->
  held c d (dl_run s ops) /\ (coming c s -> coming c (dl_run s ops)).
Proof.
  intros Hg Hd. induction ops as [|op ops IH]; intros s Hs Hh; [done|]. destruct Hs as [Hop Hs].
  destruct (serves_step g op c d s (conj Hop I) Hg Hd Hh) as [Hh' Hc']. destruct (IH _ Hs Hh') as [? ?]. simpl. unfold dl_run in *. simpl. tauto.
Qed.
(** With no task left, what was asked for is there. *)
Lemma idle_present c d s : dl_inv s -> tasks s = ∅ -> held c d s -> coming c s -> files s !! c = Some d.
Proof.
  intros Hs He [Hf _] Hc. destruct (idle_queues s Hs He) as [Hd Hp]. unfold coming in Hc. rewrite Hd, Hp in Hc.
  destruct Hc as [Hc|[Hc|Hc]]; [by apply not_elem_of_nil in Hc..|]. destruct Hf as [|[]]; done.
Qed.
