(* ===== verification/ChainClient.v ===== *)
(** * The chain client of the bridge (wapod-pherry/src/chain_state.rs, chain_client.rs; phaxt)

    Account nonces and transactions, the parameters of a transaction, and the part
    of a block's storage that the bridge follows.  The node and its client library
    are a class over an outside world. *)
From S2P Require Import Prelude Ordered Ocall.

(** ** Storage keys *)

(** Encoded integers are little endian. *)
Fixpoint le_decode (b : bytes) : Z :=
  match b with [] => 0 | x :: b => x + 256 * le_decode b end.
Fixpoint le_encode (n : nat) (z : Z) : bytes :=
  match n with O => [] | S n => z `mod` 256 :: le_encode n (z `div` 256) end.

(** [decode_key::<K>]: the key is the tail of the storage key, as long as the type
    is in memory. *)
Definition decode_key {K} (size : nat) (decode : bytes -> option K) (key_bytes : bytes) : result anyhow K :=
  if (length key_bytes <? size)%nat then Err (Msg "invalid key") else
  let tail := skipn (length key_bytes - size) key_bytes in
  ok_or (decode tail) (Msg "invalid key").

(** The two instances the source uses: [u64] and [[u8; 32]]. *)
Definition u64_key : bytes -> result anyhow Z := decode_key 8 (fun b => Some (le_decode b)).
Definition address_key : bytes -> result anyhow bytes := decode_key 32 Some.

(** ** The state of the chain *)

(** Generated from the chain's metadata: only the worker list is looked at. *)
Inductive WorkerSet : Type := OtherWorkers | WorkerList (id : Z).
Record TicketInfo : Type := MkTicketInfo {
  ti_address : bytes;
  manifest_cid : bytes;
  ti_workers : WorkerSet
}.
(** [HeartbeatChallenge]: two 256-bit numbers as four limbs, least significant first. *)
Record HeartbeatChallenge : Type := MkChallenge {
  seed : list Z;
  online_target : list Z
}.
(** [ChainState]; list and benchmark infos, which nothing reads, are kept encoded. *)
Record ChainState : Type := MkChainState {
  tickets : gmap Z TicketInfo;
  worker_lists : gmap Z bytes;
  worker_list_workers : gmap Z (list bytes);
  bench_app_address : option bytes;
  valid_bench_apps : gmap bytes bytes;
  heartbeat_challenge : option HeartbeatChallenge
}.
Definition ChainState_default : ChainState := MkChainState ∅ ∅ ∅ None ∅ None.

(** A storage iterator: the pairs it yields, an error being the last. *)
Abbreviation storage_iter V := (list (result anyhow (bytes * V))).

(** The [while let Some(pair) = iter.next()] loops, with [context] on the items. *)
Fixpoint collect {K V S} (ctx : string) (key : bytes -> result anyhow K)
  (add : K -> V -> S -> result anyhow S) (iter : storage_iter V) (acc : S) : result anyhow S :=
  match iter with
  | [] => Ok acc
  | item :: iter =>
    '(key_bytes, value) ← context ctx item;
    k ← key key_bytes;
    acc ← add k value acc;
    collect ctx key add iter acc
  end.

(** What a block gives: the storage iterators (opening one can fail), the
    recommended benchmark app, and the first challenge among its events. *)
Record Block : Type := MkBlock {
  bk_tickets : result anyhow (storage_iter TicketInfo);
  bk_worker_lists : result anyhow (storage_iter bytes);
  bk_list_workers : Z -> result anyhow (storage_iter unit);
  bk_bench_app : result anyhow (option bytes);
  bk_bench_apps : result anyhow (storage_iter bytes);
  bk_challenge : result anyhow (option HeartbeatChallenge)
}.

(** The block of [monitor] that reads one block into a [ChainState]. *)
Definition fetch_lists (b : Block) : result anyhow (gmap Z bytes * gmap Z (list bytes)) :=
  it ← bk_worker_lists b;
  collect "failed to fetch worker lists" u64_key (fun id info acc =>
    workers ← bk_list_workers b id;
    l ← collect "failed to fetch workers of list" address_key
      (fun a _ l => Ok (l ++ [a])) workers [];
    Ok (<[id := info]> acc.1, <[id := l]> acc.2)) it (∅, ∅).
Definition fetch_state (b : Block) : result anyhow ChainState :=
  it ← bk_tickets b;
  tickets ← collect "failed to fetch tickets" u64_key (fun id t acc => Ok (<[id := t]> acc)) it ∅;
  lists ← fetch_lists b;
  bench ← bk_bench_app b;
  it ← bk_bench_apps b;
  apps ← collect "failed to fetch bench apps" address_key (fun a i acc => Ok (<[a := i]> acc)) it ∅;
  challenge ← context "failed to find heartbeat challenge" (bk_challenge b);
  Ok (MkChainState tickets lists.1 lists.2 bench apps challenge).

(** One round of [monitor]'s loop, up to sending the state to the bridge: each await
    has a timeout, the subscription may have ended, and the receiver may be gone.
    The timeout of the second one covers reading the state and sending it. *)
Definition monitor_block (block : option (option (result anyhow Block))) (in_time receiver_alive : bool)
  : result anyhow ChainState :=
  b ← ok_or block (Msg "block subscription timeout");
  b ← ok_or b (Msg "block subscription ended");
  b ← context "block subscription failed" b;
  if negb in_time then Err (Msg "fetch chain state timeout") else
  st ← fetch_state b;
  if receiver_alive then Ok st else Err (Msg "channel closed").

(** ** Transactions *)

(** phaxt's [PhalaExtrinsicParamsBuilder]. *)
Record Mortality : Type := MkMortality { checkpoint_hash : bytes; checkpoint_number : Z; period : Z }.
Record Params : Type := MkParams { mortality : option Mortality; p_nonce : option Z; p_tip : Z }.
Definition params_new : Params := MkParams None None 0.
Definition params_tip (tip : Z) (p : Params) : Params := MkParams (mortality p) (p_nonce p) tip.
Definition params_mortal (hash : bytes) (number for_n_blocks : Z) (p : Params) : Params :=
  MkParams (Some (MkMortality hash number for_n_blocks)) (p_nonce p) (p_tip p).

(** The node behind [OnlineClient] and [RpcClient], for one type of calls. *)
Class Node (Call C : Type) := {
  SignedTx : Type;
  node_latest_block : M C anyhow (bytes * Z);
  node_account_nonce : M C anyhow Z;
  node_validate : Call -> M C anyhow unit;
  node_finalized_ref : M C anyhow bytes;
  node_header : bytes -> M C anyhow (option (Z * bytes));
  node_sign : Call -> Params -> Z -> M C anyhow SignedTx;
  node_submit : SignedTx -> M C anyhow unit;
  node_wait_finalized : SignedTx -> M C anyhow unit
}.

(** [NonceJar]. *)
Record NonceJar : Type := MkJar { next_nonce : option Z }.

Section Client.
Context {Call C : Type} `{Node Call C}.

(** The node with the jar that a method borrows. *)
Abbreviation ClientM := (M (C * NonceJar) anyhow).
Definition on_node {A} (m : M C anyhow A) : ClientM A := zoom fst (fun s c => (c, s.2)) m.
Definition client_context {A} (msg : string) (m : ClientM A) : ClientM A := fun s =>
  let '(r, s) := m s in (context msg r, s).

Definition jar_next : ClientM Z :=
  jar ← gets (fun s => next_nonce s.2);
  nonce ← match jar with
          | Some nonce => mret nonce
          | None => on_node node_account_nonce
          end;
  modify (fun s => (s.1, MkJar (Some (wrap U64 (nonce + 1)))));;
  mret nonce.
Definition jar_reset (j : NonceJar) : NonceJar := MkJar None.

Definition mk_params (longevity tip : Z) : M C anyhow Params :=
  if 0 <? longevity then
    '(hash, number) ← node_latest_block;
    mret (params_mortal hash number longevity (params_tip tip params_new))
  else mret (params_tip tip params_new).

(** [create_signed]: [refine_params] looks up the latest finalized header, for the
    parameters that were left open. *)
Definition create_signed (call : Call) (params : Params) (account_nonce : Z) : M C anyhow SignedTx :=
  node_validate call;;
  r ← node_finalized_ref;
  h ← node_header r;
  lift (ok_or h (Msg "block header not found"));;
  node_sign call params account_nonce.

Definition submit_tx_inner (tx : Call) (wait_finalized : bool) : ClientM unit :=
  params ← client_context "mk params failed" (on_node (mk_params 8 0));
  nonce ← jar_next;
  signed ← client_context "sign tx failed" (on_node (create_signed tx params nonce));
  client_context "submit tx failed" (on_node (node_submit signed));;
  if wait_finalized
  then client_context "tx failed" (on_node (node_wait_finalized signed))
  else mret tt.
Definition submit_tx (label : string) (tx : Call) (wait_finalized : bool) : ClientM unit :=
  client_context ("submit tx(" +:+ label +:+ ") failed") (submit_tx_inner tx wait_finalized).
End Client.

(** ** Reading the chain *)
Lemma le_encode_length n z : length (le_encode n z) = n.
Proof. revert z. induction n; intros z; simpl; auto. Qed.
Lemma le_decode_encode n : forall z, 0 <= z < 256 ^ Z.of_nat n -> le_decode (le_encode n z) = z.
Proof.
  induction n as [|n IH]; intros z Hz; simpl.
  - change (256 ^ Z.of_nat 0) with 1 in Hz. lia.
  - rewrite IH.
    + pose proof (Z.div_mod z 256). lia.
    + rewrite Nat2Z.inj_succ, Z.pow_succ_r in Hz by lia. split; [apply Z.div_pos; lia|].
      apply Z.div_lt_upper_bound; lia.
Qed.
Lemma decode_key_tail {K} n (dec : bytes -> option K) (prefix k : bytes) : length k = n ->
  decode_key n dec (prefix ++ k) = ok_or (dec k) (Msg "invalid key").
Proof.
  intros Hk. unfold decode_key. rewrite length_app, Hk.
  rewrite (proj2 (Nat.ltb_ge _ _)) by lia. replace (length prefix + n - n)%nat with (length prefix) by lia.
  by rewrite drop_app_length.
Qed.
Lemma u64_key_encode prefix id : 0 <= id < 2 ^ 64 -> u64_key (prefix ++ le_encode 8 id) = Ok id.
Proof.
  intros Hid. unfold u64_key. rewrite decode_key_tail by apply le_encode_length. cbn [ok_or].
  rewrite le_decode_encode; [done|]. change (256 ^ Z.of_nat 8) with (2 ^ 64). done.
Qed.
Lemma address_key_encode prefix a : length a = 32%nat -> address_key (prefix ++ a) = Ok a.
Proof. intros Ha. unfold address_key. by rewrite decode_key_tail. Qed.

(** A storage map as its iterator yields it: any order, any hash before the key. *)
Definition stored {K V} `{Countable K} (enc : K -> bytes) (m : gmap K V) (it : storage_iter V) : Prop :=
  exists l (prefix : K -> bytes), l ≡ₚ map_to_list m /\ it = (fun e => Ok (prefix e.1 ++ enc e.1, e.2)) <$> l.

Lemma collect_stored {K V S} ctx (key : bytes -> result anyhow K) (add : K -> V -> S -> result anyhow S)
  (f : K * V -> S -> S) enc (prefix : K -> bytes) l :
  (forall e, e ∈ l -> key (prefix e.1 ++ enc e.1) = Ok e.1 /\ forall s, add e.1 e.2 s = Ok (f e s)) ->
  forall acc, collect ctx key add ((fun e => Ok (prefix e.1 ++ enc e.1, e.2)) <$> l) acc = Ok (foldl (fun s e => f e s) acc l).
Proof.
  induction l as [|e l IH]; intros Hl acc; [done|]. destruct (Hl e ltac:(left)) as [Hk Ha]. csimpl.
  unfold mbind, result_bind. rewrite Hk, Ha. apply IH. intros e' He'. apply Hl. by right.
Qed.

Lemma fold_insert_map {K V} `{Countable K} (l : list (K * V)) : NoDup l.*1 ->
  forall m : gmap K V, foldl (fun s e => <[e.1 := e.2]> s) m l = list_to_map l ∪ m.
Proof.
  induction l as [|[k v] l IH]; intros Hn m; simpl; [by rewrite (left_id_L ∅ (∪))|].
  apply NoDup_cons in Hn as [Hk Hn]. rewrite IH by done. rewrite <- insert_union_r, insert_union_l; [done|].
  by apply not_elem_of_list_to_map.
Qed.
Lemma fold_stored {K V} `{Countable K} (l : list (K * V)) (m : gmap K V) : l ≡ₚ map_to_list m ->
  foldl (fun s e => <[e.1 := e.2]> s) ∅ l = m.
Proof.
  intros Hl. assert (Hn : NoDup l.*1) by (rewrite Hl; apply NoDup_fst_map_to_list).
  rewrite fold_insert_map, (right_id_L ∅ (∪)) by done. rewrite <- (list_to_map_to_list m).
  apply list_to_map_proper; [done|]. by rewrite Hl.
Qed.

(** The pallet's storage, and a block that shows it. *)
Record Pallet : Type := MkPallet {
  pl_tickets : gmap Z TicketInfo;
  pl_lists : gmap Z bytes;
  pl_workers : Z -> gmap bytes unit;
  pl_bench_apps : gmap bytes bytes
}.
Definition ids_ok {V} (m : gmap Z V) : Prop := forall id, is_Some (m !! id) -> 0 <= id < 2 ^ 64.
Definition addresses_ok {V} (m : gmap bytes V) : Prop := forall a, is_Some (m !! a) -> length a = 32%nat.
Record shows (b : Block) (p : Pallet) : Prop := MkShows {
  sh_tickets : exists it, bk_tickets b = Ok it /\ stored (le_encode 8) (pl_tickets p) it;
  sh_lists : exists it, bk_worker_lists b = Ok it /\ stored (le_encode 8) (pl_lists p) it;
  sh_workers : forall i, is_Some (pl_lists p !! i) ->
    exists it, bk_list_workers b i = Ok it /\ stored (fun a => a) (pl_workers p i) it;
  sh_bench_apps : exists it, bk_bench_apps b = Ok it /\ stored (fun a => a) (pl_bench_apps p) it;
  sh_ids : ids_ok (pl_tickets p) /\ ids_ok (pl_lists p) /\ addresses_ok (pl_bench_apps p) /\
    forall i, addresses_ok (pl_workers p i)
}.

Lemma stored_elem {K V} `{Countable K} (l : list (K * V)) (m : gmap K V) e : l ≡ₚ map_to_list m -> e ∈ l -> m !! e.1 = Some e.2.
Proof. intros -> He. destruct e. by apply elem_of_map_to_list in He. Qed.

Lemma collect_ids {V} (msg : string) (m : gmap Z V) it : ids_ok m -> stored (le_encode 8) m it ->
  collect msg u64_key (fun id t acc => Ok (<[id := t]> acc)) it ∅ = Ok m.
Proof.
  intros Hid (l & prefix & Hl & ->).
  rewrite (collect_stored _ _ _ (fun e s => <[e.1 := e.2]> s)); [by rewrite (fold_stored l m)|].
  intros e He. split; [|done]. apply u64_key_encode, Hid. rewrite (stored_elem l m e Hl He). eauto.
Qed.
Lemma collect_addresses {V} (msg : string) (m : gmap bytes V) it : addresses_ok m -> stored (fun a => a) m it ->
  collect msg address_key (fun a i acc => Ok (<[a := i]> acc)) it ∅ = Ok m.
Proof.
  intros Hid (l & prefix & Hl & ->).
  rewrite (collect_stored _ _ _ (fun e s => <[e.1 := e.2]> s) (fun a => a)); [by rewrite (fold_stored l m)|].
  intros e He. split; [|done]. apply address_key_encode, Hid. rewrite (stored_elem l m e Hl He). eauto.
Qed.

(** The workers of a list, as they are read. *)
Definition workers_of (b : Block) (i : Z) : result anyhow (list bytes) :=
  workers ← bk_list_workers b i;
  collect "failed to fetch workers of list" address_key (fun a _ l => Ok (l ++ [a])) workers [].
Lemma fold_snoc {A B} (l : list (A * B)) : forall acc, foldl (fun s e => s ++ [e.1]) acc l = acc ++ l.*1.
Proof.
  induction l as [|e l IH]; intros acc; simpl; [by rewrite app_nil_r|]. by rewrite IH, <- app_assoc.
Qed.
Lemma workers_of_spec b p i : shows b p -> is_Some (pl_lists p !! i) ->
  exists l, workers_of b i = Ok l /\ l ≡ₚ (map_to_list (pl_workers p i)).*1.
Proof.
  intros [_ _ Hw _ (_ & _ & _ & Ha)] Hi. destruct (Hw i Hi) as (it & Hit & l & prefix & Hl & ->).
  exists l.*1. unfold workers_of, mbind, result_bind. rewrite Hit. split; [|by rewrite Hl].
  rewrite (collect_stored _ _ _ (fun e s => s ++ [e.1]) (fun a => a)); [by rewrite fold_snoc|].
  intros e He. split; [|done]. apply address_key_encode, (Ha i). rewrite (stored_elem l _ e Hl He). eauto.
Qed.

Lemma fold_pair {K V B} `{Countable K} (g : K -> B) (l : list (K * V)) : forall (m : gmap K V) (m' : gmap K B),
  foldl (fun s e => (<[e.1 := e.2]> s.1, <[e.1 := g e.1]> s.2)) (m, m') l =
  (foldl (fun s e => <[e.1 := e.2]> s) m l, foldl (fun s e => <[e.1 := e.2]> s) m' ((fun e => (e.1, g e.1)) <$> l)).
Proof. induction l as [|e l IH]; intros m m'; csimpl; [done|]. by rewrite IH. Qed.

Lemma fetch_lists_spec b p : shows b p ->
  exists wl, fetch_lists b = Ok (pl_lists p, wl) /\
    forall i, match pl_lists p !! i with
              | None => wl !! i = None
              | Some _ => exists l, wl !! i = Some l /\ l ≡ₚ (map_to_list (pl_workers p i)).*1
              end.
Proof.
  intros Hs. pose proof Hs as [_ (it & Hit & l & prefix & Hl & ->) _ _ (_ & Hid & _)].
  set (g i := match workers_of b i with Ok l => l | Err _ => [] end).
  exists (list_to_map ((fun e => (e.1, g e.1)) <$> l)). split.
  - unfold fetch_lists, mbind at 1, result_bind at 1. rewrite Hit.
    rewrite (collect_stored _ _ _ (fun e s => (<[e.1 := e.2]> s.1, <[e.1 := g e.1]> s.2)) (le_encode 8)).
    + rewrite fold_pair, (fold_stored l _ Hl), fold_insert_map, (right_id_L ∅ (∪)); [done|].
      rewrite <- list_fmap_compose. rewrite (list_fmap_ext _ fst) by done. rewrite Hl. apply NoDup_fst_map_to_list.
    + intros e He. pose proof (stored_elem l _ e Hl He) as Hlk. split; [apply u64_key_encode, Hid; eauto|].
      intros s. destruct (workers_of_spec b p e.1 Hs ltac:(eauto)) as (w & Hw & _).
      unfold g. rewrite Hw. unfold workers_of, mbind, result_bind in *.
      destruct (bk_list_workers b e.1); [|done]. by rewrite Hw.
  - intros i. destruct (pl_lists p !! i) as [v|] eqn:Hi.
    + destruct (workers_of_spec b p i Hs ltac:(eauto)) as (w & Hw & Hp). exists w. split; [|done].
      apply elem_of_list_to_map_1.
      * rewrite <- list_fmap_compose. rewrite (list_fmap_ext _ fst) by done. rewrite Hl. apply NoDup_fst_map_to_list.
      * apply list_elem_of_fmap. exists (i, v). split; [unfold g; simpl; by rewrite Hw|].
        rewrite Hl. by apply elem_of_map_to_list.
    + apply not_elem_of_list_to_map. rewrite <- list_fmap_compose. intros (e & -> & He)%list_elem_of_fmap.
      simpl in Hi. by rewrite (stored_elem l _ e Hl He) in Hi.
Qed.

(** C32: the state that the bridge works with is the pallet's: a block whose storage
    iterators show the pallet, in any order and with any hashes before the keys,
    is read as exactly its tickets, worker lists with their members, and benchmark
    apps. *)
Theorem fetch_state_faithful b p bench challenge : shows b p ->
  bk_bench_app b = Ok bench -> bk_challenge b = Ok challenge ->
  exists st, monitor_block (Some (Some (Ok b))) true true = Ok st /\
    tickets st = pl_tickets p /\ worker_lists st = pl_lists p /\ valid_bench_apps st = pl_bench_apps p /\
    bench_app_address st = bench /\ heartbeat_challenge st = challenge /\
    forall i, match pl_lists p !! i with
              | None => worker_list_workers st !! i = None
              | Some _ => exists l, worker_list_workers st !! i = Some l /\ l ≡ₚ (map_to_list (pl_workers p i)).*1
              end.
Proof.
  intros Hs Hb Hc. destruct (fetch_lists_spec b p Hs) as (wl & Hwl & Hspec).
  destruct Hs as [(it & Hit & Ht) _ _ (it' & Hit' & Ha) (Hid & _ & Had & _)].
  exists (MkChainState (pl_tickets p) (pl_lists p) wl bench (pl_bench_apps p) challenge).
  split; [|by split_and!].
  unfold monitor_block, fetch_state, mbind, result_bind. simpl. rewrite Hit, (collect_ids _ _ _ Hid Ht), Hwl, Hb, Hit'.
  by rewrite (collect_addresses _ _ _ Had Ha), Hc.
Qed.

Definition demo_ticket : TicketInfo := MkTicketInfo [7] [8] (WorkerList 1).
Definition demo_address : bytes := replicate 32 5.
Definition demo_pallet : Pallet := MkPallet {[ 258 := demo_ticket ]} {[ 1 := [9] ]}
  (fun _ => {[ demo_address := tt ]}) ∅.
Definition demo_block : Block := MkBlock (Ok [Ok ([4; 4] ++ [2; 1; 0; 0; 0; 0; 0; 0], demo_ticket)])
  (Ok [Ok ([3] ++ [1; 0; 0; 0; 0; 0; 0; 0], [9])]) (fun _ => Ok [Ok ([6] ++ demo_address, tt)])
  (Ok None) (Ok []) (Ok None).
Lemma fetch_state_faithful_witness :
  exists st, monitor_block (Some (Some (Ok demo_block))) true true = Ok st /\ tickets st = {[ 258 := demo_ticket ]}.
Proof.
  assert (Hs : shows demo_block demo_pallet).
  { split.
    - eexists. split; [reflexivity|]. exists [(258, demo_ticket)], (fun _ => [4; 4]). split; [vm_compute; reflexivity|reflexivity].
    - eexists. split; [reflexivity|]. exists [(1, [9])], (fun _ => [3]). split; [vm_compute; reflexivity|reflexivity].
    - intros i _. eexists. split; [reflexivity|]. exists [(demo_address, tt)], (fun _ => [6]).
      split; [vm_compute; reflexivity|reflexivity].
    - eexists. split; [reflexivity|]. exists [], (fun _ => []). split; [vm_compute; reflexivity|reflexivity].
    - split_and!; [intros i [x Hx]|intros i [x Hx]|intros a [x Hx]|intros i a [x Hx]]; simpl in Hx;
        [apply lookup_singleton_Some in Hx as [<- _]; lia|apply lookup_singleton_Some in Hx as [<- _]; lia|done|].
      apply lookup_singleton_Some in Hx as [<- _]. reflexivity. }
  destruct (fetch_state_faithful demo_block demo_pallet None None Hs eq_refl eq_refl) as (st & H1 & H2 & _).
  exists st. split; [exact H1|exact H2].
Defined.

(** ** Nonces *)

(** The nonces that were signed, in order; only signing adds one. *)
Class NodeLog (Call C : Type) `{Node Call C} := {
  signed_nonces : C -> list Z;
  latest_log c : signed_nonces (node_latest_block c).2 = signed_nonces c;
  nonce_log c : signed_nonces (node_account_nonce c).2 = signed_nonces c;
  validate_log t c : signed_nonces (node_validate t c).2 = signed_nonces c;
  finalized_log c : signed_nonces (node_finalized_ref c).2 = signed_nonces c;
  header_log r c : signed_nonces (node_header r c).2 = signed_nonces c;
  submit_log s c : signed_nonces (node_submit s c).2 = signed_nonces c;
  wait_log s c : signed_nonces (node_wait_finalized s c).2 = signed_nonces c;
  sign_log t p n c : signed_nonces (node_sign t p n c).2 =
    signed_nonces c ++ (if is_ok (node_sign t p n c).1 then [n] else [])
}.

Section Nonces.
Context {Call C : Type} `{Node Call C} `{!NodeLog Call C}.
Abbreviation ClientM := (M (C * NonceJar) anyhow).

(** The transactions of one iteration of the bridge's loop, whose errors are only
    logged. *)
Fixpoint submit_all (txs : list (string * Call * bool)) (s : C * NonceJar) : list (result anyhow unit) * (C * NonceJar) :=
  match txs with
  | [] => ([], s)
  | (label, tx, wait) :: txs =>
    let '(r, s) := submit_tx label tx wait s in
    let '(rs, s) := submit_all txs s in
    (r :: rs, s)
  end.

Lemma client_context_run {A} msg (m : ClientM A) s r s' : client_context msg m s = (r, s') ->
  exists r', m s = (r', s') /\ is_ok r' = is_ok r.
Proof. unfold client_context. destruct (m s) as [r1 s1]. intros [<- <-]%pair_equal_spec. exists r1. by destruct r1. Qed.
Lemma on_node_run {A} (m : M C anyhow A) s r s' : on_node m s = (r, s') -> exists c', m s.1 = (r, c') /\ s' = (c', s.2).
Proof. unfold on_node, zoom. destruct (m s.1) as [r1 c1]. intros [<- <-]%pair_equal_spec. eauto. Qed.

Lemma mk_params_log longevity tip c : signed_nonces (mk_params longevity tip c).2 = signed_nonces c.
Proof.
  unfold mk_params. destruct (0 <? longevity); [|done]. unfold mbind, M_bind. pose proof (latest_log c) as Hl.
  by destruct (node_latest_block c) as [[[]|] ?].
Qed.
Lemma create_signed_log tx params n c r c' : create_signed tx params n c = (r, c') ->
  signed_nonces c' = signed_nonces c ++ (if is_ok r then [n] else []).
Proof.
  unfold create_signed. intros [([] & c1 & H1 & H2)|(e & H1 & ->)]%bind_inv;
    pose proof (validate_log tx c) as Hl; rewrite H1 in Hl; simpl in Hl; [|by rewrite app_nil_r].
  apply bind_inv in H2 as [(rf & c2 & H2 & H3)|(e & H2 & ->)];
    pose proof (finalized_log c1) as Hl2; rewrite H2, Hl in Hl2; simpl in Hl2; [|by rewrite app_nil_r].
  apply bind_inv in H3 as [(h & c3 & H3 & H4)|(e & H3 & ->)];
    pose proof (header_log rf c2) as Hl3; rewrite H3, Hl2 in Hl3; simpl in Hl3; [|by rewrite app_nil_r].
  apply bind_inv in H4 as [(u & c4 & [_ <-]%pair_equal_spec & H5)|(e & [_ <-]%pair_equal_spec & ->)];
    [|by rewrite app_nil_r].
  pose proof (sign_log tx params n c3) as Hl4. rewrite H5, Hl3 in Hl4. done.
Qed.

(** What one submission does to the jar and the log: it fails before it takes a
    nonce; it takes one and fails to sign; or it signs with it. *)
Definition nonce_effect (n : Z) (r : result anyhow unit) (c : C) (jar : NonceJar) (s' : C * NonceJar) : Prop :=
  (is_ok r = false /\ s'.2 = jar /\ signed_nonces s'.1 = signed_nonces c) \/
  (is_ok r = false /\ s'.2 = MkJar (Some (wrap U64 (n + 1))) /\ signed_nonces s'.1 = signed_nonces c) \/
  (s'.2 = MkJar (Some (wrap U64 (n + 1))) /\ signed_nonces s'.1 = signed_nonces c ++ [n]).

(** The nonce that a jar gives: its own, or what the node answers. *)
Definition gives (jar : NonceJar) (n : Z) : Prop :=
  match next_nonce jar with Some m => n = m | None => exists c0 c1, node_account_nonce c0 = (Ok n, c1) end.

Lemma jar_next_run s r s' : jar_next s = (r, s') -> signed_nonces s'.1 = signed_nonces s.1 /\
  match r with
  | Ok n => gives s.2 n /\ s'.2 = MkJar (Some (wrap U64 (n + 1)))
  | Err _ => s'.2 = s.2
  end.
Proof.
  unfold jar_next, gives, on_node, zoom. m_unfold. destruct s as [c [[m|]]]; simpl.
  - by intros [<- <-]%pair_equal_spec.
  - pose proof (nonce_log c) as Hl. destruct (node_account_nonce c) as [[n|e] c1] eqn:Hn;
      intros [<- <-]%pair_equal_spec; simpl in *; eauto.
Qed.

Lemma submit_tx_effect label tx wait c jar r s' : submit_tx label tx wait (c, jar) = (r, s') ->
  (is_ok r = false /\ s'.2 = jar /\ signed_nonces s'.1 = signed_nonces c) \/
  exists n, gives jar n /\ nonce_effect n r c jar s'.
Proof.
  unfold submit_tx, nonce_effect. intros (r1 & H1 & <-)%client_context_run. unfold submit_tx_inner in H1.
  apply bind_inv in H1 as [(params & s1 & (r2 & (c1 & Hc1 & ->)%on_node_run & _)%client_context_run & H2)
    |(e & (r2 & (c1 & Hc1 & ->)%on_node_run & _)%client_context_run & ->)];
    pose proof (mk_params_log 8 0 c) as Hl1; simpl in Hc1; rewrite Hc1 in Hl1; simpl in Hl1; [|by left].
  apply bind_inv in H2 as [(n & s2 & Hj & H3)|(e & Hj & ->)]; apply jar_next_run in Hj as [Hl2 Hj]; simpl in Hl2, Hj.
  2: { left. split_and!; [done|done|congruence]. }
  right. destruct Hj as [Hg Hj]. exists n. split; [done|].
  apply bind_inv in H3 as [(signed & s3 & (r3 & (c3 & Hc3 & ->)%on_node_run & Hok)%client_context_run & H4)
    |(e & (r3 & (c3 & Hc3 & ->)%on_node_run & Hok)%client_context_run & ->)];
    apply create_signed_log in Hc3; rewrite Hok, Hl2, Hl1 in Hc3; simpl in Hc3.
  2: { right. left. split_and!; [done|done|]. simpl. by rewrite Hc3, app_nil_r. }
  right. right. apply bind_inv in H4 as [([] & s4 & (r4 & (c4 & Hc4 & ->)%on_node_run & _)%client_context_run & H5)
    |(e & (r4 & (c4 & Hc4 & ->)%on_node_run & _)%client_context_run & ->)];
    pose proof (submit_log signed c3) as Hl4; simpl in Hc4; rewrite Hc4, Hc3 in Hl4; simpl in Hl4; [|by split].
  destruct wait; [|apply pair_equal_spec in H5 as [_ <-]; by split].
  apply client_context_run in H5 as (r5 & (c5 & Hc5 & ->)%on_node_run & _).
  pose proof (wait_log signed c4) as Hl5. simpl in Hc5. rewrite Hc5, Hl4 in Hl5. by split.
Qed.

Lemma seqZ_grow n k : 0 <= k -> seqZ n k `sublist_of` seqZ n (1 + k).
Proof.
  intros Hk. rewrite (Z.add_comm 1 k), seqZ_app by lia. by apply sublist_inserts_r.
Qed.
Lemma seqZ_first n k : 0 <= k -> seqZ n (1 + k) = n :: seqZ (n + 1) k.
Proof. intros Hk. rewrite seqZ_cons by lia. f_equal. f_equal; lia. Qed.

Lemma submit_tx_cases label tx wait c jar r c1 j1 : submit_tx label tx wait (c, jar) = (r, (c1, j1)) ->
  (is_ok r = false /\ j1 = jar /\ signed_nonces c1 = signed_nonces c) \/
  exists n l1, gives jar n /\ (l1 = [n] \/ l1 = [] /\ is_ok r = false) /\
    j1 = MkJar (Some (wrap U64 (n + 1))) /\ signed_nonces c1 = signed_nonces c ++ l1.
Proof.
  intros [?|(n & Hg & [?|[(? & ? & Hl)|[? ?]]])]%submit_tx_effect; [by left|by left|right; exists n, []|right; exists n, [n]];
    rewrite ?app_nil_r; eauto 10.
Qed.
Lemma wrap_next n k : 0 <= n -> n + k < 2 ^ 64 -> 1 <= k -> wrap U64 (n + 1) = n + 1.
Proof.
  intros. apply wrap_id, in_range_spec. change (int_min U64) with 0. change (int_max U64) with (2 ^ 64 - 1). lia.
Qed.

(** What the nonces signed from state [c] to [c'] are, for results [rs] and nonces
    from [n] on. *)
Definition signs (n k : Z) (rs : list (result anyhow unit)) (c c' : C) (l : list Z) : Prop :=
  signed_nonces c' = signed_nonces c ++ l /\ l `sublist_of` seqZ n k /\
  (Forall (fun r => is_ok r = true) rs -> l = seqZ n k).
Lemma signs_skip n k r rs c c1 c' l : 0 <= k -> is_ok r = false -> signed_nonces c1 = signed_nonces c ->
  signs n k rs c1 c' l -> signs n (1 + k) (r :: rs) c c' l.
Proof.
  intros Hk Hr Hl (Hl2 & Hsub & _). split; [by rewrite Hl2, Hl|]. split; [|rewrite Forall_cons, Hr; by intros [? _]].
  etransitivity; [exact Hsub|by apply seqZ_grow].
Qed.
Lemma signs_next n k r rs c c1 c' l1 l : 0 <= k -> (l1 = [n] \/ l1 = [] /\ is_ok r = false) ->
  signed_nonces c1 = signed_nonces c ++ l1 -> signs (n + 1) k rs c1 c' l -> signs n (1 + k) (r :: rs) c c' (l1 ++ l).
Proof.
  intros Hk Hl1 Hl (Hl2 & Hsub & Hall). unfold signs. rewrite seqZ_first by done. rewrite Hl2, Hl, <- app_assoc.
  split; [done|]. rewrite Forall_cons. destruct Hl1 as [-> |[-> Hr]]; simpl.
  - split; [by constructor|]. intros [_ Hrs]. f_equal. by apply Hall.
  - split; [by constructor|]. rewrite Hr. by intros [? _].
Qed.

Lemma submit_all_from txs : forall n c rs s', 0 <= n -> n + zlen txs < 2 ^ 64 ->
  submit_all txs (c, MkJar (Some n)) = (rs, s') -> exists l, signs n (zlen txs) rs c s'.1 l.
Proof.
  induction txs as [|[[label tx] wait] txs IH]; intros n c rs s' Hn Hmax; cbn [submit_all].
  - intros [<- <-]%pair_equal_spec. exists []. unfold signs. rewrite app_nil_r. split_and!; [done|constructor|done].
  - rewrite zlen_cons in *. pose proof (zlen_nonneg txs) as Hk.
    destruct (submit_tx label tx wait (c, MkJar (Some n))) as [r [c1 j1]] eqn:Hs.
    destruct (submit_all txs (c1, j1)) as [rs1 s2] eqn:Ha. intros [<- <-]%pair_equal_spec.
    apply submit_tx_cases in Hs as [(Hr & -> & Hl)|(m & l1 & -> & Hl1 & -> & Hl)].
    + destruct (IH n c1 rs1 s2 Hn ltac:(lia) Ha) as [l Hsg]. eauto using signs_skip.
    + rewrite (wrap_next n (1 + zlen txs)) in Ha by lia.
      destruct (IH (n + 1) c1 rs1 s2 ltac:(lia) ltac:(lia) Ha) as [l Hsg]. eauto using signs_next.
Qed.
Lemma submit_all_fresh txs : forall c rs s',
  (forall c0 c1 n, node_account_nonce c0 = (Ok n, c1) -> 0 <= n /\ n + zlen txs < 2 ^ 64) ->
  submit_all txs (c, MkJar None) = (rs, s') ->
  exists n l, signs n (zlen txs) rs c s'.1 l /\ (l = [] \/ exists c0 c1, node_account_nonce c0 = (Ok n, c1)).
Proof.
  induction txs as [|[[label tx] wait] txs IH]; intros c rs s' Hnode; cbn [submit_all].
  - intros [<- <-]%pair_equal_spec. exists 0, []. unfold signs. rewrite app_nil_r. split; [split_and!; [done|constructor|done]|by left].
  - rewrite zlen_cons in *. pose proof (zlen_nonneg txs) as Hk.
    destruct (submit_tx label tx wait (c, MkJar None)) as [r [c1 j1]] eqn:Hs.
    destruct (submit_all txs (c1, j1)) as [rs1 s2] eqn:Ha. intros [<- <-]%pair_equal_spec.
    apply submit_tx_cases in Hs as [(Hr & -> & Hl)|(n & l1 & (c0 & c0' & Hn) & Hl1 & -> & Hl)].
    + destruct (IH c1 rs1 s2) as (n & l & Hsg & Hn); [intros c0 c0' n Hn; specialize (Hnode _ _ _ Hn); lia|done|].
      exists n, l. split; [by eapply signs_skip|done].
    + destruct (Hnode _ _ _ Hn) as [Hn0 Hmax]. rewrite (wrap_next n (1 + zlen txs)) in Ha by lia.
      destruct (submit_all_from txs (n + 1) c1 rs1 s2 ltac:(lia) ltac:(lia) Ha) as [l Hsg].
      exists n, (l1 ++ l). split; [by eapply signs_next|right; eauto].
Qed.

(** Nonces within one iteration of the bridge, in which the jar starts empty:
    the node is asked once, transactions are signed with increasing nonces from
    its answer on, and without gaps as long as every submission succeeds.  But a
    transaction that takes a nonce and then cannot be signed leaves a gap: the
    next one gets the following nonce. *)
Theorem nonces_in_order :
  (forall txs c rs s',
     (forall c0 c1 n, node_account_nonce c0 = (Ok n, c1) -> 0 <= n /\ n + zlen txs < 2 ^ 64) ->
     submit_all txs (c, MkJar None) = (rs, s') ->
     exists n l, signs n (zlen txs) rs c s'.1 l /\ (l = [] \/ exists c0 c1, node_account_nonce c0 = (Ok n, c1))) /\
  (forall label tx wait n c params c1 e c2, mk_params 8 0 c = (Ok params, c1) ->
     create_signed tx params n c1 = (Err e, c2) ->
     (submit_tx label tx wait (c, MkJar (Some n))).2 = (c2, MkJar (Some (wrap U64 (n + 1))))).
Proof.
  split; [intros txs c rs s'; apply submit_all_fresh|].
  intros label tx wait n c params c1 e c2 Hp Hc.
  unfold submit_tx, submit_tx_inner, client_context, on_node, jar_next, zoom. m_unfold. simpl.
  rewrite Hp. simpl. by rewrite Hc.
Qed.
End Nonces.

(** A node that logs the nonces it signs, refuses odd calls, and knows the account
    at nonce 7. *)
Module ToyNode.
#[export] Instance node : Node Z (list Z) := {
  SignedTx := Z;
  node_latest_block := mret ([], 1);
  node_account_nonce := mret 7;
  node_validate call := bail_if (Z.odd call) (Msg "invalid call");
  node_finalized_ref := mret [];
  node_header _ := mret (Some (1, []));
  node_sign _ _ n := fun c => (Ok n, c ++ [n]);
  node_submit _ := mret tt;
  node_wait_finalized _ := mret tt
}.
#[export] Instance log : NodeLog Z (list Z).
Proof. refine {| signed_nonces := fun c => c |}; intros; try done. simpl. by destruct (Z.odd _). Defined.
Definition calls : list (string * Z * bool) := [("a", 2, false); ("b", 3, false); ("c", 4, true)].
End ToyNode.
Import ToyNode.
(** Three calls, the second of which cannot be signed: nonces 7 and 9 are used. *)
Lemma nonces_in_order_witness :
  let r := submit_all ToyNode.calls ([], MkJar None) in
  (exists n l, signs n (zlen ToyNode.calls) r.1 [] r.2.1 l /\
     (l = [] \/ exists c0 c1 : list Z, node_account_nonce c0 = (Ok n, c1))) /\
  r.2.1 = [7; 9].
Proof.
  intros r. split; [|by vm_compute].
  apply (proj1 (nonces_in_order (Call := Z) (C := list Z)) ToyNode.calls [] r.1 r.2); [|apply surjective_pairing].
  intros c0 c1 n [[= <-] _]%pair_equal_spec. by vm_compute.
Defined.
