(* ===== verification/Bridge.v ===== *)
(** * The chain bridge (wapod-pherry/src/bridge.rs, register.rs)

    The bridge follows the chain's tickets, fetches the manifests and blobs they
    name, selects the best paid apps and keeps the worker deployed with them; it
    reports metrics and benchmark scores.  The worker is an interface, whose laws
    the RPC service of this development satisfies; the downloader is the component
    of that name, whose tasks may step between two methods. *)
From S2P Require Import Prelude Ordered Ocall OcallDef Meter Worker Types Rpc Downloader ChainClient.

(** ** Data *)
Record BridgeConfig : Type := MkConfig {
  max_apps : nat;
  metrics_interval : Z;
  cfg_recipient : bytes;
  operator : bytes;
  pccs_url : bytes;
  gas_until_report : Z;
  cfg_reuse_instances : bool
}.

(** A resolved ticket. *)
Record Ticket : Type := MkTicket { tk_info : TicketInfo; tk_manifest : AppManifest }.

(** An app of the plan; [AppInfo] in the source. *)
Record PlanApp : Type := MkPlanApp {
  pa_manifest : AppManifest;
  associated_tickets : gset Z;
  pa_balance : Z
}.
Record PlanningState : Type := MkPlanning {
  ps_tickets : gmap Z Ticket;
  ticket_balances : gmap Z Z;
  ps_bench_app : option (bytes * Z);
  all_apps : gmap bytes PlanApp;
  selected_apps : gmap bytes PlanApp;
  download_failures : gmap bytes string
}.
Definition PlanningState_default : PlanningState := MkPlanning ∅ ∅ None ∅ ∅ ∅.

Record BridgeState : Type := MkBridge {
  worker_pubkey : bytes;
  planning_state : PlanningState;
  chain_state : ChainState;
  config : BridgeConfig;
  last_metrics_report : Z;
  init_score_reported : bool
}.

(** The transactions the bridge submits. *)
Inductive Tx : Type :=
| RegisterWorker (runtime_info attestation : bytes)
| WorkerSessionUpdate (update : SessionUpdate) (signature public_key : bytes)
| TicketSettle (metrics : AppsMetrics) (signature public_key : bytes) (claim_map : list (bytes * list Z))
| BenchmarkScoreSubmit (is_init : bool) (signed_score : bytes).

(** ** The services the bridge calls *)

(** [WorkerInfo], the fields the bridge reads. *)
Record WorkerInfo : Type := MkWorkerInfo { wi_pubkey : bytes; wi_max_instances : Z; wi_session : bytes }.

(** The worker, through [OperationClient]: every call can fail on the way. *)
Class WorkerApi (W : Type) := {
  wk_info : M W anyhow WorkerInfo;
  wk_app_list : Z -> Z -> M W anyhow (list (bytes * Z));
  wk_blob_exists : bytes -> M W anyhow bool;
  wk_blob_put : bytes -> bytes -> M W anyhow unit;
  wk_app_deploy : AppManifest -> bool -> M W anyhow bytes;
  wk_app_remove : bytes -> M W anyhow unit;
  wk_app_remove_all : M W anyhow unit;
  wk_worker_init : bytes -> bytes -> M W anyhow (SessionUpdate * bytes);
  wk_set_bench_app : option bytes -> Z -> M W anyhow unit;
  wk_app_metrics : M W anyhow (AppsMetrics * bytes);
  wk_app_query : bytes -> string -> M W anyhow bytes;
  wk_sign_register_info : bytes -> option bytes -> Z -> M W anyhow (bytes * option bytes)
}.

(** The chain, beside what the transactions need: storage entries and calls of the
    runtime.  A session is its id and last nonce. *)
Class ChainStore (C : Type) := {
  ch_registered : bytes -> M C anyhow bool;
  ch_session : bytes -> M C anyhow (option (bytes * bytes));
  ch_computing : bytes -> M C anyhow bool;
  ch_ticket_balance : Z -> M C anyhow Z;
  ch_para_id : M C anyhow Z;
  ch_genesis_hash : bytes
}.

(** ** A loop over a list, and a call whose error is looked at *)
Section Loops.
Context {S E : Type}.
Fixpoint for_each {A} (f : A -> M S E unit) (l : list A) : M S E unit :=
  match l with
  | [] => mret tt
  | x :: l => f x;; for_each f l
  end.
Fixpoint fold_m {A B} (f : B -> A -> M S E B) (l : list A) (acc : B) : M S E B :=
  match l with
  | [] => mret acc
  | x :: l => acc ← f acc x; fold_m f l acc
  end.
Definition attempt {A} (m : M S E A) : M S E (result E A) := fun s => let '(r, s) := m s in (Ok r, s).
End Loops.
Definition in_context {S A} (msg : string) (m : M S anyhow A) : M S anyhow A := fun s =>
  let '(r, s) := m s in (context msg r, s).

(** [Decode::decode] of 32 bytes, which ignores what follows them. *)
Definition decode_bytes32 (b : bytes) : result anyhow bytes :=
  if zlen b <? 32 then Err (Msg "not enough data") else Ok (firstn 32 b).

(** Pairs of strings, in the order of the tuple. *)
Definition pair_leb (x y : bytes * bytes) : bool :=
  match str_cmp x.1 y.1 with Lt => true | Gt => false | Eq => str_leb x.2 y.2 end.

(** [U256::from([u8; 32])] is big endian, limbs are little endian. *)
Definition u256_be (b : bytes) : Z := foldl (fun n x => n * 256 + x) 0 b.
Definition u256_limbs (l : list Z) : Z := foldr (fun x n => x + 2 ^ 64 * n) 0 l.
Definition sum_balances (l : list Z) : Z := foldl (fun n b => wrap U128 (n + b)) 0 l.

Section Bridge.
Context {W C : Type} `{WorkerApi W} `{ChainStore C} `{!Node Tx C}.
(** Third-party code: the digest, the SCALE encoding of a manifest, JSON, the cid
    parser (giving the canonical text), account ids, attestation collaterals, and
    reads of the disk. *)
Context (blake2_256 : bytes -> bytes) (encode_manifest : AppManifest -> bytes)
  (json_manifest : bytes -> result anyhow AppManifest) (json_score_gas : bytes -> result anyhow Z)
  (parse_cid : bytes -> result anyhow bytes) (account_from_str : bytes -> result anyhow bytes)
  (decode_attestation : option bytes -> result anyhow (option bytes))
  (get_collateral : bytes -> bytes -> result anyhow bytes)
  (encode_report : option (bytes * option bytes) -> bytes)
  (decode_score : bytes -> result anyhow bytes)
  (disk : bytes -> result anyhow bytes).

(** The bridge with its services. *)
Record World : Type := MkWorld {
  bridge_state : BridgeState;
  wk : W;
  node : C;
  jar : NonceJar;
  downloader : Downloader
}.
Abbreviation BridgeM := (M World anyhow).

Definition set_bridge (w : World) (b : BridgeState) : World := MkWorld b (wk w) (node w) (jar w) (downloader w).
Definition set_wk (w : World) (k : W) : World := MkWorld (bridge_state w) k (node w) (jar w) (downloader w).
Definition set_node (w : World) (c : C) : World := MkWorld (bridge_state w) (wk w) c (jar w) (downloader w).
Definition set_client (w : World) (c : C * NonceJar) : World :=
  MkWorld (bridge_state w) (wk w) c.1 c.2 (downloader w).
Definition set_downloader (w : World) (d : Downloader) : World :=
  MkWorld (bridge_state w) (wk w) (node w) (jar w) d.
Definition set_planning (w : World) (p : PlanningState) : World :=
  let b := bridge_state w in
  set_bridge w (MkBridge (worker_pubkey b) p (chain_state b) (config b) (last_metrics_report b)
                  (init_score_reported b)).

Abbreviation plan w := (planning_state (bridge_state w)).
Abbreviation chain w := (chain_state (bridge_state w)).
Abbreviation cfg w := (config (bridge_state w)).

Definition on_worker {A} (m : M W anyhow A) : BridgeM A := zoom wk set_wk m.
Definition on_chain {A} (m : M C anyhow A) : BridgeM A := zoom node set_node m.
Definition submit (label : string) (tx : Tx) (wait_finalized : bool) : BridgeM unit :=
  zoom (fun w => (node w, jar w)) set_client (submit_tx label tx wait_finalized).
Definition on_downloader {A} (m : M Downloader anyhow A) : BridgeM A := zoom downloader set_downloader m.
Definition dl_read (cid : bytes) : BridgeM (option bytes) := fun w =>
  (read_file disk cid (downloader w), w).

Definition manifest_address (m : AppManifest) : bytes := blake2_256 (encode_manifest m).

(** ** Registration and sessions *)

(** [register_with_client]. *)
Definition register_with_client (operator pccs_url : bytes) : BridgeM unit :=
  para_id ← on_chain ch_para_id;
  operator ← (if bool_decide (operator = []) then mret None
              else Some <$> lift (context "invalid operator" (account_from_str operator)));
  '(runtime_info, report) ← on_worker (wk_sign_register_info ch_genesis_hash operator para_id);
  quote ← lift (decode_attestation report);
  report ← match quote with
           | Some quote =>
             collateral ← lift (get_collateral pccs_url quote);
             mret (encode_report (Some (quote, Some collateral)))
           | None => mret (encode_report None)
           end;
  submit "register worker" (RegisterWorker runtime_info report) true;;
  on_worker wk_info;;
  mret tt.

Definition maybe_register_worker : BridgeM unit :=
  info ← on_worker wk_info;
  pubkey ← lift (decode_bytes32 (wi_pubkey info));
  registered ← in_context "failed to get worker info" (on_chain (ch_registered pubkey));
  if (registered : bool) then mret tt else
  c ← gets (fun w => cfg w);
  register_with_client (operator c) (pccs_url c).

Definition maybe_update_session : BridgeM unit :=
  info ← on_worker wk_info;
  pubkey ← lift (decode_bytes32 (wi_pubkey info));
  session ← in_context "failed to get worker session" (on_chain (ch_session pubkey));
  if bool_decide (Some (wi_session info) = (fst <$> session)) then mret tt else
  let pnonce := match session with Some (_, last_nonce) => last_nonce | None => [] end in
  in_context "failed to remove all apps" (on_worker wk_app_remove_all);;
  c ← gets (fun w => cfg w);
  '(update, signature) ← on_worker (wk_worker_init pnonce (cfg_recipient c));
  in_context "failed to update session"
    (submit "update session" (WorkerSessionUpdate update signature pubkey) true).

(** ** Tickets *)
Definition set_chain_state (cs : ChainState) (w : World) : World :=
  let b := bridge_state w in
  set_bridge w (MkBridge (worker_pubkey b) PlanningState_default cs (config b) (last_metrics_report b)
                  (init_score_reported b)).

(** The loop over the required blobs in [try_resolve]. *)
Fixpoint blobs_ready (blobs : list (bytes * bytes)) : BridgeM bool :=
  match blobs with
  | [] => mret true
  | (_, cid_str) :: blobs =>
    cid ← lift (context "invalid blob cid" (parse_cid cid_str));
    failure ← gets (fun w => download_failures (plan w) !! cid_str);
    bail_if (match failure with Some _ => true | None => false end) (Msg "failed to download blob");;
    downloaded ← on_downloader (download cid false);
    if (downloaded : bool) then blobs_ready blobs else mret false
  end.

Definition try_resolve (info : TicketInfo) : BridgeM (option Ticket) :=
  cid ← lift (context "invalid manifest cid" (parse_cid (manifest_cid info)));
  data ← dl_read cid;
  match data with
  | None =>
    failure ← gets (fun w => download_failures (plan w) !! manifest_cid info);
    bail_if (match failure with Some _ => true | None => false end) (Msg "failed to download manifest");;
    on_downloader (download cid false);;
    mret None
  | Some data =>
    manifest ← lift (context "invalid manifest" (json_manifest data));
    ready ← blobs_ready (required_blobs manifest);
    mret (if (ready : bool) then Some (MkTicket info manifest) else None)
  end.

Definition is_ticket_for_worker (pubkey : bytes) (cs : ChainState) (info : TicketInfo) : bool :=
  if bool_decide (Some (ti_address info) = bench_app_address cs) then true else
  match ti_workers info with
  | WorkerList list_id =>
    match worker_list_workers cs !! list_id with
    | Some list => bool_decide (pubkey ∈ list)
    | None => false
    end
  | OtherWorkers => false
  end.

Definition insert_ticket (id : Z) (t : Ticket) (w : World) : World :=
  let p := plan w in
  set_planning w (MkPlanning (<[id := t]> (ps_tickets p)) (ticket_balances p) (ps_bench_app p)
                    (all_apps p) (selected_apps p) (download_failures p)).

(** The body of [try_resolve_deps]'s loop, and the loop. *)
Definition resolve_one (e : Z * TicketInfo) : BridgeM unit :=
  let '(id, info) := e in
  b ← gets bridge_state;
  if bool_decide (is_Some (ps_tickets (planning_state b) !! id)) then mret tt else
  if negb (is_ticket_for_worker (worker_pubkey b) (chain_state b) info) then mret tt else
  resolved ← attempt (try_resolve info);
  match resolved with
  | Ok (Some ticket) => modify (insert_ticket id ticket)
  | _ => mret tt
  end.
Definition try_resolve_deps : BridgeM unit :=
  ts ← gets (fun w => tickets (chain w));
  for_each resolve_one (id_iter ts).

(** ** The plan *)

(** The balance of a ticket, from the cache or the chain. *)
Definition ticket_balance (id : Z) : BridgeM Z :=
  cached ← gets (fun w => ticket_balances (plan w) !! id);
  match cached with
  | Some b => mret b
  | None =>
    balance ← in_context "failed to get ticket balance" (on_chain (ch_ticket_balance id));
    modify (fun w => let p := plan w in
      set_planning w (MkPlanning (ps_tickets p) (<[id := balance]> (ticket_balances p)) (ps_bench_app p)
                        (all_apps p) (selected_apps p) (download_failures p)));;
    mret balance
  end.

(** [entry(..).or_insert(..)], and the ticket added to it; a sum that overflows
    wraps around, as in a release build. *)
Definition add_ticket (acc : gmap bytes PlanApp) (address : bytes) (id : Z) (manifest : AppManifest)
  (balance : Z) : gmap bytes PlanApp :=
  let app := default (MkPlanApp manifest ∅ 0) (acc !! address) in
  <[address := MkPlanApp (pa_manifest app) ({[id]} ∪ associated_tickets app)
                 (wrap U128 (pa_balance app + balance))]> acc.

Definition plan_ticket (acc : gmap bytes PlanApp) (e : Z * Ticket) : BridgeM (gmap bytes PlanApp) :=
  let '(id, ticket) := e in
  let address := manifest_address (tk_manifest ticket) in
  if negb (bool_decide (ti_address (tk_info ticket) = address)) then mret acc else
  balance ← ticket_balance id;
  mret (add_ticket acc address id (tk_manifest ticket) balance).

(** The apps by balance, highest first, and the first [n] of them. *)
Definition sorted_apps (apps : gmap bytes PlanApp) : list (bytes * PlanApp) :=
  sort_by (fun a b => pa_balance b.2 <=? pa_balance a.2) (address_iter apps).
Definition select_apps (n : nat) (apps : gmap bytes PlanApp) : gmap bytes PlanApp :=
  list_to_map (firstn n (sorted_apps apps)).

(** [update_plan] up to the call of [apply_plan]. *)
Definition make_plan : BridgeM unit :=
  try_resolve_deps;;
  info ← on_worker wk_info;
  ts ← gets (fun w => ps_tickets (plan w));
  apps ← fold_m plan_ticket (id_iter ts) ∅;
  modify (fun w => let p := plan w in
    set_planning w (MkPlanning (ps_tickets p) (ticket_balances p)
      ((fun a => (a, wi_max_instances info)) <$> bench_app_address (chain w))
      apps (select_apps (max_apps (cfg w)) apps) (download_failures p))).

(** ** Applying the plan *)
Definition add_running (m : gmap bytes Z) (e : bytes * Z) : BridgeM (gmap bytes Z) :=
  address ← lift (context "invalid app address" (decode_bytes32 e.1));
  mret (<[address := e.2]> m).
Definition get_running_apps : BridgeM (gmap bytes Z) :=
  apps ← on_worker (wk_app_list 0 (int_max U32));
  fold_m add_running apps ∅.

(** The blobs an app needs: those of its tickets' manifests, as an ordered set.
    [None] is the panic of indexing with an unknown ticket. *)
Definition app_deps (p : PlanningState) (app : PlanApp) : option (list (bytes * bytes)) :=
  ts ← mapM (fun id => ps_tickets p !! id) (elements (associated_tickets app));
  Some (sort_by pair_leb (remove_dups (concat ((fun t => required_blobs (tk_manifest t)) <$> ts)))).

(** Uploading them; [false] continues with the next app. *)
Fixpoint upload_deps (deps : list (bytes * bytes)) : BridgeM bool :=
  match deps with
  | [] => mret true
  | (hash, cid_str) :: deps =>
    uploaded ← on_worker (wk_blob_exists hash);
    if (uploaded : bool) then upload_deps deps else
    cid ← lift (context "invalid blob cid" (parse_cid cid_str));
    data ← dl_read cid;
    blob ← lift (ok_or data (Msg "blob not found"));
    r ← attempt (on_worker (wk_blob_put hash blob));
    match r with
    | Err _ => mret false
    | Ok _ => upload_deps deps
    end
  end.

Definition deploy_one (e : bytes * PlanApp) : BridgeM unit :=
  let '(address, app) := e in
  p ← gets (fun w => plan w);
  deps ← lift (ok_or (app_deps p app) (Msg "no entry found for key"));
  go ← upload_deps deps;
  if negb go then mret tt else
  c ← gets (fun w => cfg w);
  attempt (on_worker (wk_app_deploy (pa_manifest app) (cfg_reuse_instances c)));;
  mret tt.
Definition remove_one (address : bytes) : BridgeM unit :=
  attempt (on_worker (wk_app_remove address));;
  mret tt.

Definition apply_plan : BridgeM unit :=
  on_worker wk_info;;
  running ← get_running_apps;
  selected ← gets (fun w => selected_apps (plan w));
  let to_deploy := filter (fun e => running !! e.1 = None) (address_iter selected) in
  let to_remove := filter (fun a => selected !! a = None) (address_iter running).*1 in
  for_each deploy_one to_deploy;;
  for_each remove_one to_remove.

Definition update_plan : BridgeM unit := make_plan;; apply_plan.

Definition maybe_sync_bench_app : BridgeM unit :=
  bench ← gets (fun w => ps_bench_app (plan w));
  let '(address, instances) := match bench with Some (a, n) => (Some a, n) | None => (None, 0) end in
  in_context "failed to set bench app" (on_worker (wk_set_bench_app address instances)).

(** ** Reports *)
Definition MAX_CLAIM_TICKETS : nat := 3.

(** The entries of the claim map. *)
Definition claim_entry (apps : gmap bytes PlanApp) (m : AppMetrics) : option (bytes * list Z) :=
  info ← apps !! am_address m;
  Some (am_address m,
        firstn MAX_CLAIM_TICKETS (sort_by Z.leb (elements (associated_tickets info)))).
Definition claim_map (apps : gmap bytes PlanApp) (metrics : AppsMetrics) : list (bytes * list Z) :=
  omap (claim_entry apps) (firstn (Z.to_nat MAX_APPS_METRICS) (bv (asm_apps metrics))).

Definition maybe_report_app_metrics (now : Z) : BridgeM unit :=
  b ← gets bridge_state;
  if now - last_metrics_report b <? metrics_interval (config b) then mret tt else
  modify (fun w => let b := bridge_state w in
    set_bridge w (MkBridge (worker_pubkey b) (planning_state b) (chain_state b) (config b) now
                    (init_score_reported b)));;
  '(metrics, signature) ← on_worker wk_app_metrics;
  let claims := claim_map (all_apps (planning_state b)) metrics in
  if bool_decide (claims = []) then mret tt else
  in_context "failed to submit app metrics"
    (submit "report metrics" (TicketSettle metrics signature (worker_pubkey b) claims) false).

Definition do_report_bench_score (is_init : bool) : BridgeM unit :=
  b ← gets bridge_state;
  match ps_bench_app (planning_state b) with
  | None => mret tt
  | Some (address, _) =>
    output ← in_context "bench app is not running" (on_worker (wk_app_query address "/signedScore"));
    score ← lift (decode_score output);
    in_context "failed to submit bench score"
      (submit "report bench score" (BenchmarkScoreSubmit is_init score) false);;
    modify (fun w => let b := bridge_state w in
      set_bridge w (MkBridge (worker_pubkey b) (planning_state b) (chain_state b) (config b)
                      (last_metrics_report b) true))
  end.

Definition maybe_report_init_score : BridgeM unit :=
  b ← gets bridge_state;
  if init_score_reported b then mret tt else
  match ps_bench_app (planning_state b) with
  | None => mret tt
  | Some (address, _) =>
    output ← in_context "bench app is not running" (on_worker (wk_app_query address "/score"));
    gas ← lift (context "invalid score" (json_score_gas output));
    if gas <? gas_until_report (config b) then mret tt else
    do_report_bench_score true
  end.

Definition is_challenging_the_worker (heartbeat : HeartbeatChallenge) (worker : bytes) : bool :=
  let hashed_id := u256_be (blake2_256 worker) in
  let x := Z.lxor hashed_id (u256_limbs (seed heartbeat)) in
  x <=? u256_limbs (online_target heartbeat).

Definition maybe_report_bench_score : BridgeM unit :=
  b ← gets bridge_state;
  match heartbeat_challenge (chain_state b) with
  | None => mret tt
  | Some challenge =>
    if negb (is_challenging_the_worker challenge (worker_pubkey b)) then mret tt else
    working ← in_context "failed to get working workers" (on_chain (ch_computing (worker_pubkey b)));
    if negb working then mret tt else
    do_report_bench_score false
  end.

(** ** The loop of [bridge] *)

(** What [select!] gives: the monitor never ends by itself; a closed or lagging
    event channel is an error. *)
Inductive BridgeEvent : Type :=
| EvMonitorEnd
| EvChainState (state : option ChainState)
| EvDownloader (event : result anyhow Event).

Definition bridge_step (now : Z) (ev : BridgeEvent) : BridgeM unit :=
  modify (fun w => set_client w (node w, jar_reset (jar w)));;
  go ← match ev with
       | EvMonitorEnd => mret true
       | EvChainState state =>
         attempt maybe_report_bench_score;;
         attempt maybe_report_init_score;;
         attempt (maybe_report_app_metrics now);;
         cs ← lift (ok_or state (Msg "chain state monitor ended"));
         modify (set_chain_state cs);;
         mret true
       | EvDownloader event =>
         event ← lift (context "downloader event channel closed" event);
         match event with
         | Downloaded _ => mret true
         | DownloadFailure cid error =>
           modify (fun w => let p := plan w in
             set_planning w (MkPlanning (ps_tickets p) (ticket_balances p) (ps_bench_app p) (all_apps p)
                               (selected_apps p) (<[cid := error]> (download_failures p))));;
           mret false
         end
       end;
  if negb go then mret tt else
  attempt update_plan;;
  attempt maybe_sync_bench_app;;
  mret tt.

(** [BridgeState::create] and the part of [bridge] before the loop. *)
Definition bridge_create (now : Z) (c : BridgeConfig) (k : W) (n : C) (d : Downloader) : result anyhow World * W :=
  match wk_info k with
  | (Err e, k) => (Err e, k)
  | (Ok info, k) =>
    ((fun pubkey =>
        MkWorld (MkBridge pubkey PlanningState_default ChainState_default c now false) k n (MkJar None) d)
       <$> context "invalid pubkey from worker" (decode_bytes32 (wi_pubkey info)), k)
  end.
Definition bridge_start : BridgeM unit :=
  maybe_register_worker;;
  maybe_update_session.

(** A run of the loop: it ends at the first error. *)
Fixpoint bridge_run (evs : list (Z * BridgeEvent)) : BridgeM unit :=
  match evs with
  | [] => mret tt
  | (now, ev) :: evs => bridge_step now ev;; bridge_run evs
  end.
End Bridge.
