(* ===== verification/BridgeFacts.v ===== *)
(** * Properties of the chain bridge

    What the plan is, that applying it makes the worker run it, and that nothing
    else gets deployed; the interface to the worker and its implementation by the
    RPC service. *)
From S2P Require Import Prelude Ordered Ocall OcallDef Meter Worker WorkerFacts Types Rpc Downloader ChainClient Bridge.
From stdpp Require Import options.

(** ** Selection *)
Definition app_before (x y : bytes * PlanApp) : Prop :=
  pa_balance y.2 < pa_balance x.2 \/ (pa_balance y.2 = pa_balance x.2 /\ str_lt x.1 y.1).

Lemma address_iter_lt {V} (m : gmap bytes V) : StronglySorted (fun x y => str_lt x.1 y.1) (address_iter m).
Proof.
  pose proof (btree_iter_sorted str_leb str_leb_total str_leb_trans m) as Hs.
  pose proof (btree_iter_keys_NoDup str_leb m) as Hn.
  induction Hs as [|x l _ IH Hx]; [constructor|]. apply NoDup_cons in Hn as [Hx' Hn].
  constructor; [auto|]. rewrite Forall_forall in Hx |- *. intros y Hy.
  destruct (proj1 (str_leb_spec _ _) (Hx y Hy)) as [?|Heq]; [done|].
  destruct Hx'. rewrite Heq. by apply list_elem_of_fmap_2.
Qed.

Lemma sorted_apps_sorted apps : StronglySorted app_before (sorted_apps apps).
Proof.
  unfold sorted_apps.
  pose proof (sort_by_sorted (fun a b : bytes * PlanApp => pa_balance b.2 <=? pa_balance a.2)
    (fun x y => str_lt x.1 y.1) ltac:(intros; rewrite !Z.leb_le; lia)
    ltac:(intros *; rewrite !Z.leb_le; lia) _ (address_iter_lt apps)) as Hs.
  induction Hs as [|x l _ IH Hx]; constructor; [done|].
  eapply Forall_impl; [exact Hx|]. intros y [Hle Heq]. rewrite Z.leb_le in *. unfold app_before.
  destruct (decide (pa_balance y.2 = pa_balance x.2)); [right|left; lia]. split; [done|]. apply Heq. lia.
Qed.

Lemma sorted_apps_perm apps : sorted_apps apps ≡ₚ map_to_list apps.
Proof. unfold sorted_apps, btree_iter. by rewrite !sort_by_perm. Qed.

Lemma firstn_keys_NoDup n apps : NoDup (firstn n (sorted_apps apps)).*1.
Proof.
  rewrite fmap_take. apply (NoDup_app _ (skipn n (sorted_apps apps).*1)). rewrite firstn_skipn, sorted_apps_perm.
  apply NoDup_fst_map_to_list.
Qed.

Lemma select_apps_lookup n apps a x :
  select_apps n apps !! a = Some x <-> (a, x) ∈ firstn n (sorted_apps apps).
Proof.
  unfold select_apps. symmetry. apply elem_of_list_to_map. apply firstn_keys_NoDup.
Qed.

Lemma select_apps_sub n apps a x : select_apps n apps !! a = Some x -> apps !! a = Some x.
Proof.
  rewrite select_apps_lookup. intros Hin. rewrite <- elem_of_map_to_list, <- sorted_apps_perm.
  rewrite <- (firstn_skipn n (sorted_apps apps)). set_solver.
Qed.

Lemma select_apps_size n apps : size (select_apps n apps) = Nat.min n (size apps).
Proof.
  unfold select_apps. rewrite <- length_map_to_list, map_to_list_to_map by apply firstn_keys_NoDup.
  rewrite length_take, sorted_apps_perm, length_map_to_list. done.
Qed.

Lemma select_apps_best n apps a x b y : select_apps n apps !! a = Some x ->
  apps !! b = Some y -> select_apps n apps !! b = None -> app_before (a, x) (b, y).
Proof.
  rewrite select_apps_lookup. intros Ha Hb Hn.
  assert (Hin : (b, y) ∈ sorted_apps apps) by (by rewrite sorted_apps_perm, elem_of_map_to_list).
  rewrite <- (firstn_skipn n (sorted_apps apps)), elem_of_app in Hin. destruct Hin as [Hin|Hin].
  - apply select_apps_lookup in Hin. congruence.
  - eapply (sorted_take app_before); eauto using sorted_apps_sorted.
Qed.

(** ** The worker's promises to the bridge *)

(** [listed] are the deployed apps; only deploying and removing change them. *)
Class WorkerLaws (address : AppManifest -> bytes) (W : Type) `{WorkerApi W} := {
  listed : W -> gset bytes;
  info_listed k : listed (wk_info k).2 = listed k;
  app_list_listed s c k : listed (wk_app_list s c k).2 = listed k;
  blob_exists_listed h k : listed (wk_blob_exists h k).2 = listed k;
  blob_put_listed h b k : listed (wk_blob_put h b k).2 = listed k;
  init_listed n r k : listed (wk_worker_init n r k).2 = listed k;
  bench_listed a n k : listed (wk_set_bench_app a n k).2 = listed k;
  metrics_listed k : listed (wk_app_metrics k).2 = listed k;
  query_listed a s k : listed (wk_app_query a s k).2 = listed k;
  sign_listed g o p k : listed (wk_sign_register_info g o p k).2 = listed k;
  remove_all_listed k : listed (wk_app_remove_all k).2 ⊆ listed k;
  deploy_listed m re k : listed k ⊆ listed (wk_app_deploy m re k).2 /\
    listed (wk_app_deploy m re k).2 ⊆ {[ address m ]} ∪ listed k;
  deploy_ok m re k a k' : wk_app_deploy m re k = (Ok a, k') -> a = address m /\ a ∈ listed k';
  remove_sub a k : listed (wk_app_remove a k).2 ⊆ listed k;
  remove_listed a k : zlen a = 32 -> listed (wk_app_remove a k).2 =
    if is_ok (wk_app_remove a k).1 then listed k ∖ {[ a ]} else listed k;
  app_list_all k l k' : wk_app_list 0 (int_max U32) k = (Ok l, k') ->
    Z.of_nat (size (listed k)) <= int_max U32 ->
    list_to_set l.*1 = listed k
}.
(** Addresses have 32 bytes, and there are not more than a request can list. *)
Definition listable `{WorkerLaws address W} (k : W) : Prop :=
  Z.of_nat (size (listed k)) <= int_max U32 /\ forall a, a ∈ listed k -> zlen a = 32.

Section LoopRules.
Context {S E : Type} (P : S -> Prop).
Lemma preserves_attempt {A} (m : M S E A) : preserves P m -> preserves P (attempt m).
Proof. intros Hm s Hs. unfold attempt. specialize (Hm s Hs). by destruct (m s). Qed.
Lemma preserves_for_each {A} (f : A -> M S E unit) l :
  (forall x, x ∈ l -> preserves P (f x)) -> preserves P (for_each f l).
Proof.
  induction l as [|x l IH]; intros Hf; cbn [for_each]; [by intros ?|].
  apply preserves_bind; [apply Hf; set_solver|]. intros []. apply IH. set_solver.
Qed.
Lemma preserves_fold_m {A B} (f : B -> A -> M S E B) l : (forall b x, preserves P (f b x)) ->
  forall acc, preserves P (fold_m f l acc).
Proof.
  intros Hf. induction l as [|x l IH]; intros acc; cbn [fold_m]; [by intros ?|].
  apply preserves_bind; auto.
Qed.
(** The value read is one of a state satisfying the invariant. *)
Lemma preserves_gets_bind {A B} (f : S -> A) (k : A -> M S E B) :
  (forall s, P s -> preserves P (k (f s))) -> preserves P (gets f ≫= k).
Proof. intros Hk s Hs. by apply Hk. Qed.
Lemma preserves_run {A} (m : M S E A) s r s' : m s = (r, s') -> preserves P m -> P s -> P s'.
Proof. intros Hm Hp Hs. specialize (Hp s Hs). by rewrite Hm in Hp. Qed.
Lemma preserves_lift_bind {A B} (r : result E A) (k : A -> M S E B) :
  (forall a, r = Ok a -> preserves P (k a)) -> preserves P (lift r ≫= k).
Proof. intros Hk s Hs. destruct r as [a|e]; [|done]. by apply (Hk a). Qed.
Lemma gets_bind {A B} (f : S -> A) (k : A -> M S E B) s : (gets f ≫= k) s = k (f s) s.
Proof. done. Qed.
Lemma modify_bind {B} (f : S -> S) (k : unit -> M S E B) s : (modify f ≫= k) s = k tt (f s).
Proof. done. Qed.
Lemma lift_Ok_bind {A B} (a : A) (k : A -> M S E B) s : (lift (Ok a) ≫= k) s = k a s.
Proof. done. Qed.
End LoopRules.
Lemma preserves_in_context {S A} (P : S -> Prop) msg (m : M S anyhow A) :
  preserves P m -> preserves P (in_context msg m).
Proof. intros Hm s Hs. unfold in_context. specialize (Hm s Hs). by destruct (m s). Qed.
#[export] Hint Resolve preserves_attempt preserves_in_context preserves_fold_m : wapo.

(** A ticket names the app, and is meant for this worker. *)
Definition authorized (pubkey : bytes) (cs : ChainState) (a : bytes) : Prop :=
  exists id info, tickets cs !! id = Some info /\ ti_address info = a /\
    is_ticket_for_worker pubkey cs info = true.

Section Facts.
Context {W C : Type} `{WorkerApi W} `{ChainStore C} `{!Node Tx C}.
Context (blake2_256 : bytes -> bytes) (encode_manifest : AppManifest -> bytes)
  (json_manifest : bytes -> result anyhow AppManifest) (json_score_gas : bytes -> result anyhow Z)
  (parse_cid : bytes -> result anyhow bytes)
  (decode_score : bytes -> result anyhow bytes) (disk : bytes -> result anyhow bytes).
Abbreviation BWorld := (@World W C).
Abbreviation plan w := (planning_state (bridge_state w)).
Abbreviation chain w := (chain_state (bridge_state w)).
Abbreviation address_of := (manifest_address blake2_256 encode_manifest).
Abbreviation plan_ticket := (plan_ticket blake2_256 encode_manifest).
Abbreviation make_plan := (make_plan blake2_256 encode_manifest json_manifest parse_cid disk).
Abbreviation try_resolve_deps := (try_resolve_deps json_manifest parse_cid disk).
Abbreviation apply_plan := (apply_plan parse_cid disk).
Abbreviation bridge_step := (bridge_step blake2_256 encode_manifest json_manifest json_score_gas parse_cid decode_score disk).
Abbreviation bridge_run := (bridge_run blake2_256 encode_manifest json_manifest json_score_gas parse_cid decode_score disk).

(** *** The tickets of an app *)

(** The tickets that count for an app, in the order of their ids. *)
Definition tickets_of (l : list (Z * Ticket)) (a : bytes) : list (Z * Ticket) :=
  filter (fun e => ti_address (tk_info e.2) = a /\ address_of (tk_manifest e.2) = a) l.
(** The app planned for them: manifest of the first, sum of the balances. *)
Definition planned_app (l : list (Z * Ticket)) (bal : gmap Z Z) (a : bytes) : option PlanApp :=
  match tickets_of l a with
  | [] => None
  | (e :: _) as es =>
    Some (MkPlanApp (tk_manifest e.2) (list_to_set es.*1)
            (sum_balances ((fun id => default 0 (bal !! id)) <$> es.*1)))
  end.

(** [plan_ticket] with known balances. *)
Definition plan_pure (bal : gmap Z Z) (acc : gmap bytes PlanApp) (e : Z * Ticket) : gmap bytes PlanApp :=
  let address := address_of (tk_manifest e.2) in
  if decide (ti_address (tk_info e.2) = address)
  then add_ticket acc address e.1 (tk_manifest e.2) (default 0 (bal !! e.1)) else acc.

Lemma sum_balances_snoc l b : sum_balances (l ++ [b]) = wrap U128 (sum_balances l + b).
Proof. unfold sum_balances. by rewrite foldl_app. Qed.

Lemma plan_pure_spec bal l a : foldl (plan_pure bal) ∅ l !! a = planned_app l bal a.
Proof.
  revert a. induction l as [|[id t] l IH] using rev_ind; intros a; [done|].
  rewrite foldl_app. simpl. unfold plan_pure at 1. simpl.
  unfold planned_app, tickets_of in *. rewrite filter_app, filter_cons, filter_nil. simpl.
  destruct (decide (ti_address (tk_info t) = address_of (tk_manifest t))) as [Hm|Hm].
  - unfold add_ticket. rewrite lookup_insert.
    destruct (decide (address_of (tk_manifest t) = a)) as [<- |Hne].
    + rewrite decide_True by done. rewrite IH. destruct (filter _ l) as [|e es] eqn:Hf; simpl.
      * done.
      * do 2 f_equal; [rewrite fmap_app; set_solver|].
        rewrite !fmap_app. simpl. symmetry. apply (sum_balances_snoc (_ :: _)).
    + rewrite decide_False by (by intros []). rewrite app_nil_r. apply IH.
  - rewrite decide_False by (intros [??]; congruence). rewrite app_nil_r. apply IH.
Qed.

(** Balances are only added; the rest of what the plan depends on stays. *)
Definition balances_grow (w w' : BWorld) : Prop :=
  ps_tickets (plan w') = ps_tickets (plan w) /\ chain w' = chain w /\
  config (bridge_state w') = config (bridge_state w) /\ download_failures (plan w') = download_failures (plan w) /\
  ticket_balances (plan w) ⊆ ticket_balances (plan w').
Lemma balances_grow_refl w : balances_grow w w.
Proof. done. Qed.
Lemma balances_grow_trans w w1 w2 : balances_grow w w1 -> balances_grow w1 w2 -> balances_grow w w2.
Proof.
  intros (?&?&?&?&Hs) (?&?&?&?&Hs'). split_and!; try congruence. by etransitivity.
Qed.

Lemma ticket_balance_spec id (w w' : BWorld) b : ticket_balance id w = (Ok b, w') ->
  balances_grow w w' /\ ticket_balances (plan w') !! id = Some b.
Proof.
  unfold ticket_balance, in_context, on_chain, zoom. m_unfold. simpl.
  destruct (ticket_balances (plan w) !! id) as [b'|] eqn:Hb; [by intros [= <- <-]|].
  destruct (ch_ticket_balance id (node w)) as [[b'|e] n]; simpl; [|done].
  intros [= <- <-]. simpl. split; [|apply lookup_insert_eq]. split_and!; try done. simpl.
  by apply insert_subseteq.
Qed.

Lemma plan_fold_spec l : forall acc (w w' : BWorld) apps, fold_m plan_ticket l acc w = (Ok apps, w') ->
  balances_grow w w' /\ apps = foldl (plan_pure (ticket_balances (plan w'))) acc l.
Proof.
  induction l as [|[id t] l IH]; intros acc w w' apps; cbn [fold_m].
  - by intros [= <- <-].
  - intros [(acc1 & w1 & H1 & H2)|(e & _ & ?)]%bind_inv; [|done].
    apply IH in H2 as [Hg2 ->]. cbn [foldl]. unfold plan_pure at 3. cbn [fst snd].
    unfold Bridge.plan_ticket in H1. revert H1. case_bool_decide as Hm; cbn [negb].
    + rewrite decide_True by done. intros [(b & w2 & Hb & [= <- <-])|(e & _ & ?)]%bind_inv; [|done].
      apply ticket_balance_spec in Hb as [Hg1 Hb]. split; [by eapply balances_grow_trans|].
      destruct Hg2 as (_ & _ & _ & _ & Hs). by rewrite (lookup_weaken _ _ _ _ Hb Hs).
    + rewrite decide_False by done. by intros [= <- <-].
Qed.

(** C15: the plan: after a successful planning pass the apps are exactly those that
    the resolved tickets name consistently, each with the manifest of its first
    ticket, all its tickets and the sum of their balances; and the selected ones
    are the [max_apps] best paid, ties going to the smaller address. *)
Theorem plan_is_best (w w' : BWorld) : make_plan w = (Ok tt, w') ->
  let p := plan w' in
  (forall a, all_apps p !! a = planned_app (id_iter (ps_tickets p)) (ticket_balances p) a) /\
  size (selected_apps p) = Nat.min (max_apps (config (bridge_state w'))) (size (all_apps p)) /\
  (forall a x, selected_apps p !! a = Some x -> all_apps p !! a = Some x) /\
  (forall a x b y, selected_apps p !! a = Some x -> all_apps p !! b = Some y -> selected_apps p !! b = None ->
     pa_balance y < pa_balance x \/ (pa_balance y = pa_balance x /\ str_lt a b)).
Proof.
  unfold Bridge.make_plan.
  intros [([] & w1 & _ & H1)|(e & _ & ?)]%bind_inv; [|done].
  apply bind_inv in H1 as [(info & w2 & _ & H2)|(e & _ & ?)]; [|done].
  apply bind_inv in H2 as [(ts & w3 & [= <- <-] & H3)|(e & _ & ?)]; [|done].
  apply bind_inv in H3 as [(apps & w4 & H4 & [= <-])|(e & _ & ?)]; [|done].
  apply plan_fold_spec in H4 as [(Ht & _) Happs]. simpl. rewrite Ht. subst apps.
  split_and!.
  - intros a. apply plan_pure_spec.
  - apply select_apps_size.
  - intros a x. apply select_apps_sub.
  - intros a x b y Ha Hb Hn. exact (select_apps_best _ _ a x b y Ha Hb Hn).
Qed.

(** ** What is in the plan *)

(** An app of the plan has the address of its manifest, and its tickets are
    resolved ones that name it. *)
Definition plan_app_ok (p : PlanningState) (a : bytes) (x : PlanApp) : Prop :=
  address_of (pa_manifest x) = a /\ associated_tickets x <> ∅ /\
  forall id, id ∈ associated_tickets x -> exists t, ps_tickets p !! id = Some t /\ ti_address (tk_info t) = a.
Record bridge_inv (b : BridgeState) : Prop := MkBridgeInv {
  bi_tickets : forall id t, ps_tickets (planning_state b) !! id = Some t ->
    tickets (chain_state b) !! id = Some (tk_info t) /\
    is_ticket_for_worker (worker_pubkey b) (chain_state b) (tk_info t) = true;
  bi_all : map_Forall (plan_app_ok (planning_state b)) (all_apps (planning_state b));
  bi_selected : map_Forall (plan_app_ok (planning_state b)) (selected_apps (planning_state b))
}.

Lemma bridge_inv_fresh pk cs c t f : bridge_inv (MkBridge pk PlanningState_default cs c t f).
Proof. by split. Qed.

Lemma plan_app_authorized b a x : bridge_inv b -> plan_app_ok (planning_state b) a x ->
  authorized (worker_pubkey b) (chain_state b) (address_of (pa_manifest x)).
Proof.
  intros Hb (Ha & Hne & Ht). apply set_choose_L in Hne as [id Hid].
  destruct (Ht _ Hid) as (t & Hl & Hta). destruct (bi_tickets _ Hb _ _ Hl) as [Hc Hw].
  exists id, (tk_info t). by rewrite Ha.
Qed.

Lemma plan_app_ok_mono p p' a x : ps_tickets p ⊆ ps_tickets p' -> plan_app_ok p a x -> plan_app_ok p' a x.
Proof.
  intros Hs (Ha & Hne & Ht). split_and!; try done. intros id Hid.
  destruct (Ht id Hid) as (t & Hl & ?). exists t. split; [by eapply lookup_weaken|done].
Qed.

Lemma planned_app_ok p bal a x : planned_app (id_iter (ps_tickets p)) bal a = Some x -> plan_app_ok p a x.
Proof.
  clear parse_cid json_score_gas json_manifest disk decode_score.
  unfold planned_app. destruct (tickets_of _ a) as [|e es] eqn:Hes; [done|]. intros [= <-].
  assert (Hin : forall e', e' ∈ e :: es -> ps_tickets p !! e'.1 = Some e'.2 /\ ti_address (tk_info e'.2) = a /\
    address_of (tk_manifest e'.2) = a).
  { intros [id t]. rewrite <- Hes. unfold tickets_of. rewrite list_elem_of_filter, elem_of_btree_iter. naive_solver. }
  split_and!; simpl; [apply Hin; set_solver|set_solver|].
  intros id Hid. assert (id ∈ (e :: es).*1) as ([id' t] & -> & Ht)%list_elem_of_fmap by set_solver.
  apply Hin in Ht as (? & ? & ?). eauto.
Qed.

(** Calls of the services leave the bridge's own state alone. *)
Definition same_bridge (b : BridgeState) (w : BWorld) : Prop := bridge_state w = b.
Lemma on_chain_same b {A} (m : M C anyhow A) : preserves (same_bridge b) (on_chain m).
Proof. intros w Hw. unfold on_chain, zoom. by destruct (m (node w)). Qed.
Lemma on_worker_bridge b {A} (m : M W anyhow A) : preserves (same_bridge b) (on_worker m).
Proof. intros w Hw. unfold on_worker, zoom. by destruct (m (wk w)). Qed.
Lemma submit_same b l tx f : preserves (same_bridge b) (submit l tx f).
Proof. intros w Hw. unfold submit, zoom. by destruct (submit_tx l tx f _). Qed.
Lemma on_downloader_same b {A} (m : M Downloader anyhow A) : preserves (same_bridge b) (on_downloader m).
Proof. intros w Hw. unfold on_downloader, zoom. by destruct (m (downloader w)). Qed.
Lemma dl_read_same b cid : preserves (same_bridge b) (dl_read disk cid).
Proof. by intros w. Qed.
#[local] Hint Resolve on_chain_same on_worker_bridge submit_same on_downloader_same dl_read_same : wapo.

Lemma blobs_ready_same b blobs : preserves (same_bridge b) (blobs_ready parse_cid blobs).
Proof. induction blobs as [|[h c] blobs IH]; cbn [blobs_ready]; preserve. Qed.
#[local] Hint Resolve blobs_ready_same : wapo.
Lemma try_resolve_same b info : preserves (same_bridge b) (try_resolve json_manifest parse_cid disk info).
Proof. unfold try_resolve. preserve. Qed.
Lemma upload_deps_same b deps : preserves (same_bridge b) (upload_deps parse_cid disk deps).
Proof. induction deps as [|[h c] deps IH]; cbn [upload_deps]; preserve. Qed.
#[local] Hint Resolve upload_deps_same : wapo.
Lemma deploy_one_same b e : preserves (same_bridge b) (deploy_one parse_cid disk e).
Proof. unfold deploy_one. preserve. Qed.
Lemma get_running_same b : preserves (same_bridge b) get_running_apps.
Proof. unfold get_running_apps. preserve. apply preserves_fold_m. intros. unfold add_running. preserve. Qed.

(** A resolved ticket is the one that was asked for. *)
Lemma try_resolve_info info (w w' : BWorld) t :
  try_resolve json_manifest parse_cid disk info w = (Ok (Some t), w') -> tk_info t = info.
Proof.
  unfold try_resolve. intros [(cid & w1 & _ & H1)|(e & _ & ?)]%bind_inv; [|done].
  apply bind_inv in H1 as [([d|] & w2 & _ & H2)|(e & _ & ?)]; [|..|done].
  - apply bind_inv in H2 as [(m & w3 & _ & H3)|(e & _ & ?)]; [|done].
    apply bind_inv in H3 as [([] & w4 & _ & [= <- <-])|(e & _ & ?)]; done.
  - apply bind_inv in H2 as [(m & w3 & _ & H3)|(e & _ & ?)]; [|done].
    apply bind_inv in H3 as [([] & w4 & _ & H4)|(e & _ & ?)]; [|done].
    by apply bind_inv in H4 as [([] & w5 & _ & [= ?])|(e & _ & ?)].
Qed.

(** ** Only authorized apps get deployed *)
Section Safety.
Context `{!WorkerLaws address_of W} (pubkey : bytes) (G : bytes -> Prop).

(** Whatever [G] allows: the listed apps, and those the chain authorizes. *)
Definition within (w : BWorld) : Prop :=
  bridge_inv (bridge_state w) /\ worker_pubkey (bridge_state w) = pubkey /\
  (forall a, authorized pubkey (chain w) a -> G a) /\ (forall a, a ∈ listed (wk w) -> G a).

Lemma on_chain_within {A} (m : M C anyhow A) : preserves within (on_chain m).
Proof. intros w Hw. unfold on_chain, zoom. by destruct (m (node w)). Qed.
Lemma submit_within l tx b : preserves within (submit l tx b).
Proof. intros w Hw. unfold submit, zoom. by destruct (submit_tx l tx b _). Qed.
Lemma on_downloader_within {A} (m : M Downloader anyhow A) : preserves within (on_downloader m).
Proof. intros w Hw. unfold on_downloader, zoom. by destruct (m (downloader w)). Qed.
Lemma dl_read_within cid : preserves within (dl_read disk cid).
Proof. by intros w. Qed.
Lemma on_worker_within {A} (m : M W anyhow A) :
  (forall k a, a ∈ listed (m k).2 -> a ∈ listed k \/ G a) -> preserves within (on_worker m).
Proof.
  clear parse_cid json_score_gas json_manifest disk decode_score.
  intros Hm w (Hb & Hp & Hc & Hl). unfold on_worker, zoom. specialize (Hm (wk w)).
  destruct (m (wk w)) as [r k]. simpl in *. split_and!; try done. naive_solver.
Qed.
Lemma on_worker_same {A} (m : M W anyhow A) :
  (forall k, listed (m k).2 = listed k) -> preserves within (on_worker m).
Proof. intros Hm. apply on_worker_within. intros k a. rewrite Hm. by left. Qed.

Lemma info_within : preserves within (on_worker wk_info).
Proof. apply on_worker_same, info_listed. Qed.
Lemma metrics_within : preserves within (on_worker wk_app_metrics).
Proof. apply on_worker_same, metrics_listed. Qed.
Lemma query_within a q : preserves within (on_worker (wk_app_query a q)).
Proof. apply on_worker_same, query_listed. Qed.
Lemma bench_within a n : preserves within (on_worker (wk_set_bench_app a n)).
Proof. apply on_worker_same, bench_listed. Qed.
Lemma blob_exists_within h : preserves within (on_worker (wk_blob_exists h)).
Proof. apply on_worker_same, blob_exists_listed. Qed.
Lemma blob_put_within h d : preserves within (on_worker (wk_blob_put h d)).
Proof. apply on_worker_same. intros k. apply blob_put_listed. Qed.
Lemma app_list_within s c : preserves within (on_worker (wk_app_list s c)).
Proof. apply on_worker_same, app_list_listed. Qed.
Lemma remove_within a : preserves within (on_worker (wk_app_remove a)).
Proof.
  apply on_worker_within. intros k b Hb. left. by apply (remove_sub a k).
Qed.
Lemma deploy_within m re : G (address_of m) -> preserves within (on_worker (wk_app_deploy m re)).
Proof.
  clear parse_cid json_score_gas json_manifest disk decode_score.
  intros Hm. apply on_worker_within. intros k b Hb.
  apply (proj2 (deploy_listed m re k)) in Hb. set_solver.
Qed.
#[local] Hint Resolve on_chain_within submit_within on_downloader_within dl_read_within info_within
  metrics_within query_within bench_within blob_exists_within blob_put_within app_list_within
  remove_within : wapo.

(** Changing parts of the bridge's state that the invariant does not mention. *)
Lemma set_planning_within w p : within w ->
  ps_tickets p = ps_tickets (plan w) -> all_apps p = all_apps (plan w) ->
  selected_apps p = selected_apps (plan w) -> within (set_planning w p).
Proof.
  intros ([Ht Ha Hs] & Hp & Hc & Hl) E1 E2 E3. split_and!; try done.
  split; simpl; rewrite ?E1, ?E2, ?E3; [done|..].
  - eapply map_Forall_impl; [exact Ha|]. intros a x. apply plan_app_ok_mono. by rewrite E1.
  - eapply map_Forall_impl; [exact Hs|]. intros a x. apply plan_app_ok_mono. by rewrite E1.
Qed.

Lemma blobs_ready_within blobs : preserves within (blobs_ready parse_cid blobs).
Proof. induction blobs as [|[h c] blobs IH]; cbn [blobs_ready]; preserve. Qed.
#[local] Hint Resolve blobs_ready_within : wapo.
Lemma try_resolve_within info : preserves within (try_resolve json_manifest parse_cid disk info).
Proof. unfold try_resolve. preserve. Qed.
#[local] Hint Resolve try_resolve_within : wapo.

Lemma insert_ticket_within w id t : within w -> ps_tickets (plan w) !! id = None ->
  tickets (chain w) !! id = Some (tk_info t) -> is_ticket_for_worker pubkey (chain w) (tk_info t) = true ->
  within (insert_ticket id t w).
Proof.
  intros ([Ht Ha Hs] & Hp & Hc & Hl) Hid Hin Hfor.
  assert (Hsub : ps_tickets (plan w) ⊆ <[id := t]> (ps_tickets (plan w))) by (by apply insert_subseteq).
  split_and!; try done. split; simpl.
  - intros id' t' [[<- <-]|[_ ?]]%lookup_insert_Some; [by rewrite Hp|by apply Ht].
  - eapply map_Forall_impl; [exact Ha|]. intros a x. by apply plan_app_ok_mono.
  - eapply map_Forall_impl; [exact Hs|]. intros a x. by apply plan_app_ok_mono.
Qed.

Lemma resolve_one_within ts id info : ts !! id = Some info ->
  preserves (fun w => within w /\ tickets (chain w) = ts) (resolve_one json_manifest parse_cid disk (id, info)).
Proof.
  intros Hin w [Hw Hts]. unfold resolve_one. rewrite gets_bind.
  case_bool_decide as Hid; [done|]. apply eq_None_not_Some in Hid.
  destruct (is_ticket_for_worker _ _ info) eqn:Hfor; cbn [negb]; [|done].
  pose proof (try_resolve_within info w Hw) as Hw1.
  pose proof (try_resolve_same (bridge_state w) info w eq_refl) as Hb1. unfold same_bridge in Hb1.
  unfold mbind, M_bind, attempt.
  destruct (try_resolve json_manifest parse_cid disk info w) as [r w1] eqn:Hr. simpl in Hw1, Hb1.
  assert (Hsame : within w1 /\ tickets (chain w1) = ts) by (by rewrite Hb1).
  destruct r as [[t|]|e]; simpl; [|done..]. split; [|by apply Hsame].
  apply try_resolve_info in Hr as Hi. subst info. pose proof Hw as (_ & Hpk & _). rewrite Hpk in Hfor.
  apply insert_ticket_within; rewrite ?Hb1, ?Hts; try done; by apply Hsame.
Qed.
Lemma try_resolve_deps_within : preserves within try_resolve_deps.
Proof.
  unfold Bridge.try_resolve_deps. intros w Hw. rewrite gets_bind.
  apply (preserves_for_each (fun w' => within w' /\ tickets (chain w') = tickets (chain w))); [|done].
  intros [id info] Hin%elem_of_btree_iter. by apply resolve_one_within.
Qed.
#[local] Hint Resolve try_resolve_deps_within : wapo.

Lemma ticket_balance_within id : preserves within (ticket_balance id).
Proof.
  unfold ticket_balance. preserve. apply preserves_modify. intros w Hw. by apply set_planning_within.
Qed.
#[local] Hint Resolve ticket_balance_within : wapo.
Lemma plan_ticket_within acc e : preserves within (plan_ticket acc e).
Proof. destruct e as [id t]. unfold Bridge.plan_ticket. preserve. Qed.
#[local] Hint Resolve plan_ticket_within : wapo.

Lemma make_plan_within : preserves within make_plan.
Proof.
  unfold Bridge.make_plan. apply preserves_bind; [eauto with wapo|]. intros []. apply preserves_bind; [eauto with wapo|].
  intros info w Hw. rewrite gets_bind.
  pose proof (preserves_fold_m within plan_ticket (id_iter (ps_tickets (plan w))) ltac:(eauto with wapo) ∅ w Hw) as Hw1.
  unfold mbind, M_bind.
  destruct (fold_m plan_ticket (id_iter (ps_tickets (plan w))) ∅ w) as [[apps|e] w1] eqn:Hf; [|done]. simpl in Hw1.
  apply plan_fold_spec in Hf as [(Ht & _) Happs]. simpl.
  destruct Hw1 as ([Ht1 _ _] & Hp1 & Hc1 & Hl1).
  assert (Hok : forall a x, apps !! a = Some x -> plan_app_ok (plan w1) a x).
  { intros a x. rewrite Happs, plan_pure_spec, <- Ht. apply planned_app_ok. }
  split_and!; try done. split; simpl; [done|..]; intros a x Hx; [|apply select_apps_sub in Hx];
    (eapply plan_app_ok_mono; [|by apply Hok]; done).
Qed.
#[local] Hint Resolve make_plan_within : wapo.

Lemma upload_deps_within deps : preserves within (upload_deps parse_cid disk deps).
Proof. induction deps as [|[h c] deps IH]; cbn [upload_deps]; preserve. Qed.
#[local] Hint Resolve upload_deps_within : wapo.
Lemma deploy_one_within a x : G (address_of (pa_manifest x)) -> preserves within (deploy_one parse_cid disk (a, x)).
Proof. intros Hg. unfold deploy_one. preserve. by apply preserves_attempt, deploy_within. Qed.
Lemma remove_one_within a : preserves within (remove_one a).
Proof. unfold remove_one. preserve. Qed.
Lemma get_running_within : preserves within get_running_apps.
Proof. unfold get_running_apps. preserve. apply preserves_fold_m. intros. unfold add_running. preserve. Qed.
#[local] Hint Resolve remove_one_within get_running_within : wapo.

Lemma apply_plan_within : preserves within apply_plan.
Proof.
  unfold Bridge.apply_plan. apply preserves_bind; [eauto with wapo|]. intros _. apply preserves_bind; [eauto with wapo|].
  intros running. apply preserves_gets_bind. intros w (Hb & Hp & Hc & _).
  apply preserves_bind; [|intros []; apply preserves_for_each; eauto with wapo].
  apply preserves_for_each. intros [a x] [_ Hin%elem_of_btree_iter]%list_elem_of_filter.
  apply deploy_one_within, Hc. rewrite <- Hp. eapply plan_app_authorized; [done|].
  by apply (bi_selected _ Hb).
Qed.
Lemma update_plan_within :
  preserves within (update_plan blake2_256 encode_manifest json_manifest parse_cid disk).
Proof. apply preserves_bind; [apply make_plan_within|intros []; apply apply_plan_within]. Qed.
#[local] Hint Resolve update_plan_within : wapo.

(** Updates of the two fields that reports keep. *)
Lemma report_fields_within (w : BWorld) t f : within w ->
  within (let b := bridge_state w in
    set_bridge w (MkBridge (worker_pubkey b) (planning_state b) (chain_state b) (config b) t f)).
Proof. intros ([? ? ?] & ? & ? & ?). split_and!; by try split. Qed.
Lemma do_report_within i : preserves within (do_report_bench_score decode_score i).
Proof.
  unfold do_report_bench_score. preserve. apply preserves_modify. intros w Hw. by apply report_fields_within.
Qed.
#[local] Hint Resolve do_report_within : wapo.
Lemma report_bench_within : preserves within (maybe_report_bench_score blake2_256 decode_score).
Proof. unfold maybe_report_bench_score. preserve. Qed.
Lemma report_init_within : preserves within (maybe_report_init_score json_score_gas decode_score).
Proof. unfold maybe_report_init_score. preserve. Qed.
Lemma report_metrics_within now : preserves within (maybe_report_app_metrics now).
Proof.
  unfold maybe_report_app_metrics. preserve. apply preserves_modify. intros w Hw. by apply report_fields_within.
Qed.
Lemma sync_bench_within : preserves within maybe_sync_bench_app.
Proof. unfold maybe_sync_bench_app. preserve. Qed.
#[local] Hint Resolve report_bench_within report_init_within report_metrics_within sync_bench_within : wapo.

Lemma bridge_step_within now ev :
  (forall cs a, ev = EvChainState (Some cs) -> authorized pubkey cs a -> G a) -> preserves within (bridge_step now ev).
Proof.
  intros Hev. unfold Bridge.bridge_step.
  apply preserves_bind; [by apply preserves_modify|]. intros [].
  apply preserves_bind; [|intros []; preserve]. destruct ev as [|st|r]; [preserve| |preserve].
  - do 3 (apply preserves_bind; [eauto with wapo|intros _]). apply preserves_lift_bind.
    intros cs Hcs. destruct st; simplify_eq/=. apply preserves_bind; [|eauto with wapo].
    apply preserves_modify. intros w (_ & Hp & _ & Hl). split; [apply bridge_inv_fresh|].
    split; [done|]. split; [|done]. intros x. by apply Hev.
  - apply preserves_modify. intros w Hw. by apply set_planning_within.
Qed.

Lemma bridge_run_within evs :
  (forall now cs a, (now, EvChainState (Some cs)) ∈ evs -> authorized pubkey cs a -> G a) ->
  preserves within (bridge_run evs).
Proof.
  induction evs as [|[now ev] evs IH]; intros Hev; cbn [Bridge.bridge_run]; [by intros ?|].
  apply preserves_bind; [|intros []; apply IH; intros; eapply Hev; [by right|done]].
  apply bridge_step_within. intros cs a ->. eapply Hev. by left.
Qed.
End Safety.

(** C14: whatever the chain, the gateway and the worker do, the bridge deploys only
    apps it is paid for: after any run of its loop, every deployed app was there
    before or has the address that a ticket for this worker names, in the chain
    state the bridge had or in one it received; a manifest that the gateway forged
    has another address and is never deployed. *)
Theorem bridge_deploys_authorized `{!WorkerLaws address_of W} evs (w : BWorld) :
  bridge_inv (bridge_state w) ->
  let pubkey := worker_pubkey (bridge_state w) in
  forall a, a ∈ listed (wk (bridge_run evs w).2) ->
    a ∈ listed (wk w) \/ authorized pubkey (chain w) a \/
    exists now cs, (now, EvChainState (Some cs)) ∈ evs /\ authorized pubkey cs a.
Proof.
  intros Hw pubkey a Ha.
  set (G a := a ∈ listed (wk w) \/ authorized pubkey (chain w) a \/
    exists now cs, (now, EvChainState (Some cs)) ∈ evs /\ authorized pubkey cs a).
  assert (Hr : within pubkey G (bridge_run evs w).2); [|by apply Hr].
  apply bridge_run_within; [unfold G; eauto 10|]. split_and!; try done; unfold G; eauto.
Qed.

(** ** Applying the plan *)
Section Convergence.
Context `{!WorkerLaws address_of W}.

Definition between (L : gset bytes) (U : bytes -> Prop) (w : BWorld) : Prop :=
  L ⊆ listed (wk w) /\ forall a, a ∈ listed (wk w) -> U a.

Lemma on_worker_between L U {A} (m : M W anyhow A) :
  (forall k, listed k ⊆ listed (m k).2 /\ forall a, a ∈ listed (m k).2 -> a ∈ listed k \/ U a) ->
  preserves (between L U) (on_worker m).
Proof.
  clear parse_cid json_score_gas json_manifest disk decode_score.
  intros Hm w [HL HU]. unfold on_worker, zoom. specialize (Hm (wk w)). unfold between in *.
  destruct (m (wk w)). simpl in *. set_solver.
Qed.
Lemma on_worker_keeps L U {A} (m : M W anyhow A) :
  (forall k, listed (m k).2 = listed k) -> preserves (between L U) (on_worker m).
Proof. clear parse_cid json_score_gas json_manifest disk decode_score. intros Hm. apply on_worker_between. intros k. rewrite Hm. set_solver. Qed.
Lemma blob_exists_between L U h : preserves (between L U) (on_worker (wk_blob_exists h)).
Proof. apply on_worker_keeps, blob_exists_listed. Qed.
Lemma blob_put_between L U h d : preserves (between L U) (on_worker (wk_blob_put h d)).
Proof. apply on_worker_keeps. intros k. apply blob_put_listed. Qed.
Lemma dl_read_between L U cid : preserves (between L U) (dl_read disk cid).
Proof. by intros w. Qed.
#[local] Hint Resolve blob_exists_between blob_put_between dl_read_between : wapo.
Lemma upload_deps_between L U deps : preserves (between L U) (upload_deps parse_cid disk deps).
Proof. induction deps as [|[h c] deps IH]; cbn [upload_deps]; preserve. Qed.
#[local] Hint Resolve upload_deps_between : wapo.
Lemma deploy_one_between L (U : bytes -> Prop) a x : U (address_of (pa_manifest x)) ->
  preserves (between L U) (deploy_one parse_cid disk (a, x)).
Proof.
  clear json_score_gas json_manifest decode_score.
  intros Hu. unfold deploy_one. preserve. apply preserves_attempt, on_worker_between. intros k.
  match goal with |- context [wk_app_deploy ?m ?re k] => pose proof (deploy_listed m re k) end. set_solver.
Qed.
Lemma deploy_loop_between L (U : bytes -> Prop) l : (forall e, e ∈ l -> U (address_of (pa_manifest e.2))) ->
  preserves (between L U) (for_each (deploy_one parse_cid disk) l).
Proof.
  intros Hl. apply preserves_for_each. intros [a x] Hin. apply deploy_one_between. by apply (Hl _ Hin).
Qed.

(** The addresses the worker runs. *)
Lemma decode_bytes32_ok b : zlen b = 32 -> decode_bytes32 b = Ok b.
Proof.
  intros Hb. unfold decode_bytes32. rewrite Hb. simpl. by rewrite take_ge by (unfold zlen in Hb; lia).
Qed.
Lemma add_running_ok m a n (w : BWorld) : zlen a = 32 -> add_running m (a, n) w = (Ok (<[a := n]> m), w).
Proof. intros Ha. unfold add_running. cbn [fst snd]. by rewrite (decode_bytes32_ok _ Ha). Qed.
Lemma running_fold (l : list (bytes * Z)) : Forall (fun e => zlen e.1 = 32) l ->
  forall m (w w' : BWorld) r, fold_m add_running l m w = (Ok r, w') ->
  w' = w /\ dom r = dom m ∪ list_to_set l.*1.
Proof.
  clear parse_cid json_score_gas json_manifest disk decode_score.
  induction 1 as [|[a n] l Ha _ IH]; intros m w w' r; cbn [fold_m].
  - intros [= <- <-]. split; [done|set_solver].
  - rewrite (bind_Ok _ _ _ _ _ (add_running_ok m a n w Ha)). intros Hf.
    apply IH in Hf as [-> ->]. split; [done|]. rewrite dom_insert_L. set_solver.
Qed.
Lemma get_running_spec (w w' : BWorld) running : listable (wk w) ->
  get_running_apps w = (Ok running, w') -> dom running = listed (wk w) /\ listed (wk w') = listed (wk w).
Proof.
  clear parse_cid json_score_gas json_manifest disk decode_score.
  intros [Hsz H32]. unfold get_running_apps, on_worker, zoom. intros [(l & w1 & H1 & H2)|(e & _ & ?)]%bind_inv; [|done].
  pose proof (app_list_listed 0 (int_max U32) (wk w)) as Hl.
  destruct (wk_app_list 0 (int_max U32) (wk w)) as [[l'|e] k] eqn:Hc; [|done]. injection H1 as <- <-.
  pose proof (app_list_all _ _ _ Hc Hsz) as Hset. apply running_fold in H2 as [-> ->].
  2: { apply Forall_forall. intros e He. apply H32. rewrite <- Hset.
       by apply elem_of_list_to_set, list_elem_of_fmap_2. }
  simpl in *. split; [set_solver|done].
Qed.

(** What the worker does with an app in the states [I], which its calls do not leave: it
    takes the app and its blobs, or it does not deploy it. *)
Definition stable (I : W -> Prop) : Prop :=
  preserves I wk_info /\ (forall s c, preserves I (wk_app_list s c)) /\ (forall h, preserves I (wk_blob_exists h)) /\
  (forall h d, preserves I (wk_blob_put h d)) /\ (forall m re, preserves I (wk_app_deploy m re)) /\
  (forall a, preserves I (wk_app_remove a)).
Definition accepts (I : W -> Prop) (p : PlanningState) (x : PlanApp) : Prop :=
  (forall deps h c d k, app_deps p x = Some deps -> (h, c) ∈ deps -> I k -> is_ok (wk_blob_put h d k).1 = true) /\
  (forall re k, I k -> address_of (pa_manifest x) ∈ listed (wk_app_deploy (pa_manifest x) re k).2).
Definition refuses (I : W -> Prop) (x : PlanApp) : Prop := forall re k, I k -> address_of (pa_manifest x) ∉ listed k ->
  address_of (pa_manifest x) ∉ listed (wk_app_deploy (pa_manifest x) re k).2.

Section Deploys.
Context (I : W -> Prop) (HI : stable I).
Definition in_I (w : BWorld) : Prop := I (wk w).
Lemma on_worker_I {A} (m : M W anyhow A) : preserves I m -> preserves in_I (on_worker m).
Proof. intros Hm w Hw. unfold on_worker, zoom, in_I. specialize (Hm (wk w) Hw). by destruct (m (wk w)). Qed.
Lemma dl_read_I cid : preserves in_I (dl_read disk cid).
Proof. by intros w. Qed.
Lemma worker_calls_I : preserves in_I (on_worker wk_info) /\ (forall s c, preserves in_I (on_worker (wk_app_list s c))) /\
  (forall h, preserves in_I (on_worker (wk_blob_exists h))) /\
  (forall h d, preserves in_I (on_worker (wk_blob_put h d))) /\
  (forall m re, preserves in_I (on_worker (wk_app_deploy m re))) /\
  (forall a, preserves in_I (on_worker (wk_app_remove a))).
Proof using Type HI. destruct HI as (?&?&?&?&?&?). split_and!; intros; by apply on_worker_I. Qed.

Lemma upload_deps_I deps : preserves in_I (upload_deps parse_cid disk deps).
Proof using Type HI.
  destruct worker_calls_I as (_ & _ & He & Hp & _ & _).
  induction deps as [|[h c] deps IH]; cbn [upload_deps]; preserve; apply dl_read_I.
Qed.
Lemma deploy_one_I e : preserves in_I (deploy_one parse_cid disk e).
Proof using Type HI.
  destruct worker_calls_I as (_ & _ & _ & _ & Hd & _). pose proof upload_deps_I. unfold deploy_one. preserve.
Qed.
Lemma get_running_I : preserves in_I get_running_apps.
Proof using Type HI.
  destruct worker_calls_I as (_ & Hl & _). unfold get_running_apps. preserve.
  apply preserves_fold_m. intros. unfold add_running. preserve.
Qed.

Lemma upload_deps_go deps : (forall h c d k, (h, c) ∈ deps -> I k -> is_ok (wk_blob_put h d k).1 = true) ->
  forall (w w' : BWorld) go, in_I w -> upload_deps parse_cid disk deps w = (Ok go, w') -> go = true.
Proof using Type HI.
  destruct worker_calls_I as (_ & _ & He & Hp & _ & _).
  induction deps as [|[h c] deps IH]; intros Hput w w' go Hw; cbn [upload_deps]; [by intros [= <- <-]|].
  assert (IH' := IH ltac:(intros; eapply Hput; [by right|done])).
  intros [([] & w1 & H1 & H2)|(e & _ & ?)]%bind_inv; [| |done];
    (apply (preserves_run in_I) in H1; [|done|done]); [by eapply IH'|].
  apply bind_inv in H2 as [(cid & w2 & [_ <-]%pair_equal_spec & H2)|(e & _ & ?)]; [|done].
  apply bind_inv in H2 as [(data & w3 & [_ <-]%pair_equal_spec & H3)|(e & _ & ?)]; [|done].
  apply bind_inv in H3 as [(blob & w4 & [_ <-]%pair_equal_spec & H4)|(e & _ & ?)]; [|done].
  apply bind_inv in H4 as [(r & w5 & H5 & H6)|(e & _ & ?)]; [|done].
  pose proof (preserves_run in_I _ _ _ _ H5 (preserves_attempt _ _ (Hp h blob)) H1) as Hw5.
  revert H5. unfold attempt, on_worker, zoom. specialize (Hput h c blob (wk w1) ltac:(by left) H1).
  destruct (wk_blob_put h blob (wk w1)) as [[]]; [|done]. intros [= <- _]. by eapply IH'.
Qed.
Lemma deploy_one_listed a x (w w' : BWorld) : in_I w -> accepts I (plan w) x ->
  deploy_one parse_cid disk (a, x) w = (Ok tt, w') -> address_of (pa_manifest x) ∈ listed (wk w').
Proof using Type HI.
  intros Hw [Hput Hdep]. unfold deploy_one. rewrite gets_bind.
  destruct (app_deps (plan w) x) as [deps|] eqn:Hdeps; [|done].
  change (lift (ok_or (Some deps) ?e) ≫= ?k) with (k deps).
  intros [(go & w2 & H2 & H3)|(e & _ & ?)]%bind_inv; [|done].
  pose proof (preserves_run in_I _ _ _ _ H2 (upload_deps_I deps) Hw) as Hw2.
  apply upload_deps_go in H2 as ->; [|by eauto|done]. cbn [negb] in H3. rewrite gets_bind in H3.
  revert H3. unfold attempt, on_worker, zoom. m_unfold.
  match goal with |- context [wk_app_deploy ?m ?re ?k] => specialize (Hdep re k Hw2); destruct (wk_app_deploy m re k) end.
  by intros [= <-].
Qed.
Lemma deploy_loop_listed b l : forall (w w' : BWorld), in_I w -> bridge_state w = b ->
  for_each (deploy_one parse_cid disk) l w = (Ok tt, w') ->
  forall a x, (a, x) ∈ l -> accepts I (planning_state b) x -> address_of (pa_manifest x) ∈ listed (wk w').
Proof using Type HI.
  clear json_score_gas json_manifest decode_score.
  induction l as [|[c y] l IH]; intros w w' Hw Hb; cbn [for_each]; [set_solver|].
  intros [([] & w1 & H1 & H2)|(e & _ & ?)]%bind_inv a x; [|done].
  pose proof (preserves_run _ _ _ _ _ H1 (deploy_one_same b (c, y)) Hb) as Hb1.
  pose proof (preserves_run _ _ _ _ _ H1 (deploy_one_I (c, y)) Hw) as Hw1.
  intros [[= -> ->]|Hin]%elem_of_cons Hy; [|by eapply IH].
  apply deploy_one_listed in H1; [|done|by rewrite Hb].
  assert (Hbt : between {[address_of (pa_manifest y)]} (fun _ => True) w1) by (split; set_solver).
  apply (deploy_loop_between _ _ l) in Hbt; [|done]. rewrite H2 in Hbt. destruct Hbt as [Hbt _]. set_solver.
Qed.

(** An address that the worker does not have and that is not deployed. *)
Definition without (a : bytes) (w : BWorld) : Prop := in_I w /\ a ∉ listed (wk w).
Lemma on_worker_without a {A} (m : M W anyhow A) : preserves I m -> (forall k, I k -> a ∉ listed k -> a ∉ listed (m k).2) ->
  preserves (without a) (on_worker m).
Proof using Type.
  clear parse_cid json_score_gas json_manifest disk decode_score.
  intros Hm Ha w [Hw Hn]. unfold on_worker, zoom, without, in_I in *. specialize (Hm (wk w) Hw). specialize (Ha (wk w) Hw Hn).
  by destruct (m (wk w)).
Qed.
Lemma upload_deps_without a deps : preserves (without a) (upload_deps parse_cid disk deps).
Proof using Type HI.
  destruct HI as (_ & _ & He & Hp & _).
  assert (Hex : forall h, preserves (without a) (on_worker (wk_blob_exists h)))
    by (intros h; apply on_worker_without; [done|]; intros k _; by rewrite blob_exists_listed).
  assert (Hput : forall h d, preserves (without a) (on_worker (wk_blob_put h d)))
    by (intros h d; apply on_worker_without; [done|]; intros k _; by rewrite blob_put_listed).
  assert (Hrd : forall cid, preserves (without a) (dl_read disk cid)) by (by intros cid w).
  induction deps as [|[h c] deps IH]; cbn [upload_deps]; preserve.
Qed.
Lemma deploy_one_without a e : (address_of (pa_manifest e.2) = a -> refuses I e.2) -> preserves (without a) (deploy_one parse_cid disk e).
Proof using Type HI.
  clear json_score_gas json_manifest decode_score.
  intros Hr. destruct e as [b x]. pose proof (upload_deps_without a). unfold deploy_one. preserve.
  apply preserves_attempt, on_worker_without; [apply HI|]. intros k Hk Hn. simpl in *.
  destruct (decide (address_of (pa_manifest x) = a)) as [<-|Hne]; [by apply Hr|].
  match goal with |- context [wk_app_deploy ?m ?re k] => pose proof (deploy_listed m re k) end. set_solver.
Qed.

(** Removing: a failure is only logged.  What is still listed afterwards was not to be
    removed, or the worker failed to remove it. *)
Lemma remove_one_run a (w : BWorld) : in_I w -> zlen a = 32 -> exists w1, remove_one a w = (Ok tt, w1) /\ in_I w1 /\
  listed (wk w1) = if is_ok (wk_app_remove a (wk w)).1 then listed (wk w) ∖ {[ a ]} else listed (wk w).
Proof using Type HI.
  clear parse_cid json_score_gas json_manifest disk decode_score.
  intros Hw Ha. destruct HI as (_ & _ & _ & _ & _ & Hrm). specialize (Hrm a (wk w) Hw).
  unfold remove_one, attempt, on_worker, zoom, in_I. m_unfold. pose proof (remove_listed a (wk w) Ha) as Hl.
  destruct (wk_app_remove a (wk w)) as [r k]. simpl in *. by eexists.
Qed.
Lemma remove_loop l : Forall (fun a => zlen a = 32) l -> forall (w : BWorld), in_I w ->
  let w' := (for_each remove_one l w).2 in
  listed (wk w') ⊆ listed (wk w) /\ listed (wk w) ∖ list_to_set l ⊆ listed (wk w') /\
  (forall a, a ∈ l -> a ∈ listed (wk w') -> exists k, I k /\ a ∈ listed k /\ is_ok (wk_app_remove a k).1 = false) /\
  (forall a, a ∈ listed (wk w) -> (forall k, I k -> a ∈ listed k -> is_ok (wk_app_remove a k).1 = false) -> a ∈ listed (wk w')).
Proof using Type HI.
  clear parse_cid json_score_gas json_manifest disk decode_score.
  induction 1 as [|a l Ha _ IH]; intros w Hw; cbn [for_each]; [set_solver|].
  destruct (remove_one_run a w Hw Ha) as (w1 & H1 & Hw1 & Hl1). rewrite (bind_Ok _ _ _ _ _ H1).
  destruct (IH w1 Hw1) as (Hsub & Hsup & Hfail & Hkeep). clear IH. set (w' := (for_each remove_one l w1).2) in *. simpl.
  split_and!.
  - etrans; [exact Hsub|]. rewrite Hl1. destruct (is_ok _); set_solver.
  - etrans; [|exact Hsup]. rewrite Hl1. destruct (is_ok _); set_solver.
  - intros b [-> |Hb]%elem_of_cons Hin; [|by apply Hfail]. destruct (is_ok _) eqn:Hok in Hl1; [set_solver|].
    exists (wk w). split_and!; [done| |done]. rewrite <- Hl1. by apply Hsub.
  - intros b Hb Hno. apply Hkeep; [|done]. rewrite Hl1. destruct (is_ok _) eqn:Hok; [|done].
    destruct (decide (b = a)) as [->|]; [|set_solver]. by rewrite (Hno (wk w)) in Hok.
Qed.
End Deploys.

(** The phases of a successful call: looking, deploying, removing. *)
Lemma apply_plan_phases (w w' : BWorld) : listable (wk w) -> apply_plan w = (Ok tt, w') ->
  let selected := selected_apps (plan w) in
  exists to_deploy to_remove (w2 w3 : BWorld),
    (forall a x, (a, x) ∈ to_deploy <-> selected !! a = Some x /\ a ∉ listed (wk w)) /\
    (forall a, a ∈ to_remove <-> a ∈ listed (wk w) ∖ dom selected) /\
    bridge_state w2 = bridge_state w /\ listed (wk w2) = listed (wk w) /\
    (forall I, stable I -> I (wk w) -> I (wk w2)) /\
    for_each (deploy_one parse_cid disk) to_deploy w2 = (Ok tt, w3) /\
    for_each remove_one to_remove w3 = (Ok tt, w').
Proof.
  clear json_score_gas json_manifest decode_score.
  intros Hlb Hap selected. unfold Bridge.apply_plan in Hap.
  apply bind_inv in Hap as [(info & w1 & H1 & Hap)|(e & _ & ?)]; [|done].
  assert (Hl1 : listed (wk w1) = listed (wk w)).
  { revert H1. unfold on_worker, zoom. pose proof (info_listed (wk w)). destruct (wk_info (wk w)).
    by intros [_ <-]%pair_equal_spec. }
  pose proof (preserves_run _ _ _ _ _ H1 (on_worker_bridge (bridge_state w) wk_info) eq_refl) as Hb1.
  apply bind_inv in Hap as [(running & w2 & H2 & Hap)|(e & _ & ?)]; [|done].
  pose proof (preserves_run _ _ _ _ _ H2 (get_running_same (bridge_state w)) Hb1) as Hb2.
  pose proof H2 as Hget. apply get_running_spec in H2 as [Hrun Hl2]; [|unfold listable; by rewrite Hl1].
  unfold same_bridge in Hb2. rewrite gets_bind, Hb2 in Hap. fold selected in Hap. rewrite Hl1 in Hrun, Hl2.
  apply bind_inv in Hap as [([] & w3 & H3 & Hap)|(e & _ & ?)]; [|done].
  eexists _, _, w2, w3. split_and!; [| |done|done| |exact H3|exact Hap].
  - intros a x. rewrite list_elem_of_filter, elem_of_btree_iter, <- Hrun, <- not_elem_of_dom. tauto.
  - intros a. rewrite list_elem_of_filter, elem_of_btree_keys, Hrun, elem_of_difference, not_elem_of_dom. tauto.
  - intros I HI Hw. apply (preserves_run _ _ _ _ _ Hget (get_running_I I HI)).
    exact (preserves_run _ _ _ _ _ H1 (proj1 (worker_calls_I I HI)) Hw).
Qed.

(** One pass, app by app. *)
Lemma apply_plan_spec (w w' : BWorld) (I : W -> Prop) :
  bridge_inv (bridge_state w) -> listable (wk w) -> stable I -> I (wk w) -> apply_plan w = (Ok tt, w') ->
  let selected := selected_apps (plan w) in
  listed (wk w') ⊆ listed (wk w) ∪ dom selected /\
  listed (wk w) ∩ dom selected ⊆ listed (wk w') /\
  (forall a, a ∈ listed (wk w') -> a ∉ dom selected -> exists k, I k /\ a ∈ listed k /\ is_ok (wk_app_remove a k).1 = false) /\
  (forall a x, selected !! a = Some x -> accepts I (plan w) x -> a ∈ listed (wk w')) /\
  (forall a x, selected !! a = Some x -> a ∉ listed (wk w) -> refuses I x -> a ∉ listed (wk w')) /\
  (forall a, a ∈ listed (wk w) -> (forall k, I k -> a ∈ listed k -> is_ok (wk_app_remove a k).1 = false) -> a ∈ listed (wk w')).
Proof.
  clear json_score_gas json_manifest decode_score.
  intros Hb Hlb HI Hw Hap selected.
  destruct (apply_plan_phases _ _ Hlb Hap) as (to_deploy & to_remove & w2 & w3 & Hdep & Hrem & Hb2 & Hl2 & HI2 & H3 & H4).
  fold selected in Hdep, Hrem. specialize (HI2 I HI Hw).
  assert (Haddr : forall a x, selected !! a = Some x -> address_of (pa_manifest x) = a) by (intros a x Hx; by apply (bi_selected _ Hb _ _ Hx)).
  assert (Hbt : between (listed (wk w2)) (fun a => a ∈ listed (wk w) \/ a ∈ dom selected) w3).
  { apply (preserves_run _ _ _ _ _ H3); [apply deploy_loop_between|split; [done|rewrite Hl2; auto]].
    intros [a x] [Hx _]%Hdep. simpl. rewrite (Haddr a x Hx). right. by eapply elem_of_dom_2. }
  destruct Hbt as [HL HU]. rewrite Hl2 in HL.
  assert (Hw3 : in_I I w3) by (apply (preserves_run _ _ _ _ _ H3); [apply preserves_for_each; intros e _; by apply deploy_one_I|done]).
  assert (H32 : Forall (fun a => zlen a = 32) to_remove).
  { apply Forall_forall. intros a [Ha _]%Hrem%elem_of_difference. by apply Hlb. }
  destruct (remove_loop I HI to_remove H32 w3 Hw3) as (Hsub & Hsup & Hfail & Hkeep). rewrite H4 in Hsub, Hsup, Hfail, Hkeep. simpl in *.
  assert (Hsel : forall a, a ∈ dom selected -> a ∈ listed (wk w3) -> a ∈ listed (wk w')).
  { intros a Ha Hin. apply Hsup, elem_of_difference. split; [done|]. rewrite elem_of_list_to_set, Hrem. set_solver. }
  split_and!.
  - intros a Ha. destruct (HU a (Hsub a Ha)); set_solver.
  - intros a [Ha Hs]%elem_of_intersection. apply Hsel; auto.
  - intros a Ha Hn. apply Hfail; [|done]. apply Hrem. destruct (HU a (Hsub a Ha)); set_solver.
  - intros a x Hx Hacc. apply Hsel; [by eapply elem_of_dom_2|]. destruct (decide (a ∈ listed (wk w))) as [Ha|Ha]; [by apply HL|].
    rewrite <- (Haddr a x Hx). eapply (deploy_loop_listed I HI _ _ w2 w3 HI2 Hb2 H3 a x); [by apply Hdep|done].
  - intros a x Hx Hn Href. assert (Hno : without I a w3); [|destruct Hno as [_ Hno]; set_solver].
    apply (preserves_run _ _ _ _ _ H3); [|by split; [|rewrite Hl2]]. apply preserves_for_each. intros [c y] [Hy _]%Hdep.
    apply (deploy_one_without I HI). simpl. intros Hc. rewrite (Haddr c y Hy) in Hc. subst c. by simplify_eq.
  - intros a Ha Hno. apply Hkeep; auto.
Qed.

End Convergence.

(** ** Settlement *)
Lemma sorted_ids (X : gset Z) : StronglySorted Z.lt (sort_by Z.leb (elements X)).
Proof.
  assert (Hs : StronglySorted (fun x y => Z.leb x y = true) (sort_by Z.leb (elements X))).
  { assert (H1 : StronglySorted (sorted_by Z.leb (fun _ _ => True)) (sort_by Z.leb (elements X))).
    { apply sort_by_sorted; [intros; rewrite !Z.leb_le; lia|intros *; rewrite !Z.leb_le; lia|].
      induction (elements X); constructor; [done|]. by apply Forall_true. }
    induction H1 as [|x l _ IH Hx]; constructor; [done|]. eapply Forall_impl; [exact Hx|]. by intros ? []. }
  assert (Hn : NoDup (sort_by Z.leb (elements X))) by (rewrite sort_by_perm; apply NoDup_elements).
  induction Hs as [|x l _ IH Hx]; constructor; apply NoDup_cons in Hn as [Hx' Hn]; [auto|].
  rewrite Forall_forall in Hx |- *. intros y Hy. specialize (Hx y Hy). apply Z.leb_le in Hx.
  assert (x <> y) by (by intros ->). lia.
Qed.
Lemma firstn_sorted {A} (R : A -> A -> Prop) n l : StronglySorted R l -> StronglySorted R (firstn n l).
Proof. intros Hs. rewrite <- (firstn_skipn n l) in Hs. by apply StronglySorted_app in Hs as (_ & ? & _). Qed.

Lemma omap_length_le {A B} (f : A -> option B) l : (length (omap f l) <= length l)%nat.
Proof. induction l as [|x l IH]; csimpl; [done|]. destruct (f x); csimpl; lia. Qed.

(** What is claimed for a settlement: at most 64 apps, each of them in the
    metrics report, with between one and three of its tickets in increasing order,
    every one a ticket of the chain that names the app and is meant for this
    worker. *)
Theorem settlement_claims b metrics : bridge_inv b ->
  let claims := claim_map (all_apps (planning_state b)) metrics in
  zlen claims <= 64 /\
  forall a ids, (a, ids) ∈ claims ->
    a ∈ am_address <$> bv (asm_apps metrics) /\
    1 <= zlen ids <= 3 /\ StronglySorted Z.lt ids /\
    forall id, id ∈ ids -> exists info, tickets (chain_state b) !! id = Some info /\ ti_address info = a /\
      is_ticket_for_worker (worker_pubkey b) (chain_state b) info = true.
Proof.
  intros Hb claims. split.
  - unfold claims, claim_map, zlen. etransitivity; [apply inj_le, omap_length_le|].
    rewrite length_take. change (Z.to_nat MAX_APPS_METRICS) with 64%nat. lia.
  - intros a ids (m & Hm & Hc)%list_elem_of_omap. unfold claim_entry in Hc.
    destruct (all_apps (planning_state b) !! am_address m) as [x|] eqn:Hx; simplify_eq/=.
    destruct (bi_all _ Hb _ _ Hx) as (_ & Hne & Ht). split_and!.
    + apply list_elem_of_fmap_2. by eapply subseteq_take.
    + unfold zlen. rewrite length_take, sort_by_perm. change MAX_CLAIM_TICKETS with 3%nat.
      assert (length (elements (associated_tickets x)) <> 0%nat); [|lia].
      intros He%nil_length_inv. by apply elements_empty_inv, leibniz_equiv in He.
    + unfold zlen. rewrite length_take. change MAX_CLAIM_TICKETS with 3%nat. lia.
    + apply firstn_sorted, sorted_ids.
    + intros id Hid%subseteq_take. rewrite sort_by_perm, elem_of_elements in Hid.
      destruct (Ht _ Hid) as (t & Hl & Hta). destruct (bi_tickets _ Hb _ _ Hl). eauto.
Qed.

(** ** Failures *)
Lemma attempt_run {S E A} (m : M S E A) s : attempt m s = (Ok (m s).1, (m s).2).
Proof. unfold attempt. by destruct (m s). Qed.
Lemma attempt_bind {S E A B} (m : M S E A) (k : result E A -> M S E B) s :
  (attempt m ≫= k) s = k (m s).1 (m s).2.
Proof. unfold mbind, M_bind. by rewrite attempt_run. Qed.

(** The reports that come before a new chain state, and the state after it. *)
Definition reports (now : Z) (w : BWorld) : BWorld :=
  let w := set_client w (node w, jar_reset (jar w)) in
  let w := (maybe_report_bench_score blake2_256 decode_score w).2 in
  let w := (maybe_report_init_score json_score_gas decode_score w).2 in
  (maybe_report_app_metrics now w).2.
Abbreviation update_plan := (update_plan blake2_256 encode_manifest json_manifest parse_cid disk).
Lemma step_chain_state now cs (w : BWorld) : bridge_step now (EvChainState (Some cs)) w =
  (Ok tt, (maybe_sync_bench_app (update_plan (set_chain_state cs (reports now w))).2).2).
Proof.
  unfold Bridge.bridge_step. rewrite modify_bind. unfold mbind at 1, M_bind at 1. rewrite !attempt_bind.
  cbn [ok_or]. rewrite lift_Ok_bind, modify_bind. unfold mret at 1, M_ret at 1. cbn [negb].
  by rewrite !attempt_bind.
Qed.

(** A plan that is not finished leaves the benchmark app as it was. *)
Definition bench_is (o : option (bytes * Z)) (w : BWorld) : Prop := ps_bench_app (plan w) = o.
Lemma same_bench o {A} (m : M BWorld anyhow A) : (forall b, preserves (same_bridge b) m) -> preserves (bench_is o) m.
Proof.
  intros Hm w Hw. unfold bench_is. specialize (Hm (bridge_state w) w eq_refl). unfold same_bridge in Hm.
  by rewrite Hm.
Qed.
Lemma resolve_one_bench o e : preserves (bench_is o) (resolve_one json_manifest parse_cid disk e).
Proof.
  destruct e as [id info]. unfold resolve_one. preserve; [|by apply preserves_modify].
  apply preserves_attempt, same_bench. intros. apply try_resolve_same.
Qed.
Lemma plan_ticket_bench o acc e : preserves (bench_is o) (plan_ticket acc e).
Proof.
  destruct e as [id t]. unfold Bridge.plan_ticket, ticket_balance. preserve; [|by apply preserves_modify].
  apply preserves_in_context, same_bench. intros. apply on_chain_same.
Qed.
Lemma make_plan_err_bench (w w' : BWorld) e : make_plan w = (Err e, w') -> ps_bench_app (plan w') = ps_bench_app (plan w).
Proof.
  unfold Bridge.make_plan. set (o := ps_bench_app (plan w)). assert (Hw : bench_is o w) by done.
  assert (Hr : preserves (bench_is o) try_resolve_deps).
  { unfold Bridge.try_resolve_deps. preserve. apply preserves_for_each. intros. apply resolve_one_bench. }
  assert (Hi : preserves (bench_is o) (on_worker wk_info)) by (apply same_bench; intros; apply on_worker_bridge).
  intros [(? & w1 & H1 & H2)|(e' & H1 & _)]%bind_inv; (apply (preserves_run _ _ _ _ _ H1 Hr) in Hw); [|done].
  apply bind_inv in H2 as [(? & w2 & H2 & H3)|(e' & H2 & _)]; (apply (preserves_run _ _ _ _ _ H2 Hi) in Hw); [|done].
  rewrite gets_bind in H3. apply bind_inv in H3 as [(? & w3 & H3 & [=])|(e' & H3 & _)].
  apply (preserves_run (bench_is o) _ _ _ _ H3); [|done]. apply preserves_fold_m. intros. apply plan_ticket_bench.
Qed.

(** C33: failures.  The loop of the bridge ends exactly when the chain monitor or
    the downloader's event channel is gone (a receiver that lags behind counts as
    that); every other failure, of the worker, the chain or the gateway, is
    survived.  But a pass that fails before its plan is made, right after a new
    chain state, tells the worker that there is no benchmark app, whatever the
    chain recommends. *)
Theorem bridge_failures :
  (forall now ev (w : BWorld) e, (bridge_step now ev w).1 = Err e <->
     (ev = EvChainState None /\ e = Msg "chain state monitor ended") \/
     (exists e', ev = EvDownloader (Err e') /\ e = Ctx "downloader event channel closed" e')) /\
  (forall now cs (w w' : BWorld) e, make_plan (set_chain_state cs (reports now w)) = (Err e, w') ->
     wk (bridge_step now (EvChainState (Some cs)) w).2 = (wk_set_bench_app None 0 (wk w')).2).
Proof.
  split.
  - intros now [|[cs|]|[[c|c err]|e']] w e.
    + unfold Bridge.bridge_step. rewrite modify_bind. unfold mbind at 1, M_bind at 1, mret at 1, M_ret at 1. cbn [negb].
      rewrite !attempt_bind. naive_solver.
    + rewrite step_chain_state. naive_solver.
    + unfold Bridge.bridge_step. rewrite modify_bind. unfold mbind at 1, M_bind at 1. rewrite !attempt_bind.
      simpl. naive_solver.
    + unfold Bridge.bridge_step. rewrite modify_bind. unfold mbind at 1, M_bind at 1. simpl.
      rewrite !attempt_bind. simpl. naive_solver.
    + simpl. naive_solver.
    + simpl. naive_solver.
  - intros now cs w w' e Hm. pose proof (make_plan_err_bench _ _ _ Hm) as Hn. rewrite step_chain_state.
    cbn [snd]. unfold Bridge.update_plan, mbind, M_bind. rewrite Hm. cbn [snd].
    unfold maybe_sync_bench_app. rewrite gets_bind, Hn. cbn. unfold in_context, on_worker, zoom.
    by destruct (wk_set_bench_app None 0 (wk w')).
Qed.
End Facts.
