(* ===== verification/BridgeWorker.v ===== *)
(** * The bridge with the worker of this development

    The RPC service over the worker's state and its blob store implements the
    interface the bridge relies on, so that the bridge's guarantees hold for the
    two together. *)
From S2P Require Import Prelude Ordered Ocall OcallDef Meter Blobs Service Worker WorkerFacts QuerySignature Types Rpc Downloader ChainClient Bridge BridgeFacts.

(** ** Operations that keep the set of apps *)
Definition app_set (w : WorkerState) : gset bytes := dom (apps w).
Definition same_apps (d : gset bytes) (w : WorkerState) : Prop := app_set w = d.

Lemma queries_same_apps w w' : (forall x, queries w' x = queries w x) -> app_set w' = app_set w.
Proof.
  intros Hq. apply set_eq. intros x. unfold app_set. rewrite !elem_of_dom.
  specialize (Hq x). unfold queries in Hq.
  destruct (apps w !! x), (apps w' !! x); simpl in Hq; try done; split; intros [? [=]]; eauto.
Qed.
Lemma resize_apps d now order a count tmo : preserves (same_apps d) (resize_app_instances now order a count tmo).
Proof.
  intros w <-. apply queries_same_apps. intros x.
  by apply (resize_queries (queries w) now order a count tmo w (fun _ => eq_refl)).
Qed.
Lemma get_app_apps d a err : preserves (same_apps d) (get_app a err).
Proof. by intros w. Qed.
Lemma update_apps d w a app app' : apps w !! a = Some app -> same_apps d w ->
  same_apps d (set_apps w (<[a := app']> (apps w))).
Proof.
  intros Ha <-. unfold same_apps, app_set. simpl. rewrite dom_insert_L.
  apply elem_of_dom_2 in Ha. set_solver.
Qed.
Lemma begin_query_apps d a sz : preserves (same_apps d) (begin_query a sz).
Proof.
  intros w Hw. unfold begin_query, get_app, put_app. m_unfold.
  destruct (apps w !! a) as [app|] eqn:Ha; simpl; [|done]. destruct (_ <? _); simpl; [done|]. by eapply update_apps.
Qed.
Lemma end_query_apps d now a i : preserves (same_apps d) (end_query now a i).
Proof.
  intros w Hw. unfold end_query, get_app, put_app. m_unfold.
  destruct (apps w !! a) as [app|] eqn:Ha; simpl; [|done]. destruct i as [sn|]; simpl; [|by eapply update_apps].
  destruct (instances app !! sn); simpl; [by eapply update_apps|done].
Qed.
Lemma with_context_apps d {A} msg (m : WorkerM A) : preserves (same_apps d) m -> preserves (same_apps d) (with_context msg m).
Proof. intros Hm w Hw. specialize (Hm w Hw). unfold with_context. by destruct (m w). Qed.
#[local] Hint Resolve resize_apps get_app_apps begin_query_apps end_query_apps with_context_apps : wapo.
Lemma or_drop_apps d {A} now g (m : WorkerM A) : preserves (same_apps d) m -> preserves (same_apps d) (or_drop now g m).
Proof.
  intros Hm w Hw. specialize (Hm w Hw). unfold or_drop. destruct (m w) as [[]]; [done|]. simpl in *.
  by apply end_query_apps.
Qed.
Lemma try_inc_apps d now order a : preserves (same_apps d) (try_inc_instances now order a).
Proof. unfold try_inc_instances. preserve. Qed.
#[local] Hint Resolve try_inc_apps : wapo.
Lemma prepare_apps d now order a sz st : preserves (same_apps d) (prepare_instance_for_query now order a sz st).
Proof.
  unfold prepare_instance_for_query. preserve; apply or_drop_apps; [apply with_context_apps; preserve|apply try_inc_apps].
Qed.
#[local] Hint Resolve prepare_apps : wapo.
Lemma query_apps d now order a path payload st reply : preserves (same_apps d) (query now order a path payload st reply).
Proof.
  unfold query. apply preserves_bind; [eauto with wapo|]. intros g w Hw. unfold with_guard.
  assert (Hq : preserves (same_apps d) (sn ← query_target g; lift (reply sn))).
  { unfold query_target. preserve. }
  specialize (Hq w Hw). destruct ((sn ← query_target g; lift (reply sn)) w) as [r w1]. simpl in *.
  by apply end_query_apps.
Qed.
Lemma bump_apps d : preserves (same_apps d) bump_metrics_sn.
Proof. by intros w Hw. Qed.
#[local] Hint Resolve bump_apps : wapo.

(** Deploying adds the app, if it gets past the checks, and nothing else. *)
Lemma insert_app_apps now a rnd m ar re w r w' : insert_app now a rnd m ar re w = (r, w') ->
  match r with Ok _ => app_set w' = {[ a ]} ∪ app_set w | Err _ => w' = w end.
Proof.
  unfold insert_app. m_unfold. destruct (bool_decide _); simpl; intros [<- <-]%pair_equal_spec; [done|].
  unfold app_set. simpl. by rewrite dom_insert_L.
Qed.
Lemma deploy_app_in now order sz a rnd m ar re st w : check_manifest sz m = Ok tt ->
  a ∈ app_set (deploy_app now order sz a rnd m ar re st w).2.
Proof.
  intros Hc. unfold deploy_app. rewrite Hc, lift_Ok_bind.
  destruct (insert_app now a rnd m ar re w) as [[[]|e] w1] eqn:Hi.
  - rewrite (bind_Ok _ _ _ _ _ Hi). apply insert_app_apps in Hi.
    match goal with |- context [(?k w1).2] =>
      assert (Hk : preserves (same_apps (app_set w1)) k) by preserve; specialize (Hk w1 eq_refl) end.
    unfold same_apps in Hk. rewrite Hk, Hi. set_solver.
  - rewrite (bind_Err _ _ _ _ _ Hi). revert Hi. unfold insert_app. m_unfold. case_bool_decide as Hp; [|done].
    intros [_ <-]%pair_equal_spec. by apply elem_of_dom.
Qed.
Lemma deploy_app_apps now order sz a rnd m ar re st w r w' :
  deploy_app now order sz a rnd m ar re st w = (r, w') ->
  match r with
  | Ok info => ai_address info = a /\ app_set w' = {[ a ]} ∪ app_set w
  | Err _ => app_set w' = app_set w \/ app_set w' = {[ a ]} ∪ app_set w
  end.
Proof.
  unfold deploy_app. intros [(? & w0 & [_ <-]%pair_equal_spec & Hd)|(e & [_ <-]%pair_equal_spec & ->)]%bind_inv; [|by left].
  apply bind_inv in Hd as [([] & w1 & Hi & Hd)|(e & Hi & ->)]; apply insert_app_apps in Hi; [|left; by rewrite Hi].
  apply bind_inv in Hd as [([] & w2 & Hs & Hd)|(e & Hs & ->)];
    (apply (preserves_run (same_apps (app_set w1))) in Hs; [|preserve|done]); unfold same_apps in Hs.
  - unfold get_app in Hd. revert Hd. m_unfold.
    destruct (apps w2 !! a); simpl; intros [<- <-]%pair_equal_spec; [split; [done|]|right]; congruence.
  - right. congruence.
Qed.

(** ** The implementation *)
Record Server : Type := MkServer { sv_worker : WorkerState; sv_blobs : Fs }.
Definition set_worker (s : Server) (w : WorkerState) : Server := MkServer w (sv_blobs s).
Definition set_blobs (s : Server) (f : Fs) : Server := MkServer (sv_worker s) f.

(** What the worker gets from outside at each call: the time, the random session
    of a new app, whether its first instance started, the replies of instances,
    and the names and read sizes of uploads. *)
Section Server.
Context (blake2_256 : bytes -> bytes) (encode_manifest : AppManifest -> bytes) (size_hint : AppManifest -> Z).
Context (account_from_string : bytes -> result anyhow bytes) (key_sign : ContentType -> bytes -> bytes)
  (encode_update : SessionUpdate -> bytes) (encode_token : MetricsToken -> bytes).
Context `{ScaleCodec (list AppMetrics)} `{Digest}.
Context (pubkey : bytes) (now : Z) (rnd uuid cnonce : bytes) (chunk : nat -> nat)
  (started : result anyhow unit) (reply : Z -> result anyhow bytes)
  (sign_info : bytes -> option bytes -> Z -> result anyhow (bytes * option bytes)).

Abbreviation ServerM := (M Server anyhow).
Definition on_state {A} (m : WorkerM A) : ServerM A := zoom sv_worker set_worker m.
(** A hash map is iterated in the order of its representation. *)
Definition iteration (w : WorkerState) : list bytes := (map_to_list (apps w)).*1.
Definition with_order {A} (m : list bytes -> WorkerM A) : ServerM A := fun s =>
  on_state (m (iteration (sv_worker s))) s.

Definition server_info (w : WorkerState) : WorkerInfo :=
  MkWorkerInfo pubkey (max_instances (w_args w)) (default [] (session w)).

(** The messages of the RPC service; [decode_address] of a message is the decoder
    of 32 bytes. *)
#[export] Instance ServerApi : WorkerApi Server := {
  wk_info := on_state (gets server_info);
  wk_app_list start count := with_order (fun order =>
    (fmap (fun i => (ai_address i, ai_running_instances i))) <$> app_list now order start count);
  wk_blob_exists h := fun s => (Ok (blob_exists h (sv_blobs s)), s);
  wk_blob_put h body := zoom sv_blobs set_blobs (put_object chunk uuid h body;; mret tt);
  wk_app_deploy m reuse := with_order (fun order =>
    fst <$> app_deploy now order (size_hint m) (blake2_256 (encode_manifest m)) rnd (Some m) reuse started);
  wk_app_remove a := on_state (app_remove decode_bytes32 a);
  wk_app_remove_all := on_state clear;
  wk_worker_init pnonce recipient :=
    on_state (worker_init account_from_string blake2_256 key_sign encode_update cnonce pnonce recipient);
  wk_set_bench_app a n := with_order (fun order => rpc_set_bench_app now order (Ok a) n started);
  wk_app_metrics := with_order (fun order =>
    app_metrics_report decode_bytes32 key_sign encode_token now order [] []);
  wk_app_query a path := with_order (fun order => query now order a (lit path) [] started reply);
  wk_sign_register_info g o p := lift (sign_info g o p)
}.

(** ** Its promises *)
Lemma on_state_apps {A} (m : WorkerM A) s : preserves (same_apps (app_set (sv_worker s))) m ->
  app_set (sv_worker (on_state m s).2) = app_set (sv_worker s).
Proof. intros Hm. unfold on_state, zoom. specialize (Hm (sv_worker s) eq_refl). by destruct (m (sv_worker s)). Qed.
Lemma with_order_apps {A} (m : list bytes -> WorkerM A) s :
  (forall order, preserves (same_apps (app_set (sv_worker s))) (m order)) ->
  app_set (sv_worker (with_order m s).2) = app_set (sv_worker s).
Proof. intros Hm. by apply on_state_apps. Qed.

Lemma blobs_apps {A} (m : M Fs anyhow A) s : app_set (sv_worker (zoom sv_blobs set_blobs m s).2) = app_set (sv_worker s).
Proof. unfold zoom. by destruct (m (sv_blobs s)). Qed.

Lemma set_bench_apps d order a n : preserves (same_apps d) (rpc_set_bench_app now order (Ok a) n started).
Proof.
  unfold rpc_set_bench_app. apply preserves_bind; [by intros w|]. intros []. destruct a; unfold resize_app; preserve.
Qed.
Lemma metrics_apps d order :
  preserves (same_apps d) (app_metrics_report decode_bytes32 key_sign encode_token now order [] []).
Proof. unfold app_metrics_report. preserve. Qed.
Lemma init_apps d pnonce recipient : preserves (same_apps d)
  (worker_init account_from_string blake2_256 key_sign encode_update cnonce pnonce recipient).
Proof.
  unfold worker_init, init. preserve. by apply preserves_modify.
Qed.

Lemma app_list_keys order (s : Server) : order = iteration (sv_worker s) ->
  Z.of_nat (size (app_set (sv_worker s))) <= int_max U32 ->
  list_to_set (ai_address <$> list_apps now order 0 (int_max U32) (sv_worker s)) = app_set (sv_worker s).
Proof.
  intros -> Hsz. unfold list_apps, iteration. rewrite drop_0.
  unfold iter_take. rewrite (proj2 (Z.leb_le _ _)).
  2: { unfold zlen. rewrite length_fmap, length_map_to_list. unfold app_set in Hsz. by rewrite size_dom in Hsz. }
  apply set_eq. intros a. rewrite elem_of_list_to_set, list_elem_of_fmap. unfold app_set. rewrite elem_of_dom. split.
  - intros (i & -> & Hi). apply list_elem_of_omap in Hi as (x & _ & Hx).
    destruct (apps (sv_worker s) !! x) as [app|] eqn:Ha; simplify_eq/=. eauto.
  - intros [app Ha]. exists (app_info now a app). split; [done|]. apply list_elem_of_omap. exists a.
    split; [|by rewrite Ha]. apply (list_elem_of_fmap_2 fst (map_to_list _) (a, app)). by apply elem_of_map_to_list.
Qed.

Abbreviation address := (fun m => blake2_256 (encode_manifest m)).
Lemma app_deploy_apps order m reuse w r w' :
  (fst <$> app_deploy now order (size_hint m) (address m) rnd (Some m) reuse started) w = (r, w') ->
  match r with
  | Ok a => a = address m /\ app_set w' = {[ address m ]} ∪ app_set w
  | Err _ => app_set w' = app_set w \/ app_set w' = {[ address m ]} ∪ app_set w
  end.
Proof.
  unfold app_deploy. m_unfold. destruct (session w); simpl; [|intros [<- <-]%pair_equal_spec; by left].
  unfold with_context. destruct (deploy_app _ _ _ _ _ _ _ _ _ w) as [r1 w1] eqn:Hd. apply deploy_app_apps in Hd.
  destruct r1; simpl; intros [<- <-]%pair_equal_spec; done.
Qed.

Lemma server_deploy m reuse (s s' : Server) r : wk_app_deploy m reuse s = (r, s') ->
  match r with
  | Ok a => a = address m /\ app_set (sv_worker s') = {[ address m ]} ∪ app_set (sv_worker s)
  | Err _ => app_set (sv_worker s') = app_set (sv_worker s) \/
             app_set (sv_worker s') = {[ address m ]} ∪ app_set (sv_worker s)
  end.
Proof.
  simpl. unfold with_order, on_state, zoom.
  match goal with |- context [let '(_, _) := ?m in _] => destruct m as [r1 w] eqn:Hd end.
  apply app_deploy_apps in Hd. by intros [<- <-]%pair_equal_spec.
Qed.
Lemma remove_app_apps a s : let r := on_state (remove_app a;; mret tt) s in
  is_ok r.1 = bool_decide (a ∈ app_set (sv_worker s)) /\
  app_set (sv_worker r.2) = app_set (sv_worker s) ∖ {[ a ]}.
Proof.
  unfold on_state, zoom, remove_app, get_app, app_set. m_unfold.
  destruct (apps (sv_worker s) !! a) as [app|] eqn:Ha; simpl.
  - rewrite bool_decide_true by (by eapply elem_of_dom_2). by rewrite dom_delete_L.
  - apply not_elem_of_dom in Ha. rewrite bool_decide_false by done. set_solver.
Qed.
Lemma app_remove_sub a s : app_set (sv_worker (on_state (app_remove decode_bytes32 a) s).2) ⊆ app_set (sv_worker s).
Proof.
  unfold app_remove. destruct (decode_bytes32 a) as [b|e]; [|done].
  destruct (remove_app_apps b s) as [_ Hr]. simpl in Hr.
  change (lift (Ok b) ≫= ?k) with (k b). set_solver.
Qed.
Lemma app_remove_ok a s : zlen a = 32 -> let r := on_state (app_remove decode_bytes32 a) s in
  is_ok r.1 = bool_decide (a ∈ app_set (sv_worker s)) /\
  app_set (sv_worker r.2) = app_set (sv_worker s) ∖ {[ a ]}.
Proof.
  intros Ha. unfold app_remove. rewrite (decode_bytes32_ok _ Ha). exact (remove_app_apps a s).
Qed.
Lemma app_remove_apps a s : zlen a = 32 -> let r := on_state (app_remove decode_bytes32 a) s in
  app_set (sv_worker r.2) = (if is_ok r.1 then app_set (sv_worker s) ∖ {[ a ]} else app_set (sv_worker s)).
Proof.
  intros Ha r. destruct (app_remove_ok a s Ha) as [Hok Hr]. fold r in Hok, Hr. rewrite Hok, Hr.
  case_bool_decide; set_solver.
Qed.

#[export] Instance ServerLaws : WorkerLaws address Server.
Proof.
  refine {| listed s := app_set (sv_worker s) |}; try (intros; reflexivity).
  - intros h b k. apply blobs_apps.
  - intros n r k. apply on_state_apps, init_apps.
  - intros a n k. apply with_order_apps. intros. apply set_bench_apps.
  - intros k. apply with_order_apps. intros. apply metrics_apps.
  - intros a s k. apply with_order_apps. intros. apply query_apps.
  - intros k. simpl. unfold app_set. simpl. set_solver.
  - intros m re k. destruct (wk_app_deploy m re k) as [[a|e] k'] eqn:Hd; apply server_deploy in Hd; simpl; set_solver.
  - intros m re k a k' Hd%server_deploy. set_solver.
  - intros a k. apply app_remove_sub.
  - intros a k Ha. by apply app_remove_apps.
  - intros k l k'. simpl. unfold with_order, on_state, zoom, app_list. m_unfold. simpl.
    intros [[= <-] _]%pair_equal_spec Hsz. rewrite <- list_fmap_compose. by apply app_list_keys.
Defined.

(** It removes what it lists, and keeps its session; with one, it takes every
    manifest that passes the checks, and no other. *)
Lemma server_removes a (k : Server) : zlen a = 32 -> a ∈ app_set (sv_worker k) -> is_ok (wk_app_remove a k).1 = true.
Proof.
  intros Ha Hin. destruct (app_remove_ok a k Ha) as [Hok _]. simpl in *. rewrite Hok. by apply bool_decide_true.
Qed.

Definition has_session (s : Server) : Prop := is_Some (session (sv_worker s)).
Lemma on_state_session {A} (m : WorkerM A) : (forall o, preserves (fun w => session w = o) m) -> preserves has_session (on_state m).
Proof.
  intros Hm s [o Ho]. unfold on_state, zoom, has_session. specialize (Hm _ (sv_worker s) Ho).
  destruct (m (sv_worker s)) as [r w]. simpl in *. by exists o.
Qed.
Lemma start_many_session o a lim n : preserves (fun w => session w = o) (start_many now a lim n).
Proof.
  induction n as [|n IH]; cbn [start_many]; preserve.
  intros w Hw. unfold start_app, get_app, put_app. m_unfold. destruct (apps w !! a); simpl; [|done].
  by destruct (_ && _).
Qed.
Lemma resize_session o order a count : preserves (fun w => session w = o) (resize_app_instances now order a count None).
Proof.
  unfold resize_app_instances, get_app, put_app. preserve; [by intros ?|apply start_many_session|by apply preserves_modify].
Qed.
Lemma app_deploy_session o order m reuse : preserves (fun w => session w = o)
  (fst <$> app_deploy now order (size_hint m) (address m) rnd (Some m) reuse started).
Proof.
  unfold app_deploy, deploy_app, insert_app, get_app. pose proof resize_session.
  assert (Hc : forall A (x : WorkerM A), preserves (fun w => session w = o) x ->
    preserves (fun w => session w = o) (with_context "failed to deploy app" x)).
  { intros A x Hx w Hw. specialize (Hx w Hw). unfold with_context. by destruct (x w). }
  preserve. apply Hc. preserve; [by apply preserves_modify|by intros ?].
Qed.
Lemma server_takes m : check_manifest (size_hint m) m = Ok tt -> forall re (k : Server), has_session k ->
  address m ∈ app_set (sv_worker (wk_app_deploy m re k).2).
Proof.
  intros Hm re k [ses Hses]. simpl. unfold with_order, on_state, zoom.
  match goal with |- context [let '(_, _) := ?x in _] => assert (Hin : address m ∈ app_set x.2); [|by destruct x] end.
  unfold app_deploy. m_unfold. rewrite Hses. simpl. unfold with_context.
  match goal with |- context [deploy_app ?n ?o ?sz ?a ?r ?m ?ar ?re ?st ?w] =>
    pose proof (deploy_app_in n o sz a r m ar re st w Hm) as Hin; by destruct (deploy_app n o sz a r m ar re st w) as [[]] end.
Qed.
Lemma server_refuses m e : check_manifest (size_hint m) m = Err e -> forall re (k : Server),
  address m ∉ app_set (sv_worker k) -> address m ∉ app_set (sv_worker (wk_app_deploy m re k).2).
Proof.
  intros Hm re k. simpl. unfold with_order, on_state, zoom, app_deploy, with_context, deploy_app. m_unfold. by destruct (session (sv_worker k)); simpl; rewrite ?Hm.
Qed.
Lemma app_remove_session o a : preserves (fun w => session w = o) (app_remove decode_bytes32 a).
Proof. unfold app_remove, remove_app, get_app. preserve; by intros ?. Qed.
Lemma server_stable : stable (W := Server) has_session.
Proof.
  split_and!.
  - apply on_state_session. by intros o w.
  - intros s c k Hk. exact Hk.
  - intros h k Hk. exact Hk.
  - intros h d k Hk. unfold has_session. simpl. unfold zoom.
    by match goal with |- context [let '(_, _) := ?m in _] => destruct m end.
  - intros m re k Hk. apply on_state_session; [|done]. intros o. apply app_deploy_session.
  - intros a k Hk. apply on_state_session; [|done]. intros o. apply app_remove_session.
Qed.
End Server.

(** ** A bridge at work

    A small world: the digest pads to 32 bytes, a manifest is encoded as its label,
    and a file is the label of a manifest; the one labelled 4 has an unknown version. *)
Module Toy.
Definition digest (b : bytes) : bytes := firstn 32 (b ++ replicate 32 0).
Definition manifest_of (l : bytes) : AppManifest := MkManifest (if bool_decide (l = [4]) then 2 else 1) [] [] [] true false 1024 l [].
Definition json (d : bytes) : result anyhow AppManifest :=
  match d with [] => Err (Msg "invalid") | _ => Ok (manifest_of d) end.
Definition app_address (l : bytes) : bytes := digest l.

(** A chain with balances, the account nonce, and the transactions it got. *)
Record Chain : Type := MkChain { balances : gmap Z Z; account_nonce : Z; got : list (Tx * Z) }.
#[export] Instance chain_store : ChainStore Chain := {
  ch_registered _ := mret true;
  ch_session _ := mret None;
  ch_computing _ := mret true;
  ch_ticket_balance id := fun c => (ok_or (balances c !! id) (Msg "no balance"), c);
  ch_para_id := mret 2004;
  ch_genesis_hash := []
}.
#[export] Instance chain_node : Node Tx Chain := {
  SignedTx := (Tx * Z)%type;
  node_latest_block := mret ([], 1);
  node_account_nonce := gets account_nonce;
  node_validate _ := mret tt;
  node_finalized_ref := mret [];
  node_header _ := mret (Some (1, []));
  node_sign call _ nonce := mret (call, nonce);
  node_submit tx := modify (fun c => MkChain (balances c) (account_nonce c + 1) (got c ++ [tx]));
  node_wait_finalized _ := mret tt
}.

#[export] Instance codec : ScaleCodec (list AppMetrics) := {
  scale_encode _ := []; scale_decode _ := Some [] }.
#[export] Instance toy_digest : Digest := {
  hasher := bytes; hasher_new _ := []; hasher_update h b := h ++ b; hasher_finalize h := digest h }.
Definition pubkey : bytes := replicate 32 3.
#[export] Instance api : WorkerApi Server := ServerApi digest (label) (fun _ => 0) (fun b => Ok b)
  (fun _ b => b) (fun _ => []) (fun _ => []) pubkey 5 [] [] [] (fun n => n) (Ok tt) (fun _ => Ok [])
  (fun _ _ _ => Ok ([], None)).
#[export] Instance laws : WorkerLaws (manifest_address digest label) Server (H := api) := ServerLaws _ _ _ _ _ _ _ _ _ _ _ _ _ _ _ _.

(** The worker runs an app whose ticket is gone. *)
Definition old_label : bytes := [9].
Definition server : Server := MkServer
  ((deploy_app 0 [] 0 (app_address old_label) [] (manifest_of old_label) true true (Ok tt)
     (MkWorker ∅ (MkArgs 0 4 10) (Some [1]) 0 None 0 0 0)).2) (MkFs ∅ []).
Definition ticket (l cid : bytes) : TicketInfo := MkTicketInfo (app_address l) cid (WorkerList 7).
(** Ticket 3 names an app that its manifest is not. *)
Definition cs : ChainState := MkChainState
  {[ 1 := ticket [5] [101]; 2 := ticket [6] [102]; 3 := ticket [7] [102]; 4 := ticket [6] [102];
     5 := ticket [8] [103] ]}
  ∅ {[ 7 := [pubkey] ]} None ∅ None.
Definition cfg : BridgeConfig := MkConfig 2 600 [] [] [] 10 true.
Definition world : World := MkWorld
  (MkBridge pubkey PlanningState_default cs cfg 0 false) server
  (MkChain {[ 1 := 10; 2 := 4; 3 := 99; 4 := 7; 5 := 3 ]} 40 []) (MkJar None)
  (downloader_new {[ [101] := [5]; [102] := [6]; [103] := [8] ]}).
Abbreviation make_plan := (make_plan digest label json (fun c => Ok c) (fun d => Ok d)).
Abbreviation apply_plan := (apply_plan (fun c => Ok c) (fun d => Ok d)).

(** Apps 5 and 6 are paid best: 10, and 4 and 7; app 8 is not selected. *)
Example planned : dom (selected_apps (planning_state (bridge_state (make_plan world).2))) =
  ({[ app_address [5]; app_address [6] ]} : gset bytes).
Proof. vm_compute. reflexivity. Qed.

Lemma world_inv : bridge_inv digest label (bridge_state world).
Proof. apply bridge_inv_fresh. Qed.
Definition planned_world : World := (make_plan world).2.
Lemma planned_inv : bridge_inv digest label (bridge_state planned_world).
Proof.
  assert (Hw : within digest label pubkey (fun _ => True) world) by (split; [apply world_inv|done]).
  by apply (make_plan_within digest label json (fun c => Ok c) (fun d => Ok d) pubkey (fun _ => True)) in Hw as [Hw _].
Qed.

Lemma plan_is_best_witness :
  make_plan world = (Ok tt, planned_world) /\
  size (selected_apps (planning_state (bridge_state planned_world))) = 2%nat.
Proof.
  assert (H : make_plan world = (Ok tt, planned_world)) by (vm_compute; reflexivity).
  split; [exact H|].
  destruct (plan_is_best digest label json (fun c => Ok c) (fun d => Ok d) world planned_world H) as (_ & Hs & _).
  rewrite Hs. vm_compute. reflexivity.
Defined.

Abbreviation bridge_run := (bridge_run digest label json (fun _ => Ok 0) (fun c => Ok c) (fun b => Ok b) (fun d => Ok d)).
Lemma deployed5 : app_address [5] ∈ listed (wk (bridge_run [(1, EvMonitorEnd)] world).2).
Proof. unfold listed, laws, ServerLaws, app_set. apply elem_of_dom. vm_compute. eexists. reflexivity. Qed.
Lemma bridge_deploys_authorized_witness :
  app_address [5] ∈ listed (wk (bridge_run [(1, EvMonitorEnd)] world).2) /\
  (app_address [5] ∈ listed (wk world) \/
   authorized (worker_pubkey (bridge_state world)) (chain_state (bridge_state world)) (app_address [5]) \/
   exists now cs, (now, EvChainState (Some cs)) ∈ [(1, EvMonitorEnd)] /\
     authorized (worker_pubkey (bridge_state world)) cs (app_address [5])).
Proof.
  split; [exact deployed5|].
  pose proof (bridge_deploys_authorized digest label json (fun _ => Ok 0) (fun c => Ok c) (fun b => Ok b) (fun d => Ok d)
    [(1, EvMonitorEnd)] world world_inv) as Ht. cbv zeta in Ht. apply Ht. exact deployed5.
Defined.

(** App 4, which the worker refuses, comes before app 5; the app that runs has no ticket. *)
Definition refusing_world : World := MkWorld
  (MkBridge pubkey PlanningState_default
     (MkChainState {[ 1 := ticket [5] [101]; 2 := ticket [4] [104] ]} ∅ {[ 7 := [pubkey] ]} None ∅ None) cfg 0 false)
  server (MkChain {[ 1 := 10; 2 := 40 ]} 40 []) (MkJar None) (downloader_new {[ [101] := [5]; [104] := [4] ]}).
Definition refusing_planned : World := (make_plan refusing_world).2.
Lemma refusing_inv : bridge_inv digest label (bridge_state refusing_planned).
Proof.
  assert (Hw : within digest label pubkey (fun _ => True) refusing_world) by (split; [apply bridge_inv_fresh|done]).
  by apply (make_plan_within digest label json (fun c => Ok c) (fun d => Ok d) pubkey (fun _ => True)) in Hw as [Hw _].
Qed.
(** The manifests need no blobs; one of them passes the checks. *)
Lemma refusing_answers a x : selected_apps (planning_state (bridge_state refusing_planned)) !! a = Some x ->
  if decide (a ∈ ({[ app_address [5] ]} : gset bytes)) then accepts digest label has_session (planning_state (bridge_state refusing_planned)) x
  else refuses digest label has_session x.
Proof.
  assert (Hc : map_Forall (fun a x => app_deps (planning_state (bridge_state refusing_planned)) x = Some [] /\
    is_ok (check_manifest 0 (pa_manifest x)) = bool_decide (a = app_address [5]))
    (selected_apps (planning_state (bridge_state refusing_planned)))).
  { apply map_Forall_to_list. vm_compute. repeat constructor. }
  intros Hx. destruct (Hc a x Hx) as [Hd Hm]. clear Hx. destruct (decide (a ∈ _)) as [Ha|Ha]; rewrite elem_of_singleton in Ha.
  - rewrite bool_decide_true in Hm by done. destruct (check_manifest 0 (pa_manifest x)) as [[]|] eqn:Hk; [|done]. split.
    + intros deps h c d k. rewrite Hd. intros [= <-] Hin. by apply elem_of_nil in Hin.
    + intros re k Hs. by apply (server_takes digest label (fun _ => 0)).
  - rewrite bool_decide_false in Hm by done. destruct (check_manifest 0 (pa_manifest x)) as [|e] eqn:Hk; [done|].
    intros re k _ Hn. eapply (server_refuses digest label (fun _ => 0)); [exact Hk|exact Hn].
Qed.

Lemma settlement_claims_witness :
  let metrics := MkAppsMetrics {| mt_sn := 1; mt_session := []; mt_nonce := [] |}
    (MkBounded [MkAppMetrics (app_address [6]) [] 0 0 0 0 0 0 0 0 0 0]) in
  claim_map (all_apps (planning_state (bridge_state planned_world))) metrics = [(app_address [6], [2; 4])] /\
  zlen (claim_map (all_apps (planning_state (bridge_state planned_world))) metrics) <= 64.
Proof.
  intros metrics. split; [vm_compute; reflexivity|].
  exact (proj1 (settlement_claims digest label (bridge_state planned_world) metrics planned_inv)).
Defined.

(** The chain recommends app 5 as benchmark, but does not give any balance. *)
Definition bench_cs : ChainState := MkChainState (tickets cs) ∅ (worker_list_workers cs) (Some (app_address [5])) ∅ None.
Definition poor_world : World := set_node (set_wk world
  (MkServer ((set_bench_app (Some (app_address [5])) 4 (sv_worker server)).2) (MkFs ∅ []))) (MkChain ∅ 40 []).
Abbreviation bridge_step := (bridge_step digest label json (fun _ => Ok 0) (fun c => Ok c) (fun b => Ok b) (fun d => Ok d)).
Abbreviation failed_world := (make_plan (set_chain_state bench_cs
  (reports digest (fun _ => Ok 0) (fun b => Ok b) 0 poor_world))).
Lemma bridge_failures_witness :
  bench_app (sv_worker (wk poor_world)) = Some (app_address [5]) /\
  wk (bridge_step 0 (EvChainState (Some bench_cs)) poor_world).2 = (wk_set_bench_app None 0 (wk failed_world.2)).2 /\
  bench_app (sv_worker (wk_set_bench_app None 0 (wk failed_world.2)).2) = None.
Proof.
  split; [vm_compute; reflexivity|]. split; [|vm_compute; reflexivity].
  destruct (bridge_failures digest label json (fun _ => Ok 0) (fun c => Ok c) (fun b => Ok b) (fun d => Ok d)) as [_ H].
  destruct failed_world as [[[]|e] w'] eqn:Hf; [vm_compute in Hf; discriminate Hf|].
  exact (H 0 bench_cs poor_world w' e Hf).
Defined.
End Toy.
