(* ===== verification/Monitor.v ===== *)
(** * The chain monitor (wapod-pherry/src/chain_state.rs)

    [monitor_chain_state] keeps a subscription to finalized blocks alive: it connects,
    subscribes, reads each block's state and hands it to the bridge through a channel
    of one place; whatever fails or takes too long ends the connection, and after a
    pause it starts again.  It is polled inside the bridge's [select!], so any time may
    pass between two polls.  Times are in seconds. *)
From S2P Require Import Prelude ChainClient.

Definition NET_TIMEOUT : Z := 60.
Definition DATA_TIMEOUT : Z := 120.
Definition BLOCK_TIMEOUT : Z := 60.
Definition retry_pause : Z := 5.

(** Where [monitor] waits, and since when; reading a block and sending its state share
    one timeout. *)
Inductive mon_phase : Type :=
| Connecting
| Subscribing
| WaitingBlock
| Fetching (b : Block)
| Sending (st : ChainState)
| Sleeping.
Record Mon : Type := MkMon {
  mp : mon_phase;
  since : Z;
  (** the channel, the states that the bridge has received, the blocks that the
      subscriptions gave, and the errors that were logged *)
  mchan : option ChainState;
  received : list ChainState;
  offered : list Block;
  mon_log : list anyhow
}.
Definition mon_start (now : Z) : Mon := MkMon Connecting now None [] [] [].
Definition goto (p : mon_phase) (since : Z) (m : Mon) : Mon :=
  MkMon p since (mchan m) (received m) (offered m) (mon_log m).
(** The error is logged; then the pause. *)
Definition mon_fail (e : anyhow) (now : Z) (m : Mon) : Mon :=
  MkMon Sleeping now (mchan m) (received m) (offered m) (mon_log m ++ [e]).

(** What the awaited future gives when it is polled. *)
Inductive mon_io : Type :=
| IoPending
| IoConnected (r : result anyhow unit)
| IoSubscribed (r : result anyhow unit)
| IoBlock (b : option (result anyhow Block))
| IoFetched.

(** [timeout]: only a future that is not ready is timed out. *)
Definition pending (limit : Z) (msg : string) (now : Z) (m : Mon) : Mon :=
  if limit <=? now - since m then mon_fail (Msg msg) now m else m.
(** One await of [monitor_chain_state] polled at [now]. *)
Definition mon_poll (now : Z) (io : mon_io) (m : Mon) : Mon :=
  match mp m with
  | Connecting =>
    match io with
    | IoConnected r =>
      match context "connect to chain failed" r with Ok _ => goto Subscribing now m | Err e => mon_fail e now m end
    | _ => pending NET_TIMEOUT "connect to chain timeout" now m
    end
  | Subscribing =>
    match io with
    | IoSubscribed r =>
      match context "block subscription failed" r with Ok _ => goto WaitingBlock now m | Err e => mon_fail e now m end
    | _ => pending NET_TIMEOUT "block subscription timeout" now m
    end
  | WaitingBlock =>
    match io with
    | IoBlock None => mon_fail (Msg "block subscription ended") now m
    | IoBlock (Some r) =>
      match context "block subscription failed" r with
      | Ok b => MkMon (Fetching b) now (mchan m) (received m) (offered m ++ [b]) (mon_log m)
      | Err e => mon_fail e now m
      end
    | _ => pending BLOCK_TIMEOUT "block subscription timeout" now m
    end
  | Fetching b =>
    match io with
    | IoFetched => match fetch_state b with Ok st => goto (Sending st) (since m) m | Err e => mon_fail e now m end
    | _ => pending DATA_TIMEOUT "fetch chain state timeout" now m
    end
  | Sending st =>
    match mchan m with
    | None => MkMon WaitingBlock now (Some st) (received m) (offered m) (mon_log m)
    | Some _ => pending DATA_TIMEOUT "fetch chain state timeout" now m
    end
  | Sleeping => if retry_pause <=? now - since m then goto Connecting now m else m
  end.
(** The bridge takes a state from the channel. *)
Definition mon_recv (m : Mon) : Mon :=
  match mchan m with
  | Some st => MkMon (mp m) (since m) None (received m ++ [st]) (offered m) (mon_log m)
  | None => m
  end.
Inductive mon_event : Type := MonPoll (now : Z) (io : mon_io) | MonRecv.
Definition mon_step (m : Mon) (ev : mon_event) : Mon :=
  match ev with MonPoll now io => mon_poll now io m | MonRecv => mon_recv m end.

(** ** The states that the bridge gets *)
Definition read_states (bs : list Block) : list ChainState :=
  omap (fun b => match fetch_state b with Ok st => Some st | Err _ => None end) bs.
Definition in_flight (m : Mon) : list ChainState := match mp m with Sending st => [st] | _ => [] end.
(** Received, waiting and about to be sent: in the order of the blocks; the block being read is the last. *)
Definition mon_ok (m : Mon) : Prop :=
  match mp m with
  | Fetching b => exists bs, offered m = bs ++ [b] /\ received m ++ option_list (mchan m) `sublist_of` read_states bs
  | _ => received m ++ option_list (mchan m) ++ in_flight m `sublist_of` read_states (offered m)
  end.

Lemma read_states_app bs bs' : read_states (bs ++ bs') = read_states bs ++ read_states bs'.
Proof. apply omap_app. Qed.
(** A step that gives up the phase keeps what was received. *)
Lemma ok_received m : mon_ok m -> received m ++ option_list (mchan m) `sublist_of` read_states (offered m).
Proof.
  unfold mon_ok, in_flight. destruct (mp m); rewrite ?app_nil_r; try done.
  - intros (bs & -> & Hs). rewrite read_states_app. by apply sublist_inserts_r.
  - rewrite (assoc_L (++)). intros Hs. etrans; [|exact Hs]. by apply sublist_inserts_r.
Qed.
Lemma ok_idle p m t l : mon_ok m -> (forall b, p <> Fetching b) -> (forall st, p <> Sending st) ->
  mon_ok (MkMon p t (mchan m) (received m) (offered m) l).
Proof.
  intros Hm%ok_received Hf Hs. unfold mon_ok, in_flight. destruct p; try (by destruct (Hf b)); try (by destruct (Hs st));
    simpl; by rewrite app_nil_r.
Qed.
Lemma ok_pending limit msg now m : mon_ok m -> mon_ok (pending limit msg now m).
Proof. intros Hm. unfold pending. case_match; [by apply ok_idle|done]. Qed.

Lemma poll_ok now io m : mon_ok m -> mon_ok (mon_poll now io m).
Proof.
  intros Hm. assert (Hfail : forall e, mon_ok (mon_fail e now m)) by (intros e; by apply ok_idle).
  unfold mon_poll. destruct (mp m) as [| | |b|st|] eqn:Hp.
  - destruct io; try by apply ok_pending. destruct r; [by apply ok_idle|apply Hfail].
  - destruct io; try by apply ok_pending. destruct r; [by apply ok_idle|apply Hfail].
  - destruct io as [| | |[[b|e]|]|]; try (by apply ok_pending); try apply Hfail.
    cbn. exists (offered m). split; [done|]. by apply ok_received.
  - destruct io; try by apply ok_pending. destruct (fetch_state b) as [st|e] eqn:Hf; [|apply Hfail].
    unfold mon_ok in Hm. rewrite Hp in Hm. destruct Hm as (bs & Ho & Hs). unfold mon_ok, in_flight, goto. simpl.
    rewrite Ho, read_states_app, (assoc_L (++)). apply sublist_app; [done|]. unfold read_states. simpl. by rewrite Hf.
  - unfold mon_ok in Hm. rewrite Hp in Hm. unfold in_flight in Hm. rewrite Hp in Hm. destruct (mchan m) eqn:Hc; simpl.
    + apply ok_pending. unfold mon_ok, in_flight. by rewrite Hp, Hc.
    + exact Hm.
  - case_match; [by apply ok_idle|]. exact Hm.
Qed.
Lemma recv_ok m : mon_ok m -> mon_ok (mon_recv m).
Proof.
  intros Hm. unfold mon_recv. destruct (mchan m) as [st|] eqn:Hc; [|done]. unfold mon_ok, in_flight in *. rewrite Hc in Hm.
  simpl. destruct (mp m); rewrite <- ?(assoc_L (++)) in *; done.
Qed.

(** ** The monitor recovers *)

(** What the awaited future is waiting for, with [b] as the next block. *)
Definition served (b : Block) (m : Mon) : mon_io :=
  match mp m with
  | Connecting => IoConnected (Ok tt)
  | Subscribing => IoSubscribed (Ok tt)
  | WaitingBlock => IoBlock (Some (Ok b))
  | Fetching _ => IoFetched
  | _ => IoPending
  end.
(** A poll whose await is answered, after which the bridge takes what is there. *)
Definition mon_round (b : Block) (m : Mon) (now : Z) : Mon := mon_recv (mon_poll now (served b m) (mon_recv m)).
Fixpoint spaced (t : Z) (ts : list Z) : Prop :=
  match ts with [] => True | x :: ts => t + retry_pause <= x /\ spaced x ts end.

Lemma spaced_le t t' ts : t' <= t -> spaced t ts -> spaced t' ts.
Proof. destruct ts; [done|]. simpl. intros ? [? ?]. split; [lia|done]. Qed.
Lemma recv_phase m : mp (mon_recv m) = mp m /\ since (mon_recv m) = since m /\ mchan (mon_recv m) = None.
Proof. unfold mon_recv. by destruct (mchan m) eqn:Hc. Qed.
Lemma recv_keeps st m : st ∈ received m -> st ∈ received (mon_recv m).
Proof. unfold mon_recv. destruct (mchan m); simpl; [|done]. intros ?. apply elem_of_app. by left. Qed.
Lemma poll_keeps now io m : received (mon_poll now io m) = received m.
Proof. unfold mon_poll, pending. repeat case_match; done. Qed.
Lemma poll_since now io m : since m <= now -> since (mon_poll now io m) <= now.
Proof. intros ?. unfold mon_poll, pending. repeat case_match; simpl; lia. Qed.
Lemma rounds_keep b st ts : forall m, st ∈ received m -> st ∈ received (foldl (mon_round b) m ts).
Proof.
  induction ts as [|t ts IH]; intros m Hm; [done|]. apply IH. unfold mon_round. apply recv_keeps. rewrite poll_keeps. by apply recv_keeps.
Qed.

Section Recovery.
Context (b : Block) (st : ChainState) (reads : fetch_state b = Ok st).
(** The state of [b] is received within [n] rounds. *)
Definition within (n : nat) (m : Mon) : Prop :=
  forall ts, (n <= length ts)%nat -> spaced (since m) ts -> st ∈ received (foldl (mon_round b) m ts).
Lemma within_round n m : (forall now, since m + retry_pause <= now -> within n (mon_round b m now)) -> within (S n) m.
Proof.
  intros Hw [|t ts] Hlen Hs; [simpl in Hlen; lia|]. simpl in Hlen, Hs. destruct Hs as [Ht Hs]. simpl.
  apply Hw; [done|lia|]. eapply spaced_le, Hs. unfold mon_round. destruct (recv_phase (mon_poll t (served b m) (mon_recv m))) as (_ & -> & _).
  apply poll_since. destruct (recv_phase m) as (_ & -> & _). unfold retry_pause in Ht. lia.
Qed.
Lemma within_le n k m : (n <= k)%nat -> within n m -> within k m.
Proof. intros Hnk Hn ts Hlen. apply Hn. lia. Qed.
(** One round, by the phase it starts in. *)
Lemma round_goes m now p : mp (mon_poll now (served b m) (mon_recv m)) = p -> mp (mon_round b m now) = p.
Proof. intros Hp. unfold mon_round. by destruct (recv_phase (mon_poll now (served b m) (mon_recv m))) as (-> & _). Qed.
Ltac one_round m Hp := apply round_goes; unfold mon_poll, served; destruct (recv_phase m) as (-> & Hsince & ->); rewrite ?Hsince, Hp; simpl.

Lemma within_sending m : mp m = Sending st -> within 1 m.
Proof.
  intros Hp. apply within_round. intros now _ ts _ _. apply rounds_keep. unfold mon_round, mon_poll.
  destruct (recv_phase m) as (-> & _ & ->). rewrite Hp. unfold mon_recv at 1. simpl. apply elem_of_app. right. by left.
Qed.
Lemma within_fetching m : mp m = Fetching b -> within 2 m.
Proof. intros Hp. apply within_round. intros now _. apply within_sending. one_round m Hp. by rewrite reads. Qed.
Lemma within_waiting m : mp m = WaitingBlock -> within 3 m.
Proof. intros Hp. apply within_round. intros now _. apply within_fetching. by one_round m Hp. Qed.
Lemma within_subscribing m : mp m = Subscribing -> within 4 m.
Proof. intros Hp. apply within_round. intros now _. apply within_waiting. by one_round m Hp. Qed.
Lemma within_connecting m : mp m = Connecting -> within 5 m.
Proof. intros Hp. apply within_round. intros now _. apply within_subscribing. by one_round m Hp. Qed.
Lemma within_sleeping m : mp m = Sleeping -> within 6 m.
Proof.
  intros Hp. apply within_round. intros now Hnow. apply within_connecting. one_round m Hp.
  destruct (Z.leb_spec retry_pause (now - since m)); [done|lia].
Qed.
Lemma within_any m : within 7 m.
Proof.
  destruct (mp m) as [| | |b'|st'|] eqn:Hp.
  - eapply within_le, within_connecting; [lia|done].
  - eapply within_le, within_subscribing; [lia|done].
  - eapply within_le, within_waiting; [lia|done].
  - apply within_round. intros now _. destruct (fetch_state b') as [st'|] eqn:Hf.
    + eapply (within_le 4); [lia|]. apply within_round. intros now' _. apply within_waiting.
      assert (Hs : mp (mon_round b m now) = Sending st') by (one_round m Hp; by rewrite Hf). by one_round (mon_round b m now) Hs.
    + apply within_sleeping. one_round m Hp. by rewrite Hf.
  - eapply (within_le 4); [lia|]. apply within_round. intros now _. apply within_waiting. by one_round m Hp.
  - eapply within_le, within_sleeping; [lia|done].
Qed.
End Recovery.

(** C17: the chain monitor: whatever node, network and bridge do and however long the
    bridge does not poll it, the states that the bridge receives, with one that may
    wait for it, are those of finalized blocks that a subscription gave, in their
    order and none twice.  No await lasts for more than two minutes of polling: a poll
    that late always goes on.  And from whatever state failures left it in, once its
    awaits are answered, the state of a readable block is received after at most seven
    polls that are five seconds apart. *)
Theorem monitor_delivers now evs : let m := foldl mon_step (mon_start now) evs in
  received m ++ option_list (mchan m) `sublist_of` read_states (offered m) /\
  (forall io t, since m + DATA_TIMEOUT <= t -> mp (mon_poll t io m) <> mp m) /\
  (forall b st ts, fetch_state b = Ok st -> (7 <= length ts)%nat -> spaced (since m) ts ->
     st ∈ received (foldl (mon_round b) m ts)).
Proof.
  intros m. assert (Hok : mon_ok m).
  { assert (H0 : mon_ok (mon_start now)) by apply sublist_nil_l. subst m. revert H0. generalize (mon_start now).
    induction evs as [|[t io|] evs IH]; intros m Hm; [done|apply IH; by apply poll_ok|apply IH; by apply recv_ok]. }
  split; [by apply ok_received|]. split.
  - intros io t Ht. clear Hok. unfold mon_poll, pending, DATA_TIMEOUT, NET_TIMEOUT, BLOCK_TIMEOUT, retry_pause in *.
    destruct (mp m) eqn:Hp; repeat case_match; simpl; try done; try lia.
  - intros b st ts Hb Hlen Hs. by apply (within_any b st Hb).
Qed.

(** A state that the bridge does not take in time is lost, with the connection: sending it
    is under the timeout of reading it. *)
Lemma slow_bridge_loses_state m st c now io : mp m = Sending st -> mchan m = Some c -> since m + DATA_TIMEOUT <= now ->
  let m' := mon_poll now io m in
  mp m' = Sleeping /\ mchan m' = Some c /\ received m' = received m /\ mon_log m' = mon_log m ++ [Msg "fetch chain state timeout"].
Proof.
  intros Hp Hc Hnow. unfold mon_poll, pending. rewrite Hp, Hc. destruct (Z.leb_spec DATA_TIMEOUT (now - since m)); [|lia]. by rewrite <- Hc.
Qed.

Lemma monitor_delivers_witness :
  let m := foldl mon_step (mon_start 0) [MonPoll 1 (IoConnected (Err (Msg "refused")))] in
  mp m = Sleeping /\ exists st, fetch_state demo_block = Ok st /\
    st ∈ received (foldl (mon_round demo_block) m [10; 20; 30; 40; 50; 60; 70]).
Proof.
  intros m. split; [reflexivity|]. exists (match fetch_state demo_block with Ok st => st | Err _ => ChainState_default end).
  assert (Hb : fetch_state demo_block = Ok (match fetch_state demo_block with Ok st => st | Err _ => ChainState_default end))
    by (vm_compute; reflexivity).
  split; [exact Hb|].
  refine (proj2 (proj2 (monitor_delivers 0 [MonPoll 1 (IoConnected (Err (Msg "refused")))])) demo_block _ _ Hb _ _).
  - simpl. lia.
  - cbv. repeat split; discriminate.
Defined.
