(* ===== verification/Deploy.v ===== *)
(** * Building and deploying apps (wapod-pherry/src/deploy.rs)

    The builder collects the files an app needs under their digest and cid and
    writes its manifest; the ticket made for it names the manifest.  What it
    builds is what the bridge resolves: see [built_app_resolves]. *)
From S2P Require Import Prelude Ordered OcallError ArgsStack Ocall OcallDef Meter Resource Blobs TcpAcl Worker Types Prices Rpc WebApi Downloader ChainClient Bridge.

(** [output_dir] is where the build goes, "build" unless given. *)
Record DeployConfig : Type := MkDeploy {
  output_dir : option bytes;
  wasm_code : bytes;
  dc_args : list bytes;
  dc_env_vars : gmap bytes bytes;
  dc_on_demand : bool;
  dc_resizable : bool;
  dc_max_query_size : Z;
  dc_label : bytes;
  dc_deps : list bytes
}.

(** The output directory: its blobs and manifest.json.  [writes] schedules the
    writes to come: [Some n] makes one fail after [n] bytes. *)
Record Build : Type := MkBuild {
  out_blobs : gmap bytes bytes;
  out_manifest : option bytes;
  writes : list (option nat)
}.
Abbreviation BuildM := (M Build anyhow).

(** [std::fs::write], with what is left in the file. *)
Definition write_file (put : bytes -> Build -> Build) (data : bytes) : BuildM unit := fun b =>
  let b' := MkBuild (out_blobs b) (out_manifest b) (tail (writes b)) in
  match head (writes b) with
  | Some (Some n) => (Err (Msg "failed to write file"), put (firstn n data) b')
  | _ => (Ok tt, put data b')
  end.
Definition put_blob (cid data : bytes) (b : Build) : Build :=
  MkBuild (<[cid := data]> (out_blobs b)) (out_manifest b) (writes b).
Definition put_manifest (data : bytes) (b : Build) : Build := MkBuild (out_blobs b) (Some data) (writes b).

Definition file_prefix : bytes := lit "sha256-of-file:".

Section Build.
Context `{Digest}.
(** Third-party code: cids, JSON, the digest and encoding behind an address; and
    the files of the project, as they are read during the build. *)
Context (generate_cid : bytes -> result anyhow bytes) (manifest_to_json : AppManifest -> result anyhow bytes)
  (blake2_256 : bytes -> bytes) (encode_manifest : AppManifest -> bytes)
  (project : bytes -> result anyhow bytes).

Definition sha256_hash (data : bytes) : bytes :=
  lit "sha256:" ++ hex_encode (hasher_finalize (hasher_update (hasher_new Sha256) data)).
Definition deploy_hash (data : bytes) : BuildM (bytes * bytes) :=
  let hash := sha256_hash data in
  cid ← lift (generate_cid data);
  write_file (put_blob cid) data;;
  mret (hash, cid).

(** One argument: a file is replaced by its digest.  [trim_start_matches] removes
    the prefix as often as it is there. *)
Definition build_arg (acc : list bytes * gmap bytes bytes) (arg : bytes) : BuildM (list bytes * gmap bytes bytes) :=
  let '(args, deps) := acc in
  match strip_prefix file_prefix arg with
  | Some _ =>
    let file := trim_start_matches (length arg) file_prefix arg in
    data ← lift (context "failed to read file" (project file));
    '(hash, cid) ← deploy_hash data;
    mret (args ++ [hash], <[hash := cid]> deps)
  | None => mret (args ++ [arg], deps)
  end.
Definition build_dep (deps : gmap bytes bytes) (dep : bytes) : BuildM (gmap bytes bytes) :=
  data ← lift (context "failed to read dep" (project dep));
  '(hash, cid) ← deploy_hash data;
  mret (if bool_decide (is_Some (deps !! hash)) then deps else <[hash := cid]> deps).

(** The manifest of the collected files. *)
Definition built_manifest (config : DeployConfig) (code_hash : bytes) (args : list bytes)
  (deps : gmap bytes bytes) : AppManifest :=
  MkManifest 1 code_hash args (address_iter (dc_env_vars config)) (dc_on_demand config) (dc_resizable config)
    (dc_max_query_size config) (dc_label config) (address_iter deps).

(** [remove_dir_all] of an output directory that exists: an error may leave
    anything behind. *)
Definition clear_output (removed : result (anyhow * Build) unit) (created : result anyhow unit) : BuildM unit := fun b =>
  match removed with
  | Err (e, remains) => (Err (Ctx "failed to remove output_dir" e), remains)
  | Ok _ => (context "failed to create output_dir" created, MkBuild ∅ None (writes b))
  end.

Definition build_manifest (config : result anyhow DeployConfig) (removed : result (anyhow * Build) unit)
  (created : result anyhow unit) : BuildM (bytes * bytes) :=
  config ← lift config;
  clear_output removed created;;
  code ← lift (context "failed to read wasm_code" (project (wasm_code config)));
  '(code_hash, cid) ← deploy_hash code;
  '(args, deps) ← fold_m build_arg (dc_args config) ([], {[ code_hash := cid ]});
  deps ← fold_m build_dep (dc_deps config) deps;
  let manifest := built_manifest config code_hash args deps in
  let address := blake2_256 (encode_manifest manifest) in
  json ← lift (manifest_to_json manifest);
  '(_, manifest_cid) ← in_context "failed to hash manifest file" (deploy_hash json);
  in_context "failed to write manifest" (write_file put_manifest json);;
  mret (address, manifest_cid).
End Build.

(** ** Transactions *)
Inductive DeployTx : Type :=
| TicketCreate (deposit : Z) (address manifest_cid : bytes) (worker_list : Z) (prices : Prices)
| WorkerDescriptionSet (signed : bytes)
| WorkerListCreate (title : bytes) (prices : Prices) (workers : list bytes).
Definition deploy_prices : Prices :=
  MkPrices (Some 1000000000) None None None None None None None None.

Section Submit.
Context {W C : Type} `{Node DeployTx C} `{WorkerApi W}.
(** A submission with a nonce jar of its own. *)
Definition submit_alone (label : string) (tx : DeployTx) : M C anyhow unit := fun c =>
  let '(r, s) := submit_tx label tx true (c, MkJar None) in (r, s.1).

(** [deploy_manifest]; [connected] is the outcome of connecting to the node. *)
Definition deploy_manifest (build : BuildM (bytes * bytes)) (connected : result anyhow unit)
  (deposit worker_list : Z) : M (Build * C) anyhow unit :=
  '(address, manifest_cid) ← zoom fst (fun s b => (b, s.2)) build;
  lift connected;;
  zoom snd (fun s c => (s.1, c))
    (submit_alone "create ticket" (TicketCreate deposit address manifest_cid worker_list deploy_prices)).

(** [create_worker_list]; the signed description is recoded for the chain. *)
Definition create_worker_list (connected : result anyhow unit) (sign_description : bytes -> Prices -> M W anyhow bytes)
  (recode : bytes -> result anyhow bytes) : M (W * C) anyhow unit :=
  let on_worker {A} : M W anyhow A -> M (W * C) anyhow A := zoom fst (fun s w => (w, s.2)) in
  let on_chain {A} : M C anyhow A -> M (W * C) anyhow A := zoom snd (fun s c => (s.1, c)) in
  lift connected;;
  info ← on_worker wk_info;
  pubkey ← lift (decode_bytes32 (wi_pubkey info));
  signed ← on_worker (sign_description (lit "test-worker") Prices_default);
  signed ← lift (context "failed to encode worker description" (recode signed));
  on_chain (submit_alone "set worker description" (WorkerDescriptionSet signed));;
  on_chain (submit_alone "create worker list" (WorkerListCreate (lit "pherry-created") deploy_prices [pubkey])).
End Submit.

(** ** What was built is what the bridge resolves *)

(** An invariant of a loop that ends well, with what was passed over. *)
Lemma fold_m_inv {S E A B} (I : list A -> B -> S -> Prop) (f : B -> A -> M S E B) l :
  (forall l acc x s acc' s', I l acc s -> f acc x s = (Ok acc', s') -> I (l ++ [x]) acc' s') ->
  forall l0 acc s acc' s', I l0 acc s -> fold_m f l acc s = (Ok acc', s') -> I (l0 ++ l) acc' s'.
Proof.
  intros Hf. induction l as [|x l IH]; intros l0 acc s acc' s' HI.
  - intros [= <- <-]. by rewrite app_nil_r.
  - cbn [fold_m]. intros [(a & s1 & H1 & H2)|(e & _ & [=])]%bind_inv.
    change (x :: l) with ([x] ++ l). rewrite (assoc_L (++)). eauto.
Qed.
(** One step of a computation that ends well. *)
Lemma bind_ok {S E A B} (m : M S E A) (f : A -> M S E B) s b s' :
  (m ≫= f) s = (Ok b, s') -> exists a s1, m s = (Ok a, s1) /\ f a s1 = (Ok b, s').
Proof. intros [?|(e & _ & [=])]%bind_inv. done. Qed.
Lemma lift_ok {S E A B} (r : result E A) (f : A -> M S E B) s b s' :
  (lift r ≫= f) s = (Ok b, s') -> exists a, r = Ok a /\ f a s = (Ok b, s').
Proof. destruct r; [eauto|done]. Qed.
Lemma context_ok {A} msg (r : result anyhow A) a : context msg r = Ok a -> r = Ok a.
Proof. by destruct r. Qed.
Lemma in_context_ok {S A} msg (m : M S anyhow A) s a s' : in_context msg m s = (Ok a, s') -> m s = (Ok a, s').
Proof. unfold in_context. destruct (m s) as [[|] ?]; naive_solver. Qed.

(** A prefix taken away once, and as often as it is there. *)
Lemma strip_prefix_Some p s s' : strip_prefix p s = Some s' <-> s = p ++ s'.
Proof.
  revert s. induction p as [|x p IH]; intros [|y s]; simpl; [naive_solver..|].
  destruct (Z.eqb_spec x y) as [->|Hne]; [rewrite IH; naive_solver|naive_solver].
Qed.
Lemma trim_start_spec p s : p <> [] -> forall fuel, (length s <= fuel)%nat ->
  exists k, s = concat (replicate k p) ++ trim_start_matches fuel p s /\ strip_prefix p (trim_start_matches fuel p s) = None.
Proof.
  intros Hp fuel. revert s. induction fuel as [|fuel IH]; intros s Hs; simpl.
  - exists 0%nat. destruct s, p; simpl in *; try done. lia.
  - destruct (strip_prefix p s) as [s'|] eqn:Hs'; [|by exists 0%nat]. apply strip_prefix_Some in Hs' as ->.
    destruct (IH s') as (k & Hk & Hn); [rewrite length_app in Hs; destruct p; simpl in *; [done|lia]|].
    exists (S k). split; [|done]. simpl. rewrite <- (assoc_L (++)). by f_equal.
Qed.

(** An argument that names a file, and the file. *)
Definition names_file (arg file : bytes) : Prop :=
  exists k, arg = concat (replicate (S k) file_prefix) ++ file /\ forall rest, file <> file_prefix ++ rest.
Lemma names_file_inj arg f f' : names_file arg f -> names_file arg f' -> f = f'.
Proof.
  intros (k & -> & Hf) (k' & Hk & Hf'). revert k' Hk. generalize (S k). clear k. intros k k'. generalize (S k'). clear k'. intros k'. revert k'.
  induction k as [|k IH]; intros [|k']; simpl; rewrite <- ?(assoc_L (++)).
  - done.
  - intros ->. by destruct (Hf (concat (replicate k' file_prefix) ++ f')).
  - intros <-. by destruct (Hf' (concat (replicate k file_prefix) ++ f)).
  - intros Hk%(inj (app file_prefix)). by eapply IH.
Qed.
(** The files an app is built of. *)
Definition app_files (config : DeployConfig) (f : bytes) : Prop :=
  f = wasm_code config \/ (exists arg, arg ∈ dc_args config /\ names_file arg f) \/ f ∈ dc_deps config.

Section Built.
Context `{DigestLawful}.
Context (generate_cid : bytes -> result anyhow bytes) (manifest_to_json : AppManifest -> result anyhow bytes)
  (blake2_256 : bytes -> bytes) (encode_manifest : AppManifest -> bytes)
  (project : bytes -> result anyhow bytes).
(** No two of the files that the build handles share a cid. *)
Context (handled : bytes -> Prop)
  (handled_project : forall f d, project f = Ok d -> handled d)
  (handled_json : forall m d, manifest_to_json m = Ok d -> handled d)
  (cid_inj : forall d d' c, handled d -> handled d' -> generate_cid d = Ok c -> generate_cid d' = Ok c -> d = d').

(** What an argument of the configuration is in the manifest. *)
Inductive built_arg : bytes -> bytes -> Prop :=
| arg_plain arg : (forall rest, arg <> file_prefix ++ rest) -> built_arg arg arg
| arg_file arg f d : names_file arg f -> project f = Ok d -> built_arg arg (sha256_hash d).
(** The manifest of a configuration: its settings, the arguments, and the digests and cids of
    exactly the files it is built of. *)
Record built_from (config : DeployConfig) (m : AppManifest) : Prop := MkBuiltFrom {
  bf_version : version m = 1;
  bf_code : exists code, project (wasm_code config) = Ok code /\ code_hash m = sha256_hash code;
  bf_args : Forall2 built_arg (dc_args config) (args m);
  bf_env_vars : env_vars m = address_iter (dc_env_vars config);
  bf_settings : on_demand m = dc_on_demand config /\ resizable m = dc_resizable config /\
    max_query_size m = dc_max_query_size config /\ label m = dc_label config;
  bf_blobs : forall h c, (h, c) ∈ required_blobs m -> exists f d, app_files config f /\ project f = Ok d /\
    generate_cid d = Ok c /\ h = sha256_hash d;
  bf_all : forall f, app_files config f -> exists d, project f = Ok d /\ sha256_hash d ∈ (required_blobs m).*1
}.

Definition blobs_named (b : Build) : Prop :=
  forall c d, out_blobs b !! c = Some d -> generate_cid d = Ok c /\ handled d.
(** [deps] has exactly the files of [N], which were put out. *)
Record build_inv (N : bytes -> Prop) (deps : gmap bytes bytes) (b : Build) : Prop := MkBuildInv {
  bv_named : blobs_named b;
  bv_from : forall h c, deps !! h = Some c -> exists f d, N f /\ project f = Ok d /\ out_blobs b !! c = Some d /\ h = sha256_hash d;
  bv_all : forall f, N f -> exists d, project f = Ok d /\ is_Some (deps !! sha256_hash d)
}.
Lemma build_inv_iff N N' deps b : (forall f, N f <-> N' f) -> build_inv N deps b -> build_inv N' deps b.
Proof. intros HN [Hn Hf Ha]. split; [done| |naive_solver]. intros h c Hc. destruct (Hf h c Hc) as (f & d & ?). exists f, d. naive_solver. Qed.

Lemma deploy_hash_ok data b h c b' : handled data -> blobs_named b -> deploy_hash generate_cid data b = (Ok (h, c), b') ->
  h = sha256_hash data /\ generate_cid data = Ok c /\ out_blobs b' !! c = Some data /\ blobs_named b' /\
  out_blobs b ⊆ out_blobs b'.
Proof.
  intros Hd Hb (cid & Hc & Hw)%lift_ok. apply bind_ok in Hw as (u & b1 & Hw & [= <- <- ->]).
  assert (Ho : out_blobs b' = <[cid := data]> (out_blobs b)).
  { unfold write_file in Hw. destruct (head (writes b)) as [[n|]|]; naive_solver. }
  split_and!; [done|done| | |].
  - by rewrite Ho, lookup_insert_eq.
  - intros c d. rewrite Ho, lookup_insert_Some. intros [[<- <-]|[_ ?]]; auto.
  - rewrite Ho. apply map_subseteq_spec. intros c d Hcd. destruct (decide (c = cid)) as [-> |Hne].
    + rewrite lookup_insert_eq. destruct (Hb _ _ Hcd). f_equal. eauto.
    + by rewrite lookup_insert_ne.
Qed.

(** Putting out one more file; its digest may be there already. *)
Lemma build_inv_add N deps f data b h c b' : build_inv N deps b -> project f = Ok data ->
  deploy_hash generate_cid data b = (Ok (h, c), b') ->
  h = sha256_hash data /\ build_inv (fun g => N g \/ g = f) (<[h := c]> deps) b' /\
  (is_Some (deps !! h) -> build_inv (fun g => N g \/ g = f) deps b').
Proof.
  intros [Hn Hf Ha] Hp Hh. destruct (deploy_hash_ok _ _ _ _ _ (handled_project _ _ Hp) Hn Hh) as (-> & _ & Hc & Hb' & Hsub).
  assert (Hold : forall h' c', deps !! h' = Some c' -> exists g d, (N g \/ g = f) /\ project g = Ok d /\ out_blobs b' !! c' = Some d /\ h' = sha256_hash d).
  { intros h' c' (g & d & ? & ? & Hl & ->)%Hf. exists g, d. split_and!; auto. by eapply lookup_weaken. }
  split_and!; [done| |]; [|intros Hs]; split; try done.
  - intros h' c' [[<- <-]|[_ Hl]]%lookup_insert_Some; [|auto]. exists f, data. auto.
  - intros g [Hg| ->]; [|exists data; by rewrite lookup_insert_eq]. destruct (Ha g Hg) as (d & ? & Hd). exists d.
    rewrite lookup_insert_is_Some'. auto.
  - intros g [Hg| ->]; eauto.
Qed.

Lemma build_arg_inv N l acc arg b acc' b' :
  (build_inv (fun f => N f \/ exists a, a ∈ l /\ names_file a f) acc.2 b /\ Forall2 built_arg l acc.1) ->
  build_arg generate_cid project acc arg b = (Ok acc', b') ->
  build_inv (fun f => N f \/ exists a, a ∈ l ++ [arg] /\ names_file a f) acc'.2 b' /\ Forall2 built_arg (l ++ [arg]) acc'.1.
Proof.
  destruct acc as [args deps]. intros [Hb Ha]. unfold build_arg.
  destruct (strip_prefix file_prefix arg) as [s|] eqn:Hs.
  - intros (data & Hp%context_ok & Hr)%lift_ok. apply bind_ok in Hr as ([h c] & b1 & Hh & [= <- <-]).
    destruct (build_inv_add _ _ _ _ _ _ _ _ Hb Hp Hh) as (-> & Hb' & _). simpl.
    destruct (trim_start_spec file_prefix arg ltac:(done) (length arg) (le_n _)) as (k & Hk & Hn). revert Hp Hb' Hk Hn.
    generalize (trim_start_matches (length arg) file_prefix arg). intros f Hp Hb' Hk Hn.
    assert (Hf : names_file arg f).
    { destruct k as [|k]; [simpl in Hk; subst f; by rewrite Hs in Hn|]. exists k. split; [done|]. intros rest ->.
      by rewrite (proj2 (strip_prefix_Some _ _ rest)) in Hn. }
    assert (Huniq : forall g, names_file arg g -> g = f) by (intros g Hg; by eapply names_file_inj).
    split; [|apply Forall2_app; [done|]; constructor; [by econstructor|done]].
    eapply build_inv_iff; [|exact Hb']. intros g. split.
    + intros [[?|(a & ? & ?)]| ->]; [by left|right; exists a; set_solver|right; exists arg; set_solver].
    + intros [?|(a & [Ha'|Ha']%elem_of_app & Hg)]; [auto|eauto|]. apply list_elem_of_singleton in Ha' as ->. auto.
  - intros [= <- <-]. simpl. assert (Hno : forall rest, arg <> file_prefix ++ rest) by (intros rest ->; by rewrite (proj2 (strip_prefix_Some _ _ rest)) in Hs).
    split; [|apply Forall2_app; [done|]; constructor; [by constructor|done]]. eapply build_inv_iff; [|exact Hb]. intros g.
    apply or_iff_compat_l. split; [intros (a & ? & ?); exists a; set_solver|]. intros (a & [Ha'|Ha']%elem_of_app & Hg); [eauto|].
    apply list_elem_of_singleton in Ha' as ->. destruct Hg as (k & Hk & _). change (concat (replicate (S k) file_prefix)) with (file_prefix ++ concat (replicate k file_prefix)) in Hk. rewrite <- (assoc_L (++)) in Hk. by destruct (Hno _ Hk).
Qed.
Lemma build_dep_inv N l deps dep b deps' b' : build_inv (fun f => N f \/ f ∈ l) deps b ->
  build_dep generate_cid project deps dep b = (Ok deps', b') -> build_inv (fun f => N f \/ f ∈ l ++ [dep]) deps' b'.
Proof.
  intros Hb (data & Hp%context_ok & Hr)%lift_ok. apply bind_ok in Hr as ([h c] & b1 & Hh & [= <- <-]).
  destruct (build_inv_add _ _ _ _ _ _ _ _ Hb Hp Hh) as (_ & Hadd & Hkeep).
  case_bool_decide as Hs; (eapply build_inv_iff; [|by first [apply Hkeep|apply Hadd]]);
    intros g; rewrite elem_of_app, list_elem_of_singleton; tauto.
Qed.

(** A successful build: the manifest, with its file among the blobs. *)
Lemma build_ok config removed created b address cid b' :
  build_manifest generate_cid manifest_to_json blake2_256 encode_manifest project (Ok config) removed created b =
    (Ok (address, cid), b') ->
  exists m json, address = blake2_256 (encode_manifest m) /\ manifest_to_json m = Ok json /\
    out_blobs b' !! cid = Some json /\ blobs_named b' /\ built_from config m /\
    forall h c, (h, c) ∈ required_blobs m -> exists d, out_blobs b' !! c = Some d /\ h = sha256_hash d.
Proof.
  intros (cf & [= <-] & Hr)%lift_ok. apply bind_ok in Hr as (u & b0 & Hcl & Hr).
  assert (Hb0 : out_blobs b0 = ∅).
  { unfold clear_output in Hcl. destruct removed as [|[]]; [|done]. destruct created; naive_solver. }
  apply lift_ok in Hr as (code & Hp%context_ok & Hr). apply bind_ok in Hr as ([ch c0] & b1 & Hh & Hr).
  apply bind_ok in Hr as ([args deps1] & b2 & Ha & Hr). apply bind_ok in Hr as (deps & b3 & Hd & Hr).
  apply lift_ok in Hr as (json & Hj & Hr). apply bind_ok in Hr as ([mh mc] & b4 & Hm%in_context_ok & Hr).
  apply bind_ok in Hr as (u' & b5 & Hw%in_context_ok & [= <- <- ->]).
  assert (I0 : build_inv (fun _ => False) ∅ b0) by (split; [intros ? ?; by rewrite Hb0, lookup_empty|intros ? ?; by rewrite lookup_empty|done]).
  destruct (build_inv_add _ _ _ _ _ _ _ _ I0 Hp Hh) as (-> & I1 & _). rewrite insert_empty in I1.
  assert (I2 : build_inv (fun f => f = wasm_code config \/ exists a, a ∈ [] ++ dc_args config /\ names_file a f) deps1 b2 /\
    Forall2 built_arg ([] ++ dc_args config) args).
  { refine (fold_m_inv (fun l acc b => build_inv (fun f => f = wasm_code config \/ exists a, a ∈ l /\ names_file a f) acc.2 b /\
      Forall2 built_arg l acc.1) _ _ _ [] ([], _) _ (args, deps1) _ _ Ha); [intros; by eapply build_arg_inv|].
    split; [|constructor]. eapply build_inv_iff; [|exact I1]. set_solver. }
  destruct I2 as [I2 Hargs].
  assert (I3 : build_inv (fun f => (f = wasm_code config \/ exists a, a ∈ dc_args config /\ names_file a f) \/ f ∈ [] ++ dc_deps config) deps b3).
  { refine (fold_m_inv (fun l => build_inv (fun f => (f = wasm_code config \/ exists a, a ∈ dc_args config /\ names_file a f) \/ f ∈ l)) _ _ _ []
      _ _ _ _ _ Hd); [intros; by eapply build_dep_inv|]. eapply build_inv_iff; [|exact I2]. set_solver. }
  destruct I3 as [Hn3 Hf3 Ha3].
  destruct (deploy_hash_ok _ _ _ _ _ (handled_json _ _ Hj) Hn3 Hm) as (_ & _ & Hl & Hn4 & Hsub).
  assert (Ho : out_blobs b' = out_blobs b4).
  { unfold write_file in Hw. destruct (head (writes b4)) as [[|]|]; naive_solver. }
  exists (built_manifest config (sha256_hash code) args deps), json. unfold blobs_named. rewrite Ho. split_and!; try done.
  - split; try done; [by exists code| |].
    + intros h c (f & d & Hf & Hd' & Hout & ->)%elem_of_btree_iter%Hf3. exists f, d. destruct (Hn3 _ _ Hout). unfold app_files. naive_solver.
    + intros f Hf. destruct (Ha3 f) as (d & ? & ?); [unfold app_files in Hf; naive_solver|]. exists d. split; [done|].
      simpl. rewrite elem_of_btree_keys. by apply elem_of_dom.
  - intros h c (f & d & _ & _ & Hout & ->)%elem_of_btree_iter%Hf3. exists d. split; [|done]. by eapply lookup_weaken.
Qed.

(** The digest names of the builder are those of the worker's store. *)
Lemma sha256_hash_value d : HashValue_from_str (sha256_hash d) = Ok (MkHash Sha256 (Hasher_hash d Sha256)).
Proof. exact (from_str_to_string (MkHash Sha256 (Hasher_hash d Sha256)) (finalize_bytes _)). Qed.

(** ** The bridge, fetching from a gateway that serves the built blobs *)
Context {W C : Type} (json_manifest : bytes -> result anyhow AppManifest) (parse_cid disk : bytes -> result anyhow bytes)
  (json_roundtrip : forall m j, manifest_to_json m = Ok j -> json_manifest j = Ok m)
  (cid_canonical : forall d c, generate_cid d = Ok c -> parse_cid c = Ok c)
  (disk_ok : forall d, disk d = Ok d).
Abbreviation resolve_ticket := (try_resolve json_manifest parse_cid disk).
Abbreviation BWorld := (World (W := W) (C := C)).

(** A round: the bridge tries to resolve the ticket, then the tasks of the downloader run. *)
Definition round (info : TicketInfo) (w : BWorld) (ops : list dl_op) : BWorld :=
  let w1 := (resolve_ticket info w).2 in set_downloader w1 (dl_run (downloader w1) ops).
(** In every round the gateway serves the files of [g], and the tasks run until none is left. *)
Fixpoint served_rounds (g : gmap bytes bytes) (info : TicketInfo) (w : BWorld) (rounds : list (list dl_op)) : Prop :=
  match rounds with
  | [] => True
  | ops :: rounds =>
    let d := downloader (resolve_ticket info w).2 in
    serves g d ops /\ tasks (dl_run d ops) = ∅ /\ served_rounds g info (round info w ops) rounds
  end.

Record ready (g : gmap bytes bytes) (w : BWorld) : Prop := MkReady {
  rd_inv : dl_inv (downloader w);
  rd_idle : tasks (downloader w) = ∅;
  rd_held : forall c d, g !! c = Some d -> held c d (downloader w);
  rd_failures : forall c, is_Some (g !! c) -> download_failures (planning_state (bridge_state w)) !! c = None
}.
Definition there (w : BWorld) (c : bytes) : Prop := files (downloader w) !! c <> None.

Lemma download_there c (w : BWorld) : there w c -> on_downloader (download c false) w = (Ok true, w).
Proof.
  unfold there. intros Hc. unfold on_downloader, zoom, download, exists_file.
  rewrite bool_decide_true by (destruct (files (downloader w) !! c); [eauto|done]). simpl. by destruct w.
Qed.
Lemma download_missing g c (w : BWorld) : ready g w -> files (downloader w) !! c = None ->
  (download c false (downloader w)).1 = Ok false /\ coming c (download c false (downloader w)).2.
Proof.
  intros Hr Hc. destruct (idle_queues _ (rd_inv _ _ Hr) (rd_idle _ _ Hr)) as [Hd Hp].
  unfold download, exists_file, in_progress, coming. rewrite Hc, Hd, Hp. simpl. split; [done|]. left. by left.
Qed.
(** What a pass over the blobs does: nothing if all are there, otherwise the first that is missing is asked for. *)
Lemma blobs_ready_run g l (w : BWorld) : ready g w -> (forall h c, (h, c) ∈ l -> parse_cid c = Ok c /\ is_Some (g !! c)) ->
  blobs_ready parse_cid l w =
    match list_find (fun c => files (downloader w) !! c = None) l.*2 with
    | None => (Ok true, w)
    | Some (_, c) => (Ok false, set_downloader w (download c false (downloader w)).2)
    end.
Proof.
  intros Hr. induction l as [|[h c] l IH]; intros Hl; [done|]. cbn [blobs_ready]. destruct (Hl h c) as [Hp Hg]; [by left|].
  rewrite Hp. unfold mbind, M_bind, lift. simpl. unfold gets. rewrite (rd_failures _ _ Hr c Hg). simpl. case_decide as Hc.
  - destruct (download_missing g c w Hr Hc) as [Hd _]. unfold on_downloader, zoom.
    destruct (download c false (downloader w)) as [r d]. simpl in *. by subst r.
  - rewrite download_there by done. rewrite IH by (intros; eapply Hl; by right). change (list_fmap _ _ snd l) with l.*2. by destruct (list_find _ l.*2) as [[]|].
Qed.

Section Rounds.
Context (m : AppManifest) (json : bytes) (g : gmap bytes bytes) (info : TicketInfo)
  (Hj : manifest_to_json m = Ok json) (Hjson : g !! manifest_cid info = Some json) (Hcid : generate_cid json = Ok (manifest_cid info))
  (Hreq : forall h c, (h, c) ∈ required_blobs m -> exists d, g !! c = Some d /\ generate_cid d = Ok c)
  (Hsize : forall c d, g !! c = Some d -> zlen d <= max_file_size).
Definition wanted : list bytes := manifest_cid info :: (required_blobs m).*2.

Lemma try_resolve_run (w : BWorld) : ready g w -> resolve_ticket info w =
  match list_find (fun c => files (downloader w) !! c = None) wanted with
  | None => (Ok (Some (MkTicket info m)), w)
  | Some (_, c) => (Ok None, set_downloader w (download c false (downloader w)).2)
  end.
Proof using Hj Hjson Hcid Hreq json_roundtrip cid_canonical disk_ok.
  intros Hr. unfold try_resolve, wanted. rewrite (cid_canonical _ _ Hcid). unfold mbind, M_bind, lift, dl_read, read_file. simpl.
  destruct (rd_held _ _ Hr _ _ Hjson) as [[Hf|[Hf _]] _]; rewrite Hf; simpl.
  - unfold gets. rewrite (rd_failures _ _ Hr) by eauto. simpl. rewrite ?decide_True by done.
    destruct (download_missing g _ w Hr Hf) as [Hd _]. unfold on_downloader, zoom.
    destruct (download (manifest_cid info) false (downloader w)) as [r d]. simpl in *. by subst r.
  - rewrite disk_ok. simpl. rewrite (json_roundtrip _ _ Hj). simpl. rewrite ?decide_False by done.
    rewrite (blobs_ready_run g) by (try done; intros h c (d & Hd & Hc)%Hreq; eauto). by destruct (list_find _ (required_blobs m).*2) as [[]|].
Qed.

(** A round brings at least one more of the files. *)
Lemma round_run n ops (w : BWorld) : ready g w -> (forall i c, (i < n)%nat -> wanted !! i = Some c -> there w c) ->
  serves g (downloader (resolve_ticket info w).2) ops -> tasks (dl_run (downloader (resolve_ticket info w).2) ops) = ∅ ->
  ready g (round info w ops) /\ forall i c, (i < S n)%nat -> wanted !! i = Some c -> there (round info w ops) c.
Proof using Hj Hjson Hcid Hreq Hsize json_roundtrip cid_canonical disk_ok.
  intros Hr Hn. unfold round. rewrite (try_resolve_run w Hr). pose proof Hr as [Hinv Hidle Hheld Hfail].
  assert (Hin : forall i c, wanted !! i = Some c -> is_Some (g !! c)).
  { intros [|i] c; simpl; [intros [= <-]; eauto|]. rewrite list_lookup_fmap, fmap_Some. intros ([h c'] & Hi%list_elem_of_lookup_2 & ->).
    destruct (Hreq _ _ Hi) as (d & ? & _). eauto. }
  assert (Hrun : forall d, dl_inv d -> (forall c x, g !! c = Some x -> held c x d) -> serves g d ops -> tasks (dl_run d ops) = ∅ ->
    (forall i c, (i < S n)%nat -> wanted !! i = Some c -> coming c d) ->
    ready g (set_downloader w (dl_run d ops)) /\ forall i c, (i < S n)%nat -> wanted !! i = Some c -> there (set_downloader w (dl_run d ops)) c).
  { intros d Hd Hh Hs Ht Hc. assert (Hh' : forall c x, g !! c = Some x -> held c x (dl_run d ops)) by (intros c x Hx; eapply serves_run; eauto).
    split; [split; simpl; auto using dl_run_inv|]. intros i c Hi Hw. unfold there. simpl. destruct (Hin i c Hw) as [x Hx].
    rewrite (idle_present c x); [done|by apply dl_run_inv|done|by apply Hh'|]. eapply serves_run; eauto. }
  destruct (list_find _ wanted) as [[k c]|] eqn:Hfind; simpl; intros Hs Ht.
  - apply list_find_Some in Hfind as (Hk & Hnone & Hbefore). assert (Hstep : forall b x, g !! b = Some x ->
      held b x (download c false (downloader w)).2 /\ (coming b (downloader w) -> coming b (download c false (downloader w)).2)).
    { intros b x Hx. exact (serves_step g (OpDownload c false) b x (downloader w) (conj I I) Hx (Hsize _ _ Hx) (Hheld _ _ Hx)). }
    apply Hrun; try done; [by apply download_inv|intros b x Hx; by apply Hstep|]. intros i b Hi Hb. destruct (Hin i b Hb) as [x Hx].
    destruct (decide (i = k)) as [->|Hne]; [rewrite Hk in Hb; injection Hb as <-; by apply (download_missing g)|].
    apply (Hstep b x Hx). right. right. destruct (decide (i < n)%nat); [by eapply Hn|]. eapply Hbefore; [exact Hb|].
    destruct (decide (k < n)%nat) as [Hkn|]; [by destruct (Hn k c Hkn Hk)|lia].
  - apply list_find_None in Hfind. rewrite Forall_forall in Hfind. apply Hrun; try done. intros i c _ Hw. right. right. apply Hfind. by eapply list_elem_of_lookup_2.
Qed.
Lemma rounds_run rounds : forall n (w : BWorld), ready g w -> (forall i c, (i < n)%nat -> wanted !! i = Some c -> there w c) ->
  served_rounds g info w rounds -> let w' := foldl (round info) w rounds in
  ready g w' /\ forall i c, (i < n + length rounds)%nat -> wanted !! i = Some c -> there w' c.
Proof using Hj Hjson Hcid Hreq Hsize json_roundtrip cid_canonical disk_ok.
  induction rounds as [|ops rounds IH]; intros n w Hr Hn; simpl; [rewrite Nat.add_0_r; done|]. intros (Hs & Ht & Hrest).
  destruct (round_run n ops w Hr Hn Hs Ht) as [Hr' Hn']. rewrite <- Nat.add_succ_comm. by apply IH.
Qed.
End Rounds.

End Built.

(** A project of a module, a file named by an argument and another dependency. *)
Module ToyBuild.
#[export] Instance digest : Digest := {
  hasher := bytes; hasher_new _ := [7]; hasher_update h b := h ++ b;
  hasher_finalize h := (fun x => x `mod` 256) <$> h ++ [1] }.
#[export] Instance digest_lawful : DigestLawful.
Proof.
  split.
  - intros h a b. symmetry. apply (assoc_L (++)).
  - intros h. apply (right_id_L [] (++)).
  - intros h. apply Forall_fmap, Forall_forall. intros x _. simpl. apply byte_ok_spec.
    pose proof (Z.mod_pos_bound x 256). lia.
  - intros h. destruct h; done.
Qed.
Definition project (f : bytes) : result anyhow bytes :=
  if bool_decide (f = lit "app.wasm") then Ok [0; 97; 115; 109]
  else if bool_decide (f = lit "data") then Ok [1; 2; 3] else Err (Msg "not found").
Definition config : DeployConfig :=
  MkDeploy None (lit "app.wasm") [lit "--data"; lit "sha256-of-file:data"] {[ lit "LOG" := lit "info" ]} true false 1024 (lit "toy") [lit "data"].
Definition code_hash : bytes := sha256_hash [0; 97; 115; 109].
Definition data_hash : bytes := sha256_hash [1; 2; 3].
Definition manifest : AppManifest :=
  built_manifest config code_hash [lit "--data"; data_hash] {[ code_hash := [0; 97; 115; 109]; data_hash := [1; 2; 3] ]}.
#[local] Instance manifest_eq_dec : EqDecision AppManifest.
Proof. solve_decision. Defined.
Definition to_json (m : AppManifest) : result anyhow bytes :=
  if decide (m = manifest) then Ok (lit "{}") else Err (Msg "no text").
Definition from_json (b : bytes) : result anyhow AppManifest := Ok manifest.
Definition address_of (m : AppManifest) : bytes := if decide (m = manifest) then label m else [].
Definition build : result anyhow (bytes * bytes) * Build :=
  build_manifest (fun d => Ok d) to_json (fun b => b) address_of project (Ok config) (Ok tt) (Ok tt)
    (MkBuild {[ [9] := [9] ]} None []).
Definition bridge : World (W := unit) (C := unit) :=
  MkWorld (MkBridge [] PlanningState_default ChainState_default (MkConfig 1 0 [] [] [] 0 false) 0 false)
    tt tt (MkJar None) (downloader_new {[ [8] := [8] ]}).
(** The manifest and the two blobs arrive one after the other. *)
Definition fetch (i : nat) (chunks : list bytes) : list dl_op := [OpTask i chunks Complete true 0; OpTask i [] Complete true 0].
Definition rounds : list (list dl_op) := [fetch 0 [lit "{"; lit "}"]; fetch 1 [[0; 97]; [115; 109]]; fetch 2 [[1; 2; 3]]].
Definition info : TicketInfo := MkTicketInfo (lit "toy") (lit "{}") OtherWorkers.
#[export] Instance no_chain : ChainStore unit := {
  ch_registered _ := mret true; ch_session _ := mret None; ch_computing _ := mret true;
  ch_ticket_balance _ := mret 5; ch_para_id := mret 0; ch_genesis_hash := [] }.
End ToyBuild.
Import ToyBuild.

Lemma toy_served : served_rounds from_json (fun c => Ok c) (fun d => Ok d) (out_blobs build.2) info bridge rounds.
Proof.
  cbn [served_rounds rounds fetch serves].
  repeat match goal with
  | |- _ /\ _ => split
  | |- True => exact I
  | |- forall c d, _ -> _ -> _ => intros c d H1 H2; vm_compute in H1; first [discriminate H1|injection H1 as <-; vm_compute in H2; injection H2 as <-]
  | |- _ = _ => vm_compute; reflexivity
  end.
Qed.
