(* ===== verification/Pherry.v ===== *)
(** * The commands of the bridge program (wapod-pherry/src/main.rs, endpoints.rs, register.rs, bridge.rs; crate phaxt)

    The command line's subcommands and what each of them runs, transactions given
    as encoded calls (phaxt/src/dynamic/tx.rs), the signer, and the update of a
    worker's endpoints from the operator's command to the call that the chain
    decodes. *)
From S2P Require Import Prelude Ocall OcallDef Meter Blobs Worker Types Prices TcpAcl AppRuntime Signing Rpc RpcClient Downloader ChainClient Bridge Deploy.

(** ** Encoded calls *)
Record EncodedPayload : Type := MkPayload { pallet_name : string; call_name : string; call_data : bytes }.
(** The runtime's metadata: indices of pallets and of their calls. *)
Record Metadata : Type := MkMetadata { pallet_index : string -> option Z; call_index : string -> string -> option Z }.
Definition encode_call_data_to (md : Metadata) (p : EncodedPayload) (out : bytes) : result anyhow bytes :=
  pallet ← ok_or (pallet_index md (pallet_name p)) (Msg "PalletNameNotFound");
  call ← ok_or (call_index md (pallet_name p) (call_name p)) (Msg "CallNameNotFound");
  Ok (out ++ pallet :: call :: call_data p).

Section Tx.
(** The encoding of a vector of bytes. *)
Context (encode_vec : bytes -> bytes).
(** Both arguments are already encoded. *)
Definition tx_register_worker (pruntime_info attestation : bytes) (v2 : bool) : EncodedPayload :=
  MkPayload "PhalaRegistry" (if v2 then "register_worker_v2" else "register_worker") (pruntime_info ++ attestation).
Definition tx_update_worker_endpoint (signed_endpoint signature : bytes) : EncodedPayload :=
  MkPayload "PhalaRegistry" "update_worker_endpoint" (signed_endpoint ++ encode_vec signature).
End Tx.

(** ** Signers (phaxt/src/signer.rs) *)
Inductive MultiSignature : Type := MsEd25519 (s : bytes) | MsSr25519 (s : bytes) | MsEcdsa (s : bytes).
Record PairSigner : Type := MkSigner { account_id : bytes; signer_pair : bytes }.
Section Signer.
(** [into_account] of the public key. *)
Context `{Keys} (into_account : bytes -> bytes).
Definition PairSigner_new (pair : bytes) : PairSigner := MkSigner (into_account (public_of pair)) pair.
Definition signer_sign (s : PairSigner) (payload : bytes) : MultiSignature := MsSr25519 (sr25519_sign (signer_pair s) payload).
End Signer.

(** ** The chain's client (phaxt/src/client.rs) *)
Section Storage.
(** Values of the client library. *)
Context {V X : Type} (to_value : V -> result anyhow X) (value_at : X -> nat -> option X) (as_u128 : X -> option Z).
(** The id is cut to 32 bits; a chain without the pallet has id 0.  [latest] is the
    outcome of finding the latest block. *)
Definition get_paraid (latest : result anyhow unit) (fetched : result anyhow (option V)) : result anyhow Z :=
  latest;;
  id ← context "Failed to get current set_id" fetched;
  match id with
  | None => Ok 0
  | Some id =>
    v ← to_value id;
    v ← ok_or (value_at v 0) (Msg "Invalid paraid");
    id ← ok_or (as_u128 v) (Msg "Invalid paraid");
    Ok (wrap U32 id)
  end.
(** [fetch]: the storage entry of a map, or a plain one, decoded. *)
Context (at_latest : result anyhow unit) (storage_fetch : string -> string -> list bytes -> result anyhow (option bytes)).
Definition chain_fetch {K T} `{ScaleCodec K, ScaleCodec T} (pallet name : string) (key : option K) : result anyhow (option T) :=
  let args := match key with Some key => [scale_encode key] | None => [] end in
  at_latest;;
  data ← context "Failed to get worker endpoints" (storage_fetch pallet name args);
  match data with
  | None => Ok None
  | Some data => Some <$> ok_or (scale_decode data) (Msg "decode error")
  end.
End Storage.

(** ** Commands (main.rs) *)
Record CommonArgs : Type := MkCommon { ca_node_url : bytes; ca_worker_url : bytes; ca_token : bytes; ca_signer : bytes }.
Record RegisterArgs : Type := MkRegisterArgs {
  ra_worker_url : bytes; ra_token : bytes; ra_node_url : bytes; ra_signer : bytes; ra_operator : bytes; ra_pccs_url : bytes
}.
Record UpdateEndpointArgs : Type := MkEndpointArgs {
  ua_worker_url : bytes; ua_token : bytes; ua_node_url : bytes; ua_endpoint : bytes; ua_signer : bytes
}.
(** The fields of [BridgeConfig] that say where the bridge's services are, and the rest. *)
Record RunConfig : Type := MkRunConfig {
  rc_node_url : bytes; rc_tx_signer : bytes; rc_worker_url : bytes; rc_worker_token : bytes;
  rc_ipfs_base_url : bytes; rc_ipfs_cache_dir : bytes; rc_bridge : BridgeConfig
}.
Inductive Command : Type :=
| CmdRegister (other : CommonArgs) (operator pccs_url : bytes)
| CmdUpdateEndpoint (other : CommonArgs) (endpoint : bytes)
| CmdBridge (other : CommonArgs) (operator : option bytes) (pccs_url ipfs_url ipfs_cache_dir : bytes) (max_apps : nat)
    (metrics_interval : Z) (recipient : bytes) (gas_until_report : Z) (reuse_instances : bool)
| CmdCreateWorkerList (other : CommonArgs)
| CmdBuild (config : bytes)
| CmdDeploy (other : CommonArgs) (config : bytes) (worker_list deposit : Z)
| CmdTicketAddress (ticket_id : Z).
(** What a command runs; durations are in nanoseconds. *)
Inductive Action : Type :=
| DoRegister (args : RegisterArgs)
| DoUpdateEndpoint (args : UpdateEndpointArgs)
| DoBridge (config : RunConfig)
| DoCreateWorkerList (node_url signer worker_url token : bytes)
| DoBuild (config : bytes)
| DoDeploy (config node_url signer : bytes) (deposit worker_list : Z)
| DoPrint (text : bytes).
Section Main.
Context (blake2_256 : bytes -> bytes) (encode_u64 : Z -> bytes) (decode_padded : bytes -> bytes).
Definition command_action (c : Command) : Action :=
  match c with
  | CmdRegister other operator pccs_url =>
    DoRegister (MkRegisterArgs (ca_worker_url other) (ca_token other) (ca_node_url other) (ca_signer other) operator pccs_url)
  | CmdUpdateEndpoint other endpoint =>
    DoUpdateEndpoint (MkEndpointArgs (ca_worker_url other) (ca_token other) (ca_node_url other) endpoint (ca_signer other))
  | CmdBridge other operator pccs_url ipfs_url ipfs_cache_dir max_apps metrics_interval recipient gas reuse =>
    DoBridge (MkRunConfig (ca_node_url other) (ca_signer other) (ca_worker_url other) (ca_token other) ipfs_url ipfs_cache_dir
      (MkConfig max_apps (metrics_interval * 1000000000) recipient (default [] operator) pccs_url gas reuse))
  | CmdCreateWorkerList other => DoCreateWorkerList (ca_node_url other) (ca_signer other) (ca_worker_url other) (ca_token other)
  | CmdBuild config => DoBuild config
  | CmdDeploy other config worker_list deposit => DoDeploy config (ca_node_url other) (ca_signer other) deposit worker_list
  | CmdTicketAddress id => DoPrint (lit "0x" ++ hex_encode (ticket_account_address decode_padded blake2_256 encode_u64 id))
  end.
End Main.

(** ** Running the commands *)

(** A command ends with an error, or panics in [expect]. *)
Inductive CmdError : Type := Failed (e : anyhow) | Panicked (msg : string).
Definition or_fail {S A} (m : M S anyhow A) : M S CmdError A := fun s => let '(r, s) := m s in (map_err Failed r, s).
Definition expect {S A} (o : option A) (msg : string) : M S CmdError A := lift (ok_or o (Panicked msg)).

Section Run.
Context {W C : Type} `{Node EncodedPayload C} `{Keys}.
Context (encode_vec into_account : bytes -> bytes).
(** The client library: [create_signed], which takes the nonce from the node, and the
    wait until the transaction is in a finalized block; connecting to a node; keys
    from their text; and the worker's client. *)
Context (lib_create_signed : EncodedPayload -> PairSigner -> Params -> M C anyhow SignedTx)
  (wait_for_finalized : SignedTx -> M C anyhow bytes)
  (connect : bytes -> M C anyhow unit) (from_string : bytes -> option bytes)
  (rpc_sign_endpoints : WorkerClient -> list bytes -> M W anyhow (bytes * bytes)).
Abbreviation CmdM := (M (W * C) CmdError).
Definition cmd_worker {A} (m : M W anyhow A) : CmdM A := zoom fst (fun s w => (w, s.2)) (or_fail m).
Definition cmd_chain {A} (m : M C anyhow A) : CmdM A := zoom snd (fun s c => (s.1, c)) (or_fail m).

(** [ChainApi::update_worker_endpoints]. *)
Definition update_worker_endpoints (encoded_endpoints signature : bytes) (signer : PairSigner) : M C anyhow unit :=
  params ← mk_params 8 0;
  let tx := tx_update_worker_endpoint encode_vec encoded_endpoints signature in
  progress ← in_context "failed to sign the update_worker_endpoints tx" (lib_create_signed tx signer params);
  in_context "failed to submit the update_worker_endpoints tx" (node_submit progress);;
  in_context "failed to finalize the update_worker_endpoints tx" (wait_for_finalized progress);;
  mret tt.

(** endpoints.rs. *)
Definition update_endpoint (args : UpdateEndpointArgs) : CmdM unit :=
  let worker_client := MkClient (ua_worker_url args) (ua_token args) in
  cmd_chain (in_context "failed to connect to the chain" (connect (ua_node_url args)));;
  '(payload, signature) ← cmd_worker (rpc_sign_endpoints worker_client [ua_endpoint args]);
  alice ← expect (from_string (ua_signer args)) "should create signer from mnemonic";
  cmd_chain (update_worker_endpoints payload signature (PairSigner_new into_account alice)).
End Run.

Section RunBridge.
Context {W C : Type} `{WorkerApi W} `{ChainStore C} `{!Node Tx C}.
Context (blake2_256 : bytes -> bytes) (encode_manifest : AppManifest -> bytes)
  (json_manifest : bytes -> result anyhow AppManifest) (json_score_gas : bytes -> result anyhow Z)
  (parse_cid account_from_str : bytes -> result anyhow bytes)
  (decode_attestation : option bytes -> result anyhow (option bytes))
  (get_collateral : bytes -> bytes -> result anyhow bytes)
  (encode_report : option (bytes * option bytes) -> bytes)
  (decode_score disk : bytes -> result anyhow bytes).
Context (connect : bytes -> result anyhow C) (from_string : bytes -> option bytes).

(** [ChainClient::connect]; [in_time] tells whether it did not time out. *)
Definition ChainClient_connect (in_time : bool) (url signer : bytes) : result anyhow C :=
  client ← (if in_time then context "connect to chain failed" (connect url) else Err (Msg "connect to chain timeout"));
  ok_or (from_string signer) (Msg "invalid signer");;
  Ok client.
(** register.rs; the bridge's own state, which a [World] has, is not looked at. *)
Definition register (in_time : bool) (args : RegisterArgs) (k : W) (b : BridgeState) (d : Downloader) : result anyhow unit :=
  c ← context "failed to connect to the chain" (ChainClient_connect in_time (ra_node_url args) (ra_signer args));
  (register_with_client account_from_str decode_attestation get_collateral encode_report (ra_operator args) (ra_pccs_url args)
     (MkWorld b k c (MkJar None) d)).1.
(** bridge.rs: [run_bridge] at time [now] with the files of the cache directory, on
    the events of its loop. *)
Definition run_bridge (now : Z) (config : RunConfig) (cached : gmap bytes bytes) (evs : list (Z * BridgeEvent)) (k : W)
  : result anyhow unit :=
  context "invalid tx signer" (ok_or (from_string (rc_tx_signer config)) (Msg "invalid"));;
  chain_api ← context "connect to chain failed" (connect (rc_node_url config));
  state ← context "failed to create bridge" (bridge_create now (rc_bridge config) k chain_api (downloader_new cached)).1;
  ((bridge_start account_from_str decode_attestation get_collateral encode_report;;
    bridge_run blake2_256 encode_manifest json_manifest json_score_gas parse_cid decode_score disk evs) state).1.
End RunBridge.

(** ** An endpoint update from the command to the chain *)

(** The calls that a node accepted; signing keeps the call, and only a submission adds
    one. *)
Class TxNode {C : Type} `{Node EncodedPayload C}
  (create : EncodedPayload -> PairSigner -> Params -> M C anyhow SignedTx) (wait : SignedTx -> M C anyhow bytes)
  (connect : bytes -> M C anyhow unit) := {
  submitted : C -> list EncodedPayload;
  call_of : SignedTx -> EncodedPayload;
  create_call : forall tx s p c x c', create tx s p c = (Ok x, c') -> call_of x = tx;
  create_keeps : forall tx s p c, submitted (create tx s p c).2 = submitted c;
  submit_adds : forall x c, submitted (node_submit x c).2 = submitted c ++ (if is_ok (node_submit x c).1 then [call_of x] else []);
  latest_keeps : forall c, submitted (node_latest_block c).2 = submitted c;
  wait_keeps : forall x c, submitted (wait x c).2 = submitted c;
  connect_keeps : forall u c, submitted (connect u c).2 = submitted c
}.

Section Endpoint.
Context {W C : Type} `{Node EncodedPayload C} `{KeysLawful} (sk : bytes) `{ScaleCodec WorkerEndpointPayload}.
Context (encode_vec into_account : bytes -> bytes)
  (create : EncodedPayload -> PairSigner -> Params -> M C anyhow SignedTx) (wait : SignedTx -> M C anyhow bytes)
  (connect : bytes -> M C anyhow unit) `{!TxNode create wait connect} (from_string : bytes -> option bytes)
  (clock : W -> result anyhow Z).
(** What the worker's method answers, encoded in its reply. *)
Definition worker_signs (cl : WorkerClient) (endpoints : list bytes) : M W anyhow (bytes * bytes) := fun w =>
  ((fun r => (scale_encode r.1, r.2)) <$> sign_endpoints sk (clock w) endpoints, w).
(** The chain decodes the arguments one after the other. *)
Context (decode_payload : bytes -> option (WorkerEndpointPayload * bytes)) (decode_vec : bytes -> option bytes).
Definition decode_call (data : bytes) : option (WorkerEndpointPayload * bytes) :=
  '(p, rest) ← decode_payload data; s ← decode_vec rest; Some (p, s).
Hypothesis payload_prefix : forall p rest, decode_payload (scale_encode p ++ rest) = Some (p, rest).
Hypothesis vec_roundtrip : forall b, decode_vec (encode_vec b) = Some b.

Lemma update_worker_endpoints_calls ep sig signer c :
  let r := update_worker_endpoints encode_vec create wait ep sig signer c in
  let tx := tx_update_worker_endpoint encode_vec ep sig in
  (submitted r.2 = submitted c \/ submitted r.2 = submitted c ++ [tx]) /\
  (is_ok r.1 = true -> submitted r.2 = submitted c ++ [tx]).
Proof.
  intros r tx. subst r. unfold update_worker_endpoints, mk_params, in_context. m_unfold. simpl.
  pose proof (latest_keeps c) as Hl. destruct (node_latest_block c) as [[[h n]|e] c1]; simpl in *; [|split; [by left|done]].
  set (p := params_mortal _ _ _ _). pose proof (create_keeps tx signer p c1) as Hk. pose proof (create_call tx signer p c1) as Hc.
  change (tx_update_worker_endpoint encode_vec ep sig) with tx.
  destruct (create tx signer p c1) as [[x|e] c2]; simpl in *; [|split; [left; congruence|done]].
  specialize (Hc _ _ eq_refl). pose proof (submit_adds x c2) as Hs. destruct (node_submit x c2) as [[[]|e] c3]; simpl in *.
  2: { rewrite app_nil_r in Hs. split; [left; congruence|done]. }
  pose proof (wait_keeps x c3) as Hw. rewrite Hc, Hk, Hl in Hs.
  destruct (wait x c3) as [[b|e] c4]; simpl in *; rewrite Hw, Hs; auto.
Qed.

(** C19: a worker's endpoints reach the chain verifiably: when the command succeeds,
    exactly one call was submitted; its bytes start with the indices of the call,
    and the chain decodes from the rest the payload and signature of the worker:
    the payload names the given endpoint and the worker's key, and the signature
    verifies under that key as endpoint information.  If the command fails, the
    call was submitted once or not at all. *)
Theorem endpoint_update_verifies md pallet call args w c :
  pallet_index md "PhalaRegistry" = Some pallet -> call_index md "PhalaRegistry" "update_worker_endpoint" = Some call ->
  let r := update_endpoint encode_vec into_account create wait connect from_string worker_signs args (w, c) in
  match r.1 with
  | Ok _ => exists tx p s data, submitted r.2.2 = submitted c ++ [tx] /\
      encode_call_data_to md tx [] = Ok (pallet :: call :: data) /\ decode_call data = Some (p, s) /\
      versioned_endpoints p = EndpointsV1 [ua_endpoint args] /\ ep_pubkey p = public_of sk /\
      verify_message sr25519_verify EndpointInfo (scale_encode p) s (ep_pubkey p) = true
  | Err _ => submitted r.2.2 = submitted c \/ exists tx, submitted r.2.2 = submitted c ++ [tx]
  end.
Proof.
  intros Hp Hc r. subst r. unfold update_endpoint, cmd_chain, cmd_worker, or_fail, expect, in_context, zoom, worker_signs.
  m_unfold. simpl. pose proof (connect_keeps (ua_node_url args) c) as Hk.
  destruct (connect (ua_node_url args) c) as [[[]|e] c1]; simpl in *; [|by left].
  unfold sign_endpoints. destruct (clock w) as [now|e]; simpl; [|by left].
  destruct (from_string (ua_signer args)) as [alice|]; simpl; [|by left].
  set (p := MkEndpoints _ _ _). set (s := pair_sign _ _ _ _).
  destruct (update_worker_endpoints_calls (scale_encode p) s (PairSigner_new into_account alice) c1) as [Hany Hok].
  destruct (update_worker_endpoints _ _ _ _ _ _ c1) as [[[]|e] c2]; simpl in *; rewrite Hk in *.
  - eexists _, p, s, _. split; [by apply Hok|]. unfold encode_call_data_to. simpl. rewrite Hp, Hc. simpl. split; [done|].
    unfold decode_call. rewrite payload_prefix. simpl. rewrite vec_roundtrip. split_and!; try done. apply verify_sign.
  - destruct Hany; eauto.
Qed.
End Endpoint.

(** ** An example *)
Module ToyPherry.
Import ToyApp.
(** A node that keeps the calls submitted to it. *)
#[export] Instance node : Node EncodedPayload (list EncodedPayload) := {
  SignedTx := EncodedPayload;
  node_latest_block := mret ([], 1);
  node_account_nonce := mret 7;
  node_validate _ := mret tt;
  node_finalized_ref := mret [];
  node_header _ := mret (Some (1, []));
  node_sign tx _ _ := mret tx;
  node_submit tx c := (Ok tt, c ++ [tx]);
  node_wait_finalized _ := mret tt
}.
Definition create (tx : EncodedPayload) (s : PairSigner) (p : Params) : M (list EncodedPayload) anyhow SignedTx := mret tx.
Definition wait (tx : SignedTx) : M (list EncodedPayload) anyhow bytes := mret [].
Definition connect (url : bytes) : M (list EncodedPayload) anyhow unit := mret tt.
#[export] Instance tx_node : TxNode create wait connect.
Proof. refine {| submitted := fun c => c; call_of := fun x => x |}; try done. by intros tx s p c x c' [= <- <-]. Defined.
Fixpoint dec_many (n : nat) (b : bytes) : option (list bytes * bytes) :=
  match n with
  | O => Some ([], b)
  | S n => '(x, b) ← dec_bytes b; '(l, b) ← dec_many n b; Some (x :: l, b)
  end.
Definition dec_payload (b : bytes) : option (WorkerEndpointPayload * bytes) :=
  '(k, b) ← dec_bytes b;
  match b with
  | n :: b => '(l, b) ← dec_many (Z.to_nat n) b;
              match b with t :: b => Some (MkEndpoints k (EndpointsV1 l) t, b) | [] => None end
  | [] => None
  end.
#[export] Instance payload_codec : ScaleCodec WorkerEndpointPayload := {|
  scale_encode p := match versioned_endpoints p with
                    | EndpointsV1 l => enc_bytes (ep_pubkey p) ++ zlen l :: (l ≫= enc_bytes) ++ [signing_time p]
                    end;
  scale_decode b := fst <$> dec_payload b
|}.
Lemma dec_many_enc l r : dec_many (length l) ((l ≫= enc_bytes) ++ r) = Some (l, r).
Proof.
  induction l as [|x l IH]; [done|]. cbn [length dec_many]. rewrite bind_cons, <- app_assoc, dec_bytes_enc. cbn [mbind option_bind].
  by rewrite IH.
Qed.
Lemma payload_prefix p rest : dec_payload (scale_encode p ++ rest) = Some (p, rest).
Proof.
  destruct p as [k [l] t]. cbn [scale_encode payload_codec versioned_endpoints ep_pubkey signing_time]. unfold dec_payload.
  rewrite <- app_assoc, dec_bytes_enc. cbn [mbind option_bind app]. unfold zlen. rewrite Nat2Z.id, <- app_assoc, dec_many_enc. done.
Qed.
Definition md : Metadata := MkMetadata (fun _ => Some 85) (fun _ _ => Some 9).
Definition args : UpdateEndpointArgs := MkEndpointArgs [] [] [] (lit "https://w") (lit "//Ferdie").
End ToyPherry.
Import ToyApp ToyPherry.
Lemma endpoint_update_verifies_witness :
  let r := update_endpoint enc_bytes (fun a => a) ToyPherry.create ToyPherry.wait ToyPherry.connect (fun s => Some s)
             (worker_signs [7] (fun _ : unit => Ok 5)) ToyPherry.args (tt, []) in
  is_ok r.1 = true /\
  exists tx p s data, r.2.2 = [tx] /\ encode_call_data_to ToyPherry.md tx [] = Ok (85 :: 9 :: data) /\
    decode_call dec_payload (fun b => fst <$> dec_bytes b) data = Some (p, s) /\
    versioned_endpoints p = EndpointsV1 [lit "https://w"] /\ ep_pubkey p = [7] /\
    verify_message sr25519_verify EndpointInfo (scale_encode p) s (ep_pubkey p) = true.
Proof.
  intros r. split; [reflexivity|].
  refine (endpoint_update_verifies [7] enc_bytes (fun a => a) ToyPherry.create ToyPherry.wait ToyPherry.connect (fun s => Some s)
    (fun _ : unit => Ok 5) dec_payload (fun b => fst <$> dec_bytes b) ToyPherry.payload_prefix _ ToyPherry.md 85 9
    ToyPherry.args tt [] eq_refl eq_refl).
  intros b. rewrite <- (app_nil_r (enc_bytes b)), dec_bytes_enc. reflexivity.
Defined.
